(** * Arena Blasters: the simulation kernel of [game_env.py]

    A shallow embedding of the combat kernel (weapon pickups, projectiles,
    beams, agents and the per-tick orchestration) together with the
    properties of its combat rules.

    Conventions of the embedding.
    - Python floats are modelled by exact rationals ([Q]); Python ints by [Z].
    - Objects that the source compares by identity are named by their index
      in the list that owns them: an agent is its position in
      [Game.players], so a projectile's [owner] and a beam's [hit_once] hold
      indices.
    - The transcendental functions of [math] and the draws of [random] are
      parameters of the development ([Libm], [Rng]); every theorem holds for
      all of them.
    - Particles are cosmetic (nothing in the kernel reads them) and are left
      out, together with rendering and the device polling of [get_inputs]. *)

From Stdlib Require Import ZArith QArith Qround Lia Lqa Bool.
From stdpp Require Import base list gmap strings.

Local Open Scope Q_scope.

(** ** Numbers *)

(** A float is modelled by the rational it stands for, kept in lowest
    terms: the four operations below return the reduced fraction of the
    exact result, and from here on [+], [-], [*] and [/] denote them. *)
Definition Radd (a b : Q) : Q := Qred (Qplus a b).
Definition Rsub (a b : Q) : Q := Qred (Qminus a b).
Definition Rmul (a b : Q) : Q := Qred (Qmult a b).
Definition Rdiv (a b : Q) : Q := Qred (Qdiv a b).

Infix "+" := Radd : Q_scope.
Infix "-" := Rsub : Q_scope.
Infix "*" := Rmul : Q_scope.
Infix "/" := Rdiv : Q_scope.

Definition Qltb (a b : Q) : bool := negb (Qle_bool b a).

(** [max(a, b)] and [min(a, b)] of Python: the first argument wins a tie. *)
Definition pymax (a b : Q) : Q := if Qltb a b then b else a.
Definition pymin (a b : Q) : Q := if Qltb b a then b else a.

Definition clamp (v lo hi : Q) : Q :=
  if Qltb v lo then lo else if Qltb hi v then hi else v.

Definition lerp (a b t : Q) : Q := a + (b - a) * t.

Definition Qabs' (a : Q) : Q := if Qltb a 0 then - a else a.

(** The functions of [math] that the kernel calls.  [hypot], [cos], [sin]
    and [atan2] are irrational-valued, so they stay abstract. *)
Class Libm : Type := {
  cos : Q -> Q;
  sin : Q -> Q;
  atan2 : Q -> Q -> Q;
  hypot : Q -> Q -> Q;
  radians : Q -> Q
}.

(** [math.copysign(m, v)] for a positive magnitude [m]. *)
Definition copysign (m v : Q) : Q := if Qltb v 0 then - m else m.

(** The global generator of [random]: a stream of draws from [0, 1) and a
    cursor into it. *)
Record Rng : Type := { draws : nat -> Q; cursor : nat }.

Definition random (r : Rng) : Q * Rng :=
  (draws r (cursor r), {| draws := draws r; cursor := S (cursor r) |}).

(** [random.uniform(a, b)] is [a + (b - a) * random()]. *)
Definition uniform (a b : Q) (r : Rng) : Q * Rng :=
  let '(u, r') := random r in (a + (b - a) * u, r').

(** [random.randint(a, b)]: an integer of [a .. b]. *)
Definition randint (a b : Z) (r : Rng) : Z * Rng :=
  let '(u, r') := random r in
  ((a + (Qfloor (u * inject_Z (b - a + 1)) mod (b - a + 1)))%Z, r').

(** [random.choice(l)]; [None] stands for the [IndexError] on an empty list. *)
Definition choice {A : Type} (l : list A) (r : Rng) : option A * Rng :=
  let '(u, r') := random r in
  (l !! Z.to_nat (Qfloor (u * inject_Z (Z.of_nat (length l))) mod Z.of_nat (length l)), r').

(** ** Physics constants *)

Definition WORLD_W : Q := 2400.
Definition WORLD_H : Q := 1400.
Definition GRAVITY : Q := 2200.
Definition MAX_FALL : Q := 2400.
Definition TILE_SOLID : Z := 0.
Definition TILE_THIN : Z := 1.

Module Rect.
Record t : Type := mk { x : Q; y : Q; w : Q; h : Q }.

Definition left (s : t) : Q := x s.
Definition right (s : t) : Q := x s + w s.
Definition top (s : t) : Q := y s.
Definition bottom (s : t) : Q := y s + h s.

Definition intersects (s other : t) : bool :=
  negb (Qle_bool (right s) (left other) || Qle_bool (right other) (left s)
        || Qle_bool (bottom s) (top other) || Qle_bool (bottom other) (top s)).
End Rect.

(** [seg_point_dist]: distance from the point [(px, py)] to the segment
    [(ax, ay) - (bx, by)]. *)
Definition seg_point_dist `{Libm} (ax ay bx by_ px py : Q) : Q :=
  let abx := bx - ax in let aby := by_ - ay in
  let apx := px - ax in let apy := py - ay in
  let ab2 := abx * abx + aby * aby + 1e-6 in
  let t := clamp ((apx * abx + apy * aby) / ab2) 0 1 in
  let cx := ax + abx * t in let cy := ay + aby * t in
  hypot (px - cx) (py - cy).

(** ** Weapons *)

Module GunDef.
(** The [color] of a definition is rendering data and is left out. *)
Record t : Type := mk {
  name : string;
  dmg : Z;
  cooldown : Q;
  speed : Q;
  recoil : Q;
  ammo : Z;
  special : string;
  pellet : Z;
  spread_deg : Q
}.
End GunDef.

Definition Pistol : GunDef.t := GunDef.mk "Pistol" 18 0.25 1000 0 18 "" 1 0.
Definition SMG : GunDef.t := GunDef.mk "SMG" 9 0.09 950 0 32 "burst3" 1 5.
Definition Shotgun : GunDef.t := GunDef.mk "Shotgun" 24 0.55 820 0 16 "spread" 7 10.
Definition Rifle : GunDef.t := GunDef.mk "Rifle" 22 0.22 1150 0 28 "" 1 0.
Definition Sniper : GunDef.t := GunDef.mk "Sniper" 50 0.85 1700 0 6 "sniper" 1 0.
Definition Rocket : GunDef.t := GunDef.mk "Rocket" 55 0.95 720 0 7 "rocket" 1 0.
Definition Laser : GunDef.t := GunDef.mk "Laser" 70 0.95 0 0 3 "beam" 1 0.

Definition GUNS : list GunDef.t := [Pistol; SMG; Shotgun; Rifle; Sniper; Rocket; Laser].

Module GunEntity.
(** Pickup or throwable gun instance with ammo.  [owner] is the index of the
    agent that holds or threw it. *)
Record t : Type := mk {
  gdef : GunDef.t;
  x : Q;
  y : Q;
  vx : Q;
  vy : Q;
  state : string;
  owner : option nat;
  radius : Q;
  ammo : Z;
  spawned_pickup : bool
}.

Definition set_gdef (v : GunDef.t) (s : t) : t :=
  {| gdef := v; x := x s; y := y s; vx := vx s; vy := vy s; state := state s; owner := owner s;
     radius := radius s; ammo := ammo s; spawned_pickup := spawned_pickup s |}.
Definition set_x (v : Q) (s : t) : t :=
  {| gdef := gdef s; x := v; y := y s; vx := vx s; vy := vy s; state := state s;
     owner := owner s; radius := radius s; ammo := ammo s;
     spawned_pickup := spawned_pickup s |}.
Definition set_y (v : Q) (s : t) : t :=
  {| gdef := gdef s; x := x s; y := v; vx := vx s; vy := vy s; state := state s;
     owner := owner s; radius := radius s; ammo := ammo s;
     spawned_pickup := spawned_pickup s |}.
Definition set_vx (v : Q) (s : t) : t :=
  {| gdef := gdef s; x := x s; y := y s; vx := v; vy := vy s; state := state s;
     owner := owner s; radius := radius s; ammo := ammo s;
     spawned_pickup := spawned_pickup s |}.
Definition set_vy (v : Q) (s : t) : t :=
  {| gdef := gdef s; x := x s; y := y s; vx := vx s; vy := v; state := state s;
     owner := owner s; radius := radius s; ammo := ammo s;
     spawned_pickup := spawned_pickup s |}.
Definition set_state (v : string) (s : t) : t :=
  {| gdef := gdef s; x := x s; y := y s; vx := vx s; vy := vy s; state := v; owner := owner s;
     radius := radius s; ammo := ammo s; spawned_pickup := spawned_pickup s |}.
Definition set_owner (v : option nat) (s : t) : t :=
  {| gdef := gdef s; x := x s; y := y s; vx := vx s; vy := vy s; state := state s; owner := v;
     radius := radius s; ammo := ammo s; spawned_pickup := spawned_pickup s |}.
Definition set_radius (v : Q) (s : t) : t :=
  {| gdef := gdef s; x := x s; y := y s; vx := vx s; vy := vy s; state := state s;
     owner := owner s; radius := v; ammo := ammo s; spawned_pickup := spawned_pickup s |}.
Definition set_ammo (v : Z) (s : t) : t :=
  {| gdef := gdef s; x := x s; y := y s; vx := vx s; vy := vy s; state := state s;
     owner := owner s; radius := radius s; ammo := v; spawned_pickup := spawned_pickup s |}.
Definition set_spawned_pickup (v : bool) (s : t) : t :=
  {| gdef := gdef s; x := x s; y := y s; vx := vx s; vy := vy s; state := state s;
     owner := owner s; radius := radius s; ammo := ammo s; spawned_pickup := v |}.
Definition aabb (s : t) : Rect.t :=
  Rect.mk (x s - radius s) (y s - radius s) (radius s * 2) (radius s * 2).

(** [GunEntity.__init__]: [ammo_override] is [None] for a full magazine. *)
Definition init (g : GunDef.t) (pos : Q * Q) (ammo_override : option Z) (spawned : bool) : t :=
  {| gdef := g; x := fst pos; y := snd pos; vx := 0; vy := 0; state := "ground";
     owner := None; radius := 16;
     ammo := match ammo_override with None => GunDef.ammo g | Some a => a end;
     spawned_pickup := spawned |}.

Definition toss (who : nat) (dir_vec : Q * Q) (power : Q) (s : t) : t :=
  set_vy (snd dir_vec * power) (set_vx (fst dir_vec * power)
    (set_state "tossed" (set_owner (Some who) s))).
End GunEntity.

Module Player.
(** An agent.  [name], [color], [is_bot] and the back reference [game] play
    no part in the kernel and are left out.  [hits_taken] is a ghost field
    with no counterpart in the source: it counts the calls of [damage] that
    took effect on this agent, and nothing reads it. *)
Record t : Type := mk {
  x : Q;
  y : Q;
  w : Q;
  h : Q;
  vx : Q;
  vy : Q;
  on_ground : bool;
  drop_through_timer : Q;
  coyote : Q;
  jump_buf : Q;
  face : Z;
  hp : Z;
  alive : bool;
  kos : Z;
  deaths : Z;
  holding : option GunEntity.t;
  attack_cool : Q;
  invuln : Q;
  hitlag : Q;
  last_aim : Q * Q;
  dash_cd : Q;
  dash_time : Q;
  dashing : bool;
  max_air_jumps : Z;
  air_jumps : Z;
  tp_cd : Q;
  hits_taken : nat
}.

Definition set_x (v : Q) (s : t) : t :=
  {| x := v; y := y s; w := w s; h := h s; vx := vx s; vy := vy s; on_ground := on_ground s;
     drop_through_timer := drop_through_timer s; coyote := coyote s; jump_buf := jump_buf s;
     face := face s; hp := hp s; alive := alive s; kos := kos s; deaths := deaths s;
     holding := holding s; attack_cool := attack_cool s; invuln := invuln s;
     hitlag := hitlag s; last_aim := last_aim s; dash_cd := dash_cd s;
     dash_time := dash_time s; dashing := dashing s; max_air_jumps := max_air_jumps s;
     air_jumps := air_jumps s; tp_cd := tp_cd s; hits_taken := hits_taken s |}.
Definition set_y (v : Q) (s : t) : t :=
  {| x := x s; y := v; w := w s; h := h s; vx := vx s; vy := vy s; on_ground := on_ground s;
     drop_through_timer := drop_through_timer s; coyote := coyote s; jump_buf := jump_buf s;
     face := face s; hp := hp s; alive := alive s; kos := kos s; deaths := deaths s;
     holding := holding s; attack_cool := attack_cool s; invuln := invuln s;
     hitlag := hitlag s; last_aim := last_aim s; dash_cd := dash_cd s;
     dash_time := dash_time s; dashing := dashing s; max_air_jumps := max_air_jumps s;
     air_jumps := air_jumps s; tp_cd := tp_cd s; hits_taken := hits_taken s |}.
Definition set_w (v : Q) (s : t) : t :=
  {| x := x s; y := y s; w := v; h := h s; vx := vx s; vy := vy s; on_ground := on_ground s;
     drop_through_timer := drop_through_timer s; coyote := coyote s; jump_buf := jump_buf s;
     face := face s; hp := hp s; alive := alive s; kos := kos s; deaths := deaths s;
     holding := holding s; attack_cool := attack_cool s; invuln := invuln s;
     hitlag := hitlag s; last_aim := last_aim s; dash_cd := dash_cd s;
     dash_time := dash_time s; dashing := dashing s; max_air_jumps := max_air_jumps s;
     air_jumps := air_jumps s; tp_cd := tp_cd s; hits_taken := hits_taken s |}.
Definition set_h (v : Q) (s : t) : t :=
  {| x := x s; y := y s; w := w s; h := v; vx := vx s; vy := vy s; on_ground := on_ground s;
     drop_through_timer := drop_through_timer s; coyote := coyote s; jump_buf := jump_buf s;
     face := face s; hp := hp s; alive := alive s; kos := kos s; deaths := deaths s;
     holding := holding s; attack_cool := attack_cool s; invuln := invuln s;
     hitlag := hitlag s; last_aim := last_aim s; dash_cd := dash_cd s;
     dash_time := dash_time s; dashing := dashing s; max_air_jumps := max_air_jumps s;
     air_jumps := air_jumps s; tp_cd := tp_cd s; hits_taken := hits_taken s |}.
Definition set_vx (v : Q) (s : t) : t :=
  {| x := x s; y := y s; w := w s; h := h s; vx := v; vy := vy s; on_ground := on_ground s;
     drop_through_timer := drop_through_timer s; coyote := coyote s; jump_buf := jump_buf s;
     face := face s; hp := hp s; alive := alive s; kos := kos s; deaths := deaths s;
     holding := holding s; attack_cool := attack_cool s; invuln := invuln s;
     hitlag := hitlag s; last_aim := last_aim s; dash_cd := dash_cd s;
     dash_time := dash_time s; dashing := dashing s; max_air_jumps := max_air_jumps s;
     air_jumps := air_jumps s; tp_cd := tp_cd s; hits_taken := hits_taken s |}.
Definition set_vy (v : Q) (s : t) : t :=
  {| x := x s; y := y s; w := w s; h := h s; vx := vx s; vy := v; on_ground := on_ground s;
     drop_through_timer := drop_through_timer s; coyote := coyote s; jump_buf := jump_buf s;
     face := face s; hp := hp s; alive := alive s; kos := kos s; deaths := deaths s;
     holding := holding s; attack_cool := attack_cool s; invuln := invuln s;
     hitlag := hitlag s; last_aim := last_aim s; dash_cd := dash_cd s;
     dash_time := dash_time s; dashing := dashing s; max_air_jumps := max_air_jumps s;
     air_jumps := air_jumps s; tp_cd := tp_cd s; hits_taken := hits_taken s |}.
Definition set_on_ground (v : bool) (s : t) : t :=
  {| x := x s; y := y s; w := w s; h := h s; vx := vx s; vy := vy s; on_ground := v;
     drop_through_timer := drop_through_timer s; coyote := coyote s; jump_buf := jump_buf s;
     face := face s; hp := hp s; alive := alive s; kos := kos s; deaths := deaths s;
     holding := holding s; attack_cool := attack_cool s; invuln := invuln s;
     hitlag := hitlag s; last_aim := last_aim s; dash_cd := dash_cd s;
     dash_time := dash_time s; dashing := dashing s; max_air_jumps := max_air_jumps s;
     air_jumps := air_jumps s; tp_cd := tp_cd s; hits_taken := hits_taken s |}.
Definition set_drop_through_timer (v : Q) (s : t) : t :=
  {| x := x s; y := y s; w := w s; h := h s; vx := vx s; vy := vy s; on_ground := on_ground s;
     drop_through_timer := v; coyote := coyote s; jump_buf := jump_buf s; face := face s;
     hp := hp s; alive := alive s; kos := kos s; deaths := deaths s; holding := holding s;
     attack_cool := attack_cool s; invuln := invuln s; hitlag := hitlag s;
     last_aim := last_aim s; dash_cd := dash_cd s; dash_time := dash_time s;
     dashing := dashing s; max_air_jumps := max_air_jumps s; air_jumps := air_jumps s;
     tp_cd := tp_cd s; hits_taken := hits_taken s |}.
Definition set_coyote (v : Q) (s : t) : t :=
  {| x := x s; y := y s; w := w s; h := h s; vx := vx s; vy := vy s; on_ground := on_ground s;
     drop_through_timer := drop_through_timer s; coyote := v; jump_buf := jump_buf s;
     face := face s; hp := hp s; alive := alive s; kos := kos s; deaths := deaths s;
     holding := holding s; attack_cool := attack_cool s; invuln := invuln s;
     hitlag := hitlag s; last_aim := last_aim s; dash_cd := dash_cd s;
     dash_time := dash_time s; dashing := dashing s; max_air_jumps := max_air_jumps s;
     air_jumps := air_jumps s; tp_cd := tp_cd s; hits_taken := hits_taken s |}.
Definition set_jump_buf (v : Q) (s : t) : t :=
  {| x := x s; y := y s; w := w s; h := h s; vx := vx s; vy := vy s; on_ground := on_ground s;
     drop_through_timer := drop_through_timer s; coyote := coyote s; jump_buf := v;
     face := face s; hp := hp s; alive := alive s; kos := kos s; deaths := deaths s;
     holding := holding s; attack_cool := attack_cool s; invuln := invuln s;
     hitlag := hitlag s; last_aim := last_aim s; dash_cd := dash_cd s;
     dash_time := dash_time s; dashing := dashing s; max_air_jumps := max_air_jumps s;
     air_jumps := air_jumps s; tp_cd := tp_cd s; hits_taken := hits_taken s |}.
Definition set_face (v : Z) (s : t) : t :=
  {| x := x s; y := y s; w := w s; h := h s; vx := vx s; vy := vy s; on_ground := on_ground s;
     drop_through_timer := drop_through_timer s; coyote := coyote s; jump_buf := jump_buf s;
     face := v; hp := hp s; alive := alive s; kos := kos s; deaths := deaths s;
     holding := holding s; attack_cool := attack_cool s; invuln := invuln s;
     hitlag := hitlag s; last_aim := last_aim s; dash_cd := dash_cd s;
     dash_time := dash_time s; dashing := dashing s; max_air_jumps := max_air_jumps s;
     air_jumps := air_jumps s; tp_cd := tp_cd s; hits_taken := hits_taken s |}.
Definition set_hp (v : Z) (s : t) : t :=
  {| x := x s; y := y s; w := w s; h := h s; vx := vx s; vy := vy s; on_ground := on_ground s;
     drop_through_timer := drop_through_timer s; coyote := coyote s; jump_buf := jump_buf s;
     face := face s; hp := v; alive := alive s; kos := kos s; deaths := deaths s;
     holding := holding s; attack_cool := attack_cool s; invuln := invuln s;
     hitlag := hitlag s; last_aim := last_aim s; dash_cd := dash_cd s;
     dash_time := dash_time s; dashing := dashing s; max_air_jumps := max_air_jumps s;
     air_jumps := air_jumps s; tp_cd := tp_cd s; hits_taken := hits_taken s |}.
Definition set_alive (v : bool) (s : t) : t :=
  {| x := x s; y := y s; w := w s; h := h s; vx := vx s; vy := vy s; on_ground := on_ground s;
     drop_through_timer := drop_through_timer s; coyote := coyote s; jump_buf := jump_buf s;
     face := face s; hp := hp s; alive := v; kos := kos s; deaths := deaths s;
     holding := holding s; attack_cool := attack_cool s; invuln := invuln s;
     hitlag := hitlag s; last_aim := last_aim s; dash_cd := dash_cd s;
     dash_time := dash_time s; dashing := dashing s; max_air_jumps := max_air_jumps s;
     air_jumps := air_jumps s; tp_cd := tp_cd s; hits_taken := hits_taken s |}.
Definition set_kos (v : Z) (s : t) : t :=
  {| x := x s; y := y s; w := w s; h := h s; vx := vx s; vy := vy s; on_ground := on_ground s;
     drop_through_timer := drop_through_timer s; coyote := coyote s; jump_buf := jump_buf s;
     face := face s; hp := hp s; alive := alive s; kos := v; deaths := deaths s;
     holding := holding s; attack_cool := attack_cool s; invuln := invuln s;
     hitlag := hitlag s; last_aim := last_aim s; dash_cd := dash_cd s;
     dash_time := dash_time s; dashing := dashing s; max_air_jumps := max_air_jumps s;
     air_jumps := air_jumps s; tp_cd := tp_cd s; hits_taken := hits_taken s |}.
Definition set_deaths (v : Z) (s : t) : t :=
  {| x := x s; y := y s; w := w s; h := h s; vx := vx s; vy := vy s; on_ground := on_ground s;
     drop_through_timer := drop_through_timer s; coyote := coyote s; jump_buf := jump_buf s;
     face := face s; hp := hp s; alive := alive s; kos := kos s; deaths := v;
     holding := holding s; attack_cool := attack_cool s; invuln := invuln s;
     hitlag := hitlag s; last_aim := last_aim s; dash_cd := dash_cd s;
     dash_time := dash_time s; dashing := dashing s; max_air_jumps := max_air_jumps s;
     air_jumps := air_jumps s; tp_cd := tp_cd s; hits_taken := hits_taken s |}.
Definition set_holding (v : option GunEntity.t) (s : t) : t :=
  {| x := x s; y := y s; w := w s; h := h s; vx := vx s; vy := vy s; on_ground := on_ground s;
     drop_through_timer := drop_through_timer s; coyote := coyote s; jump_buf := jump_buf s;
     face := face s; hp := hp s; alive := alive s; kos := kos s; deaths := deaths s;
     holding := v; attack_cool := attack_cool s; invuln := invuln s; hitlag := hitlag s;
     last_aim := last_aim s; dash_cd := dash_cd s; dash_time := dash_time s;
     dashing := dashing s; max_air_jumps := max_air_jumps s; air_jumps := air_jumps s;
     tp_cd := tp_cd s; hits_taken := hits_taken s |}.
Definition set_attack_cool (v : Q) (s : t) : t :=
  {| x := x s; y := y s; w := w s; h := h s; vx := vx s; vy := vy s; on_ground := on_ground s;
     drop_through_timer := drop_through_timer s; coyote := coyote s; jump_buf := jump_buf s;
     face := face s; hp := hp s; alive := alive s; kos := kos s; deaths := deaths s;
     holding := holding s; attack_cool := v; invuln := invuln s; hitlag := hitlag s;
     last_aim := last_aim s; dash_cd := dash_cd s; dash_time := dash_time s;
     dashing := dashing s; max_air_jumps := max_air_jumps s; air_jumps := air_jumps s;
     tp_cd := tp_cd s; hits_taken := hits_taken s |}.
Definition set_invuln (v : Q) (s : t) : t :=
  {| x := x s; y := y s; w := w s; h := h s; vx := vx s; vy := vy s; on_ground := on_ground s;
     drop_through_timer := drop_through_timer s; coyote := coyote s; jump_buf := jump_buf s;
     face := face s; hp := hp s; alive := alive s; kos := kos s; deaths := deaths s;
     holding := holding s; attack_cool := attack_cool s; invuln := v; hitlag := hitlag s;
     last_aim := last_aim s; dash_cd := dash_cd s; dash_time := dash_time s;
     dashing := dashing s; max_air_jumps := max_air_jumps s; air_jumps := air_jumps s;
     tp_cd := tp_cd s; hits_taken := hits_taken s |}.
Definition set_hitlag (v : Q) (s : t) : t :=
  {| x := x s; y := y s; w := w s; h := h s; vx := vx s; vy := vy s; on_ground := on_ground s;
     drop_through_timer := drop_through_timer s; coyote := coyote s; jump_buf := jump_buf s;
     face := face s; hp := hp s; alive := alive s; kos := kos s; deaths := deaths s;
     holding := holding s; attack_cool := attack_cool s; invuln := invuln s; hitlag := v;
     last_aim := last_aim s; dash_cd := dash_cd s; dash_time := dash_time s;
     dashing := dashing s; max_air_jumps := max_air_jumps s; air_jumps := air_jumps s;
     tp_cd := tp_cd s; hits_taken := hits_taken s |}.
Definition set_last_aim (v : Q * Q) (s : t) : t :=
  {| x := x s; y := y s; w := w s; h := h s; vx := vx s; vy := vy s; on_ground := on_ground s;
     drop_through_timer := drop_through_timer s; coyote := coyote s; jump_buf := jump_buf s;
     face := face s; hp := hp s; alive := alive s; kos := kos s; deaths := deaths s;
     holding := holding s; attack_cool := attack_cool s; invuln := invuln s;
     hitlag := hitlag s; last_aim := v; dash_cd := dash_cd s; dash_time := dash_time s;
     dashing := dashing s; max_air_jumps := max_air_jumps s; air_jumps := air_jumps s;
     tp_cd := tp_cd s; hits_taken := hits_taken s |}.
Definition set_dash_cd (v : Q) (s : t) : t :=
  {| x := x s; y := y s; w := w s; h := h s; vx := vx s; vy := vy s; on_ground := on_ground s;
     drop_through_timer := drop_through_timer s; coyote := coyote s; jump_buf := jump_buf s;
     face := face s; hp := hp s; alive := alive s; kos := kos s; deaths := deaths s;
     holding := holding s; attack_cool := attack_cool s; invuln := invuln s;
     hitlag := hitlag s; last_aim := last_aim s; dash_cd := v; dash_time := dash_time s;
     dashing := dashing s; max_air_jumps := max_air_jumps s; air_jumps := air_jumps s;
     tp_cd := tp_cd s; hits_taken := hits_taken s |}.
Definition set_dash_time (v : Q) (s : t) : t :=
  {| x := x s; y := y s; w := w s; h := h s; vx := vx s; vy := vy s; on_ground := on_ground s;
     drop_through_timer := drop_through_timer s; coyote := coyote s; jump_buf := jump_buf s;
     face := face s; hp := hp s; alive := alive s; kos := kos s; deaths := deaths s;
     holding := holding s; attack_cool := attack_cool s; invuln := invuln s;
     hitlag := hitlag s; last_aim := last_aim s; dash_cd := dash_cd s; dash_time := v;
     dashing := dashing s; max_air_jumps := max_air_jumps s; air_jumps := air_jumps s;
     tp_cd := tp_cd s; hits_taken := hits_taken s |}.
Definition set_dashing (v : bool) (s : t) : t :=
  {| x := x s; y := y s; w := w s; h := h s; vx := vx s; vy := vy s; on_ground := on_ground s;
     drop_through_timer := drop_through_timer s; coyote := coyote s; jump_buf := jump_buf s;
     face := face s; hp := hp s; alive := alive s; kos := kos s; deaths := deaths s;
     holding := holding s; attack_cool := attack_cool s; invuln := invuln s;
     hitlag := hitlag s; last_aim := last_aim s; dash_cd := dash_cd s;
     dash_time := dash_time s; dashing := v; max_air_jumps := max_air_jumps s;
     air_jumps := air_jumps s; tp_cd := tp_cd s; hits_taken := hits_taken s |}.
Definition set_max_air_jumps (v : Z) (s : t) : t :=
  {| x := x s; y := y s; w := w s; h := h s; vx := vx s; vy := vy s; on_ground := on_ground s;
     drop_through_timer := drop_through_timer s; coyote := coyote s; jump_buf := jump_buf s;
     face := face s; hp := hp s; alive := alive s; kos := kos s; deaths := deaths s;
     holding := holding s; attack_cool := attack_cool s; invuln := invuln s;
     hitlag := hitlag s; last_aim := last_aim s; dash_cd := dash_cd s;
     dash_time := dash_time s; dashing := dashing s; max_air_jumps := v;
     air_jumps := air_jumps s; tp_cd := tp_cd s; hits_taken := hits_taken s |}.
Definition set_air_jumps (v : Z) (s : t) : t :=
  {| x := x s; y := y s; w := w s; h := h s; vx := vx s; vy := vy s; on_ground := on_ground s;
     drop_through_timer := drop_through_timer s; coyote := coyote s; jump_buf := jump_buf s;
     face := face s; hp := hp s; alive := alive s; kos := kos s; deaths := deaths s;
     holding := holding s; attack_cool := attack_cool s; invuln := invuln s;
     hitlag := hitlag s; last_aim := last_aim s; dash_cd := dash_cd s;
     dash_time := dash_time s; dashing := dashing s; max_air_jumps := max_air_jumps s;
     air_jumps := v; tp_cd := tp_cd s; hits_taken := hits_taken s |}.
Definition set_tp_cd (v : Q) (s : t) : t :=
  {| x := x s; y := y s; w := w s; h := h s; vx := vx s; vy := vy s; on_ground := on_ground s;
     drop_through_timer := drop_through_timer s; coyote := coyote s; jump_buf := jump_buf s;
     face := face s; hp := hp s; alive := alive s; kos := kos s; deaths := deaths s;
     holding := holding s; attack_cool := attack_cool s; invuln := invuln s;
     hitlag := hitlag s; last_aim := last_aim s; dash_cd := dash_cd s;
     dash_time := dash_time s; dashing := dashing s; max_air_jumps := max_air_jumps s;
     air_jumps := air_jumps s; tp_cd := v; hits_taken := hits_taken s |}.
Definition set_hits_taken (v : nat) (s : t) : t :=
  {| x := x s; y := y s; w := w s; h := h s; vx := vx s; vy := vy s; on_ground := on_ground s;
     drop_through_timer := drop_through_timer s; coyote := coyote s; jump_buf := jump_buf s;
     face := face s; hp := hp s; alive := alive s; kos := kos s; deaths := deaths s;
     holding := holding s; attack_cool := attack_cool s; invuln := invuln s;
     hitlag := hitlag s; last_aim := last_aim s; dash_cd := dash_cd s;
     dash_time := dash_time s; dashing := dashing s; max_air_jumps := max_air_jumps s;
     air_jumps := air_jumps s; tp_cd := tp_cd s; hits_taken := v |}.
Definition aabb (s : t) : Rect.t := Rect.mk (x s - w s / 2) (y s - h s) (w s) (h s).
Definition feet (s : t) : Q * Q := (x s, y s).

(** [Player.__init__]. *)
Definition init (px py : Q) : t :=
  {| x := px; y := py; w := 36; h := 54; vx := 0; vy := 0; on_ground := false;
     drop_through_timer := 0; coyote := 0; jump_buf := 0; face := 1;
     hp := 100; alive := true; kos := 0; deaths := 0; holding := None;
     attack_cool := 0; invuln := 0; hitlag := 0; last_aim := (px + 100, py);
     dash_cd := 0; dash_time := 0; dashing := false; max_air_jumps := 1;
     air_jumps := 1; tp_cd := 0; hits_taken := 0 |}.
End Player.

(** ** Weapon pickup entities *)

(** [GunEntity.update]: the entity after the step, and [false] if it should
    be removed (after a toss hits something or leaves the world). *)
Definition GunEntity_update (dt : Q) (level_rects : list (Rect.t * Z)) (s : GunEntity.t)
  : GunEntity.t * bool :=
  if bool_decide (GunEntity.state s = "ground") then (s, true)
  else
    let s := GunEntity.set_vy (GunEntity.vy s + GRAVITY * 0.9 * dt) s in
    let s := GunEntity.set_vx (GunEntity.vx s * 0.995) s in
    let s := GunEntity.set_vy (pymin (GunEntity.vy s) MAX_FALL) s in
    let s := GunEntity.set_x (GunEntity.x s + GunEntity.vx s * dt) s in
    let wr := GunEntity.aabb s in
    if existsb (fun rt : Rect.t * Z =>
                  Rect.intersects wr (fst rt)
                  && ((snd rt =? TILE_SOLID)%Z || (snd rt =? TILE_THIN)%Z)) level_rects
    then (s, false)
    else
      let s := GunEntity.set_y (GunEntity.y s + GunEntity.vy s * dt) s in
      let wr := GunEntity.aabb s in
      if existsb (fun rt : Rect.t * Z =>
                    let r := fst rt in
                    if (snd rt =? TILE_THIN)%Z then
                      Qle_bool 0 (GunEntity.vy s) && Qltb (Rect.top r) (Rect.bottom wr)
                      && Qle_bool (Rect.bottom wr - GunEntity.vy s * dt) (Rect.top r + 2)
                      && Qltb (Rect.left r) (Rect.right wr)
                      && Qltb (Rect.left wr) (Rect.right r)
                    else Rect.intersects wr r) level_rects
      then (s, false)
      else if Qltb (WORLD_H + 120) (GunEntity.y s) || Qltb (GunEntity.x s) (-200)
              || Qltb (WORLD_W + 200) (GunEntity.x s)
      then (s, false)
      else (s, true).

(** ** Combat: damage and respawn *)

(** The effect of a [Player.damage] call that gets past the invulnerability
    guard, on the agent itself. *)
Definition Player_hurt (amount : Z) (knock : Q * Q) (p : Player.t) : Player.t :=
  let p := Player.set_hp (Player.hp p - amount) p in
  let p := Player.set_vx (Player.vx p + fst knock) p in
  let p := Player.set_vy (Player.vy p + snd knock) p in
  let p := Player.set_invuln 0.35 p in
  let p := Player.set_hitlag 0.05 p in
  let p := Player.set_hits_taken (S (Player.hits_taken p)) p in
  if (Player.hp p <=? 0)%Z
  then Player.set_deaths (Player.deaths p + 1) (Player.set_alive false p)
  else p.

(** [Player.damage] with no attacker (the ring-out call): only [self] is
    touched. *)
Definition Player_damage_self (amount : Z) (knock : Q * Q) (p : Player.t) : Player.t :=
  if Qltb 0 (Player.invuln p) then p else Player_hurt amount knock p.

Definition add_ko (p : Player.t) : Player.t := Player.set_kos (Player.kos p + 1) p.

(** [Player.damage] on the agent list: [i] is [self], [attacker] the index
    of the attacking agent, if any.  A kill credits an attacker other than
    the victim. *)
Definition Player_damage (players : list Player.t) (i : nat) (amount : Z) (knock : Q * Q)
    (attacker : option nat) : list Player.t :=
  match players !! i with
  | None => players
  | Some p =>
      if Qltb 0 (Player.invuln p) then players
      else
        let p' := Player_hurt amount knock p in
        let players' := <[i := p']> players in
        if (Player.hp p' <=? 0)%Z then
          match attacker with
          | Some a => if bool_decide (a = i) then players' else alter add_ko a players'
          | None => players'
          end
        else players'
  end.

(** [Player.respawn]. *)
Definition Player_respawn (pos : Q * Q) (p : Player.t) : Player.t :=
  let p := Player.set_y (snd pos) (Player.set_x (fst pos) p) in
  let p := Player.set_vy 0 (Player.set_vx 0 p) in
  let p := Player.set_invuln 0.8 (Player.set_alive true (Player.set_hp 100 p)) in
  let p := Player.set_attack_cool 0 (Player.set_holding None p) in
  Player.set_tp_cd 0 (Player.set_air_jumps (Player.max_air_jumps p) p).
(** ** Projectiles and beams *)

Module Bullet.
(** A projectile.  [owner] is the index of the agent that fired it; [spd] is
    the field [_spd]. *)
Record t : Type := mk {
  x : Q;
  y : Q;
  vx : Q;
  vy : Q;
  dmg : Z;
  owner : nat;
  life : Q;
  age : Q;
  r : Q;
  explosive : bool;
  pierce_thin : bool;
  proximity : Q;
  seek : Q;
  spd : Q
}.

Definition set_x (v : Q) (s : t) : t :=
  {| x := v; y := y s; vx := vx s; vy := vy s; dmg := dmg s; owner := owner s; life := life s;
     age := age s; r := r s; explosive := explosive s; pierce_thin := pierce_thin s;
     proximity := proximity s; seek := seek s; spd := spd s |}.
Definition set_y (v : Q) (s : t) : t :=
  {| x := x s; y := v; vx := vx s; vy := vy s; dmg := dmg s; owner := owner s; life := life s;
     age := age s; r := r s; explosive := explosive s; pierce_thin := pierce_thin s;
     proximity := proximity s; seek := seek s; spd := spd s |}.
Definition set_vx (v : Q) (s : t) : t :=
  {| x := x s; y := y s; vx := v; vy := vy s; dmg := dmg s; owner := owner s; life := life s;
     age := age s; r := r s; explosive := explosive s; pierce_thin := pierce_thin s;
     proximity := proximity s; seek := seek s; spd := spd s |}.
Definition set_vy (v : Q) (s : t) : t :=
  {| x := x s; y := y s; vx := vx s; vy := v; dmg := dmg s; owner := owner s; life := life s;
     age := age s; r := r s; explosive := explosive s; pierce_thin := pierce_thin s;
     proximity := proximity s; seek := seek s; spd := spd s |}.
Definition set_age (v : Q) (s : t) : t :=
  {| x := x s; y := y s; vx := vx s; vy := vy s; dmg := dmg s; owner := owner s;
     life := life s; age := v; r := r s; explosive := explosive s;
     pierce_thin := pierce_thin s; proximity := proximity s; seek := seek s; spd := spd s |}.
Definition aabb (s : t) : Rect.t := Rect.mk (x s - r s) (y s - r s) (r s * 2) (r s * 2).
End Bullet.

Module Beam.
(** A laser beam.  [hit_once] holds the indices of the agents it has already
    damaged; [color] is rendering data and is left out. *)
Record t : Type := mk {
  owner : nat;
  sx : Q;
  sy : Q;
  ang : Q;
  warmup : Q;
  active_time : Q;
  width : Q;
  age : Q;
  hit_once : gset nat;
  ex : Q;
  ey : Q
}.

Definition set_age (v : Q) (s : t) : t :=
  {| owner := owner s; sx := sx s; sy := sy s; ang := ang s; warmup := warmup s;
     active_time := active_time s; width := width s; age := v; hit_once := hit_once s;
     ex := ex s; ey := ey s |}.
Definition set_hit_once (v : gset nat) (s : t) : t :=
  {| owner := owner s; sx := sx s; sy := sy s; ang := ang s; warmup := warmup s;
     active_time := active_time s; width := width s; age := age s; hit_once := v; ex := ex s;
     ey := ey s |}.
(** The property [Beam.active]. *)
Definition active (s : t) : bool :=
  Qle_bool (warmup s) (age s) && Qltb (age s) (warmup s + active_time s).
End Beam.

(** The agents of a list with their identities. *)
Definition indexed {A : Type} (l : list A) : list (nat * A) := imap pair l.

(** Centre of an agent's body, the point that homing, proximity, splash and
    beams measure to. *)
Definition centre (pl : Player.t) : Q * Q :=
  (Player.x pl, Player.y pl - Player.h pl * 0.5).

(** A living agent other than [who]: the filter
    [if not pl.alive or pl is self.owner: continue]. *)
Definition eligible (who : nat) (ipl : nat * Player.t) : bool :=
  Player.alive (snd ipl) && negb (fst ipl =? who)%nat.

(** [x or 1.0] *)
Definition or1 (v : Q) : Q := if Qeq_bool v 0 then 1 else v.

Section Projectiles.
Context `{Libm}.

(** [Bullet.__init__]. *)
Definition Bullet_init (x y vx vy : Q) (dmg : Z) (owner : nat) (life radius : Q)
    (explosive pierce_thin : bool) (proximity seek : Q) : Bullet.t :=
  {| Bullet.x := x; Bullet.y := y; Bullet.vx := vx; Bullet.vy := vy;
     Bullet.dmg := dmg; Bullet.owner := owner; Bullet.life := life; Bullet.age := 0;
     Bullet.r := radius; Bullet.explosive := explosive;
     Bullet.pierce_thin := pierce_thin; Bullet.proximity := proximity;
     Bullet.seek := seek; Bullet.spd := or1 (hypot vx vy) |}.

(** One iteration of the splash loop of [Bullet.explode] on agent [i]. *)
Definition splash_one (owner : nat) (cx cy : Q) (players : list Player.t) (i : nat)
  : list Player.t :=
  match players !! i with
  | None => players
  | Some pl =>
      if negb (Player.alive pl) then players
      else
        let dx := fst (centre pl) - cx in
        let dy := snd (centre pl) - cy in
        if Qltb (dx * dx + dy * dy) (180 * 180)
        then
          let kx := 240 * (if Qle_bool 0 dx then 1 else -1) in
          Player_damage players i 18 (kx, -160) (Some owner)
        else players
  end.

(** [Bullet.explode]: [center] is [None] for the projectile's own position. *)
Definition Bullet_explode (b : Bullet.t) (players : list Player.t) (center : option (Q * Q))
  : list Player.t :=
  if negb (Bullet.explosive b) then players
  else
    let '(cx, cy) := match center with None => (Bullet.x b, Bullet.y b) | Some c => c end in
    foldl (splash_one (Bullet.owner b) cx cy) players (seq 0 (length players)).

(** The homing step of a sniper round: the offset to the nearest living
    agent other than the owner, if there is one closer than [1e6]. *)
Definition seek_best (b : Bullet.t) (players : list Player.t) : option (Q * Q) :=
  fst (foldl (fun (acc : option (Q * Q) * Q) (ipl : nat * Player.t) =>
                if eligible (Bullet.owner b) ipl then
                  let dx := fst (centre (snd ipl)) - Bullet.x b in
                  let dy := snd (centre (snd ipl)) - Bullet.y b in
                  let d2 := dx * dx + dy * dy in
                  if Qltb d2 (snd acc) then (Some (dx, dy), d2) else acc
                else acc)
             (None, 1e12) (indexed players)).

Definition Bullet_seek (dt : Q) (players : list Player.t) (b : Bullet.t) : Bullet.t :=
  if Qltb 0 (Bullet.seek b) then
    match seek_best b players with
    | None => b
    | Some (bx, by_) =>
        let L := or1 (hypot bx by_) in
        let tx := bx / L in let ty := by_ / L in
        let ax := tx * Bullet.spd b in let ay := ty * Bullet.spd b in
        let k := clamp (Bullet.seek b * dt) 0 0.25 in
        let b := Bullet.set_vx (lerp (Bullet.vx b) ax k) b in
        let b := Bullet.set_vy (lerp (Bullet.vy b) ay k) b in
        let sp := or1 (hypot (Bullet.vx b) (Bullet.vy b)) in
        let b := Bullet.set_vx (Bullet.vx b * (Bullet.spd b / sp)) b in
        Bullet.set_vy (Bullet.vy b * (Bullet.spd b / sp)) b
    end
  else b.

Definition Bullet_move (dt : Q) (b : Bullet.t) : Bullet.t :=
  Bullet.set_y (Bullet.y b + Bullet.vy b * dt) (Bullet.set_x (Bullet.x b + Bullet.vx b * dt) b).

(** The test of the proximity loop: a living agent other than the owner
    whose centre is within the radius. *)
Definition in_proximity (b : Bullet.t) (ipl : nat * Player.t) : bool :=
  eligible (Bullet.owner b) ipl
  && (let dx := fst (centre (snd ipl)) - Bullet.x b in
      let dy := snd (centre (snd ipl)) - Bullet.y b in
      Qle_bool (dx * dx + dy * dy) (Bullet.proximity b * Bullet.proximity b)).

Definition proximity_trigger (b : Bullet.t) (players : list Player.t) : bool :=
  Bullet.explosive b && Qltb 0 (Bullet.proximity b)
  && existsb (in_proximity b) (indexed players).

(** The test of the level-collision loop for one rectangle. *)
Definition level_blocks (b : Bullet.t) (rt : Rect.t * Z) : bool :=
  let rect := Bullet.aabb b in
  let r := fst rt in
  if (snd rt =? TILE_THIN)%Z && Bullet.pierce_thin b then false
  else if (snd rt =? TILE_THIN)%Z then
    Qltb (Rect.top r) (Rect.bottom rect) && Qltb (Rect.top rect) (Rect.top r)
    && Qltb (Rect.left r) (Rect.right rect) && Qltb (Rect.left rect) (Rect.right r)
    && Qltb 0 (Bullet.vy b)
  else Rect.intersects rect r.

(** The test of the agent-collision loop. *)
Definition hits_agent (b : Bullet.t) (ipl : nat * Player.t) : bool :=
  eligible (Bullet.owner b) ipl && Rect.intersects (Bullet.aabb b) (Player.aabb (snd ipl)).

(** The opening of [Bullet.update]: age, homing and motion. *)
Definition Bullet_advance (dt : Q) (players : list Player.t) (b : Bullet.t) : Bullet.t :=
  let b := Bullet.set_age (Bullet.age b + dt) b in
  Bullet_move dt (Bullet_seek dt players b).

(** [Bullet.update]: the agents and the projectile after the step, and
    [false] if the projectile is to be removed. *)
Definition Bullet_update (dt : Q) (level_rects : list (Rect.t * Z)) (players : list Player.t)
    (b : Bullet.t) : list Player.t * Bullet.t * bool :=
  let b := Bullet_advance dt players b in
  if proximity_trigger b players then (Bullet_explode b players None, b, false)
  else if existsb (level_blocks b) level_rects then (Bullet_explode b players None, b, false)
  else
    match find (hits_agent b) (indexed players) with
    | Some (i, pl) =>
        let players := Player_damage players i (Bullet.dmg b)
                         (copysign 200 (Bullet.vx b), -120) (Some (Bullet.owner b)) in
        (Bullet_explode b players (Some (centre pl)), b, false)
    | None => (players, b, Qltb (Bullet.age b) (Bullet.life b))
    end.

End Projectiles.

Section Beams.
Context `{Libm}.

(** The ray march of [Beam.__init__]: [n] steps of length [step] from
    [(x, y)] along [(c, s)], stopping after the first step whose bounding
    box meets a solid rectangle. *)
Fixpoint beam_march (n : nat) (c s step : Q) (level_rects : list (Rect.t * Z)) (x y : Q)
  : Q * Q :=
  match n with
  | O => (x, y)
  | S n' =>
      let nx := x + c * step in
      let ny := y + s * step in
      let seg := Rect.mk (pymin x nx) (pymin y ny) (Qabs' (nx - x) + 1) (Qabs' (ny - y) + 1) in
      if existsb (fun rt : Rect.t * Z =>
                    (snd rt =? TILE_SOLID)%Z && Rect.intersects seg (fst rt)) level_rects
      then (nx, ny)
      else beam_march n' c s step level_rects nx ny
  end.

(** [Beam.__init__]. *)
Definition Beam_init (owner : nat) (start : Q * Q) (angle : Q)
    (level_rects : list (Rect.t * Z)) (warmup active width : Q) : Beam.t :=
  let max_len := WORLD_W * 0.9 in
  let step := 14 in
  let e := beam_march (Z.to_nat (Qfloor (max_len / step))) (cos angle) (sin angle) step
             level_rects (fst start) (snd start) in
  {| Beam.owner := owner; Beam.sx := fst start; Beam.sy := snd start; Beam.ang := angle;
     Beam.warmup := warmup; Beam.active_time := active; Beam.width := width;
     Beam.age := 0; Beam.hit_once := ∅; Beam.ex := fst e; Beam.ey := snd e |}.

(** The damage a beam deals: read from the weapon its owner holds when the
    damage is resolved, 40 if the owner holds nothing. *)
Definition beam_dmg (owner : nat) (players : list Player.t) : Z :=
  match players !! owner with
  | Some o => match Player.holding o with
              | Some g => GunDef.dmg (GunEntity.gdef g)
              | None => 40%Z
              end
  | None => 40%Z
  end.

(** The test of the damage loop of [Beam.update] for agent [i]. *)
Definition beam_reaches (bm : Beam.t) (i : nat) (pl : Player.t) : bool :=
  eligible (Beam.owner bm) (i, pl)
  && Qle_bool (seg_point_dist (Beam.sx bm) (Beam.sy bm) (Beam.ex bm) (Beam.ey bm)
                 (fst (centre pl)) (snd (centre pl)))
              (Beam.width bm * 0.5 + 18)
  && negb (bool_decide (i ∈ Beam.hit_once bm)).

(** One iteration of the damage loop of [Beam.update]. *)
Definition beam_one (st : list Player.t * Beam.t) (i : nat) : list Player.t * Beam.t :=
  let '(players, bm) := st in
  match players !! i with
  | None => st
  | Some pl =>
      if beam_reaches bm i pl then
        let dmg := beam_dmg (Beam.owner bm) players in
        (Player_damage players i dmg (cos (Beam.ang bm) * 80, -60) (Some (Beam.owner bm)),
         Beam.set_hit_once ({[ i ]} ∪ Beam.hit_once bm) bm)
      else st
  end.

(** [Beam.update]: the agents and the beam after the step, and [false] if
    the beam is to be removed. *)
Definition Beam_update (dt : Q) (players : list Player.t) (bm : Beam.t)
  : list Player.t * Beam.t * bool :=
  let bm := Beam.set_age (Beam.age bm + dt) bm in
  let '(players, bm) :=
    if Beam.active bm then foldl beam_one (players, bm) (seq 0 (length players))
    else (players, bm) in
  (players, bm, Qltb (Beam.age bm) (Beam.warmup bm + Beam.active_time bm + 0.12)).

End Beams.

(** ** Agents *)

Module Inputs.
(** The control-input record read by [Player.update].  The boolean keys are
    read with [inputs.get(key, False)], so a missing key and [False] are the
    same value here; [aim] is [None] when the key is missing. *)
Record t : Type := mk {
  left : bool;
  right : bool;
  down : bool;
  jump_pressed : bool;
  attack : bool;
  rmb_release : bool;
  dash : bool;
  aim : option (Q * Q)
}.

Definition set_aim (v : option (Q * Q)) (s : t) : t :=
  {| left := left s; right := right s; down := down s; jump_pressed := jump_pressed s;
     attack := attack s; rmb_release := rmb_release s; dash := dash s; aim := v |}.
End Inputs.

Module WindZone.
Record t : Type := mk { rect : Rect.t; strength : Q }.
End WindZone.

Module Teleport.
Record t : Type := mk { rect : Rect.t; exit : Q * Q }.
End Teleport.

(** [inputs.get("aim", (self.x + self.face*100, self.y - 40))] *)
Definition read_aim (inputs : Inputs.t) (p : Player.t) : Q * Q :=
  match Inputs.aim inputs with
  | Some a => a
  | None => (Player.x p + inject_Z (Player.face p) * 100, Player.y p - 40)
  end.

(** The timer decay that opens [Player.update]. *)
Definition tick_timers (dt : Q) (p : Player.t) : Player.t :=
  let p := Player.set_attack_cool (pymax 0 (Player.attack_cool p - dt)) p in
  let p := Player.set_coyote (pymax 0 (Player.coyote p - dt)) p in
  let p := Player.set_jump_buf (pymax 0 (Player.jump_buf p - dt)) p in
  let p := Player.set_drop_through_timer (pymax 0 (Player.drop_through_timer p - dt)) p in
  let p := Player.set_invuln (pymax 0 (Player.invuln p - dt)) p in
  let p := Player.set_hitlag (pymax 0 (Player.hitlag p - dt)) p in
  let p := Player.set_dash_cd (pymax 0 (Player.dash_cd p - dt)) p in
  let p := Player.set_tp_cd (pymax 0 (Player.tp_cd p - dt)) p in
  let p := if Qltb 0 (Player.dash_time p)
           then Player.set_dash_time (pymax 0 (Player.dash_time p - dt)) p else p in
  Player.set_dashing (Qltb 0 (Player.dash_time p)) p.

(** Movement with no inertia, and the dash. *)
Definition move_input (inputs : Inputs.t) (mx : Q) (p : Player.t) : Player.t :=
  let speed := 440 in
  let dirx := if Inputs.left inputs && negb (Inputs.right inputs) then -1
              else if Inputs.right inputs && negb (Inputs.left inputs) then 1 else 0 in
  let p :=
    if Inputs.dash inputs && Qle_bool (Player.dash_cd p) 0 then
      let dash_dir := if Qltb dirx 0 then -1 else if Qltb 0 dirx then 1
                      else if Qltb (Player.x p) mx then 1 else -1 in
      let p := Player.set_vx (dash_dir * 950) p in
      let p := Player.set_vy (Player.vy p * 0.5) p in
      Player.set_dash_cd 0.6 (Player.set_dashing true (Player.set_dash_time 0.13 p))
    else p in
  if negb (Player.dashing p) then Player.set_vx (dirx * speed) p else p.

(** The jump buffer and the double jump. *)
Definition jump_input (inputs : Inputs.t) (p : Player.t) : Player.t :=
  let p := if Inputs.jump_pressed inputs then Player.set_jump_buf 0.12 p else p in
  if Qltb 0 (Player.jump_buf p) then
    if Player.on_ground p || Qltb 0 (Player.coyote p) then
      Player.set_air_jumps (Player.max_air_jumps p)
        (Player.set_jump_buf 0 (Player.set_on_ground false (Player.set_vy (-1000) p)))
    else if (0 <? Player.air_jumps p)%Z then
      Player.set_jump_buf 0
        (Player.set_air_jumps (Player.air_jumps p - 1) (Player.set_vy (-940) p))
    else p
  else p.

Definition drop_input (inputs : Inputs.t) (p : Player.t) : Player.t :=
  if Inputs.down inputs && Player.on_ground p
  then Player.set_drop_through_timer 0.20 p else p.

(** Gravity and updrafts. *)
Definition in_windzone (p : Player.t) (wz : WindZone.t) : bool :=
  let r := WindZone.rect wz in
  Qltb (Rect.left r) (Player.x p) && Qltb (Player.x p) (Rect.right r)
  && Qltb (Rect.top r) (Player.y p - Player.h p * 0.5)
  && Qltb (Player.y p - Player.h p * 0.5) (Rect.bottom r).

Definition apply_gravity (dt : Q) (windzones : list WindZone.t) (p : Player.t) : Player.t :=
  let p := Player.set_vy (Player.vy p + GRAVITY * dt) p in
  let p := foldl (fun p wz =>
                    if in_windzone p wz
                    then Player.set_vy (Player.vy p - WindZone.strength wz * dt) p else p)
                 p windzones in
  Player.set_vy (pymin (Player.vy p) MAX_FALL) p.

(** Horizontal integration against solid rectangles. *)
Definition collide_x (p : Player.t) (rt : Rect.t * Z) : Player.t :=
  let r := fst rt in
  if (snd rt =? TILE_THIN)%Z then p
  else if Rect.intersects (Player.aabb p) r then
    let p := if Qltb 0 (Player.vx p) then Player.set_x (Rect.left r - Player.w p / 2) p
             else if Qltb (Player.vx p) 0 then Player.set_x (Rect.right r + Player.w p / 2) p
             else p in
    Player.set_vx 0 p
  else p.

Definition move_x (dt : Q) (level_rects : list (Rect.t * Z)) (p : Player.t) : Player.t :=
  foldl collide_x (Player.set_x (Player.x p + Player.vx p * dt) p) level_rects.

(** Vertical integration against solid and thin rectangles. *)
Definition land (top : Q) (p : Player.t) : Player.t :=
  Player.set_air_jumps (Player.max_air_jumps p)
    (Player.set_coyote 0.08 (Player.set_on_ground true (Player.set_y top p))).

Definition collide_y (dt : Q) (p : Player.t) (rt : Rect.t * Z) : Player.t :=
  let r := fst rt in
  let rect := Player.aabb p in
  if (snd rt =? TILE_THIN)%Z then
    if Qle_bool 0 (Player.vy p) && Qle_bool (Player.drop_through_timer p) 0
       && Qltb (Rect.top r) (Rect.bottom rect)
       && Qle_bool (Rect.bottom rect - Player.vy p * dt) (Rect.top r + 2)
       && Qltb (Rect.left r) (Rect.right rect) && Qltb (Rect.left rect) (Rect.right r)
    then land (Rect.top r) (Player.set_vy 0 p)
    else p
  else if Rect.intersects rect r then
    let p := if Qltb 0 (Player.vy p) then land (Rect.top r) p
             else Player.set_y (Rect.bottom r + Player.h p) p in
    Player.set_vy 0 p
  else p.

Definition move_y (dt : Q) (level_rects : list (Rect.t * Z)) (p : Player.t) : Player.t :=
  let p := Player.set_on_ground false p in
  foldl (collide_y dt) (Player.set_y (Player.y p + Player.vy p * dt) p) level_rects.

Definition face_aim (mx : Q) (p : Player.t) : Player.t :=
  Player.set_face (if Qltb (Player.x p) mx then 1 else -1)%Z p.

Definition teleport (teleports : list Teleport.t) (p : Player.t) : Player.t :=
  if Qle_bool (Player.tp_cd p) 0 then
    match find (fun tp => Rect.intersects (Player.aabb p) (Teleport.rect tp)) teleports with
    | Some tp =>
        let p := Player.set_y (snd (Teleport.exit tp)) (Player.set_x (fst (Teleport.exit tp)) p) in
        let p := Player.set_vy (Player.vy p * 0.2) (Player.set_vx (Player.vx p * 0.2) p) in
        Player.set_tp_cd 0.5 p
    | None => p
    end
  else p.

(** The hand anchor [(self.x, self.y - self.h*0.6)]. *)
Definition hand (p : Player.t) : Q * Q := (Player.x p, Player.y p - Player.h p * 0.6).

(** The pickup test of the secondary action for one gun of the list. *)
Definition can_pick (p : Player.t) (ig : nat * GunEntity.t) : bool :=
  let g := snd ig in
  bool_decide (GunEntity.state g = "ground")
  && Qltb (Qabs' (GunEntity.x g - Player.x p)) 56
  && Qltb (Qabs' (GunEntity.y g - (Player.y p - Player.h p))) 84.

Section Agents.
Context `{Libm}.

(** Secondary action: pick a ground weapon up when unarmed, otherwise throw
    the held one towards the aim point. *)
Definition secondary (self : nat) (aim : Q * Q) (p : Player.t) (guns : list GunEntity.t)
  : Player.t * list GunEntity.t :=
  let picked :=
    match Player.holding p with
    | None => find (can_pick p) (indexed guns)
    | Some _ => None
    end in
  match picked with
  | Some (i, g) =>
      let g := GunEntity.set_state "equipped" (GunEntity.set_owner (Some self) g) in
      (Player.set_holding (Some g) p, delete i guns)
  | None =>
      match Player.holding p with
      | Some ent =>
          let dx := fst aim - Player.x p in
          let dy := snd aim - snd (hand p) in
          let d := hypot dx dy + 1e-6 in
          let dirv := (dx / d, dy / d) in
          let ent := GunEntity.set_y (snd (hand p) + snd dirv * 24)
                       (GunEntity.set_x (Player.x p + fst dirv * 24) ent) in
          let ent := GunEntity.set_spawned_pickup false (GunEntity.toss self dirv 820 ent) in
          (Player.set_holding None p, guns ++ [ent])
      | None => (p, guns)
      end
  end.

(** The closure [fire_one] of [Player.update]. *)
Definition fire_one (self : nat) (p : Player.t) (angle spread speed : Q) (dmg : Z)
    (life radius : Q) (explosive pierce_thin : bool) (proximity seek : Q) : Bullet.t :=
  let ang := angle + spread in
  Bullet_init (Player.x p) (snd (hand p)) (cos ang * speed) (sin ang * speed) dmg self
    life radius explosive pierce_thin proximity seek.

(** The pellet loop of the [spread] and [burst3] modes: [n] projectiles, each
    with its own draw of the spread angle. *)
Fixpoint fire_pellets (n : nat) (self : nat) (p : Player.t) (g : GunDef.t) (angle speed : Q)
    (bullets : list Bullet.t) (rng : Rng) : list Bullet.t * Rng :=
  match n with
  | O => (bullets, rng)
  | S n' =>
      let '(u, rng) := uniform (- GunDef.spread_deg g) (GunDef.spread_deg g) rng in
      let b := fire_one self p angle (radians u) speed (GunDef.dmg g) 0.6 5 false false 0 0 in
      fire_pellets n' self p g angle speed (bullets ++ [b]) rng
  end.

(** What a shot puts into the world: the projectiles and beams after it,
    the generator, and [shots_fired]. *)
Definition fire_weapon (self : nat) (p : Player.t) (g : GunDef.t) (angle : Q)
    (level_rects : list (Rect.t * Z)) (bullets : list Bullet.t) (beams : list Beam.t)
    (rng : Rng) : list Bullet.t * list Beam.t * Rng * Z :=
  if bool_decide (GunDef.special g = "spread") then
    let '(bullets, rng) := fire_pellets (Z.to_nat (GunDef.pellet g)) self p g angle
                             (GunDef.speed g * 0.9) bullets rng in
    (bullets, beams, rng, Z.of_nat (Z.to_nat (GunDef.pellet g)))
  else if bool_decide (GunDef.special g = "burst3") then
    let '(bullets, rng) := fire_pellets 3 self p g angle (GunDef.speed g * 0.95) bullets rng in
    (bullets, beams, rng, 3%Z)
  else if bool_decide (GunDef.special g = "sniper") then
    (bullets ++ [fire_one self p angle 0 (GunDef.speed g) (GunDef.dmg g) 1.1 6 false true 0 0.9],
     beams, rng, 1%Z)
  else if bool_decide (GunDef.special g = "rocket") then
    (bullets ++ [fire_one self p angle 0 (GunDef.speed g) (GunDef.dmg g) 1.2 7 true false 160 0],
     beams, rng, 1%Z)
  else if bool_decide (GunDef.special g = "beam") then
    (bullets, beams ++ [Beam_init self (hand p) angle level_rects 0.35 0.16 38], rng, 1%Z)
  else
    (bullets ++ [fire_one self p angle 0 (GunDef.speed g) (GunDef.dmg g) 0.9 6 false false 0 0],
     beams, rng, 1%Z).

(** [self.holding.ammo -= shots_fired] *)
Definition spend_ammo (shots_fired : Z) (ent : GunEntity.t) : GunEntity.t :=
  GunEntity.set_ammo (GunEntity.ammo ent - shots_fired) ent.

(** Primary fire. *)
Definition primary (self : nat) (inputs : Inputs.t) (aim : Q * Q)
    (level_rects : list (Rect.t * Z)) (p : Player.t) (bullets : list Bullet.t)
    (beams : list Beam.t) (rng : Rng) : Player.t * list Bullet.t * list Beam.t * Rng :=
  match Player.holding p with
  | Some ent =>
      if Inputs.attack inputs && Qle_bool (Player.attack_cool p) 0 then
        let g := GunEntity.gdef ent in
        let angle := atan2 (snd aim - snd (hand p)) (fst aim - Player.x p) in
        let '(bullets, beams, rng, shots_fired) :=
          fire_weapon self p g angle level_rects bullets beams rng in
        let p := Player.set_attack_cool (GunDef.cooldown g) p in
        let ent := spend_ammo shots_fired ent in
        let p := if (GunEntity.ammo ent <=? 0)%Z then Player.set_holding None p
                 else Player.set_holding (Some ent) p in
        (p, bullets, beams, rng)
      else (p, bullets, beams, rng)
  | None => (p, bullets, beams, rng)
  end.

(** Ring-out: lethal damage below the world. *)
Definition ring_out (p : Player.t) : Player.t :=
  if Qltb (WORLD_H - 4) (Player.y p) then Player_damage_self 999 (0, 0) p else p.

(** The phases of [Player.update] between the reading of the inputs and the
    hitlag test: aim, movement, jump, drop-through, gravity. *)
Definition steer (dt : Q) (inputs : Inputs.t) (windzones : list WindZone.t) (aim : Q * Q)
    (p : Player.t) : Player.t :=
  let p := Player.set_last_aim aim p in
  let p := move_input inputs (fst aim) p in
  let p := jump_input inputs p in
  let p := drop_input inputs p in
  apply_gravity dt windzones p.

(** The phases that follow the hitlag test, up to the teleporters. *)
Definition integrate (dt : Q) (level_rects : list (Rect.t * Z)) (teleports : list Teleport.t)
    (mx : Q) (p : Player.t) : Player.t :=
  let p := move_x dt level_rects p in
  let p := move_y dt level_rects p in
  let p := face_aim mx p in
  teleport teleports p.

(** [Player.update] for the agent of index [self]. *)
Definition Player_update (dt : Q) (inputs : Inputs.t) (level_rects : list (Rect.t * Z))
    (windzones : list WindZone.t) (teleports : list Teleport.t) (self : nat)
    (p : Player.t) (bullets : list Bullet.t) (guns : list GunEntity.t)
    (beams : list Beam.t) (rng : Rng)
  : Player.t * list Bullet.t * list GunEntity.t * list Beam.t * Rng :=
  let p := tick_timers dt p in
  if negb (Player.alive p) then (p, bullets, guns, beams, rng)
  else
    let aim := read_aim inputs p in
    let p := steer dt inputs windzones aim p in
    if Qltb 0 (Player.hitlag p) then (p, bullets, guns, beams, rng)
    else
      let p := integrate dt level_rects teleports (fst aim) p in
      let '(p, guns) := if Inputs.rmb_release inputs then secondary self aim p guns
                        else (p, guns) in
      let '(p, bullets, beams, rng) :=
        primary self inputs aim level_rects p bullets beams rng in
      (ring_out p, bullets, guns, beams, rng).

End Agents.

(** *** The fired weapon as an object

    In the source a weapon entity is an object and [self.holding] a
    reference to it: [self.holding.ammo -= shots_fired] mutates the object,
    and [self.holding = None] only drops the reference of the agent; the
    object is as the shot left it for whoever holds another reference.
    [primary] and [Player_update] hold the entity by value, so the entity of
    a discarded weapon is not part of what they return.  The two functions
    below are the same code and return, in addition, the entity object that
    the shot was fired from as the firing resolution leaves it ([None] when
    no shot goes off). *)

Section FiredObject.
Context `{Libm}.

(** Primary fire, with the fired entity. *)
Definition primary_fired (self : nat) (inputs : Inputs.t) (aim : Q * Q)
    (level_rects : list (Rect.t * Z)) (p : Player.t) (bullets : list Bullet.t)
    (beams : list Beam.t) (rng : Rng)
  : Player.t * list Bullet.t * list Beam.t * Rng * option GunEntity.t :=
  match Player.holding p with
  | Some ent =>
      if Inputs.attack inputs && Qle_bool (Player.attack_cool p) 0 then
        let g := GunEntity.gdef ent in
        let angle := atan2 (snd aim - snd (hand p)) (fst aim - Player.x p) in
        let '(bullets, beams, rng, shots_fired) :=
          fire_weapon self p g angle level_rects bullets beams rng in
        let p := Player.set_attack_cool (GunDef.cooldown g) p in
        let ent := GunEntity.set_ammo (GunEntity.ammo ent - shots_fired) ent in
        let p := if (GunEntity.ammo ent <=? 0)%Z then Player.set_holding None p
                 else Player.set_holding (Some ent) p in
        (p, bullets, beams, rng, Some ent)
      else (p, bullets, beams, rng, None)
  | None => (p, bullets, beams, rng, None)
  end.

(** [Player.update] for the agent of index [self], with the fired entity. *)
Definition Player_update_fired (dt : Q) (inputs : Inputs.t)
    (level_rects : list (Rect.t * Z)) (windzones : list WindZone.t)
    (teleports : list Teleport.t) (self : nat) (p : Player.t) (bullets : list Bullet.t)
    (guns : list GunEntity.t) (beams : list Beam.t) (rng : Rng)
  : Player.t * list Bullet.t * list GunEntity.t * list Beam.t * Rng * option GunEntity.t :=
  let p := tick_timers dt p in
  if negb (Player.alive p) then (p, bullets, guns, beams, rng, None)
  else
    let aim := read_aim inputs p in
    let p := steer dt inputs windzones aim p in
    if Qltb 0 (Player.hitlag p) then (p, bullets, guns, beams, rng, None)
    else
      let p := integrate dt level_rects teleports (fst aim) p in
      let '(p, guns) := if Inputs.rmb_release inputs then secondary self aim p guns
                        else (p, guns) in
      let '(p, bullets, beams, rng, fired) :=
        primary_fired self inputs aim level_rects p bullets beams rng in
      (ring_out p, bullets, guns, beams, rng, fired).

End FiredObject.

(** ** The tick orchestrator *)

Module Breakable.
(** A breakable block (the subsystem is switched off: [build_breakables]
    returns the empty list). *)
Record t : Type := mk { rect : Rect.t; down : bool; respawn : Q; hp : Z; hp_max : Z }.
End Breakable.

Definition SPAWN_INTERVAL_START : Q := 4.
Definition SPAWN_MIN : Q := 0.9.
Definition MAX_GUNS : nat := 12.
Definition RW : Q := 1600.
Definition RH : Q := 1200.

Module Game.
(** The state of a match.  [rng] is the state of the global generator of
    [random]; the pygame handles and the input edges of the human adapter
    are left out. *)
Record t : Type := mk {
  level : list (Rect.t * Z);
  windzones : list WindZone.t;
  breakables : list Breakable.t;
  teleports : list Teleport.t;
  plat_list : list Rect.t;
  players : list Player.t;
  bullets : list Bullet.t;
  beams : list Beam.t;
  guns : list GunEntity.t;
  time_left : Q;
  spawn_interval : Q;
  spawn_timer : Q;
  respawns : list (Q * Q);
  cam : Q * Q;
  stuck_timer : Q;
  dt : Q;
  rng : Rng
}.

Definition set_level (v : list (Rect.t * Z)) (s : t) : t :=
  {| level := v; windzones := windzones s; breakables := breakables s;
     teleports := teleports s; plat_list := plat_list s; players := players s;
     bullets := bullets s; beams := beams s; guns := guns s; time_left := time_left s;
     spawn_interval := spawn_interval s; spawn_timer := spawn_timer s; respawns := respawns s;
     cam := cam s; stuck_timer := stuck_timer s; dt := dt s; rng := rng s |}.
Definition set_windzones (v : list WindZone.t) (s : t) : t :=
  {| level := level s; windzones := v; breakables := breakables s; teleports := teleports s;
     plat_list := plat_list s; players := players s; bullets := bullets s; beams := beams s;
     guns := guns s; time_left := time_left s; spawn_interval := spawn_interval s;
     spawn_timer := spawn_timer s; respawns := respawns s; cam := cam s;
     stuck_timer := stuck_timer s; dt := dt s; rng := rng s |}.
Definition set_breakables (v : list Breakable.t) (s : t) : t :=
  {| level := level s; windzones := windzones s; breakables := v; teleports := teleports s;
     plat_list := plat_list s; players := players s; bullets := bullets s; beams := beams s;
     guns := guns s; time_left := time_left s; spawn_interval := spawn_interval s;
     spawn_timer := spawn_timer s; respawns := respawns s; cam := cam s;
     stuck_timer := stuck_timer s; dt := dt s; rng := rng s |}.
Definition set_teleports (v : list Teleport.t) (s : t) : t :=
  {| level := level s; windzones := windzones s; breakables := breakables s; teleports := v;
     plat_list := plat_list s; players := players s; bullets := bullets s; beams := beams s;
     guns := guns s; time_left := time_left s; spawn_interval := spawn_interval s;
     spawn_timer := spawn_timer s; respawns := respawns s; cam := cam s;
     stuck_timer := stuck_timer s; dt := dt s; rng := rng s |}.
Definition set_plat_list (v : list Rect.t) (s : t) : t :=
  {| level := level s; windzones := windzones s; breakables := breakables s;
     teleports := teleports s; plat_list := v; players := players s; bullets := bullets s;
     beams := beams s; guns := guns s; time_left := time_left s;
     spawn_interval := spawn_interval s; spawn_timer := spawn_timer s; respawns := respawns s;
     cam := cam s; stuck_timer := stuck_timer s; dt := dt s; rng := rng s |}.
Definition set_players (v : list Player.t) (s : t) : t :=
  {| level := level s; windzones := windzones s; breakables := breakables s;
     teleports := teleports s; plat_list := plat_list s; players := v; bullets := bullets s;
     beams := beams s; guns := guns s; time_left := time_left s;
     spawn_interval := spawn_interval s; spawn_timer := spawn_timer s; respawns := respawns s;
     cam := cam s; stuck_timer := stuck_timer s; dt := dt s; rng := rng s |}.
Definition set_bullets (v : list Bullet.t) (s : t) : t :=
  {| level := level s; windzones := windzones s; breakables := breakables s;
     teleports := teleports s; plat_list := plat_list s; players := players s; bullets := v;
     beams := beams s; guns := guns s; time_left := time_left s;
     spawn_interval := spawn_interval s; spawn_timer := spawn_timer s; respawns := respawns s;
     cam := cam s; stuck_timer := stuck_timer s; dt := dt s; rng := rng s |}.
Definition set_beams (v : list Beam.t) (s : t) : t :=
  {| level := level s; windzones := windzones s; breakables := breakables s;
     teleports := teleports s; plat_list := plat_list s; players := players s;
     bullets := bullets s; beams := v; guns := guns s; time_left := time_left s;
     spawn_interval := spawn_interval s; spawn_timer := spawn_timer s; respawns := respawns s;
     cam := cam s; stuck_timer := stuck_timer s; dt := dt s; rng := rng s |}.
Definition set_guns (v : list GunEntity.t) (s : t) : t :=
  {| level := level s; windzones := windzones s; breakables := breakables s;
     teleports := teleports s; plat_list := plat_list s; players := players s;
     bullets := bullets s; beams := beams s; guns := v; time_left := time_left s;
     spawn_interval := spawn_interval s; spawn_timer := spawn_timer s; respawns := respawns s;
     cam := cam s; stuck_timer := stuck_timer s; dt := dt s; rng := rng s |}.
Definition set_time_left (v : Q) (s : t) : t :=
  {| level := level s; windzones := windzones s; breakables := breakables s;
     teleports := teleports s; plat_list := plat_list s; players := players s;
     bullets := bullets s; beams := beams s; guns := guns s; time_left := v;
     spawn_interval := spawn_interval s; spawn_timer := spawn_timer s; respawns := respawns s;
     cam := cam s; stuck_timer := stuck_timer s; dt := dt s; rng := rng s |}.
Definition set_spawn_interval (v : Q) (s : t) : t :=
  {| level := level s; windzones := windzones s; breakables := breakables s;
     teleports := teleports s; plat_list := plat_list s; players := players s;
     bullets := bullets s; beams := beams s; guns := guns s; time_left := time_left s;
     spawn_interval := v; spawn_timer := spawn_timer s; respawns := respawns s; cam := cam s;
     stuck_timer := stuck_timer s; dt := dt s; rng := rng s |}.
Definition set_spawn_timer (v : Q) (s : t) : t :=
  {| level := level s; windzones := windzones s; breakables := breakables s;
     teleports := teleports s; plat_list := plat_list s; players := players s;
     bullets := bullets s; beams := beams s; guns := guns s; time_left := time_left s;
     spawn_interval := spawn_interval s; spawn_timer := v; respawns := respawns s;
     cam := cam s; stuck_timer := stuck_timer s; dt := dt s; rng := rng s |}.
Definition set_respawns (v : list (Q * Q)) (s : t) : t :=
  {| level := level s; windzones := windzones s; breakables := breakables s;
     teleports := teleports s; plat_list := plat_list s; players := players s;
     bullets := bullets s; beams := beams s; guns := guns s; time_left := time_left s;
     spawn_interval := spawn_interval s; spawn_timer := spawn_timer s; respawns := v;
     cam := cam s; stuck_timer := stuck_timer s; dt := dt s; rng := rng s |}.
Definition set_cam (v : Q * Q) (s : t) : t :=
  {| level := level s; windzones := windzones s; breakables := breakables s;
     teleports := teleports s; plat_list := plat_list s; players := players s;
     bullets := bullets s; beams := beams s; guns := guns s; time_left := time_left s;
     spawn_interval := spawn_interval s; spawn_timer := spawn_timer s; respawns := respawns s;
     cam := v; stuck_timer := stuck_timer s; dt := dt s; rng := rng s |}.
Definition set_stuck_timer (v : Q) (s : t) : t :=
  {| level := level s; windzones := windzones s; breakables := breakables s;
     teleports := teleports s; plat_list := plat_list s; players := players s;
     bullets := bullets s; beams := beams s; guns := guns s; time_left := time_left s;
     spawn_interval := spawn_interval s; spawn_timer := spawn_timer s; respawns := respawns s;
     cam := cam s; stuck_timer := v; dt := dt s; rng := rng s |}.
Definition set_dt (v : Q) (s : t) : t :=
  {| level := level s; windzones := windzones s; breakables := breakables s;
     teleports := teleports s; plat_list := plat_list s; players := players s;
     bullets := bullets s; beams := beams s; guns := guns s; time_left := time_left s;
     spawn_interval := spawn_interval s; spawn_timer := spawn_timer s; respawns := respawns s;
     cam := cam s; stuck_timer := stuck_timer s; dt := v; rng := rng s |}.
Definition set_rng (v : Rng) (s : t) : t :=
  {| level := level s; windzones := windzones s; breakables := breakables s;
     teleports := teleports s; plat_list := plat_list s; players := players s;
     bullets := bullets s; beams := beams s; guns := guns s; time_left := time_left s;
     spawn_interval := spawn_interval s; spawn_timer := spawn_timer s; respawns := respawns s;
     cam := cam s; stuck_timer := stuck_timer s; dt := dt s; rng := v |}.
End Game.

Definition spawnable_surfaces (level_rects : list (Rect.t * Z)) : list Rect.t :=
  omap (fun rt : Rect.t * Z =>
          let r := fst rt in
          if (snd rt =? TILE_THIN)%Z then Some r
          else if (snd rt =? TILE_SOLID)%Z then
            if Qltb 200 (Rect.w r) && Qle_bool (Rect.h r) 60 && Qle_bool 0 (Rect.x r)
               && Qle_bool (Rect.right r) WORLD_W
            then Some r else None
          else None) level_rects.

(** [Game.active_level_rects] *)
Definition active_level_rects (g : Game.t) : list (Rect.t * Z) :=
  Game.level g
  ++ omap (fun b => if negb (Breakable.down b) then Some (Breakable.rect b, TILE_SOLID) else None)
       (Game.breakables g).

(** [Game.give_random_weapon]; [None] stands for an exception. *)
Definition give_random_weapon (p : Player.t) (self : nat) (rng : Rng)
  : option (Player.t * Rng) :=
  let '(gd, rng) := choice GUNS rng in
  gdef ← gd;
  let ent := GunEntity.init gdef (Player.x p, Player.y p - Player.h p * 0.6) None false in
  let ent := GunEntity.set_state "equipped" (GunEntity.set_owner (Some self) ent) in
  Some (Player.set_holding (Some ent) p, rng).

(** The placement retries of [Game.spawn_gun]: up to [n] new draws of [x]
    while a ground pickup lies within 56 units. *)
Fixpoint spawn_retry (n : nat) (lo hi x y : Q) (guns : list GunEntity.t) (rng : Rng)
  : Q * Rng :=
  match n with
  | O => (x, rng)
  | S n' =>
      if existsb (fun g => bool_decide (GunEntity.state g = "ground")
                           && Qltb ((GunEntity.x g - x) * (GunEntity.x g - x)
                                    + (GunEntity.y g - y) * (GunEntity.y g - y)) (56 * 56))
           guns
      then let '(x, rng) := uniform lo hi rng in spawn_retry n' lo hi x y guns rng
      else (x, rng)
  end.

(** [Game.spawn_gun] *)
Definition spawn_gun (g : Game.t) : option Game.t :=
  if (MAX_GUNS <=? length (Game.guns g))%nat then Some g
  else
    let plats := Game.plat_list g
                 ++ omap (fun b => if negb (Breakable.down b) then Some (Breakable.rect b)
                                   else None) (Game.breakables g) in
    let '(ro, rng) := choice plats (Game.rng g) in
    r ← ro;
    let pad := 40 in
    let '(x, rng) := uniform (Rect.x r + pad) (Rect.right r - pad) rng in
    let y := Rect.top r - 24 in
    let '(x, rng) := spawn_retry 8 (Rect.x r + pad) (Rect.right r - pad) x y (Game.guns g) rng in
    let '(gd, rng) := choice GUNS rng in
    gdef ← gd;
    let '(j, rng) := randint (-2) 2 rng in
    let ammo := (GunDef.ammo gdef + j)%Z in
    Some (Game.set_rng rng
            (Game.set_guns (Game.guns g ++ [GunEntity.init gdef (x, y) (Some (Z.max 1 ammo)) true])
               g)).

(** The spawn cadence that opens [Game.update]. *)
Definition spawn_cadence (dt : Q) (g : Game.t) : option Game.t :=
  let g := Game.set_spawn_timer (Game.spawn_timer g - dt) g in
  if Qle_bool (Game.spawn_timer g) 0 then
    g ← (if (length (Game.guns g) <? MAX_GUNS)%nat then
           g ← spawn_gun g;
           Some (Game.set_spawn_interval (pymax SPAWN_MIN (Game.spawn_interval g * 0.96)) g)
         else Some g);
    Some (Game.set_spawn_timer (Game.spawn_interval g) g)
  else Some g.

(** [Game._anti_stuck]: push the first two agents apart when they overlap. *)
Definition anti_stuck `{Libm} (dt : Q) (g : Game.t) : option Game.t :=
  a ← Game.players g !! 0%nat;
  b ← Game.players g !! 1%nat;
  let dx := Player.x b - Player.x a in
  let dy := snd (centre b) - snd (centre a) in
  let dist := hypot dx dy in
  if Qltb dist 32 then
    let push := (32 - pymax dist 1) * 0.5 in
    let '(a, b) :=
      if Qle_bool 0 dx
      then (Player.set_x (Player.x a - push) a, Player.set_x (Player.x b + push) b)
      else (Player.set_x (Player.x a + push) a, Player.set_x (Player.x b - push) b) in
    let a := Player.set_vx (Player.vx a * 0.5) a in
    let b := Player.set_vx (Player.vx b * 0.5) b in
    Some (Game.set_stuck_timer (Game.stuck_timer g + dt)
            (Game.set_players (<[1%nat := b]> (<[0%nat := a]> (Game.players g))) g))
  else Some (Game.set_stuck_timer (pymax 0 (Game.stuck_timer g - dt * 0.5)) g).

Section Orchestrator.
Context `{Libm}.

(** One iteration of the agent loop of [Game.update].  [inputs i] is the
    control record of agent [i] for this tick, whichever source it comes
    from (the override, the bot policy or the human adapter). *)
Definition update_player (dt : Q) (inputs : nat -> Inputs.t) (level_now : list (Rect.t * Z))
    (g : Game.t) (i : nat) : Game.t :=
  match Game.players g !! i with
  | None => g
  | Some p =>
      let '(p, bullets, guns, beams, rng) :=
        Player_update dt (inputs i) level_now (Game.windzones g) (Game.teleports g) i p
          (Game.bullets g) (Game.guns g) (Game.beams g) (Game.rng g) in
      Game.set_rng rng (Game.set_beams beams (Game.set_guns guns (Game.set_bullets bullets
        (Game.set_players (<[i := p]> (Game.players g)) g))))
  end.

Definition update_players (dt : Q) (inputs : nat -> Inputs.t) (level_now : list (Rect.t * Z))
    (g : Game.t) : Game.t :=
  foldl (update_player dt inputs level_now) g (seq 0 (length (Game.players g))).

(** The gun loop: a gun is dropped from the list when its update asks for
    removal and it is not a spawned pickup. *)
Definition update_guns (dt : Q) (level_now : list (Rect.t * Z)) (guns : list GunEntity.t)
  : list GunEntity.t :=
  omap (fun gn =>
          let '(gn, alive) := GunEntity_update dt level_now gn in
          if negb alive && negb (GunEntity.spawned_pickup gn) then None else Some gn) guns.

(** The projectile loop: every projectile of the list is updated in turn
    against the agents left by the previous ones; the survivors stay. *)
Fixpoint update_bullets (dt : Q) (level_now : list (Rect.t * Z)) (players : list Player.t)
    (bullets : list Bullet.t) : list Player.t * list Bullet.t :=
  match bullets with
  | [] => (players, [])
  | bb :: rest =>
      let '(players, bb, alive) := Bullet_update dt level_now players bb in
      let '(players, rest) := update_bullets dt level_now players rest in
      (players, if alive then bb :: rest else rest)
  end.

(** The beam loop. *)
Fixpoint update_beams (dt : Q) (players : list Player.t) (beams : list Beam.t)
  : list Player.t * list Beam.t :=
  match beams with
  | [] => (players, [])
  | bm :: rest =>
      let '(players, bm, alive) := Beam_update dt players bm in
      let '(players, rest) := update_beams dt players rest in
      (players, if alive then bm :: rest else rest)
  end.

Definition tick_breakable (dt : Q) (b : Breakable.t) : Breakable.t :=
  if Breakable.down b then
    let r := Breakable.respawn b - dt in
    if Qle_bool r 0
    then Breakable.mk (Breakable.rect b) false r (Breakable.hp_max b) (Breakable.hp_max b)
    else Breakable.mk (Breakable.rect b) true r (Breakable.hp b) (Breakable.hp_max b)
  else b.

(** One iteration of the respawn loop: an agent that is not alive is
    respawned at once and handed a fresh random weapon. *)
Definition respawn_player (respawns : list (Q * Q)) (st : option (list Player.t * Rng))
    (i : nat) : option (list Player.t * Rng) :=
  '(players, rng) ← st;
  match players !! i with
  | None => Some (players, rng)
  | Some p =>
      if negb (Player.alive p) then
        let '(pos, rng) := choice respawns rng in
        pos ← pos;
        '(p, rng) ← give_random_weapon (Player_respawn pos p) i rng;
        Some (<[i := p]> players, rng)
      else Some (players, rng)
  end.

Definition respawn_players (g : Game.t) : option Game.t :=
  '(players, rng) ← foldl (respawn_player (Game.respawns g))
                        (Some (Game.players g, Game.rng g))
                        (seq 0 (length (Game.players g)));
  Some (Game.set_rng rng (Game.set_players players g)).

(** The smoothed camera that follows the first agent. *)
Definition camera (g : Game.t) : option Game.t :=
  you ← Game.players g !! 0%nat;
  let target_x := Player.x you - RW / 2 in
  let target_y := Player.y you - RH / 2 in
  Some (Game.set_cam (clamp (lerp (fst (Game.cam g)) target_x 0.15) 0 (WORLD_W - RW),
                      clamp (lerp (snd (Game.cam g)) target_y 0.15) 0 (WORLD_H - RH)) g).

(** [Game.update]; [None] stands for an exception ([IndexError] on an empty
    choice or on fewer than two agents). *)
Definition Game_update (dt : Q) (inputs : nat -> Inputs.t) (g : Game.t) : option Game.t :=
  let g := Game.set_dt dt g in
  let g := Game.set_time_left (pymax 0 (Game.time_left g - dt)) g in
  g ← spawn_cadence dt g;
  let level_now := active_level_rects g in
  let g := update_players dt inputs level_now g in
  let g := Game.set_guns (update_guns dt level_now (Game.guns g)) g in
  let '(players, bullets) := update_bullets dt level_now (Game.players g) (Game.bullets g) in
  let g := Game.set_bullets bullets (Game.set_players players g) in
  let '(players, beams) := update_beams dt (Game.players g) (Game.beams g) in
  let g := Game.set_beams beams (Game.set_players players g) in
  let g := Game.set_breakables (tick_breakable dt <$> Game.breakables g) g in
  g ← respawn_players g;
  g ← anti_stuck dt g;
  camera g.

End Orchestrator.

(** ** A rational instance of [Libm]

    Twelve-decimal rational approximations of the functions of [math], used
    to run the kernel on concrete scenarios.  No theorem depends on them. *)

Module Approx.
Definition PI : Q := 3.14159265358979.

(** Nearest multiple of [1e-12]. *)
Definition round12 (v : Q) : Q := Qred (Qfloor (v * 1e12 + 0.5) # 1000000000000).

Definition sqrt (v : Q) : Q := Qred (Z.sqrt (Qfloor (v * 1e24)) # 1000000000000).

(** [n] further terms of an alternating power series: the term after [term]
    is [- term * x2 / ((k + 1) * (k + 2))]. *)
Fixpoint series (n : nat) (x2 term : Q) (k : Z) (acc : Q) : Q :=
  match n with
  | O => acc
  | S n' =>
      let term' := round12 (- term * x2 / inject_Z ((k + 1) * (k + 2))) in
      series n' x2 term' (k + 2) (acc + term')
  end.

(** The representative of [x] in [-PI, PI). *)
Definition reduce (x : Q) : Q := x - 2 * PI * inject_Z (Qfloor (x / (2 * PI) + 0.5)).

Definition sin (x : Q) : Q :=
  let x := round12 (reduce x) in round12 (series 14 (x * x) x 1 x).
Definition cos (x : Q) : Q :=
  let x := round12 (reduce x) in round12 (series 14 (x * x) 1 0 1).

(** Terms of the arctangent series [t - t^3/3 + t^5/5 - ...]. *)
Fixpoint atan_series (n : nat) (t2 pow : Q) (k : Z) (acc : Q) : Q :=
  match n with
  | O => acc
  | S n' =>
      let pow' := round12 (- pow * t2) in
      atan_series n' t2 pow' (k + 2) (acc + pow' / inject_Z (k + 2))
  end.

Definition half_angle (t : Q) : Q := round12 (t / (1 + sqrt (1 + t * t))).

(** Arctangent on [0, 1], through two half-angle reductions. *)
Definition atan01 (t : Q) : Q :=
  let t := half_angle (half_angle t) in
  round12 (4 * atan_series 12 (t * t) t 1 t).

Definition atan_pos (t : Q) : Q :=
  if Qle_bool t 1 then atan01 t else PI / 2 - atan01 (/ t).

Definition atan (t : Q) : Q := if Qltb t 0 then - atan_pos (- t) else atan_pos t.

Definition atan2 (y x : Q) : Q :=
  if Qltb 0 x then atan (y / x)
  else if Qltb x 0 then (if Qltb y 0 then atan (y / x) - PI else atan (y / x) + PI)
  else if Qltb 0 y then PI / 2 else if Qltb y 0 then - (PI / 2) else 0.

Definition hypot (x y : Q) : Q := sqrt (x * x + y * y).
Definition radians (d : Q) : Q := d * PI / 180.
End Approx.

Definition approx_libm : Libm :=
  {| cos := Approx.cos; sin := Approx.sin; atan2 := Approx.atan2;
     hypot := Approx.hypot; radians := Approx.radians |}.


(** ** The arena of the source and a few concrete situations *)

(** [build_level] *)
Definition build_level : list (Rect.t * Z) :=
  let seg := WORLD_W / 5 in
  [ (Rect.mk 60 (WORLD_H * 0.86) (WORLD_W - 120) 40, TILE_SOLID);
    (Rect.mk 0 0 40 WORLD_H, TILE_SOLID);
    (Rect.mk (WORLD_W - 40) 0 40 WORLD_H, TILE_SOLID);
    (Rect.mk (seg * 0.6) (WORLD_H * 0.70) (seg * 1.0) 18, TILE_THIN);
    (Rect.mk (seg * 2.0) (WORLD_H * 0.62) (seg * 1.0) 18, TILE_SOLID);
    (Rect.mk (seg * 3.2) (WORLD_H * 0.54) (seg * 1.0) 18, TILE_THIN);
    (Rect.mk (seg * 1.0) (WORLD_H * 0.44) (seg * 0.9) 18, TILE_THIN);
    (Rect.mk (seg * 2.6) (WORLD_H * 0.36) (seg * 0.9) 18, TILE_THIN);
    (Rect.mk (seg * 1.6) (WORLD_H * 0.26) (seg * 0.8) 18, TILE_THIN);
    (Rect.mk (seg * 3.6) (WORLD_H * 0.22) (seg * 0.8) 18, TILE_THIN) ].

(** [build_windzones] *)
Definition build_windzones : list WindZone.t :=
  let floor_y := WORLD_H * 0.86 in
  let top_margin := 120 in
  let height := floor_y - top_margin in
  [ WindZone.mk (Rect.mk (WORLD_W * 0.35) (floor_y - 180) 120 180) 1800;
    WindZone.mk (Rect.mk (WORLD_W * 0.62) (floor_y - 220) 120 220) 1600;
    WindZone.mk (Rect.mk 80 top_margin 140 height) 2300;
    WindZone.mk (Rect.mk (WORLD_W - 220) top_margin 140 height) 2300 ].

(** [build_teleports] *)
Definition build_teleports : list Teleport.t :=
  let a := Rect.mk (WORLD_W * 0.15) (WORLD_H * 0.40 - 24) 36 60 in
  let b := Rect.mk (WORLD_W * 0.85 - 36) (WORLD_H * 0.32 - 24) 36 60 in
  let floor_y := WORLD_H * 0.86 in
  let c := Rect.mk (WORLD_W * 0.50 - 18) (floor_y - 64) 36 60 in
  let d := Rect.mk (WORLD_W * 0.50 - 18) (WORLD_H * 0.22 - 60) 36 60 in
  [ Teleport.mk a (Rect.x b + Rect.w b + 20, Rect.y b + Rect.h b);
    Teleport.mk b (Rect.x a - 20, Rect.y a + Rect.h a);
    Teleport.mk c (Rect.x d + Rect.w d + 20, Rect.y d + Rect.h d);
    Teleport.mk d (Rect.x c - 20, Rect.y c + Rect.h c) ].

(** The height of the main floor. *)
Definition FLOOR : Q := 1204.

(** An agent standing on the main floor at abscissa [px], holding [held]. *)
Definition standing (px : Q) (held : option GunEntity.t) : Player.t :=
  Player.set_holding held (Player.set_on_ground true (Player.init px FLOOR)).

(** A weapon in the hand of agent [who], with [n] rounds left. *)
Definition in_hand (g : GunDef.t) (who : nat) (n : Z) : GunEntity.t :=
  GunEntity.set_state "equipped" (GunEntity.set_owner (Some who)
    (GunEntity.init g (0, 0) (Some n) false)).

(** Two agents on the main floor, a hundred units apart; the first holds a
    rocket launcher. *)
Definition duel : list Player.t :=
  [ standing 1000 (Some (in_hand Rocket 0 7)); standing 1100 None ].

(** The rocket that the first agent of [duel] has just fired to its right
    (the projectile that [fire_one] builds at the hand anchor). *)
Definition rocket_shot : Bullet.t :=
  {| Bullet.x := 1000; Bullet.y := 1171.6; Bullet.vx := 720; Bullet.vy := 0;
     Bullet.dmg := 55; Bullet.owner := 0; Bullet.life := 1.2; Bullet.age := 0;
     Bullet.r := 7; Bullet.explosive := true; Bullet.pierce_thin := false;
     Bullet.proximity := 160; Bullet.seek := 0; Bullet.spd := 720 |}.

(** A generator whose every draw is [1/2]. *)
Definition steady_rng : Rng := {| draws := fun _ => 0.5; cursor := 0 |}.

(** The fire input alone, aimed level to the right of an agent that stands
    on the main floor. *)
Definition shoot_right : Inputs.t :=
  Inputs.mk false false false false true false false (Some (2000, 1171.6)).

(** The fire input alone, with no aim key in the record. *)
Definition shoot_blind : Inputs.t :=
  Inputs.mk false false false false true false false None.

(** An agent on the main floor at abscissa 1000 holding [g] with [n] rounds
    left. *)
Definition gunner (g : GunDef.t) (n : Z) : Player.t := standing 1000 (Some (in_hand g 0 n)).

(** The same agent after it has aimed up and to the right, at
    [(1050, 1000)]. *)
Definition gunner_aiming_up (g : GunDef.t) (n : Z) : Player.t :=
  Player.set_last_aim (1050, 1000) (gunner g n).

(** A control record with nothing pressed and no aim key. *)
Definition idle : Inputs.t := Inputs.mk false false false false false false false None.

(** A match in the arena of the source with the given agents, projectiles
    and generator; the clock and the spawn cadence as [reset_match] sets
    them. *)
Definition arena (players : list Player.t) (bullets : list Bullet.t) (rng : Rng) : Game.t :=
  {| Game.level := build_level; Game.windzones := build_windzones; Game.breakables := [];
     Game.teleports := build_teleports; Game.plat_list := spawnable_surfaces build_level;
     Game.players := players; Game.bullets := bullets; Game.beams := []; Game.guns := [];
     Game.time_left := 120; Game.spawn_interval := SPAWN_INTERVAL_START;
     Game.spawn_timer := 0.5;
     Game.respawns := [(WORLD_W * 0.18, WORLD_H * 0.2); (WORLD_W * 0.82, WORLD_H * 0.2);
                       (WORLD_W * 0.5, WORLD_H * 0.2)];
     Game.cam := (0, 0); Game.stuck_timer := 0; Game.dt := 0; Game.rng := rng |}.

(** Successive calls of [Game.update] with the same tick duration; the
    schedule gives, tick by tick, the control record of every agent. *)
Fixpoint Game_run `{Libm} (dt : Q) (schedule : list (nat -> Inputs.t)) (g : Game.t)
  : option Game.t :=
  match schedule with
  | [] => Some g
  | inputs :: rest =>
      match Game_update dt inputs g with
      | Some g' => Game_run dt rest g'
      | None => None
      end
  end.

(** Successive calls of [Game.update], each with its own tick duration and
    control records. *)
Fixpoint Game_play `{Libm} (ticks : list (Q * (nat -> Inputs.t))) (g : Game.t)
  : option Game.t :=
  match ticks with
  | [] => Some g
  | (dt, inputs) :: rest =>
      match Game_update dt inputs g with
      | Some g' => Game_play rest g'
      | None => None
      end
  end.

(** The simulated time that a sequence of ticks spans. *)
Fixpoint elapsed (ticks : list (Q * (nat -> Inputs.t))) : Q :=
  match ticks with
  | [] => 0
  | (dt, _) :: rest => dt + elapsed rest
  end.

(** The first agent fires to its right on the first tick; nothing else is
    pressed for [n] more ticks. *)
Definition fire_then_wait (n : nat) : list (nat -> Inputs.t) :=
  (fun i => if (i =? 0)%nat then shoot_right else idle) :: replicate n (fun _ => idle).

(** The beam that an agent standing at abscissa 1000 casts level to its
    right, [n] sixtieths of a second later. *)
Definition beam_cast_right (n : Z) : Beam.t :=
  Beam.set_age (inject_Z n / 60)
    (@Beam_init approx_libm 0 (1000, 1171.6) 0 build_level 0.35 0.16 38).

(** An agent at abscissa 1100 with 10 health left, holding a full
    shotgun. *)
Definition wounded : Player.t :=
  Player.set_hp 10 (standing 1100 (Some (in_hand Shotgun 1 16))).

(** An agent at abscissa 1100 with a fifth of a second of invulnerability
    left. *)
Definition shielded : Player.t := Player.set_invuln 0.2 (standing 1100 None).

(** *** A volley from the ledge

    The thin platform at height 616 ends at abscissa 912.  The shooter
    stands on its very end, at 925, with a full shotgun; the victim stands
    on the same platform at 860. *)
Definition on_ledge (px : Q) (held : option GunEntity.t) : Player.t :=
  Player.set_holding held (Player.set_on_ground true (Player.init px 616)).

Definition ledge_pair : list Player.t :=
  [ on_ledge 925 (Some (in_hand Shotgun 0 16)); on_ledge 860 None ].

Definition press_down : Inputs.t := Inputs.mk false false true false false false false None.
Definition walk_right : Inputs.t := Inputs.mk false true false false false false false None.
Definition shoot_down : Inputs.t :=
  Inputs.mk false false false false true false false (Some (925, 2000)).

(** The controls of tick [k] (from 1): the victim drops through the
    platform on tick 1 and walks right during ticks 4 to 9 and 15 to 17; the
    shooter fires straight down on tick 5, once. *)
Definition ledge_controls (k i : nat) : Inputs.t :=
  if (i =? 0)%nat then (if (k =? 5)%nat then shoot_down else idle)
  else if (k =? 1)%nat then press_down
  else if ((4 <=? k)%nat && (k <=? 9)%nat) || ((15 <=? k)%nat && (k <=? 17)%nat)
       then walk_right
  else idle.

Definition ledge_schedule (n : nat) : list (nat -> Inputs.t) :=
  map ledge_controls (seq 1 n).

(** A generator whose seventh draw is 0.35 and every other draw 1/2: six
    pellets of the volley leave along the aim and the seventh three degrees
    off. *)
Definition seventh_pellet_wide : Rng :=
  {| draws := fun n => if (n =? 6)%nat then 0.35 else 0.5; cursor := 0 |}.

(** Two pellets of one volley that sit on the victim in the same tick. *)
Definition twin_pellets `{Libm} : list Bullet.t :=
  [ Bullet_init 860 590 0 600 24 0 0.6 3 false false 0 0;
    Bullet_init 862 592 0 600 24 0 0.6 3 false false 0 0 ].

(** What the scenario reads off a state: the health and the hit count of the
    victim, the rounds left in the shooter's weapon and the number of
    projectiles in flight. *)
Definition ledge_report (g : option Game.t)
  : option (Z * nat * option Z * nat) :=
  g ← g;
  shooter ← Game.players g !! 0%nat;
  victim ← Game.players g !! 1%nat;
  Some (Player.hp victim, Player.hits_taken victim,
        GunEntity.ammo <$> Player.holding shooter, length (Game.bullets g)).

(** ** The bot policy *)

Module BotBrain.
(** The state of [BotBrain]: the cooldown of its jumps. *)
Record t : Type := mk { jump_cd : Q }.
End BotBrain.

(** [min(l, key=key) if l else None]: the first element with the least
    key. *)
Definition min_by {A : Type} (key : A -> Q) (l : list A) : option A :=
  match l with
  | [] => None
  | a :: rest =>
      Some (foldl (fun best x => if Qltb (key x) (key best) then x else best) a rest)
  end.

(** The key of both searches of [BotBrain.think]:
    [(o.x - bot.x)**2 + (o.y - bot.y)**2]. *)
Definition sq_dist (bot : Player.t) (ox oy : Q) : Q :=
  (ox - Player.x bot) * (ox - Player.x bot) + (oy - Player.y bot) * (oy - Player.y bot).

(** The jump decision of the bot: when [wants] holds and the cooldown is
    over, one draw decides; a jump resets the cooldown to [cd].  The draw is
    made only when the tests before it pass. *)
Definition bot_jump (wants : bool) (chance cd : Q) (jump_cd : Q) (rng : Rng)
  : bool * Q * Rng :=
  if wants && Qle_bool jump_cd 0 then
    let '(u, rng) := random rng in
    if Qltb u chance then (true, cd, rng) else (false, jump_cd, rng)
  else (false, jump_cd, rng).

(** [BotBrain.think] for the bot of index [self]: the control record, the
    brain and the generator after the call. *)
Definition BotBrain_think (brain : BotBrain.t) (self : nat) (bot : Player.t)
    (players : list Player.t) (guns : list GunEntity.t) (dt : Q) (rng : Rng)
  : Inputs.t * BotBrain.t * Rng :=
  let jump_cd := pymax 0 (BotBrain.jump_cd brain - dt) in
  let enemies := snd <$> List.filter (eligible self) (indexed players) in
  let target := min_by (fun p => sq_dist bot (Player.x p) (Player.y p)) enemies in
  let aim := match target with
             | Some t => (Player.x t, Player.y t - 40)
             | None => (Player.x bot + inject_Z (Player.face bot) * 200, Player.y bot - 40)
             end in
  match Player.holding bot with
  | None =>
      let cands := List.filter (fun g => bool_decide (GunEntity.state g = "ground")) guns in
      match min_by (fun g => sq_dist bot (GunEntity.x g) (GunEntity.y g)) cands with
      | Some near =>
          let left := Qltb (GunEntity.x near) (Player.x bot) in
          let right := Qltb (Player.x bot) (GunEntity.x near) in
          let '(jump, jump_cd, rng) :=
            bot_jump (Qltb (GunEntity.y near) (Player.y bot - 40)) 0.6 0.25 jump_cd rng in
          let rmb := Qltb (Qabs' (GunEntity.x near - Player.x bot)) 56
                     && Qltb (Qabs' (GunEntity.y near - (Player.y bot - Player.h bot))) 84 in
          (Inputs.mk left right false jump false rmb false (Some aim),
           BotBrain.mk jump_cd, rng)
      | None =>
          let '(u, rng) := random rng in
          (Inputs.mk false false false (Qltb u 0.02) false false false (Some aim),
           BotBrain.mk jump_cd, rng)
      end
  | Some _ =>
      match target with
      | Some t =>
          let dx := Player.x t - Player.x bot in
          let far := Qltb 100 (Qabs' dx) in
          let left := far && Qltb dx 0 in
          let right := far && Qltb 0 dx in
          let '(jump, jump_cd, rng) :=
            bot_jump (Qltb 50 (Qabs' (Player.y t - Player.y bot))) 0.25 0.35 jump_cd rng in
          let '(u, rng) := random rng in
          (Inputs.mk left right false jump (Qltb u 0.35) false false (Some aim),
           BotBrain.mk jump_cd, rng)
      | None =>
          (Inputs.mk false false false false false false false (Some aim),
           BotBrain.mk jump_cd, rng)
      end
  end.

(** ** The match: reset and the tick with an override *)

(** [Game.reset_match]: two agents, each handed a random weapon, and the
    clock, the spawn cadence, the respawn points, the camera and the
    anti-stuck timer at their initial values.  The level, the wind zones,
    the breakables, the teleporters and the spawn surfaces are those of
    [Game.__init__] and stay.  The second component is the fresh
    [botbrain]. *)
Definition reset_match (g : Game.t) : option (Game.t * BotBrain.t) :=
  let you := Player.init (WORLD_W * 0.25) (WORLD_H * 0.3) in
  let bot := Player.init (WORLD_W * 0.75) (WORLD_H * 0.3) in
  '(you, rng) ← give_random_weapon you 0 (Game.rng g);
  '(bot, rng) ← give_random_weapon bot 1 rng;
  Some ({| Game.level := Game.level g; Game.windzones := Game.windzones g;
           Game.breakables := Game.breakables g; Game.teleports := Game.teleports g;
           Game.plat_list := Game.plat_list g;
           Game.players := [you; bot]; Game.bullets := []; Game.beams := [];
           Game.guns := [];
           Game.time_left := 120; Game.spawn_interval := SPAWN_INTERVAL_START;
           Game.spawn_timer := 0.5;
           Game.respawns := [(WORLD_W * 0.18, WORLD_H * 0.2); (WORLD_W * 0.82, WORLD_H * 0.2);
                             (WORLD_W * 0.5, WORLD_H * 0.2)];
           Game.cam := (0, 0); Game.stuck_timer := 0; Game.dt := Game.dt g;
           Game.rng := rng |},
        BotBrain.mk 0).

(** [build_breakables] *)
Definition build_breakables : list Breakable.t := [].

(** [Game.__init__], the pygame handles apart: the arena is built and the
    match reset. *)
Definition Game_init (rng : Rng) : option (Game.t * BotBrain.t) :=
  reset_match
    {| Game.level := build_level; Game.windzones := build_windzones;
       Game.breakables := build_breakables; Game.teleports := build_teleports;
       Game.plat_list := spawnable_surfaces build_level;
       Game.players := []; Game.bullets := []; Game.beams := []; Game.guns := [];
       Game.time_left := 0; Game.spawn_interval := 0; Game.spawn_timer := 0;
       Game.respawns := []; Game.cam := (0, 0); Game.stuck_timer := 0; Game.dt := 0;
       Game.rng := rng |}.

Section Override.
Context `{Libm}.

(** What [Game.update] does after its agent loop: guns, projectiles, beams,
    breakables, respawns, anti-stuck and camera. *)
Definition finish_tick (dt : Q) (level_now : list (Rect.t * Z)) (g : Game.t)
  : option Game.t :=
  let g := Game.set_guns (update_guns dt level_now (Game.guns g)) g in
  let '(players, bullets) := update_bullets dt level_now (Game.players g) (Game.bullets g) in
  let g := Game.set_bullets bullets (Game.set_players players g) in
  let '(players, beams) := update_beams dt (Game.players g) (Game.beams g) in
  let g := Game.set_beams beams (Game.set_players players g) in
  let g := Game.set_breakables (tick_breakable dt <$> Game.breakables g) g in
  g ← respawn_players g;
  g ← anti_stuck dt g;
  camera g.

(** One iteration of the agent loop of [Game.update] when
    [override_inputs_first] is given, for the roster of [reset_match]: the
    first agent is driven by the override and every other agent is a bot,
    whose policy is asked just before its own update. *)
Definition update_agent (dt : Q) (override : Inputs.t) (level_now : list (Rect.t * Z))
    (st : Game.t * BotBrain.t) (i : nat) : Game.t * BotBrain.t :=
  let '(g, brain) := st in
  match Game.players g !! i with
  | None => st
  | Some p =>
      let '(inputs, brain, rng) :=
        if (i =? 0)%nat then (override, brain, Game.rng g)
        else BotBrain_think brain i p (Game.players g) (Game.guns g) dt (Game.rng g) in
      let '(p, bullets, guns, beams, rng) :=
        Player_update dt inputs level_now (Game.windzones g) (Game.teleports g) i p
          (Game.bullets g) (Game.guns g) (Game.beams g) rng in
      (Game.set_rng rng (Game.set_beams beams (Game.set_guns guns (Game.set_bullets bullets
         (Game.set_players (<[i := p]> (Game.players g)) g)))), brain)
  end.

(** [Game.update(dt, override_inputs_first=override)]. *)
Definition Game_update_override (dt : Q) (override : Inputs.t) (st : Game.t * BotBrain.t)
  : option (Game.t * BotBrain.t) :=
  let '(g, brain) := st in
  let g := Game.set_dt dt g in
  let g := Game.set_time_left (pymax 0 (Game.time_left g - dt)) g in
  g ← spawn_cadence dt g;
  let level_now := active_level_rects g in
  let '(g, brain) := foldl (update_agent dt override level_now) (g, brain)
                       (seq 0 (length (Game.players g))) in
  g ← finish_tick dt level_now g;
  Some (g, brain).

End Override.

(** ** The environment adapter *)

Definition FPS : Q := 60.

Module GameEnv.
(** The state of the environment that its transition reads and writes: the
    game with its bot brain, the persistent aim target [_aim], and the step
    counter with its bound. *)
Record t : Type := mk {
  game : Game.t;
  botbrain : BotBrain.t;
  aim : Q * Q;
  step_count : Z;
  max_steps : Z
}.
End GameEnv.

(** [GameEnv._action_to_inputs]: the control record of a macro action and
    the aim target after it.  [None] stands for the [IndexError] of the
    read of [players[0]] that opens the method. *)
Definition action_to_inputs (a : Z) (players : list Player.t) (aim : Q * Q)
  : option (Inputs.t * (Q * Q)) :=
  _ ← players !! 0%nat;
  let aim_step := 120 in
  let ax := fst aim in
  let ay := snd aim in
  let ax := if (a =? 8)%Z then ax - aim_step else ax in
  let ax := if (a =? 9)%Z then ax + aim_step else ax in
  let ay := if (a =? 10)%Z then ay - aim_step else ay in
  let ay := if (a =? 11)%Z then ay + aim_step else ay in
  let ax := clamp ax 0 WORLD_W in
  let ay := clamp ay 0 WORLD_H in
  let left := (a =? 1)%Z || (a =? 12)%Z in
  let right := (a =? 2)%Z || (a =? 13)%Z in
  let jump_pressed := (a =? 3)%Z || (a =? 14)%Z in
  let dash_pressed := (a =? 4)%Z || (a =? 15)%Z in
  let drop := (a =? 5)%Z in
  let fire := (a =? 6)%Z || (a =? 12)%Z || (a =? 13)%Z || (a =? 14)%Z || (a =? 15)%Z in
  let pick_throw := (a =? 7)%Z in
  Some (Inputs.mk left right drop jump_pressed fire pick_throw dash_pressed (Some (ax, ay)),
        (ax, ay)).

(** The aim target that [__init__] and [reset] set:
    [(players[0].x + 100, players[0].y - 40)]. *)
Definition initial_aim (players : list Player.t) : option (Q * Q) :=
  you ← players !! 0%nat;
  Some (Player.x you + 100, Player.y you - 40).

(** [GameEnv.__init__], as far as the transition is concerned. *)
Definition GameEnv_init (max_steps : Z) (rng : Rng) : option GameEnv.t :=
  '(g, brain) ← Game_init rng;
  aim ← initial_aim (Game.players g);
  Some (GameEnv.mk g brain aim 0 max_steps).

(** [GameEnv.reset]; [swap] is the outcome of the test [self._rng.random() <
    0.5] on the environment's own generator, which exchanges the abscissae
    of the two agents. *)
Definition GameEnv_reset (swap : bool) (env : GameEnv.t) : option GameEnv.t :=
  '(g, brain) ← reset_match (GameEnv.game env);
  g ← (if swap then
         you ← Game.players g !! 0%nat;
         bot ← Game.players g !! 1%nat;
         Some (Game.set_players
                 (<[1%nat := Player.set_x (Player.x you) bot]>
                    (<[0%nat := Player.set_x (Player.x bot) you]> (Game.players g))) g)
       else Some g);
  aim ← initial_aim (Game.players g);
  Some (GameEnv.mk g brain aim 0 (GameEnv.max_steps env)).

(** [GameEnv.step], its state transition and its two episode flags
    [(terminated, truncated)]: the step counter, the inputs of the action,
    one tick of a sixtieth of a second with the override.  The observation
    vector and the shaped reward that the method also returns are computed
    from the states before and after and change nothing; they are not
    modelled. *)
Definition GameEnv_step `{Libm} (action : Z) (env : GameEnv.t)
  : option (GameEnv.t * bool * bool) :=
  let step_count := (GameEnv.step_count env + 1)%Z in
  let dt := 1 / FPS in
  _ ← Game.players (GameEnv.game env) !! 0%nat;
  _ ← Game.players (GameEnv.game env) !! 1%nat;
  '(inputs, aim) ← action_to_inputs action (Game.players (GameEnv.game env))
                      (GameEnv.aim env);
  '(g, brain) ← Game_update_override dt inputs (GameEnv.game env, GameEnv.botbrain env);
  let truncated := (GameEnv.max_steps env <=? step_count)%Z
                   || Qle_bool (Game.time_left g) 0 in
  Some (GameEnv.mk g brain aim step_count (GameEnv.max_steps env), false, truncated).

(** An episode: the steps of a list of actions, in order. *)
Fixpoint GameEnv_run `{Libm} (actions : list Z) (env : GameEnv.t) : option GameEnv.t :=
  match actions with
  | [] => Some env
  | a :: rest =>
      match GameEnv_step a env with
      | Some (env', _, _) => GameEnv_run rest env'
      | None => None
      end
  end.

(** ** The helpers of the observation and of the reward *)

(** [math.sqrt]. *)
Class MathSqrt : Type := { sqrt : Q -> Q }.

Definition approx_sqrt : MathSqrt := {| sqrt := Approx.sqrt |}.

Section Nearest.
Context `{MathSqrt}.

(** What [_nearest_gun] measures for one gun: the offset from the centre of
    the agent. *)
Definition gun_offset (you : Player.t) (g : GunEntity.t) : Q * Q :=
  (GunEntity.x g - Player.x you, GunEntity.y g - (Player.y you - Player.h you * 0.5)).

Definition norm2 (d : Q * Q) : Q := fst d * fst d + snd d * snd d.

(** The scan of [_nearest_gun]: [best] and [bd2] after the loop. *)
Definition scan_guns (you : Player.t) (guns : list GunEntity.t)
  : option (Q * Q * Q) * Q :=
  foldl (fun (acc : option (Q * Q * Q) * Q) g =>
           if negb (bool_decide (GunEntity.state g = "ground")) then acc
           else
             let d := gun_offset you g in
             let d2 := norm2 d in
             if Qltb d2 (snd acc) then (Some (fst d, snd d, sqrt d2), d2) else acc)
        (None, 1e20) guns.

(** [GameEnv._nearest_gun]. *)
Definition GameEnv_nearest_gun (guns : list GunEntity.t) (you : Player.t) : Q * Q * Q :=
  match fst (scan_guns you guns) with
  | None => (0, 0, 9999)
  | Some best => best
  end.

(** What [_nearest_bullet] measures for one projectile. *)
Definition bullet_offset (you : Player.t) (b : Bullet.t) : Q * Q :=
  (Bullet.x b - Player.x you, Bullet.y b - (Player.y you - Player.h you * 0.5)).

Definition scan_bullets (self : nat) (you : Player.t) (bullets : list Bullet.t)
  : option (Q * Q * Q * Q * Q) * Q :=
  foldl (fun (acc : option (Q * Q * Q * Q * Q) * Q) b =>
           if (Bullet.owner b =? self)%nat then acc
           else
             let d := bullet_offset you b in
             let d2 := norm2 d in
             if Qltb d2 (snd acc)
             then (Some (fst d, snd d, Bullet.vx b, Bullet.vy b, sqrt d2), d2) else acc)
        (None, 1e20) bullets.

(** [GameEnv._nearest_bullet] for the agent [you] of index [self]. *)
Definition GameEnv_nearest_bullet (bullets : list Bullet.t) (self : nat) (you : Player.t)
  : Q * Q * Q * Q * Q :=
  match fst (scan_bullets self you bullets) with
  | None => (0, 0, 0, 0, 9999)
  | Some best => best
  end.

End Nearest.

(** The closure [weapon_engagement_ring] of [step]: the recommended
    engagement distances [(NEAR, FAR)] of the held weapon. *)
Definition weapon_engagement_ring (holding : option GunEntity.t) : Q * Q :=
  match holding with
  | None => (260, 520)
  | Some ent =>
      let name := GunDef.name (GunEntity.gdef ent) in
      if bool_decide (name = "Shotgun") then (140, 300)
      else if bool_decide (name = "SMG") then (200, 420)
      else if bool_decide (name = "Pistol") then (220, 480)
      else if bool_decide (name = "Rifle") then (260, 540)
      else if bool_decide (name = "Sniper") then (380, 900)
      else if bool_decide (name = "Rocket") then (240, 520)
      else if bool_decide (name = "Laser") then (260, 560)
      else (260, 520)
  end.

(** The deviation from the ring that [step] computes twice:
    [0.0 if NEAR <= dist <= FAR else (NEAR - dist if dist < NEAR else dist - FAR)]. *)
Definition ring_deviation (near far dist : Q) : Q :=
  if Qle_bool near dist && Qle_bool dist far then 0
  else if Qltb dist near then near - dist else dist - far.

(** The closure [has_los] of [step]: whether the sample points of the
    segment, twelve units apart, all lie outside the solid rectangles. *)
Definition has_los `{Libm} (level : list (Rect.t * Z)) (ax ay bx by_ : Q) : bool :=
  let dx := bx - ax in
  let dy := by_ - ay in
  let L := pymax 1 (hypot dx dy) in
  let steps := (Qfloor (L / 12) + 1)%Z in
  forallb (fun i : nat =>
             let t := inject_Z (Z.of_nat i) / inject_Z steps in
             let px := ax + dx * t in
             let py := ay + dy * t in
             negb (existsb (fun rt : Rect.t * Z =>
                              (snd rt =? TILE_SOLID)%Z
                              && Qle_bool (Rect.left (fst rt)) px
                              && Qle_bool px (Rect.right (fst rt))
                              && Qle_bool (Rect.top (fst rt)) py
                              && Qle_bool py (Rect.bottom (fst rt))) level))
          (seq 1 (Z.to_nat steps - 1)%nat).

(** ** Vocabulary of the properties *)

(** Two agent lists that agree except, possibly, on kill counters. *)
Definition upto_kos (ps qs : list Player.t) : Prop :=
  Forall2 (fun p q => exists k, q = Player.set_kos k p) ps qs.


(** What the splash loop does to the agent it visits: a living agent
    strictly within 180 units of the blast centre takes an 18-point damage
    call.  The owner of the projectile is not exempted. *)
Definition splash_self (cx cy : Q) (pl : Player.t) : Player.t :=
  if negb (Player.alive pl) then pl
  else
    let dx := fst (centre pl) - cx in
    let dy := snd (centre pl) - cy in
    if Qltb (dx * dx + dy * dy) (180 * 180)
    then Player_damage_self 18 (240 * (if Qle_bool 0 dx then 1 else -1), -160) pl
    else pl.


Definition blast_centre (b : Bullet.t) (center : option (Q * Q)) : Q * Q :=
  match center with None => (Bullet.x b, Bullet.y b) | Some c => c end.



(** The combat state of an agent: everything about it that the movement
    phases of [Player.update] leave alone. *)
Definition combat (p : Player.t)
  : Z * bool * Z * Z * option GunEntity.t * Q * Q * Q * nat :=
  (Player.hp p, Player.alive p, Player.kos p, Player.deaths p, Player.holding p,
   Player.attack_cool p, Player.invuln p, Player.hitlag p, Player.hits_taken p).

(** The number of shots that [fire_weapon] reports. *)
Definition shots_of (g : GunDef.t) : Z :=
  if bool_decide (GunDef.special g = "spread") then Z.max 0 (GunDef.pellet g)
  else if bool_decide (GunDef.special g = "burst3") then 3%Z
  else 1%Z.



(** A damage call, seen from one agent: it is [spared] (nothing of its
    health, invulnerability or hit count changes) or [struck] for some amount
    (it was vulnerable, loses the amount, and is invulnerable for 0.35 s). *)
Definition spared (p p' : Player.t) : Prop :=
  Player.invuln p' = Player.invuln p
  /\ Player.hits_taken p' = Player.hits_taken p
  /\ Player.hp p' = Player.hp p.

Definition struck (amount : Z) (p p' : Player.t) : Prop :=
  Player.invuln p <= 0
  /\ Player.invuln p' = 0.35
  /\ Player.hits_taken p' = S (Player.hits_taken p)
  /\ Player.hp p' = (Player.hp p - amount)%Z.

(** Spared, or struck once for an amount among [amounts]. *)
Definition struck_at_most_once (amounts : Z -> Prop) (p p' : Player.t) : Prop :=
  spared p p' \/ exists a, amounts a /\ struck a p p'.

(** The same, for every agent of a list. *)
Definition each_struck_at_most_once (amounts : Z -> Prop) (ps ps' : list Player.t) : Prop :=
  forall i p, ps !! i = Some p ->
              exists p', ps' !! i = Some p' /\ struck_at_most_once amounts p p'.

(** The amounts one projectile can deal: its own damage on a direct hit,
    18 by splash if it is explosive. *)
Definition bullet_amounts (b : Bullet.t) (a : Z) : Prop :=
  a = Bullet.dmg b \/ (Bullet.explosive b = true /\ a = 18%Z).

(** What one call of [Player.update] does to the invulnerability and the hit
    count of the agent it updates: the timer decays, and the ring-out may
    strike the agent if the decay has brought the timer to zero. *)
Definition decayed_or_ringed (dt : Q) (p p' : Player.t) : Prop :=
  (Player.hits_taken p' = Player.hits_taken p
   /\ Player.invuln p' = pymax 0 (Player.invuln p - dt))
  \/ (Player.hits_taken p' = S (Player.hits_taken p)
      /\ pymax 0 (Player.invuln p - dt) <= 0
      /\ Player.invuln p' = 0.35).

(** What one tick of the game does to the invulnerability and the hit count
    of an agent: no hit, and the timer has decayed or was reset to 0.8 by a
    respawn; or exactly one hit, which needed the decayed timer to be zero
    and leaves a window of 0.35 (0.8 if the hit killed). *)
Definition tick_summary (dt : Q) (p p' : Player.t) : Prop :=
  (Player.hits_taken p' = Player.hits_taken p
   /\ (Player.invuln p' = pymax 0 (Player.invuln p - dt) \/ Player.invuln p' = 0.8))
  \/ (Player.hits_taken p' = S (Player.hits_taken p)
      /\ pymax 0 (Player.invuln p - dt) <= 0
      /\ (Player.invuln p' = 0.35 \/ Player.invuln p' = 0.8)).

(** What the respawn loop does to the invulnerability and the hit count of
    an agent: nothing, or a fresh window of 0.8. *)
Definition revived (p p' : Player.t) : Prop :=
  Player.hits_taken p' = Player.hits_taken p
  /\ (Player.invuln p' = Player.invuln p \/ Player.invuln p' = 0.8).

Section BeamVocabulary.
Context `{Libm}.

(** Whether iteration [i] of the damage loop of [Beam.update] reaches the
    call [pl.damage(...)]. *)
Definition beam_strikes (st : list Player.t * Beam.t) (i : nat) : bool :=
  match st.1 !! i with
  | Some pl => beam_reaches st.2 i pl
  | None => false
  end.

(** The agents on which the damage loop, run over the indices [l] from the
    state [st], calls [damage], in the order of the calls. *)
Fixpoint beam_loop_targets (st : list Player.t * Beam.t) (l : list nat) : list nat :=
  match l with
  | [] => []
  | i :: l' => (if beam_strikes st i then [i] else []) ++ beam_loop_targets (beam_one st i) l'
  end.

(** The agents on which one [Beam.update] calls [damage]. *)
Definition Beam_update_targets (dt : Q) (players : list Player.t) (bm : Beam.t) : list nat :=
  let bm := Beam.set_age (Beam.age bm + dt) bm in
  if Beam.active bm then beam_loop_targets (players, bm) (seq 0 (length players)) else [].

(** The life of one beam: its successive updates, each with the duration of
    the tick and the agents as the rest of the game presents them to that
    update, until an update asks for its removal.  The result lists every
    damage call the beam makes, in order. *)
Fixpoint beam_life (ticks : list (Q * list Player.t)) (bm : Beam.t) : list nat :=
  match ticks with
  | [] => []
  | (dt, players) :: rest =>
      Beam_update_targets dt players bm
      ++ (if (Beam_update dt players bm).2 then beam_life rest (Beam_update dt players bm).1.2
          else [])
  end.

End BeamVocabulary.

(** ** Explosions and the flight of a projectile *)

(** An agent whose centre is strictly within 180 units of the point [c]:
    the test of the splash loop of [Bullet.explode]. *)
Definition in_blast (c : Q * Q) (q : Player.t) : Prop :=
  let dx := fst (centre q) - fst c in
  let dy := snd (centre q) - snd c in
  dx * dx + dy * dy < 180 * 180.

(** What an explosion at [c] does to an agent: a living agent strictly
    within 180 units that is not invulnerable is struck for 18; every other
    agent is spared. *)
Definition blasted (c : Q * Q) (q q' : Player.t) : Prop :=
  (Player.alive q = true -> in_blast c q -> Player.invuln q <= 0 -> struck 18 q q')
  /\ (Player.alive q = false \/ ~ in_blast c q \/ 0 < Player.invuln q -> spared q q').

(** The flight of one projectile: its successive updates, each with the
    duration of the tick, the level and the agents as the rest of the game
    presents them to that update, until an update asks for its removal.  The
    result lists what each update returns. *)
Fixpoint Bullet_flight `{Libm} (ticks : list (Q * list (Rect.t * Z) * list Player.t))
    (b : Bullet.t) : list (list Player.t * Bullet.t * bool) :=
  match ticks with
  | [] => []
  | (dt, level_rects, players) :: rest =>
      let r := Bullet_update dt level_rects players b in
      r :: (if r.2 then Bullet_flight rest r.1.2 else [])
  end.

(** The projectile as it enters the tick that follows [ticks]. *)
Fixpoint Bullet_entering `{Libm} (b : Bullet.t)
    (ticks : list (Q * list (Rect.t * Z) * list Player.t)) : Bullet.t :=
  match ticks with
  | [] => b
  | (dt, level_rects, players) :: rest =>
      Bullet_entering (Bullet_update dt level_rects players b).1.2 rest
  end.

(** After the motion of this tick some living agent other than the owner
    has its centre within the proximity radius of the projectile. *)
Definition near_an_agent `{Libm} (dt : Q) (ps : list Player.t) (b : Bullet.t) : Prop :=
  exists i pl,
    ps !! i = Some pl /\ Player.alive pl = true /\ i <> Bullet.owner b
    /\ (let b' := Bullet_advance dt ps b in
        let dx := Player.x pl - Bullet.x b' in
        let dy := (Player.y pl - Player.h pl * 0.5) - Bullet.y b' in
        dx * dx + dy * dy <= Bullet.proximity b * Bullet.proximity b).

(** The rocket of [rocket_shot] when it is still eighty units behind the
    agent that fired it, and a tick of a sixtieth of a second in the arena
    with the two agents of [duel]: the rocket comes near the second agent in
    its second tick. *)
Definition rocket_from_behind : Bullet.t := Bullet.set_x 920 rocket_shot.
Definition duel_tick : Q * list (Rect.t * Z) * list Player.t := (1 / 60, build_level, duel).

(** ** Vocabulary of the further properties *)

(** The simulated time that the updates of a beam span. *)
Fixpoint beam_span (ticks : list (Q * list Player.t)) : Q :=
  match ticks with
  | [] => 0
  | (dt, _) :: rest => dt + beam_span rest
  end.

(** The air-jump budget of an agent is sound: between nothing and
    [max_air_jumps]. *)
Definition jump_budget (p : Player.t) : Prop :=
  (0 <= Player.air_jumps p <= Player.max_air_jumps p)%Z.

(** From [p] to [q] at most [k] air jumps were spent, the allowance is the
    same, and [q] is within its budget. *)
Definition jumps_spent (k : Z) (p q : Player.t) : Prop :=
  jump_budget q
  /\ Player.max_air_jumps q = Player.max_air_jumps p
  /\ (Player.air_jumps p - k <= Player.air_jumps q)%Z.

(** An agent in mid-air above the main floor, and the jump key alone. *)
Definition airborne : Player.t := Player.init 1000 600.
Definition press_jump : Inputs.t := Inputs.mk false false false true false false false None.

(** The fall of an agent is capped: its vertical speed does not exceed
    [MAX_FALL]. *)
Definition within_terminal (p : Player.t) : Prop := Player.vy p <= MAX_FALL.

(** The flight of a gun: its successive updates, each with the duration of
    the tick and the level as that tick sees it. *)
Fixpoint gun_flight (ticks : list (Q * list (Rect.t * Z))) (e : GunEntity.t) : GunEntity.t :=
  match ticks with
  | [] => e
  | (dt, level_rects) :: rest => gun_flight rest (GunEntity_update dt level_rects e).1
  end.

(** A gun as it is in the hand of agent [self] after a pick-up. *)
Definition equipped_by (self : nat) (g : GunEntity.t) : GunEntity.t :=
  GunEntity.set_state "equipped" (GunEntity.set_owner (Some self) g).

(** What a tick of the game never touches once its clock is set: the arena,
    the respawn points and the clock itself. *)
Definition setting (g : Game.t)
  : list (Rect.t * Z) * list WindZone.t * list Teleport.t * list Rect.t * list (Q * Q)
    * Q * Q :=
  (Game.level g, Game.windzones g, Game.teleports g, Game.plat_list g, Game.respawns g,
   Game.time_left g, Game.dt g).

(** A game that [Game.update] can run: at least the two agents that the
    anti-stuck pass reads, a respawn point to choose from and a surface to
    spawn pickups on. *)
Definition playable (g : Game.t) : Prop :=
  (2 <= length (Game.players g))%nat /\ Game.respawns g <> [] /\ Game.plat_list g <> [].

(** The health of an agent is sound: positive as long as it is alive. *)
Definition sound_health (p : Player.t) : Prop :=
  Player.alive p = true -> (0 < Player.hp p)%Z.

(** The surfaces a pickup can spawn on: the spawn surfaces of the level and
    the breakables that stand. *)
Definition spawn_surfaces (g : Game.t) : list Rect.t :=
  Game.plat_list g
  ++ omap (fun b => if negb (Breakable.down b) then Some (Breakable.rect b) else None)
       (Game.breakables g).

(** A generator whose draws are what [random.random()] promises: numbers of
    [[0, 1)]. *)
Definition unit_draws (r : Rng) : Prop := forall n, 0 <= draws r n /\ draws r n < 1.

(** An environment whose game [step] can run. *)
Definition env_ready (env : GameEnv.t) : Prop := playable (GameEnv.game env).

(** One step of a nearest-object scan, as the loops of [_nearest_gun] and
    [_nearest_bullet] make it: an object that is skipped, or whose key is
    not below the best so far, leaves the best as it is. *)
Definition scan_step {A B : Type} (skip : A -> bool) (key : A -> Q) (pack : A -> B)
    (acc : option B * Q) (a : A) : option B * Q :=
  if skip a then acc
  else if Qltb (key a) (snd acc) then (Some (pack a), key a) else acc.

(** An armed agent with a fifth of a second of hitlag left, a pistol lying
    at the feet of the second agent of [duel], and a match between the two
    agents of [duel]. *)
Definition stunned : Player.t := Player.set_hitlag 0.2 (gunner Pistol 18).
Definition pistol_at_feet : GunEntity.t := GunEntity.init Pistol (1110, 1180) None true.
Definition duel_match : Game.t := arena duel [] steady_rng.

(** * Properties *)

(** ** Comparisons *)

Lemma Qltb_lt (a b : Q) : Qltb a b = true <-> a < b.
Proof.
  unfold Qltb. rewrite negb_true_iff. split.
  - intros Hb. apply Qnot_le_lt. intros Hle.
    apply Qle_bool_iff in Hle. congruence.
  - intros Hlt. destruct (Qle_bool b a) eqn:E; [|reflexivity].
    apply Qle_bool_iff in E. exfalso. exact (Qlt_not_le _ _ Hlt E).
Qed.

Lemma Qltb_ge (a b : Q) : Qltb a b = false <-> b <= a.
Proof.
  unfold Qltb. rewrite negb_false_iff. apply Qle_bool_iff.
Qed.

(** ** C2: damage during the invulnerability window *)

(** C2. For an agent whose invulnerability timer is strictly positive, a
    damage application changes nothing at all: the whole agent list, hence
    the target's health, velocity, hitlag, invulnerability, alive flag and
    death counter and the attacker's kill counter, is exactly as before. *)
Theorem damage_ignored_while_invulnerable
    (players : list Player.t) (i : nat) (p : Player.t) (amount : Z) (knock : Q * Q)
    (attacker : option nat) :
  players !! i = Some p ->
  0 < Player.invuln p ->
  Player_damage players i amount knock attacker = players
  /\ Player_damage_self amount knock p = p.
Proof.
  intros Hi Hinv. apply Qltb_lt in Hinv.
  unfold Player_damage, Player_damage_self. rewrite Hi, Hinv. split; reflexivity.
Qed.

Lemma damage_ignored_while_invulnerable_witness :
  0 < Player.invuln shielded
  /\ Player_damage [standing 1000 None; shielded] 1 55 (200, -120) (Some 0%nat)
     = [standing 1000 None; shielded].
Proof.
  split; [reflexivity|].
  apply (damage_ignored_while_invulnerable [standing 1000 None; shielded] 1%nat shielded
           55%Z (200, -120) (Some 0%nat)).
  - reflexivity.
  - reflexivity.
Defined.

(** ** What a damage call can change *)

Lemma set_kos_id (p : Player.t) : Player.set_kos (Player.kos p) p = p.
Proof. destruct p; reflexivity. Qed.

Lemma upto_kos_refl (ps : list Player.t) : upto_kos ps ps.
Proof.
  apply Forall2_lookup. intros i. destruct (ps !! i) as [p|]; constructor.
  exists (Player.kos p). symmetry. apply set_kos_id.
Qed.

Lemma upto_kos_trans (ps qs rs : list Player.t) :
  upto_kos ps qs -> upto_kos qs rs -> upto_kos ps rs.
Proof.
  unfold upto_kos. intros H1 H2.
  eapply Forall2_trans; [|exact H1|exact H2].
  intros p q r [k1 ->] [k2 ->]. exists k2. reflexivity.
Qed.

Lemma upto_kos_length (ps qs : list Player.t) : upto_kos ps qs -> length ps = length qs.
Proof. apply Forall2_length. Qed.

Lemma upto_kos_lookup (ps qs : list Player.t) (j : nat) (p : Player.t) :
  upto_kos ps qs -> ps !! j = Some p -> exists k, qs !! j = Some (Player.set_kos k p).
Proof.
  intros HF Hj. destruct (Forall2_lookup_l _ _ _ _ _ HF Hj) as (q & Hq & k & ->).
  exists k. exact Hq.
Qed.

Lemma upto_kos_lookup_r (ps qs : list Player.t) (j : nat) (q : Player.t) :
  upto_kos ps qs -> qs !! j = Some q -> exists p k, ps !! j = Some p /\ q = Player.set_kos k p.
Proof.
  intros HF Hj. destruct (Forall2_lookup_r _ _ _ _ _ HF Hj) as (p & Hp & k & ->).
  exists p, k. split; [exact Hp|reflexivity].
Qed.

Lemma upto_kos_alter (ps : list Player.t) (a : nat) : upto_kos ps (alter add_ko a ps).
Proof.
  apply Forall2_lookup. intros j.
  destruct (decide (a = j)) as [->|Hne].
  - rewrite list_lookup_alter_eq.
    destruct (ps !! j) as [p|]; simpl; constructor.
    exists (Player.kos p + 1)%Z. reflexivity.
  - rewrite list_lookup_alter_ne by exact Hne.
    destruct (ps !! j) as [p|]; constructor.
    exists (Player.kos p). symmetry. apply set_kos_id.
Qed.

(** A damage call rewrites its target by [Player_damage_self] and, at most,
    a kill counter elsewhere. *)
Lemma Player_damage_spec (ps : list Player.t) (i : nat) (p : Player.t) (amount : Z)
    (knock : Q * Q) (attacker : option nat) :
  ps !! i = Some p ->
  upto_kos (<[i := Player_damage_self amount knock p]> ps)
           (Player_damage ps i amount knock attacker).
Proof.
  intros Hi. unfold Player_damage, Player_damage_self. rewrite Hi.
  destruct (Qltb 0 (Player.invuln p)).
  - rewrite list_insert_id by exact Hi. apply upto_kos_refl.
  - destruct (Player.hp (Player_hurt amount knock p) <=? 0)%Z; [|apply upto_kos_refl].
    destruct attacker as [a|]; [|apply upto_kos_refl].
    case_bool_decide; [apply upto_kos_refl|apply upto_kos_alter].
Qed.

Lemma Player_damage_absent (ps : list Player.t) (i : nat) (amount : Z) (knock : Q * Q)
    (attacker : option nat) :
  ps !! i = None -> Player_damage ps i amount knock attacker = ps.
Proof. intros Hi. unfold Player_damage. rewrite Hi. reflexivity. Qed.

(** The target is rewritten by [Player_damage_self] whoever the attacker is:
    the kill credit never goes to the victim. *)
Lemma Player_damage_target (ps : list Player.t) (i : nat) (p : Player.t) (amount : Z)
    (knock : Q * Q) (attacker : option nat) :
  ps !! i = Some p ->
  Player_damage ps i amount knock attacker !! i = Some (Player_damage_self amount knock p).
Proof.
  intros Hi. unfold Player_damage, Player_damage_self. rewrite Hi.
  assert (Hlt : (i < length ps)%nat) by (eapply lookup_lt_Some; exact Hi).
  destruct (Qltb 0 (Player.invuln p)); [exact Hi|].
  destruct (Player.hp (Player_hurt amount knock p) <=? 0)%Z.
  - destruct attacker as [a|].
    + case_bool_decide.
      * apply list_lookup_insert_eq. exact Hlt.
      * rewrite list_lookup_alter_ne by congruence.
        apply list_lookup_insert_eq. exact Hlt.
    + apply list_lookup_insert_eq. exact Hlt.
  - apply list_lookup_insert_eq. exact Hlt.
Qed.

Lemma Player_damage_other (ps : list Player.t) (i j : nat) (q : Player.t) (amount : Z)
    (knock : Q * Q) (attacker : option nat) :
  i <> j -> ps !! j = Some q ->
  exists k, Player_damage ps i amount knock attacker !! j = Some (Player.set_kos k q).
Proof.
  intros Hne Hj. destruct (ps !! i) as [p|] eqn:Hi.
  - eapply upto_kos_lookup; [apply Player_damage_spec; exact Hi|].
    rewrite list_lookup_insert_ne by exact Hne. exact Hj.
  - rewrite Player_damage_absent by exact Hi.
    exists (Player.kos q). rewrite set_kos_id. exact Hj.
Qed.

Lemma Player_damage_length (ps : list Player.t) (i : nat) (amount : Z) (knock : Q * Q)
    (attacker : option nat) :
  length (Player_damage ps i amount knock attacker) = length ps.
Proof.
  destruct (ps !! i) as [p|] eqn:Hi.
  - rewrite <- (upto_kos_length _ _ (Player_damage_spec ps i p amount knock attacker Hi)).
    apply length_insert.
  - rewrite Player_damage_absent by exact Hi. reflexivity.
Qed.

Lemma indexed_lookup {A : Type} (l : list A) (i : nat) (a : A) :
  (i, a) ∈ indexed l <-> l !! i = Some a.
Proof.
  unfold indexed. rewrite elem_of_lookup_imap. split.
  - intros (j & b & Heq & Hj). inversion Heq; subst. exact Hj.
  - intros Hi. exists i, a. split; [reflexivity|exact Hi].
Qed.

Lemma find_indexed {A : Type} (f : nat * A -> bool) (l : list A) (i : nat) (a : A) :
  find f (indexed l) = Some (i, a) -> l !! i = Some a /\ f (i, a) = true.
Proof.
  intros Hf. apply find_some in Hf. destruct Hf as [Hin Hfa].
  split; [|exact Hfa]. apply indexed_lookup. apply list_elem_of_In. exact Hin.
Qed.

Lemma existsb_indexed {A : Type} (f : nat * A -> bool) (l : list A) :
  existsb f (indexed l) = true <-> exists i a, l !! i = Some a /\ f (i, a) = true.
Proof.
  rewrite existsb_exists. split.
  - intros ([i a] & Hin & Hf). exists i, a. split; [|exact Hf].
    apply indexed_lookup. apply list_elem_of_In. exact Hin.
  - intros (i & a & Hi & Hf). exists (i, a). split; [|exact Hf].
    apply list_elem_of_In. apply indexed_lookup. exact Hi.
Qed.

(** ** The splash of an explosion *)

Lemma splash_one_length (ow : nat) (cx cy : Q) (ps : list Player.t) (i : nat) :
  length (splash_one ow cx cy ps i) = length ps.
Proof.
  unfold splash_one. destruct (ps !! i) as [pl|]; [|reflexivity].
  destruct (negb (Player.alive pl)); [reflexivity|].
  destruct (Qltb _ _); [apply Player_damage_length|reflexivity].
Qed.

Lemma splash_one_at (ow : nat) (cx cy : Q) (ps : list Player.t) (i : nat) (pl : Player.t) :
  ps !! i = Some pl -> splash_one ow cx cy ps i !! i = Some (splash_self cx cy pl).
Proof.
  intros Hi. unfold splash_one, splash_self. rewrite Hi.
  destruct (negb (Player.alive pl)); [exact Hi|].
  destruct (Qltb _ _); [|exact Hi].
  apply Player_damage_target. exact Hi.
Qed.

Lemma splash_one_other (ow : nat) (cx cy : Q) (ps : list Player.t) (i j : nat) (q : Player.t) :
  i <> j -> ps !! j = Some q ->
  exists k, splash_one ow cx cy ps i !! j = Some (Player.set_kos k q).
Proof.
  intros Hne Hj. unfold splash_one.
  assert (Hid : exists k, ps !! j = Some (Player.set_kos k q))
    by (exists (Player.kos q); rewrite set_kos_id; exact Hj).
  destruct (ps !! i) as [pl|]; [|exact Hid].
  destruct (negb (Player.alive pl)); [exact Hid|].
  destruct (Qltb _ _); [|exact Hid].
  apply Player_damage_other; assumption.
Qed.

Lemma splash_self_set_kos (cx cy : Q) (k : Z) (pl : Player.t) :
  splash_self cx cy (Player.set_kos k pl) = Player.set_kos k (splash_self cx cy pl).
Proof.
  unfold splash_self. simpl.
  destruct (negb (Player.alive pl)); [reflexivity|].
  destruct (Qltb _ _); [|reflexivity].
  unfold Player_damage_self. simpl.
  destruct (Qltb 0 (Player.invuln pl)); [reflexivity|].
  unfold Player_hurt. simpl.
  destruct (Player.hp pl - 18 <=? 0)%Z; reflexivity.
Qed.

(** Folding the splash loop over distinct indices applies [splash_self] to
    the visited agents and leaves the others alone, kill counters apart. *)
Lemma splash_fold_lookup (ow : nat) (cx cy : Q) (l : list nat) :
  NoDup l ->
  forall (ps : list Player.t) (j : nat) (q : Player.t),
    ps !! j = Some q ->
    exists k, foldl (splash_one ow cx cy) ps l !! j
              = Some (Player.set_kos k (if bool_decide (j ∈ l) then splash_self cx cy q else q)).
Proof.
  induction 1 as [|i l Hnotin Hnd IH]; intros ps j q Hj; simpl.
  - exists (Player.kos q). rewrite set_kos_id. exact Hj.
  - destruct (decide (i = j)) as [->|Hne].
    + pose proof (splash_one_at ow cx cy ps j q Hj) as Hat.
      destruct (IH _ _ _ Hat) as [k Hk]. exists k. rewrite Hk.
      rewrite (bool_decide_eq_false_2 (j ∈ l)) by exact Hnotin.
      rewrite bool_decide_eq_true_2 by (left). reflexivity.
    + destruct (splash_one_other ow cx cy ps i j q Hne Hj) as [k1 Hk1].
      destruct (IH _ _ _ Hk1) as [k Hk]. exists k. rewrite Hk.
      destruct (decide (j ∈ l)) as [Hin|Hnin].
      * rewrite !bool_decide_eq_true_2; [|right; exact Hin|exact Hin].
        rewrite splash_self_set_kos. reflexivity.
      * rewrite !bool_decide_eq_false_2; [reflexivity| |exact Hnin].
        intros Hin. apply elem_of_cons in Hin. destruct Hin; [congruence|contradiction].
Qed.

Section ExplodeFacts.
Context `{Libm}.

(** An explosion applies [splash_self] to every agent, kill counters
    apart. *)
Lemma Bullet_explode_lookup (b : Bullet.t) (ps : list Player.t) (center : option (Q * Q))
    (j : nat) (q : Player.t) :
  Bullet.explosive b = true ->
  ps !! j = Some q ->
  exists k, Bullet_explode b ps center !! j
            = Some (Player.set_kos k
                      (splash_self (fst (blast_centre b center)) (snd (blast_centre b center)) q)).
Proof.
  intros Hex Hj. unfold Bullet_explode. rewrite Hex. simpl.
  destruct (blast_centre b center) as [cx cy] eqn:Hc. unfold blast_centre in Hc. rewrite Hc.
  destruct (splash_fold_lookup (Bullet.owner b) cx cy (seq 0 (length ps))
              (NoDup_seq 0 _) ps j q Hj) as [k Hk].
  exists k. rewrite Hk. rewrite bool_decide_eq_true_2; [reflexivity|].
  apply elem_of_seq. apply lookup_lt_Some in Hj. lia.
Qed.

Lemma Bullet_explode_inert (b : Bullet.t) (ps : list Player.t) (center : option (Q * Q)) :
  Bullet.explosive b = false -> Bullet_explode b ps center = ps.
Proof. intros Hex. unfold Bullet_explode. rewrite Hex. reflexivity. Qed.

End ExplodeFacts.

(** ** The owner of a projectile *)

Section OwnerFacts.
Context `{Libm}.

Lemma Bullet_advance_owner (dt : Q) (ps : list Player.t) (b : Bullet.t) :
  Bullet.owner (Bullet_advance dt ps b) = Bullet.owner b
  /\ Bullet.explosive (Bullet_advance dt ps b) = Bullet.explosive b
  /\ Bullet.dmg (Bullet_advance dt ps b) = Bullet.dmg b.
Proof.
  unfold Bullet_advance, Bullet_move, Bullet_seek. simpl.
  destruct (Qltb 0 (Bullet.seek b)); [|repeat split].
  destruct (seek_best _ ps) as [[bx by_]|]; repeat split.
Qed.

Lemma eligible_not_owner (who i : nat) (pl : Player.t) :
  eligible who (i, pl) = true -> i <> who /\ Player.alive pl = true.
Proof.
  unfold eligible. simpl. intros Hb. apply andb_true_iff in Hb. destruct Hb as [Hal Hne].
  split; [|exact Hal]. apply negb_true_iff in Hne. apply Nat.eqb_neq. exact Hne.
Qed.

End OwnerFacts.

(** ** The proximity radius *)

Section Proximity.
Context `{Libm}.

Lemma Bullet_advance_proximity (dt : Q) (ps : list Player.t) (b : Bullet.t) :
  Bullet.proximity (Bullet_advance dt ps b) = Bullet.proximity b.
Proof.
  unfold Bullet_advance, Bullet_move, Bullet_seek. simpl.
  destruct (Qltb 0 (Bullet.seek b)); [|reflexivity].
  destruct (seek_best _ ps) as [[bx by_]|]; reflexivity.
Qed.

End Proximity.

(** ** C3: a beam damages an agent at most once *)

Section BeamOnce.
Context `{Libm}.

(** [beam_strikes] tells exactly when an iteration calls [damage]: then the
    target enters [hit_once]; otherwise the iteration does nothing. *)
Lemma beam_one_strikes (ps : list Player.t) (bm : Beam.t) (i : nat) :
  (beam_strikes (ps, bm) i = true ->
   (i ∉ Beam.hit_once bm)
   /\ beam_one (ps, bm) i
      = (Player_damage ps i (beam_dmg (Beam.owner bm) ps) (cos (Beam.ang bm) * 80, -60)
           (Some (Beam.owner bm)),
         Beam.set_hit_once ({[ i ]} ∪ Beam.hit_once bm) bm))
  /\ (beam_strikes (ps, bm) i = false -> beam_one (ps, bm) i = (ps, bm)).
Proof.
  unfold beam_strikes, beam_one. simpl.
  destruct (ps !! i) as [pl|]; [|split; [discriminate|reflexivity]].
  destruct (beam_reaches bm i pl) eqn:Hr; split; try discriminate; try reflexivity.
  intros _. split; [|reflexivity].
  unfold beam_reaches in Hr. apply andb_true_iff in Hr. destruct Hr as [_ Hr].
  apply negb_true_iff in Hr. apply bool_decide_eq_false in Hr. exact Hr.
Qed.

Lemma beam_loop_once (l : list nat) :
  forall st : list Player.t * Beam.t,
    NoDup (beam_loop_targets st l)
    /\ (forall i, i ∈ beam_loop_targets st l -> i ∉ Beam.hit_once st.2)
    /\ (forall i, i ∈ beam_loop_targets st l -> i ∈ Beam.hit_once (foldl beam_one st l).2)
    /\ Beam.hit_once st.2 ⊆ Beam.hit_once (foldl beam_one st l).2.
Proof.
  induction l as [|j l IH]; intros [ps bm]; cbn [beam_loop_targets foldl].
  - repeat split; [constructor|intros i Hi; inversion Hi|intros i Hi; inversion Hi|done].
  - destruct (IH (beam_one (ps, bm) j)) as (Hnd & Hfresh & Hin & Hsub).
    destruct (beam_one_strikes ps bm j) as [Hyes Hno].
    destruct (beam_strikes (ps, bm) j) eqn:Hs.
    + destruct (Hyes eq_refl) as [Hj Hone]. rewrite Hone in *. simpl in *.
      repeat split.
      * constructor; [|exact Hnd]. intros Hmem. apply Hfresh in Hmem. set_solver.
      * intros i Hi. apply elem_of_cons in Hi. destruct Hi as [->|Hi]; [exact Hj|].
        apply Hfresh in Hi. set_solver.
      * intros i Hi. apply elem_of_cons in Hi. destruct Hi as [->|Hi]; [set_solver|].
        apply Hin. exact Hi.
      * set_solver.
    + rewrite (Hno eq_refl) in *. simpl in *. repeat split; assumption.
Qed.

Lemma Beam_update_once (dt : Q) (ps : list Player.t) (bm : Beam.t) :
  NoDup (Beam_update_targets dt ps bm)
  /\ (forall i, i ∈ Beam_update_targets dt ps bm -> i ∉ Beam.hit_once bm)
  /\ (forall i, i ∈ Beam_update_targets dt ps bm
                -> i ∈ Beam.hit_once (Beam_update dt ps bm).1.2)
  /\ Beam.hit_once bm ⊆ Beam.hit_once (Beam_update dt ps bm).1.2.
Proof.
  unfold Beam_update_targets, Beam_update.
  set (bm1 := Beam.set_age (Beam.age bm + dt) bm).
  destruct (Beam.active bm1).
  - destruct (beam_loop_once (seq 0 (length ps)) (ps, bm1)) as (Hnd & Hfresh & Hin & Hsub).
    destruct (foldl beam_one (ps, bm1) (seq 0 (length ps))) as [ps' bm'] eqn:Hfold.
    simpl in *. repeat split; assumption.
  - simpl. repeat split; [constructor|intros i Hi; inversion Hi|intros i Hi; inversion Hi|done].
Qed.

(** C3. Over the whole life of a beam, however many ticks its active phase
    spans, whatever their durations and whatever the agents do in between,
    no agent receives more than one damage call from it. *)
Theorem beam_damages_each_agent_at_most_once
    (ticks : list (Q * list Player.t)) (bm : Beam.t) (i : nat) :
  (count_occ Nat.eq_dec (beam_life ticks bm) i <= 1)%nat.
Proof.
  assert (Hlife : forall ticks bm,
             NoDup (beam_life ticks bm)
             /\ (forall j, j ∈ beam_life ticks bm -> j ∉ Beam.hit_once bm)).
  { clear. induction ticks as [|[dt ps] rest IH]; intros bm; simpl.
    - split; [constructor|intros j Hj; inversion Hj].
    - destruct (Beam_update_once dt ps bm) as (Hnd & Hfresh & Hin & Hsub).
      destruct (Beam_update dt ps bm).2.
      + destruct (IH (Beam_update dt ps bm).1.2) as [Hnd' Hfresh'].
        split.
        * apply NoDup_app. split; [exact Hnd|]. split; [|exact Hnd'].
          intros j Hj Hj'. apply Hfresh' in Hj'. apply Hin in Hj. contradiction.
        * intros j Hj. apply elem_of_app in Hj. destruct Hj as [Hj|Hj]; [auto|].
          apply Hfresh' in Hj. set_solver.
      + rewrite app_nil_r. split; assumption. }
  destruct (Hlife ticks bm) as [Hnd _]. clear Hlife.
  induction Hnd as [|j l Hnotin Hnd IH]; simpl; [lia|].
  destruct (Nat.eq_dec j i) as [->|Hne]; [|exact IH].
  assert (Hzero : count_occ Nat.eq_dec l i = 0%nat).
  { apply count_occ_not_In. rewrite <- list_elem_of_In. exact Hnotin. }
  lia.
Qed.

End BeamOnce.

(** ** The movement phases leave the combat state alone *)

Lemma combat_move_input (inputs : Inputs.t) (mx : Q) (p : Player.t) :
  combat (move_input inputs mx p) = combat p.
Proof.
  unfold move_input.
  destruct (Inputs.dash inputs && Qle_bool (Player.dash_cd p) 0); simpl.
  - reflexivity.
  - destruct (negb (Player.dashing p)); reflexivity.
Qed.

Lemma combat_jump_input (inputs : Inputs.t) (p : Player.t) :
  combat (jump_input inputs p) = combat p.
Proof.
  unfold jump_input.
  destruct (Inputs.jump_pressed inputs); simpl.
  - destruct (Player.on_ground p || Qltb 0 (Player.coyote p)); [reflexivity|].
    destruct (0 <? Player.air_jumps p)%Z; reflexivity.
  - destruct (Qltb 0 (Player.jump_buf p)); [|reflexivity].
    destruct (Player.on_ground p || Qltb 0 (Player.coyote p)); [reflexivity|].
    destruct (0 <? Player.air_jumps p)%Z; reflexivity.
Qed.

Lemma combat_drop_input (inputs : Inputs.t) (p : Player.t) :
  combat (drop_input inputs p) = combat p.
Proof. unfold drop_input. destruct (_ && _); reflexivity. Qed.

Lemma combat_foldl {A : Type} (f : Player.t -> A -> Player.t) (l : list A) :
  (forall p a, combat (f p a) = combat p) ->
  forall p, combat (foldl f p l) = combat p.
Proof.
  intros Hf. induction l as [|a l IH]; intros p; simpl; [reflexivity|].
  rewrite IH. apply Hf.
Qed.

Lemma combat_apply_gravity (dt : Q) (windzones : list WindZone.t) (p : Player.t) :
  combat (apply_gravity dt windzones p) = combat p.
Proof.
  unfold apply_gravity.
  change (combat (Player.set_vy ?v ?q)) with (combat q).
  rewrite combat_foldl; [reflexivity|].
  intros q wz. destruct (in_windzone q wz); reflexivity.
Qed.

Lemma combat_move_x (dt : Q) (level_rects : list (Rect.t * Z)) (p : Player.t) :
  combat (move_x dt level_rects p) = combat p.
Proof.
  unfold move_x. rewrite combat_foldl; [reflexivity|].
  intros q rt. unfold collide_x.
  destruct (snd rt =? TILE_THIN)%Z; [reflexivity|].
  destruct (Rect.intersects _ _); [|reflexivity].
  destruct (Qltb 0 (Player.vx q)); [reflexivity|].
  destruct (Qltb (Player.vx q) 0); reflexivity.
Qed.

Lemma combat_move_y (dt : Q) (level_rects : list (Rect.t * Z)) (p : Player.t) :
  combat (move_y dt level_rects p) = combat p.
Proof.
  unfold move_y. rewrite combat_foldl; [reflexivity|].
  intros q rt. unfold collide_y.
  destruct (snd rt =? TILE_THIN)%Z.
  - destruct (_ && _); reflexivity.
  - destruct (Rect.intersects _ _); [|reflexivity].
    destruct (Qltb 0 (Player.vy q)); reflexivity.
Qed.

Lemma combat_teleport (teleports : list Teleport.t) (p : Player.t) :
  combat (teleport teleports p) = combat p.
Proof.
  unfold teleport. destruct (Qle_bool (Player.tp_cd p) 0); [|reflexivity].
  destruct (find _ teleports); reflexivity.
Qed.

Lemma combat_steer (dt : Q) (inputs : Inputs.t) (windzones : list WindZone.t)
    (aim : Q * Q) (p : Player.t) :
  combat (steer dt inputs windzones aim p) = combat p.
Proof.
  unfold steer.
  rewrite combat_apply_gravity, combat_drop_input, combat_jump_input, combat_move_input.
  reflexivity.
Qed.

Lemma combat_integrate (dt : Q) (level_rects : list (Rect.t * Z))
    (teleports : list Teleport.t) (mx : Q) (p : Player.t) :
  combat (integrate dt level_rects teleports mx p) = combat p.
Proof.
  unfold integrate. rewrite combat_teleport.
  change (combat (face_aim mx ?q)) with (combat q).
  rewrite combat_move_y, combat_move_x. reflexivity.
Qed.

Lemma combat_fields (p q : Player.t) :
  combat p = combat q ->
  Player.hp p = Player.hp q /\ Player.alive p = Player.alive q
  /\ Player.holding p = Player.holding q /\ Player.attack_cool p = Player.attack_cool q
  /\ Player.invuln p = Player.invuln q /\ Player.hitlag p = Player.hitlag q
  /\ Player.hits_taken p = Player.hits_taken q.
Proof. unfold combat. intros Heq. injection Heq. intros. repeat split; assumption. Qed.

Lemma combat_tuple (p : Player.t) (a : Z) (b : bool) (c d : Z) (e : option GunEntity.t)
    (f g h : Q) (i : nat) :
  combat p = (a, b, c, d, e, f, g, h, i) ->
  Player.hp p = a /\ Player.alive p = b /\ Player.holding p = e
  /\ Player.attack_cool p = f /\ Player.invuln p = g /\ Player.hitlag p = h
  /\ Player.hits_taken p = i.
Proof. unfold combat. intros Heq. injection Heq. intros. repeat split; assumption. Qed.

Lemma pymax_0_nonpos (a : Q) : a <= 0 -> pymax 0 a = 0.
Proof.
  intros Ha. unfold pymax. destruct (Qltb 0 a) eqn:E; [|reflexivity].
  apply Qltb_lt in E. exfalso. exact (Qlt_not_le _ _ E Ha).
Qed.

Lemma pymax_0_pos (a : Q) : 0 < a -> pymax 0 a = a.
Proof. intros Ha. unfold pymax. apply Qltb_lt in Ha. rewrite Ha. reflexivity. Qed.

(** The timer decay changes timers only. *)
Lemma tick_timers_combat (dt : Q) (p : Player.t) :
  combat (tick_timers dt p)
  = (Player.hp p, Player.alive p, Player.kos p, Player.deaths p, Player.holding p,
     pymax 0 (Player.attack_cool p - dt), pymax 0 (Player.invuln p - dt),
     pymax 0 (Player.hitlag p - dt), Player.hits_taken p).
Proof.
  unfold tick_timers. simpl. destruct (Qltb 0 (Player.dash_time p)); reflexivity.
Qed.

(** ** Firing *)

Section Firing.
Context `{Libm}.

Lemma fire_pellets_length (n self : nat) (p : Player.t) (g : GunDef.t) (angle speed : Q) :
  forall (bullets : list Bullet.t) (rng : Rng),
    length (fire_pellets n self p g angle speed bullets rng).1 = (length bullets + n)%nat.
Proof.
  induction n as [|n IH]; intros bullets rng; cbn [fire_pellets]; [simpl; lia|].
  destruct (uniform (- GunDef.spread_deg g) (GunDef.spread_deg g) rng) as [u rng'].
  rewrite IH. rewrite length_app. simpl. lia.
Qed.

Lemma fire_weapon_shots (self : nat) (p : Player.t) (g : GunDef.t) (angle : Q)
    (level_rects : list (Rect.t * Z)) (bullets : list Bullet.t) (beams : list Beam.t)
    (rng : Rng) :
  (fire_weapon self p g angle level_rects bullets beams rng).2 = shots_of g
  /\ (length (fire_weapon self p g angle level_rects bullets beams rng).1.1.1
      + length (fire_weapon self p g angle level_rects bullets beams rng).1.1.2
      = length bullets + length beams
        + (if bool_decide (GunDef.special g = "spread") then Z.to_nat (GunDef.pellet g)
           else if bool_decide (GunDef.special g = "burst3") then 3 else 1))%nat.
Proof.
  unfold fire_weapon, shots_of.
  destruct (bool_decide (GunDef.special g = "spread")).
  { pose proof (fire_pellets_length (Z.to_nat (GunDef.pellet g)) self p g angle
                  (GunDef.speed g * 0.9) bullets rng) as Hlen.
    destruct (fire_pellets _ self p g angle _ bullets rng) as [bs r]. simpl in *.
    split; lia. }
  destruct (bool_decide (GunDef.special g = "burst3")).
  { pose proof (fire_pellets_length 3 self p g angle
                  (GunDef.speed g * 0.95) bullets rng) as Hlen.
    destruct (fire_pellets 3 self p g angle _ bullets rng) as [bs r]. simpl in *.
    split; lia. }
  destruct (bool_decide (GunDef.special g = "sniper"));
    [simpl; rewrite length_app; simpl; split; lia|].
  destruct (bool_decide (GunDef.special g = "rocket"));
    [simpl; rewrite length_app; simpl; split; lia|].
  destruct (bool_decide (GunDef.special g = "beam"));
    simpl; rewrite length_app; simpl; split; lia.
Qed.

(** What [primary] does when the shot goes off. *)
Lemma primary_fires (self : nat) (inputs : Inputs.t) (aim : Q * Q)
    (level_rects : list (Rect.t * Z)) (p : Player.t) (bullets : list Bullet.t)
    (beams : list Beam.t) (rng : Rng) (ent : GunEntity.t) :
  Player.holding p = Some ent ->
  Inputs.attack inputs = true ->
  Player.attack_cool p <= 0 ->
  let g := GunEntity.gdef ent in
  let angle := atan2 (aim.2 - (hand p).2) (aim.1 - Player.x p) in
  let shot := fire_weapon self p g angle level_rects bullets beams rng in
  let r := primary self inputs aim level_rects p bullets beams rng in
  r.1.1.2 = shot.1.1.1 /\ r.1.2 = shot.1.1.2 /\ r.2 = shot.1.2
  /\ Player.holding r.1.1.1
     = (if (GunEntity.ammo ent - shots_of g <=? 0)%Z then None
        else Some (spend_ammo (shots_of g) ent))
  /\ Player.attack_cool r.1.1.1 = GunDef.cooldown g
  /\ Player.hp r.1.1.1 = Player.hp p /\ Player.alive r.1.1.1 = Player.alive p
  /\ Player.invuln r.1.1.1 = Player.invuln p /\ Player.y r.1.1.1 = Player.y p
  /\ Player.hits_taken r.1.1.1 = Player.hits_taken p.
Proof.
  intros Hhold Hatt Hcool. cbv zeta.
  unfold primary. rewrite Hhold, Hatt.
  apply Qle_bool_iff in Hcool. rewrite Hcool. cbn [andb].
  pose proof (fire_weapon_shots self p (GunEntity.gdef ent)
                (atan2 (aim.2 - (hand p).2) (aim.1 - Player.x p))
                level_rects bullets beams rng) as [Hshots _].
  destruct (fire_weapon self p (GunEntity.gdef ent)
              (atan2 (aim.2 - (hand p).2) (aim.1 - Player.x p))
              level_rects bullets beams rng) as [[[bs bms] r'] n].
  cbn [fst snd] in *. subst n.
  change (GunEntity.ammo (spend_ammo (shots_of (GunEntity.gdef ent)) ent))
    with (GunEntity.ammo ent - shots_of (GunEntity.gdef ent))%Z.
  destruct (GunEntity.ammo ent - shots_of (GunEntity.gdef ent) <=? 0)%Z;
    repeat split; reflexivity.
Qed.

End Firing.

Section FiringUpdate.
Context `{Libm}.

(** For a living agent out of hitlag that does not use its secondary
    action, [Player.update] is: decay, steer, integrate, primary fire,
    ring-out. *)
Lemma Player_update_reaches_fire (dt : Q) (inputs : Inputs.t)
    (level_rects : list (Rect.t * Z)) (windzones : list WindZone.t)
    (teleports : list Teleport.t) (self : nat) (p : Player.t) (bullets : list Bullet.t)
    (guns : list GunEntity.t) (beams : list Beam.t) (rng : Rng) :
  Player.alive p = true ->
  Player.hitlag p - dt <= 0 ->
  Inputs.rmb_release inputs = false ->
  let p0 := tick_timers dt p in
  let aim := read_aim inputs p0 in
  let p1 := integrate dt level_rects teleports aim.1 (steer dt inputs windzones aim p0) in
  let r := primary self inputs aim level_rects p1 bullets beams rng in
  Player_update dt inputs level_rects windzones teleports self p bullets guns beams rng
  = (ring_out r.1.1.1, r.1.1.2, guns, r.1.2, r.2)
  /\ combat p1 = combat p0.
Proof.
  intros Hal Hlag Hrmb. cbv zeta.
  pose proof (tick_timers_combat dt p) as Ht.
  pose proof (combat_steer dt inputs windzones (read_aim inputs (tick_timers dt p))
                (tick_timers dt p)) as Hs.
  pose proof (combat_integrate dt level_rects teleports
                (read_aim inputs (tick_timers dt p)).1
                (steer dt inputs windzones (read_aim inputs (tick_timers dt p))
                   (tick_timers dt p))) as Hi.
  split; [|rewrite Hi; exact Hs].
  unfold Player_update.
  destruct (combat_fields _ _ Hs) as (_ & _ & _ & _ & _ & Hlag' & _).
  rewrite Ht in Hs.
  destruct (combat_tuple _ _ _ _ _ _ _ _ _ _ Ht) as (_ & Halive & _ & _ & _ & Hlag0 & _).
  rewrite pymax_0_nonpos in Hlag0 by exact Hlag.
  rewrite Halive, Hal. cbn [negb]. rewrite Hlag', Hlag0.
  change (Qltb 0 0) with false. cbv iota. rewrite Hrmb.
  destruct (primary self inputs _ level_rects _ bullets beams rng) as [[[p2 bs] bms] r'].
  reflexivity.
Qed.

Lemma ring_out_holding (p : Player.t) : Player.holding (ring_out p) = Player.holding p.
Proof.
  unfold ring_out, Player_damage_self, Player_hurt.
  destruct (Qltb (WORLD_H - 4) (Player.y p)); [|reflexivity].
  destruct (Qltb 0 (Player.invuln p)); [reflexivity|]. simpl.
  destruct (Player.hp p - 999 <=? 0)%Z; reflexivity.
Qed.

(** C5. An agent that fires a weapon holding exactly one round is unarmed
    when its update returns, whatever the special mode of the weapon: one
    shot, a pellet volley or a three-round burst.  The shot goes off when
    the agent is alive and out of hitlag, its attack cooldown has elapsed,
    the fire input is set and the secondary action is not used in the same
    tick (that would throw the weapon instead); a [spread] weapon fires at
    least one pellet, as the shotgun of the catalogue does. *)
Theorem last_round_leaves_agent_unarmed (dt : Q) (inputs : Inputs.t)
    (level_rects : list (Rect.t * Z)) (windzones : list WindZone.t)
    (teleports : list Teleport.t) (self : nat) (p : Player.t) (bullets : list Bullet.t)
    (guns : list GunEntity.t) (beams : list Beam.t) (rng : Rng) (ent : GunEntity.t) :
  Player.alive p = true ->
  Player.hitlag p - dt <= 0 ->
  Player.attack_cool p - dt <= 0 ->
  Inputs.attack inputs = true ->
  Inputs.rmb_release inputs = false ->
  Player.holding p = Some ent ->
  GunEntity.ammo ent = 1%Z ->
  (GunDef.special (GunEntity.gdef ent) = "spread" -> (1 <= GunDef.pellet (GunEntity.gdef ent))%Z) ->
  let r := Player_update dt inputs level_rects windzones teleports self p bullets guns
             beams rng in
  Player.holding r.1.1.1.1 = None
  /\ (length bullets + length beams < length r.1.1.1.2 + length r.1.2)%nat.
Proof.
  intros Hal Hlag Hcool Hatt Hrmb Hhold Hammo Hpellet. cbv zeta.
  destruct (Player_update_reaches_fire dt inputs level_rects windzones teleports self p
              bullets guns beams rng Hal Hlag Hrmb) as [Hupd Hcombat].
  rewrite Hupd. cbn [fst snd]. clear Hupd.
  set (p0 := tick_timers dt p) in *.
  set (aim := read_aim inputs p0) in *.
  set (p1 := integrate dt level_rects teleports aim.1 (steer dt inputs windzones aim p0)) in *.
  pose proof (tick_timers_combat dt p) as Ht. fold p0 in Ht.
  rewrite Ht in Hcombat.
  destruct (combat_tuple _ _ _ _ _ _ _ _ _ _ Hcombat) as (_ & _ & Hhold1 & Hcool1 & _).
  rewrite Hhold in Hhold1. rewrite pymax_0_nonpos in Hcool1 by exact Hcool.
  assert (Hcool1' : Player.attack_cool p1 <= 0) by (rewrite Hcool1; apply Qle_refl).
  destruct (primary_fires self inputs aim level_rects p1 bullets beams rng ent
              Hhold1 Hatt Hcool1') as (Hbs & Hbms & _ & Hheld & _).
  pose proof (fire_weapon_shots self p1 (GunEntity.gdef ent)
                (atan2 (aim.2 - (hand p1).2) (aim.1 - Player.x p1))
                level_rects bullets beams rng) as [_ Hlen].
  rewrite ring_out_holding, Hheld, Hbs, Hbms, Hammo.
  assert (Hshots : (1 <= shots_of (GunEntity.gdef ent))%Z).
  { unfold shots_of. case_bool_decide as Hsp; [specialize (Hpellet Hsp); lia|].
    case_bool_decide; lia. }
  split.
  - destruct (1 - shots_of (GunEntity.gdef ent) <=? 0)%Z eqn:E; [reflexivity|].
    apply Z.leb_gt in E. lia.
  - rewrite Hlen. case_bool_decide as Hsp; [specialize (Hpellet Hsp); lia|].
    case_bool_decide; lia.
Qed.

End FiringUpdate.

Lemma last_round_leaves_agent_unarmed_witness :
  Player.holding (gunner Shotgun 1) = Some (in_hand Shotgun 0 1)
  /\ Player.holding
       (@Player_update approx_libm (1 / 60) shoot_right build_level build_windzones
          build_teleports 0 (gunner Shotgun 1) [] [] [] steady_rng).1.1.1.1 = None.
Proof.
  split; [reflexivity|].
  apply (@last_round_leaves_agent_unarmed approx_libm (1 / 60) shoot_right build_level
           build_windzones build_teleports 0%nat (gunner Shotgun 1) [] [] [] steady_rng
           (in_hand Shotgun 0 1)).
  - reflexivity.
  - vm_compute. discriminate.
  - vm_compute. discriminate.
  - reflexivity.
  - reflexivity.
  - reflexivity.
  - reflexivity.
  - intros _. vm_compute. discriminate.
Defined.

(** ** C6: the ammo count is not clamped *)

Section Ammo.
Context `{Libm}.

(** [primary_fired] is [primary] with one more result. *)
Lemma primary_fired_primary (self : nat) (inputs : Inputs.t) (aim : Q * Q)
    (level_rects : list (Rect.t * Z)) (p : Player.t) (bullets : list Bullet.t)
    (beams : list Beam.t) (rng : Rng) :
  (primary_fired self inputs aim level_rects p bullets beams rng).1
  = primary self inputs aim level_rects p bullets beams rng.
Proof.
  unfold primary_fired, primary, spend_ammo.
  destruct (Player.holding p) as [ent|]; [|reflexivity].
  destruct (Inputs.attack inputs && _); [|reflexivity].
  destruct (fire_weapon _ _ _ _ _ _ _ _) as [[[bs bms] r'] shots]. reflexivity.
Qed.

(** [Player_update_fired] is [Player_update] with one more result. *)
Lemma Player_update_fired_update (dt : Q) (inputs : Inputs.t)
    (level_rects : list (Rect.t * Z)) (windzones : list WindZone.t)
    (teleports : list Teleport.t) (self : nat) (p : Player.t) (bullets : list Bullet.t)
    (guns : list GunEntity.t) (beams : list Beam.t) (rng : Rng) :
  (Player_update_fired dt inputs level_rects windzones teleports self p bullets guns beams
     rng).1
  = Player_update dt inputs level_rects windzones teleports self p bullets guns beams rng.
Proof.
  unfold Player_update_fired, Player_update.
  destruct (negb (Player.alive (tick_timers dt p))); [reflexivity|].
  destruct (Qltb 0 (Player.hitlag _)); [reflexivity|].
  destruct (if Inputs.rmb_release inputs then _ else _) as [p2 guns2].
  pose proof (primary_fired_primary self inputs (read_aim inputs (tick_timers dt p))
                level_rects p2 bullets beams rng) as Hp.
  destruct (primary_fired _ _ _ _ p2 _ _ _) as [[[[p3 bs] bms] r'] fired].
  cbn [fst] in Hp. rewrite <- Hp. reflexivity.
Qed.

(** The entity that [primary_fired] returns when the shot goes off. *)
Lemma primary_fired_entity (self : nat) (inputs : Inputs.t) (aim : Q * Q)
    (level_rects : list (Rect.t * Z)) (p : Player.t) (bullets : list Bullet.t)
    (beams : list Beam.t) (rng : Rng) (ent : GunEntity.t) :
  Player.holding p = Some ent ->
  Inputs.attack inputs = true ->
  Player.attack_cool p <= 0 ->
  (primary_fired self inputs aim level_rects p bullets beams rng).2
  = Some (GunEntity.set_ammo (GunEntity.ammo ent - shots_of (GunEntity.gdef ent)) ent).
Proof.
  intros Hhold Hatt Hcool. unfold primary_fired. rewrite Hhold, Hatt.
  apply Qle_bool_iff in Hcool. rewrite Hcool. cbn [andb].
  pose proof (fire_weapon_shots self p (GunEntity.gdef ent)
                (atan2 (aim.2 - (hand p).2) (aim.1 - Player.x p))
                level_rects bullets beams rng) as [Hshots _].
  destruct (fire_weapon self p (GunEntity.gdef ent)
              (atan2 (aim.2 - (hand p).2) (aim.1 - Player.x p))
              level_rects bullets beams rng) as [[[bs bms] r'] n].
  cbn [fst snd] in *. subst n. reflexivity.
Qed.

(** C6 (as amended). When a shot goes off, the count of the fired entity is
    lowered by the number of shots and is not clamped: the entity object
    that the update leaves behind ([Player_update_fired] is [Player_update]
    with that object as one more result) is the held one with that count and
    nothing else changed, negative when fewer rounds were left than shots
    were fired.  The agent keeps the weapon only if at least one round is
    left; a weapon whose count reaches zero or falls below it is let go. *)
Theorem fired_weapon_is_kept_only_with_rounds_left (dt : Q) (inputs : Inputs.t)
    (level_rects : list (Rect.t * Z)) (windzones : list WindZone.t)
    (teleports : list Teleport.t) (self : nat) (p : Player.t) (bullets : list Bullet.t)
    (guns : list GunEntity.t) (beams : list Beam.t) (rng : Rng) (ent : GunEntity.t) :
  Player.alive p = true ->
  Player.hitlag p - dt <= 0 ->
  Player.attack_cool p - dt <= 0 ->
  Inputs.attack inputs = true ->
  Inputs.rmb_release inputs = false ->
  Player.holding p = Some ent ->
  (Player_update_fired dt inputs level_rects windzones teleports self p bullets guns beams
     rng).1
  = Player_update dt inputs level_rects windzones teleports self p bullets guns beams rng
  /\ exists e,
    (Player_update_fired dt inputs level_rects windzones teleports self p bullets guns
       beams rng).2 = Some e
    /\ e = GunEntity.set_ammo (GunEntity.ammo ent - shots_of (GunEntity.gdef ent)) ent
    /\ ((GunEntity.ammo ent < shots_of (GunEntity.gdef ent))%Z -> (GunEntity.ammo e < 0)%Z)
    /\ ((1 <= GunEntity.ammo e)%Z ->
        Player.holding
          (Player_update dt inputs level_rects windzones teleports self p bullets guns
             beams rng).1.1.1.1 = Some e)
    /\ ((GunEntity.ammo e <= 0)%Z ->
        Player.holding
          (Player_update dt inputs level_rects windzones teleports self p bullets guns
             beams rng).1.1.1.1 = None).
Proof.
  intros Hal Hlag Hcool Hatt Hrmb Hhold.
  split; [apply Player_update_fired_update|].
  destruct (Player_update_reaches_fire dt inputs level_rects windzones teleports self p
              bullets guns beams rng Hal Hlag Hrmb) as [Hupd Hcombat].
  set (p0 := tick_timers dt p) in *.
  set (aim := read_aim inputs p0) in *.
  set (p1 := integrate dt level_rects teleports aim.1 (steer dt inputs windzones aim p0)) in *.
  pose proof (tick_timers_combat dt p) as Ht. fold p0 in Ht.
  rewrite Ht in Hcombat.
  destruct (combat_tuple _ _ _ _ _ _ _ _ _ _ Hcombat)
    as (_ & Halive1 & Hhold1 & Hcool1 & _ & Hlag1 & _).
  rewrite Hhold in Hhold1. rewrite pymax_0_nonpos in Hcool1 by exact Hcool.
  rewrite pymax_0_nonpos in Hlag1 by exact Hlag.
  assert (Hcool1' : Player.attack_cool p1 <= 0) by (rewrite Hcool1; apply Qle_refl).
  pose proof (primary_fired_entity self inputs aim level_rects p1 bullets beams rng ent
                Hhold1 Hatt Hcool1') as Hobj.
  destruct (primary_fires self inputs aim level_rects p1 bullets beams rng ent
              Hhold1 Hatt Hcool1') as (_ & _ & _ & Hheld & _).
  exists (GunEntity.set_ammo (GunEntity.ammo ent - shots_of (GunEntity.gdef ent)) ent).
  split; [|split; [reflexivity|split; [|split]]].
  - unfold Player_update_fired. fold p0.
    destruct (combat_tuple _ _ _ _ _ _ _ _ _ _ Ht) as (_ & Halive0 & _).
    rewrite Halive0, Hal. cbn [negb]. fold aim.
    pose proof (combat_steer dt inputs windzones aim p0) as Hs.
    destruct (combat_fields _ _ Hs) as (_ & _ & _ & _ & _ & Hlag' & _).
    destruct (combat_tuple _ _ _ _ _ _ _ _ _ _ Ht) as (_ & _ & _ & _ & _ & Hlag0 & _).
    rewrite pymax_0_nonpos in Hlag0 by exact Hlag.
    rewrite Hlag', Hlag0. change (Qltb 0 0) with false. cbv iota. rewrite Hrmb.
    fold p1.
    destruct (primary_fired self inputs aim level_rects p1 bullets beams rng)
      as [[[[p3 bs] bms] r'] fired].
    cbn [snd] in *. exact Hobj.
  - cbn. lia.
  - intros Hleft. rewrite Hupd. cbn [fst]. rewrite ring_out_holding, Hheld.
    cbn in Hleft.
    destruct (GunEntity.ammo ent - shots_of (GunEntity.gdef ent) <=? 0)%Z eqn:E;
      [apply Z.leb_le in E; lia|reflexivity].
  - intros Hout. rewrite Hupd. cbn [fst]. rewrite ring_out_holding, Hheld.
    cbn in Hout.
    destruct (GunEntity.ammo ent - shots_of (GunEntity.gdef ent) <=? 0)%Z eqn:E;
      [reflexivity|apply Z.leb_gt in E; lia].
Qed.

End Ammo.

Lemma fired_weapon_is_kept_only_with_rounds_left_witness :
  (@Player_update_fired approx_libm (1 / 60) shoot_right build_level build_windzones
     build_teleports 0 (gunner Shotgun 16) [] [] [] steady_rng).2
  = Some (in_hand Shotgun 0 9)
  /\ Player.holding
       (@Player_update approx_libm (1 / 60) shoot_right build_level build_windzones
          build_teleports 0 (gunner Shotgun 16) [] [] [] steady_rng).1.1.1.1
     = Some (in_hand Shotgun 0 9).
Proof.
  destruct (@fired_weapon_is_kept_only_with_rounds_left approx_libm (1 / 60) shoot_right
              build_level build_windzones build_teleports 0%nat (gunner Shotgun 16)
              [] [] [] steady_rng (in_hand Shotgun 0 16))
    as (_ & e & Hobj & He & _ & Hkept & _).
  - reflexivity.
  - vm_compute. discriminate.
  - vm_compute. discriminate.
  - reflexivity.
  - reflexivity.
  - reflexivity.
  - subst e. split; [exact Hobj|]. apply Hkept. vm_compute. discriminate.
Defined.

(** C6 fails as stated: a shotgun with two rounds left fires its seven
    pellets all the same, and the update leaves the fired entity with a
    count of [2 - 7 = -5]; nothing clamps it, the agent just lets go of the
    weapon. *)
Lemma shotgun_volley_overdraws_ammo :
  Player.holding (gunner Shotgun 2) = Some (in_hand Shotgun 0 2)
  /\ GunEntity.ammo
       <$> (@Player_update_fired approx_libm (1 / 60) shoot_right build_level
              build_windzones build_teleports 0 (gunner Shotgun 2) [] [] [] steady_rng).2
     = Some (-5)%Z
  /\ Player.holding
       (@Player_update_fired approx_libm (1 / 60) shoot_right build_level build_windzones
          build_teleports 0 (gunner Shotgun 2) [] [] [] steady_rng).1.1.1.1.1 = None
  /\ length (@Player_update_fired approx_libm (1 / 60) shoot_right build_level
               build_windzones build_teleports 0 (gunner Shotgun 2) [] [] []
               steady_rng).1.1.1.1.2 = 7%nat.
Proof. vm_compute. repeat split; reflexivity. Qed.

(** ** C8: a missing aim point *)

Lemma tick_timers_set_last_aim (dt : Q) (a : Q * Q) (p : Player.t) :
  tick_timers dt (Player.set_last_aim a p) = Player.set_last_aim a (tick_timers dt p).
Proof.
  unfold tick_timers. simpl. destruct (Qltb 0 (Player.dash_time p)); reflexivity.
Qed.

Lemma tick_timers_place (dt : Q) (p : Player.t) :
  Player.x (tick_timers dt p) = Player.x p /\ Player.y (tick_timers dt p) = Player.y p
  /\ Player.face (tick_timers dt p) = Player.face p.
Proof.
  unfold tick_timers. simpl. destruct (Qltb 0 (Player.dash_time p)); repeat split.
Qed.

Lemma set_last_aim_alive (a : Q * Q) (q : Player.t) :
  Player.alive (Player.set_last_aim a q) = Player.alive q.
Proof. reflexivity. Qed.

Lemma read_aim_set_last_aim (inputs : Inputs.t) (a : Q * Q) (q : Player.t) :
  read_aim inputs (Player.set_last_aim a q) = read_aim inputs q.
Proof. reflexivity. Qed.

Lemma steer_set_last_aim (dt : Q) (inputs : Inputs.t) (windzones : list WindZone.t)
    (aim a : Q * Q) (q : Player.t) :
  steer dt inputs windzones aim (Player.set_last_aim a q) = steer dt inputs windzones aim q.
Proof. reflexivity. Qed.

Lemma rmb_release_set_aim (v : option (Q * Q)) (inputs : Inputs.t) :
  Inputs.rmb_release (Inputs.set_aim v inputs) = Inputs.rmb_release inputs.
Proof. reflexivity. Qed.

Lemma read_aim_set_aim (d : Q * Q) (inputs : Inputs.t) (q : Player.t) :
  read_aim (Inputs.set_aim (Some d) inputs) q = d.
Proof. reflexivity. Qed.

Lemma steer_set_aim (dt : Q) (v : option (Q * Q)) (inputs : Inputs.t)
    (windzones : list WindZone.t) (aim : Q * Q) (q : Player.t) :
  steer dt (Inputs.set_aim v inputs) windzones aim q = steer dt inputs windzones aim q.
Proof. reflexivity. Qed.

(** *** The stored aim *)

Lemma last_aim_foldl {A : Type} (f : Player.t -> A -> Player.t) (l : list A) :
  (forall p a, Player.last_aim (f p a) = Player.last_aim p) ->
  forall p, Player.last_aim (foldl f p l) = Player.last_aim p.
Proof.
  intros Hf. induction l as [|a l IH]; intros p; simpl; [reflexivity|].
  rewrite IH. apply Hf.
Qed.

(** Once [steer] has stored the aim, the movement phases leave it alone. *)
Lemma last_aim_steer (dt : Q) (inputs : Inputs.t) (windzones : list WindZone.t)
    (aim : Q * Q) (p : Player.t) :
  Player.last_aim (steer dt inputs windzones aim p) = aim.
Proof.
  unfold steer, apply_gravity.
  change (Player.last_aim (Player.set_vy ?v ?q)) with (Player.last_aim q).
  rewrite last_aim_foldl by (intros q wz; destruct (in_windzone q wz); reflexivity).
  change (Player.last_aim (Player.set_vy ?v ?q)) with (Player.last_aim q).
  unfold drop_input. destruct (_ && _);
    change (Player.last_aim (Player.set_drop_through_timer ?v ?q)) with (Player.last_aim q).
  all: unfold jump_input, move_input;
    repeat match goal with
           | |- context [if ?c then _ else _] => destruct c; cbn
           end; reflexivity.
Qed.

Lemma last_aim_integrate (dt : Q) (level_rects : list (Rect.t * Z))
    (teleports : list Teleport.t) (mx : Q) (p : Player.t) :
  Player.last_aim (integrate dt level_rects teleports mx p) = Player.last_aim p.
Proof.
  unfold integrate, teleport.
  assert (Hm : Player.last_aim (face_aim mx (move_y dt level_rects (move_x dt level_rects p)))
               = Player.last_aim p).
  { change (Player.last_aim (face_aim mx ?q)) with (Player.last_aim q).
    unfold move_y. rewrite last_aim_foldl.
    - change (Player.last_aim (move_x dt level_rects p) = Player.last_aim p).
      unfold move_x. rewrite last_aim_foldl; [reflexivity|].
      intros q rt. unfold collide_x.
      destruct (snd rt =? TILE_THIN)%Z; [reflexivity|].
      destruct (Rect.intersects _ _); [|reflexivity].
      destruct (Qltb 0 (Player.vx q)); [reflexivity|].
      destruct (Qltb (Player.vx q) 0); reflexivity.
    - intros q rt. unfold collide_y.
      destruct (snd rt =? TILE_THIN)%Z.
      + destruct (_ && _); reflexivity.
      + destruct (Rect.intersects _ _); [|reflexivity].
        destruct (Qltb 0 (Player.vy q)); reflexivity. }
  destruct (Qle_bool (Player.tp_cd _) 0); [|exact Hm].
  destruct (find _ teleports); [|exact Hm]. exact Hm.
Qed.

Section Aim.
Context `{Libm}.

Lemma primary_set_aim (self : nat) (v : option (Q * Q)) (inputs : Inputs.t) (aim : Q * Q)
    (level_rects : list (Rect.t * Z)) (q : Player.t) (bullets : list Bullet.t)
    (beams : list Beam.t) (rng : Rng) :
  primary self (Inputs.set_aim v inputs) aim level_rects q bullets beams rng
  = primary self inputs aim level_rects q bullets beams rng.
Proof. reflexivity. Qed.

Lemma last_aim_secondary (self : nat) (aim : Q * Q) (p : Player.t) (guns : list GunEntity.t) :
  Player.last_aim (secondary self aim p guns).1 = Player.last_aim p.
Proof.
  unfold secondary. destruct (Player.holding p) as [ent|]; [reflexivity|].
  destruct (find (can_pick p) (indexed guns)) as [[i g]|]; reflexivity.
Qed.

Lemma last_aim_primary (self : nat) (inputs : Inputs.t) (aim : Q * Q)
    (level_rects : list (Rect.t * Z)) (p : Player.t) (bullets : list Bullet.t)
    (beams : list Beam.t) (rng : Rng) :
  Player.last_aim (primary self inputs aim level_rects p bullets beams rng).1.1.1
  = Player.last_aim p.
Proof.
  unfold primary. destruct (Player.holding p) as [ent|]; [|reflexivity].
  destruct (Inputs.attack inputs && _); [|reflexivity].
  destruct (fire_weapon _ _ _ _ _ _ _ _) as [[[bs bms] r'] shots].
  destruct (GunEntity.ammo _ <=? 0)%Z; reflexivity.
Qed.

Lemma last_aim_ring_out (p : Player.t) : Player.last_aim (ring_out p) = Player.last_aim p.
Proof.
  unfold ring_out, Player_damage_self, Player_hurt.
  destruct (Qltb (WORLD_H - 4) (Player.y p)); [|reflexivity].
  destruct (Qltb 0 (Player.invuln p)); [reflexivity|]. simpl.
  destruct (Player.hp p - 999 <=? 0)%Z; reflexivity.
Qed.

(** The update of a living agent ends with the aim it has read in the
    field [last_aim]. *)
Lemma Player_update_last_aim (dt : Q) (inputs : Inputs.t)
    (level_rects : list (Rect.t * Z)) (windzones : list WindZone.t)
    (teleports : list Teleport.t) (self : nat) (p : Player.t) (bullets : list Bullet.t)
    (guns : list GunEntity.t) (beams : list Beam.t) (rng : Rng) :
  Player.alive p = true ->
  Player.last_aim (Player_update dt inputs level_rects windzones teleports self p bullets
                     guns beams rng).1.1.1.1
  = read_aim inputs (tick_timers dt p).
Proof.
  intros Hal. unfold Player_update.
  pose proof (tick_timers_combat dt p) as Ht.
  destruct (combat_tuple _ _ _ _ _ _ _ _ _ _ Ht) as (_ & Halive & _).
  rewrite Halive, Hal. cbn [negb].
  set (aim := read_aim inputs (tick_timers dt p)).
  destruct (Qltb 0 (Player.hitlag _)); [apply last_aim_steer|].
  destruct (Inputs.rmb_release inputs).
  - pose proof (last_aim_secondary self aim
                  (integrate dt level_rects teleports aim.1
                     (steer dt inputs windzones aim (tick_timers dt p))) guns) as Hs.
    destruct (secondary self aim _ guns) as [p2 guns2]. cbn [fst] in Hs.
    pose proof (last_aim_primary self inputs aim level_rects p2 bullets beams rng) as Hp.
    destruct (primary self inputs aim level_rects p2 bullets beams rng) as [[[p3 bs] bms] r'].
    cbn [fst] in *. rewrite last_aim_ring_out, Hp, Hs, last_aim_integrate.
    apply last_aim_steer.
  - pose proof (last_aim_primary self inputs aim level_rects
                  (integrate dt level_rects teleports aim.1
                     (steer dt inputs windzones aim (tick_timers dt p)))
                  bullets beams rng) as Hp.
    destruct (primary self inputs aim level_rects _ bullets beams rng) as [[[p3 bs] bms] r'].
    cbn [fst] in *. rewrite last_aim_ring_out, Hp, last_aim_integrate.
    apply last_aim_steer.
Qed.

(** C8 (as amended). An input record with no aim point is read as the
    record whose aim is the point 100 units ahead of the agent in its facing
    direction and 40 units above its feet, taken from the position at the
    start of the update; the update of a living agent stores that point in
    the field [last_aim], and it never reads the aim stored by the previous
    update: that field is only overwritten. *)
Theorem missing_aim_is_the_point_ahead (dt : Q) (inputs : Inputs.t)
    (level_rects : list (Rect.t * Z)) (windzones : list WindZone.t)
    (teleports : list Teleport.t) (self : nat) (p : Player.t) (bullets : list Bullet.t)
    (guns : list GunEntity.t) (beams : list Beam.t) (rng : Rng) :
  Inputs.aim inputs = None ->
  Player_update dt inputs level_rects windzones teleports self p bullets guns beams rng
  = Player_update dt
      (Inputs.set_aim (Some (Player.x p + inject_Z (Player.face p) * 100, Player.y p - 40))
         inputs)
      level_rects windzones teleports self p bullets guns beams rng
  /\ (Player.alive p = true ->
      Player.last_aim
        (Player_update dt inputs level_rects windzones teleports self p bullets guns beams
           rng).1.1.1.1
      = (Player.x p + inject_Z (Player.face p) * 100, Player.y p - 40)
      /\ forall a : Q * Q,
           Player_update dt inputs level_rects windzones teleports self
             (Player.set_last_aim a p) bullets guns beams rng
           = Player_update dt inputs level_rects windzones teleports self p bullets guns
               beams rng).
Proof.
  intros Haim. split.
  - unfold Player_update. cbv zeta.
    rewrite rmb_release_set_aim, read_aim_set_aim, steer_set_aim.
    unfold read_aim. rewrite Haim.
    destruct (tick_timers_place dt p) as (-> & -> & ->).
    destruct (negb (Player.alive (tick_timers dt p))); [reflexivity|].
    destruct (Qltb 0 (Player.hitlag _)); [reflexivity|].
    destruct (if Inputs.rmb_release inputs then _ else _) as [p2 guns2].
    rewrite primary_set_aim. reflexivity.
  - intros Hal. split.
    + rewrite Player_update_last_aim by exact Hal.
      unfold read_aim. rewrite Haim.
      destruct (tick_timers_place dt p) as (-> & -> & ->). reflexivity.
    + intros a. unfold Player_update.
      rewrite tick_timers_set_last_aim.
      pose proof (tick_timers_combat dt p) as Ht.
      destruct (combat_tuple _ _ _ _ _ _ _ _ _ _ Ht) as (_ & Halive & _).
      rewrite set_last_aim_alive, Halive, Hal. cbn [negb].
      rewrite read_aim_set_last_aim, steer_set_last_aim.
      reflexivity.
Qed.

End Aim.

Lemma missing_aim_is_the_point_ahead_witness :
  Inputs.aim shoot_blind = None
  /\ @Player_update approx_libm (1 / 60) shoot_blind build_level build_windzones
       build_teleports 0 (gunner_aiming_up Pistol 16) [] [] [] steady_rng
     = @Player_update approx_libm (1 / 60) (Inputs.set_aim (Some (1100, 1164)) shoot_blind)
         build_level build_windzones build_teleports 0 (gunner_aiming_up Pistol 16)
         [] [] [] steady_rng
  /\ Player.last_aim
       (@Player_update approx_libm (1 / 60) shoot_blind build_level build_windzones
          build_teleports 0 (gunner_aiming_up Pistol 16) [] [] [] steady_rng).1.1.1.1
     = (1100, 1164).
Proof.
  split; [reflexivity|].
  destruct (@missing_aim_is_the_point_ahead approx_libm (1 / 60) shoot_blind
              build_level build_windzones build_teleports 0%nat
              (gunner_aiming_up Pistol 16) [] [] [] steady_rng eq_refl) as [Hread Hlive].
  destruct (Hlive eq_refl) as [Hstored _].
  split.
  - rewrite Hread. vm_compute. reflexivity.
  - rewrite Hstored. vm_compute. reflexivity.
Defined.

(** C8 fails as stated: an agent whose last valid aim is [(1050, 1000)], up
    and to the right, fires with no aim key in its input record.  The update
    does not aim at that point: it aims at [(1100, 1164)], the point ahead of
    the agent, stores it over the last aim, and its pistol round leaves
    almost level instead of steeply upwards. *)
Lemma missing_aim_ignores_last_aim :
  Player.last_aim (gunner_aiming_up Pistol 16) = (1050, 1000)
  /\ Player.last_aim
       (@Player_update approx_libm (1 / 60) shoot_blind build_level build_windzones
          build_teleports 0 (gunner_aiming_up Pistol 16) [] [] [] steady_rng).1.1.1.1
     = (1100, 1164)
  /\ (@Player_update approx_libm (1 / 60) shoot_blind build_level build_windzones
        build_teleports 0 (gunner_aiming_up Pistol 16) [] [] [] steady_rng).1.1.1.2
     <> (@Player_update approx_libm (1 / 60) (Inputs.set_aim (Some (1050, 1000)) shoot_blind)
           build_level build_windzones build_teleports 0 (gunner_aiming_up Pistol 16)
           [] [] [] steady_rng).1.1.1.2.
Proof. vm_compute. repeat split; try reflexivity. discriminate. Qed.

(** ** C10: the damage of a beam is read when it lands *)

Lemma Player_hurt_hp (amount : Z) (knock : Q * Q) (p : Player.t) :
  Player.hp (Player_hurt amount knock p) = (Player.hp p - amount)%Z
  /\ Player.holding (Player_hurt amount knock p) = Player.holding p
  /\ Player.invuln (Player_hurt amount knock p) = 0.35
  /\ Player.hits_taken (Player_hurt amount knock p) = S (Player.hits_taken p).
Proof.
  unfold Player_hurt. simpl. destruct (Player.hp p - amount <=? 0)%Z; repeat split.
Qed.


Section BeamDamage.
Context `{Libm}.




End BeamDamage.

Section BeamLands.
Context `{Libm}.


End BeamLands.

Section BeamClaim.
Context `{Libm}.


End BeamClaim.


(** The whole scenario of C10 in the arena: the agent at abscissa 1000
    fires a laser at the agent at 1100 and nobody moves for twenty more
    ticks.  With one round left at the cast the victim ends at 60 health,
    with two rounds left at 30. *)
Lemma last_laser_round_deals_the_fallback :
  (g ← @Game_run approx_libm (1 / 60) (fire_then_wait 20)
         (arena [gunner Laser 1; standing 1100 None] [] steady_rng);
   Player.hp <$> Game.players g !! 1%nat) = Some 60%Z
  /\ (g ← @Game_run approx_libm (1 / 60) (fire_then_wait 20)
            (arena [gunner Laser 2; standing 1100 None] [] steady_rng);
      Player.hp <$> Game.players g !! 1%nat) = Some 30%Z.
Proof. vm_compute. split; reflexivity. Qed.

(** ** C4: a killed agent drops nothing *)

Lemma GunEntity_update_state (dt : Q) (level_rects : list (Rect.t * Z)) (s : GunEntity.t) :
  GunEntity.state (GunEntity_update dt level_rects s).1 = GunEntity.state s
  /\ (GunEntity.state s = "ground" -> GunEntity_update dt level_rects s = (s, true)).
Proof.
  unfold GunEntity_update. case_bool_decide as Hst.
  - split; [reflexivity|]. intros _. reflexivity.
  - split; [|intros Hg; contradiction].
    repeat match goal with
           | |- context [if ?c then _ else _] => destruct c
           end; reflexivity.
Qed.

(** The gun loop adds no ground pickup. *)
Lemma update_guns_ground (dt : Q) (level_rects : list (Rect.t * Z))
    (guns : list GunEntity.t) (e : GunEntity.t) :
  e ∈ update_guns dt level_rects guns -> GunEntity.state e = "ground" -> e ∈ guns.
Proof.
  unfold update_guns. intros Hin Hst.
  apply list_elem_of_omap in Hin. destruct Hin as (gn & Hgn & Hf).
  destruct (GunEntity_update_state dt level_rects gn) as [Hstate Hground].
  destruct (GunEntity_update dt level_rects gn) as [gn' alive] eqn:Hupd.
  cbn [fst] in Hstate.
  destruct (negb alive && negb (GunEntity.spawned_pickup gn')); [discriminate|].
  injection Hf as <-. rewrite Hstate in Hst.
  specialize (Hground Hst). injection Hground as -> _. exact Hgn.
Qed.

Section NoDrop.
Context `{Libm}.

(** The secondary action adds no ground pickup: it removes the weapon it
    picks up, and the weapon it throws is in the tossed state. *)
Lemma secondary_ground (self : nat) (aim : Q * Q) (p : Player.t) (guns : list GunEntity.t)
    (e : GunEntity.t) :
  e ∈ (secondary self aim p guns).2 -> GunEntity.state e = "ground" -> e ∈ guns.
Proof.
  unfold secondary. intros Hin Hst.
  destruct (Player.holding p) as [ent|] eqn:Hhold.
  - cbn [snd] in Hin. apply elem_of_app in Hin. destruct Hin as [Hin|Hin]; [exact Hin|].
    apply list_elem_of_singleton in Hin. subst e. discriminate Hst.
  - destruct (find (can_pick p) (indexed guns)) as [[i g]|].
    + cbn [snd] in Hin. eapply list_elem_of_delete_inv. exact Hin.
    + exact Hin.
Qed.

Lemma Player_update_ground (dt : Q) (inputs : Inputs.t) (level_rects : list (Rect.t * Z))
    (windzones : list WindZone.t) (teleports : list Teleport.t) (self : nat)
    (p : Player.t) (bullets : list Bullet.t) (guns : list GunEntity.t)
    (beams : list Beam.t) (rng : Rng) (e : GunEntity.t) :
  e ∈ (Player_update dt inputs level_rects windzones teleports self p bullets guns beams
         rng).1.1.2 ->
  GunEntity.state e = "ground" -> e ∈ guns.
Proof.
  unfold Player_update. cbv zeta.
  destruct (negb (Player.alive (tick_timers dt p))); [intros Hin _; exact Hin|].
  destruct (Qltb 0 (Player.hitlag _)); [intros Hin _; exact Hin|].
  destruct (Inputs.rmb_release inputs).
  - pose proof (secondary_ground self (read_aim inputs (tick_timers dt p))
                  (integrate dt level_rects teleports (read_aim inputs (tick_timers dt p)).1
                     (steer dt inputs windzones (read_aim inputs (tick_timers dt p))
                        (tick_timers dt p))) guns e) as Hsec.
    destruct (secondary self _ _ guns) as [p2 guns2]. cbn [snd] in Hsec.
    destruct (primary self inputs _ level_rects p2 bullets beams rng) as [[[p3 bs] bms] r'].
    cbn [fst snd]. exact Hsec.
  - destruct (primary self inputs _ level_rects _ bullets beams rng) as [[[p3 bs] bms] r'].
    cbn [fst snd]. intros Hin _. exact Hin.
Qed.

End NoDrop.

Section NoDropGame.
Context `{Libm}.

Lemma update_player_ground (dt : Q) (inputs : nat -> Inputs.t)
    (level_now : list (Rect.t * Z)) (g : Game.t) (i : nat) (e : GunEntity.t) :
  e ∈ Game.guns (update_player dt inputs level_now g i) ->
  GunEntity.state e = "ground" -> e ∈ Game.guns g.
Proof.
  unfold update_player. destruct (Game.players g !! i) as [p|]; [|intros Hin _; exact Hin].
  pose proof (Player_update_ground dt (inputs i) level_now (Game.windzones g)
                (Game.teleports g) i p (Game.bullets g) (Game.guns g) (Game.beams g)
                (Game.rng g) e) as Hpu.
  destruct (Player_update dt (inputs i) level_now (Game.windzones g) (Game.teleports g) i p
              (Game.bullets g) (Game.guns g) (Game.beams g) (Game.rng g))
    as [[[[p' bs] gs] bms] r'].
  cbn [fst snd] in Hpu. exact Hpu.
Qed.

Lemma update_players_ground (dt : Q) (inputs : nat -> Inputs.t)
    (level_now : list (Rect.t * Z)) (e : GunEntity.t) (l : list nat) :
  forall g : Game.t,
    e ∈ Game.guns (foldl (update_player dt inputs level_now) g l) ->
    GunEntity.state e = "ground" -> e ∈ Game.guns g.
Proof.
  induction l as [|i l IH]; intros g Hin Hst; cbn [foldl] in Hin; [exact Hin|].
  eapply update_player_ground; [|exact Hst]. apply IH; [exact Hin|exact Hst].
Qed.

(** The respawn loop touches the agents and the generator only. *)
Lemma respawn_players_guns (g g' : Game.t) :
  respawn_players g = Some g' ->
  Game.guns g' = Game.guns g /\ Game.bullets g' = Game.bullets g
  /\ Game.beams g' = Game.beams g.
Proof.
  unfold respawn_players.
  destruct (foldl _ _ _) as [[players rng]|]; [|discriminate].
  cbn [mbind option_bind]. intros Heq. injection Heq as <-. repeat split.
Qed.

Lemma anti_stuck_guns (dt : Q) (g g' : Game.t) :
  anti_stuck dt g = Some g' -> Game.guns g' = Game.guns g.
Proof.
  unfold anti_stuck.
  destruct (Game.players g !! 0%nat) as [a|]; [|discriminate].
  destruct (Game.players g !! 1%nat) as [b|]; [|discriminate]. cbn [mbind option_bind].
  destruct (Qltb _ 32).
  - destruct (Qle_bool 0 _); intros Heq; injection Heq as <-; reflexivity.
  - intros Heq; injection Heq as <-; reflexivity.
Qed.

Lemma camera_guns (g g' : Game.t) : camera g = Some g' -> Game.guns g' = Game.guns g.
Proof.
  unfold camera. destruct (Game.players g !! 0%nat) as [you|]; [|discriminate]. cbn [mbind option_bind].
  intros Heq; injection Heq as <-; reflexivity.
Qed.

(** The spawn cadence appends at most one pickup to the gun list. *)
Lemma spawn_gun_guns (g g' : Game.t) :
  spawn_gun g = Some g' ->
  exists added, (length added <= 1)%nat /\ Game.guns g' = Game.guns g ++ added.
Proof.
  unfold spawn_gun.
  destruct (MAX_GUNS <=? length (Game.guns g))%nat.
  - intros Heq. injection Heq as <-. exists []. split; [simpl; lia|].
    rewrite app_nil_r. reflexivity.
  - destruct (choice _ (Game.rng g)) as [[r|] rng1]; [|discriminate]. cbn [mbind option_bind].
    destruct (uniform _ _ rng1) as [x rng2].
    destruct (spawn_retry 8 _ _ x _ (Game.guns g) rng2) as [x' rng3].
    destruct (choice GUNS rng3) as [[gdef|] rng4]; [|discriminate]. cbn [mbind option_bind].
    destruct (randint (-2) 2 rng4) as [j rng5].
    intros Heq. injection Heq as <-. eexists [_]. split; [simpl; lia|]. reflexivity.
Qed.

Lemma spawn_cadence_guns (dt : Q) (g g' : Game.t) :
  spawn_cadence dt g = Some g' ->
  exists added, (length added <= 1)%nat /\ Game.guns g' = Game.guns g ++ added.
Proof.
  unfold spawn_cadence.
  assert (Hnil : exists added : list GunEntity.t,
             (length added <= 1)%nat /\ Game.guns g = Game.guns g ++ added).
  { exists []. split; [simpl; lia|]. rewrite app_nil_r. reflexivity. }
  destruct (Qle_bool _ 0).
  - destruct (length _ <? MAX_GUNS)%nat.
    + destruct (spawn_gun (Game.set_spawn_timer (Game.spawn_timer g - dt) g))
        as [g1|] eqn:Hsp; [|discriminate].
      cbn [mbind option_bind]. intros Heq. injection Heq as <-.
      apply spawn_gun_guns in Hsp. exact Hsp.
    + cbn [mbind option_bind]. intros Heq. injection Heq as <-. exact Hnil.
  - intros Heq. injection Heq as <-. exact Hnil.
Qed.

End NoDropGame.

Section NoDropClaim.
Context `{Libm}.

(** C4 (as amended). A killed agent drops nothing.  The respawn empties
    the hand of the agent (before a fresh random weapon is put in it) and no
    step of the tick turns the lost weapon into a pickup: every ground
    pickup of the gun list after a tick was in the list before the tick or
    is the one pickup that the spawn cadence of that tick appended. *)
Theorem killed_agent_drops_no_weapon (dt : Q) (inputs : nat -> Inputs.t) (g g' : Game.t) :
  Game_update dt inputs g = Some g' ->
  (forall pos p, Player.holding (Player_respawn pos p) = None)
  /\ exists added : list GunEntity.t,
       (length added <= 1)%nat
       /\ (exists g1,
             spawn_cadence dt
               (Game.set_time_left (pymax 0 (Game.time_left g - dt)) (Game.set_dt dt g))
             = Some g1
             /\ Game.guns g1 = Game.guns g ++ added)
       /\ forall e, e ∈ Game.guns g' -> GunEntity.state e = "ground" ->
                    e ∈ Game.guns g ++ added.
Proof.
  intros Hupd. split; [intros pos p; reflexivity|].
  unfold Game_update in Hupd. cbv zeta in Hupd.
  destruct (spawn_cadence dt _) as [g1|] eqn:Hc; [|discriminate].
  cbn [mbind option_bind] in Hupd.
  destruct (spawn_cadence_guns dt _ g1 Hc) as (added & Hlen & Hadd).
  exists added. split; [exact Hlen|]. split; [exists g1; split; [reflexivity|exact Hadd]|].
  intros e He Hst.
  destruct (update_bullets dt (active_level_rects g1) _ _) as [ps1 bs1].
  destruct (update_beams dt _ _) as [ps2 bms2].
  destruct (respawn_players _) as [g3|] eqn:Hr; [|discriminate].
  cbn [mbind option_bind] in Hupd.
  destruct (anti_stuck dt g3) as [g4|] eqn:Ha; [|discriminate].
  cbn [mbind option_bind] in Hupd.
  apply camera_guns in Hupd. apply anti_stuck_guns in Ha.
  apply respawn_players_guns in Hr. destruct Hr as [Hr _].
  rewrite Hupd, Ha, Hr in He. cbn [Game.guns Game.set_breakables Game.set_beams
    Game.set_players Game.set_bullets Game.set_guns] in He.
  apply update_guns_ground in He; [|exact Hst].
  unfold update_players in He. apply update_players_ground in He; [|exact Hst].
  rewrite Hadd in He. exact He.
Qed.

End NoDropClaim.

Lemma killed_agent_drops_no_weapon_witness :
  match @Game_update approx_libm (1 / 60) (fun _ => idle)
          (arena [gunner Pistol 18; wounded] [] steady_rng) with
  | Some g' => exists added : list GunEntity.t,
                 (length added <= 1)%nat
                 /\ forall e, e ∈ Game.guns g' -> GunEntity.state e = "ground" ->
                              e ∈ [] ++ added
  | None => False
  end.
Proof.
  destruct (@Game_update approx_libm (1 / 60) (fun _ => idle)
              (arena [gunner Pistol 18; wounded] [] steady_rng)) as [g'|] eqn:E.
  - destruct (@killed_agent_drops_no_weapon approx_libm _ _ _ _ E)
      as [_ (added & Hlen & _ & Hall)].
    exists added. split; [exact Hlen|exact Hall].
  - vm_compute in E. discriminate.
Defined.

(** C4 fails as stated: the agent at abscissa 1000 shoots its pistol at
    [wounded], who holds a shotgun.  After four ticks the victim is still
    alive and armed with it; the round lands in the fifth tick, the victim
    dies and is respawned with another weapon, and the gun list is empty: no
    pickup carries the shotgun. *)
Lemma killed_agent_leaves_no_pickup :
  (g ← @Game_run approx_libm (1 / 60) (fire_then_wait 3)
         (arena [gunner Pistol 18; wounded] [] steady_rng);
   p ← Game.players g !! 1%nat;
   Some (Player.deaths p, Player.holding p))
  = Some (0%Z, Some (in_hand Shotgun 1 16))
  /\ (g ← @Game_run approx_libm (1 / 60) (fire_then_wait 4)
            (arena [gunner Pistol 18; wounded] [] steady_rng);
      p ← Game.players g !! 1%nat;
      Some (Player.deaths p, Game.guns g))
     = Some (1%Z, []).
Proof. vm_compute. split; reflexivity. Qed.

(** ** C9: one damage application per invulnerability window *)

Lemma window_positive : ~ (0.35 <= 0).
Proof. intros Hle. vm_compute in Hle. apply Hle. reflexivity. Qed.

Lemma spared_refl (p : Player.t) : spared p p.
Proof. repeat split. Qed.

Lemma spared_set_kos (k : Z) (p : Player.t) : spared p (Player.set_kos k p).
Proof. repeat split. Qed.

Lemma struck_at_most_once_weaken (P Q : Z -> Prop) (p p' : Player.t) :
  (forall a, P a -> Q a) -> struck_at_most_once P p p' -> struck_at_most_once Q p p'.
Proof.
  intros HPQ [Hs|(a & Ha & Hs)]; [left; exact Hs|right; exists a; auto].
Qed.

(** An agent that has just been struck cannot be struck again before its
    invulnerability decays: two damage passes in a row still strike at most
    once. *)
Lemma struck_at_most_once_trans (P : Z -> Prop) (p q r : Player.t) :
  struck_at_most_once P p q -> struck_at_most_once P q r -> struck_at_most_once P p r.
Proof.
  intros [(Hi1 & Hh1 & Hp1)|(a & Ha & Hle1 & Hi1 & Hh1 & Hp1)]
         [(Hi2 & Hh2 & Hp2)|(b & Hb & Hle2 & Hi2 & Hh2 & Hp2)].
  - left. repeat split; congruence.
  - right. exists b. split; [exact Hb|]. repeat split; congruence.
  - right. exists a. split; [exact Ha|]. repeat split; congruence.
  - exfalso. rewrite Hi1 in Hle2. exact (window_positive Hle2).
Qed.

Lemma each_struck_refl (P : Z -> Prop) (ps : list Player.t) :
  each_struck_at_most_once P ps ps.
Proof. intros i p Hi. exists p. split; [exact Hi|left; apply spared_refl]. Qed.

Lemma each_struck_trans (P : Z -> Prop) (ps qs rs : list Player.t) :
  each_struck_at_most_once P ps qs -> each_struck_at_most_once P qs rs ->
  each_struck_at_most_once P ps rs.
Proof.
  intros H1 H2 i p Hi. destruct (H1 i p Hi) as (q & Hq & Hpq).
  destruct (H2 i q Hq) as (r & Hr & Hqr). exists r. split; [exact Hr|].
  eapply struck_at_most_once_trans; eassumption.
Qed.

Lemma each_struck_weaken (P Q : Z -> Prop) (ps qs : list Player.t) :
  (forall a, P a -> Q a) -> each_struck_at_most_once P ps qs ->
  each_struck_at_most_once Q ps qs.
Proof.
  intros HPQ H1 i p Hi. destruct (H1 i p Hi) as (q & Hq & Hpq). exists q.
  split; [exact Hq|]. eapply struck_at_most_once_weaken; eassumption.
Qed.

(** One damage call on an agent. *)
Lemma Player_damage_self_struck (amount : Z) (knock : Q * Q) (p : Player.t) :
  struck_at_most_once (eq amount) p (Player_damage_self amount knock p)
  /\ (Player.invuln p <= 0 -> struck amount p (Player_damage_self amount knock p)).
Proof.
  unfold Player_damage_self. destruct (Qltb 0 (Player.invuln p)) eqn:Hinv.
  - split; [left; apply spared_refl|]. intros Hle.
    apply Qltb_lt in Hinv. exfalso. exact (Qlt_not_le _ _ Hinv Hle).
  - apply Qltb_ge in Hinv.
    destruct (Player_hurt_hp amount knock p) as (Hhp & _ & Hiv & Hh).
    assert (Hs : struck amount p (Player_hurt amount knock p))
      by (repeat split; assumption).
    split; [right; exists amount; split; [reflexivity|exact Hs]|intros _; exact Hs].
Qed.

(** One damage call on the agent list. *)
Lemma Player_damage_each_struck (ps : list Player.t) (i : nat) (amount : Z) (knock : Q * Q)
    (attacker : option nat) :
  each_struck_at_most_once (eq amount) ps (Player_damage ps i amount knock attacker).
Proof.
  intros j q Hj. destruct (decide (i = j)) as [->|Hne].
  - exists (Player_damage_self amount knock q). split.
    + apply Player_damage_target. exact Hj.
    + apply Player_damage_self_struck.
  - destruct (Player_damage_other ps i j q amount knock attacker Hne Hj) as [k Hk].
    exists (Player.set_kos k q). split; [exact Hk|left; apply spared_set_kos].
Qed.

Lemma struck_at_most_once_set_kos (P : Z -> Prop) (k : Z) (p q : Player.t) :
  struck_at_most_once P p q -> struck_at_most_once P p (Player.set_kos k q).
Proof.
  intros Hs. eapply struck_at_most_once_trans; [exact Hs|]. left. apply spared_set_kos.
Qed.

Lemma splash_self_struck (cx cy : Q) (q : Player.t) :
  struck_at_most_once (eq 18%Z) q (splash_self cx cy q).
Proof.
  unfold splash_self. destruct (negb (Player.alive q)); [left; apply spared_refl|].
  destruct (Qltb _ _); [|left; apply spared_refl].
  apply Player_damage_self_struck.
Qed.

Section OncePerPass.
Context `{Libm}.

Lemma Bullet_explode_each_struck (b : Bullet.t) (ps : list Player.t)
    (center : option (Q * Q)) :
  each_struck_at_most_once (fun a => Bullet.explosive b = true /\ a = 18%Z) ps
    (Bullet_explode b ps center).
Proof.
  destruct (Bullet.explosive b) eqn:Hex.
  - intros j q Hj.
    destruct (Bullet_explode_lookup b ps center j q Hex Hj) as [k Hk].
    eexists. split; [exact Hk|]. apply struck_at_most_once_set_kos.
    eapply struck_at_most_once_weaken; [|apply splash_self_struck].
    intros a <-. split; reflexivity.
  - rewrite Bullet_explode_inert by exact Hex. apply each_struck_refl.
Qed.

(** One tick of one projectile strikes each agent at most once. *)
Lemma Bullet_update_each_struck (dt : Q) (level_rects : list (Rect.t * Z))
    (ps : list Player.t) (b : Bullet.t) :
  each_struck_at_most_once (bullet_amounts b) ps (Bullet_update dt level_rects ps b).1.1.
Proof.
  destruct (Bullet_advance_owner dt ps b) as (_ & Hexp & Hdmg).
  unfold Bullet_update. set (b' := Bullet_advance dt ps b) in *.
  assert (Hsplash : forall qs c,
             each_struck_at_most_once (bullet_amounts b) qs (Bullet_explode b' qs c)).
  { intros qs c. eapply each_struck_weaken; [|apply Bullet_explode_each_struck].
    intros a [Hex ->]. right. split; [rewrite <- Hexp; exact Hex|reflexivity]. }
  destruct (proximity_trigger b' ps); [apply Hsplash|].
  destruct (existsb (level_blocks b') level_rects); [apply Hsplash|].
  destruct (find (hits_agent b') (indexed ps)) as [[i pl]|]; cbn [fst snd].
  - eapply each_struck_trans; [|apply Hsplash].
    eapply each_struck_weaken; [|apply Player_damage_each_struck].
    intros a <-. left. exact Hdmg.
  - apply each_struck_refl.
Qed.

(** The projectile loop of one tick strikes each agent at most once. *)
Lemma update_bullets_each_struck (dt : Q) (level_rects : list (Rect.t * Z))
    (bullets : list Bullet.t) :
  forall ps : list Player.t,
    each_struck_at_most_once (fun a => exists b, b ∈ bullets /\ bullet_amounts b a) ps
      (update_bullets dt level_rects ps bullets).1.
Proof.
  induction bullets as [|bb rest IH]; intros ps; cbn [update_bullets].
  - apply each_struck_refl.
  - pose proof (Bullet_update_each_struck dt level_rects ps bb) as Hone.
    destruct (Bullet_update dt level_rects ps bb) as [[ps1 bb1] alive].
    cbn [fst snd] in Hone.
    specialize (IH ps1).
    destruct (update_bullets dt level_rects ps1 rest) as [ps2 rest2].
    cbn [fst snd] in *.
    eapply each_struck_trans.
    + eapply each_struck_weaken; [|exact Hone].
      intros a Ha. exists bb. split; [left|exact Ha].
    + eapply each_struck_weaken; [|exact IH].
      intros a (b & Hb & Ha). exists b. split; [right; exact Hb|exact Ha].
Qed.

Lemma beam_one_each_struck (ps : list Player.t) (bm : Beam.t) (i : nat) :
  each_struck_at_most_once (fun _ => True) ps (beam_one (ps, bm) i).1.
Proof.
  destruct (beam_one_strikes ps bm i) as [Hyes Hno].
  destruct (beam_strikes (ps, bm) i).
  - destruct (Hyes eq_refl) as [_ ->]. cbn [fst].
    eapply each_struck_weaken; [|apply Player_damage_each_struck]. intros; exact I.
  - rewrite (Hno eq_refl). apply each_struck_refl.
Qed.

Lemma beam_fold_each_struck (l : list nat) :
  forall (ps : list Player.t) (bm : Beam.t),
    each_struck_at_most_once (fun _ => True) ps (foldl beam_one (ps, bm) l).1.
Proof.
  induction l as [|i l IH]; intros ps bm; cbn [foldl].
  - apply each_struck_refl.
  - pose proof (beam_one_each_struck ps bm i) as Hone.
    destruct (beam_one (ps, bm) i) as [ps1 bm1]. cbn [fst] in Hone.
    eapply each_struck_trans; [exact Hone|apply IH].
Qed.

Lemma Beam_update_each_struck (dt : Q) (ps : list Player.t) (bm : Beam.t) :
  each_struck_at_most_once (fun _ => True) ps (Beam_update dt ps bm).1.1.
Proof.
  unfold Beam_update. destruct (Beam.active _).
  - pose proof (beam_fold_each_struck (seq 0 (length ps)) ps
                  (Beam.set_age (Beam.age bm + dt) bm)) as Hfold.
    destruct (foldl beam_one _ _) as [ps1 bm1]. exact Hfold.
  - apply each_struck_refl.
Qed.

Lemma update_beams_each_struck (dt : Q) (beams : list Beam.t) :
  forall ps : list Player.t,
    each_struck_at_most_once (fun _ => True) ps (update_beams dt ps beams).1.
Proof.
  induction beams as [|bm rest IH]; intros ps; cbn [update_beams].
  - apply each_struck_refl.
  - pose proof (Beam_update_each_struck dt ps bm) as Hone.
    destruct (Beam_update dt ps bm) as [[ps1 bm1] alive]. cbn [fst snd] in Hone.
    specialize (IH ps1). destruct (update_beams dt ps1 rest) as [ps2 rest2].
    cbn [fst snd] in *. eapply each_struck_trans; eassumption.
Qed.

End OncePerPass.

Section OwnUpdate.
Context `{Libm}.

Lemma secondary_combat (self : nat) (aim : Q * Q) (p : Player.t) (guns : list GunEntity.t) :
  Player.invuln (secondary self aim p guns).1 = Player.invuln p
  /\ Player.hits_taken (secondary self aim p guns).1 = Player.hits_taken p
  /\ Player.y (secondary self aim p guns).1 = Player.y p.
Proof.
  unfold secondary. destruct (Player.holding p) as [ent|].
  - repeat split.
  - destruct (find (can_pick p) (indexed guns)) as [[i g]|]; repeat split.
Qed.

Lemma primary_combat (self : nat) (inputs : Inputs.t) (aim : Q * Q)
    (level_rects : list (Rect.t * Z)) (p : Player.t) (bullets : list Bullet.t)
    (beams : list Beam.t) (rng : Rng) :
  Player.invuln (primary self inputs aim level_rects p bullets beams rng).1.1.1
  = Player.invuln p
  /\ Player.hits_taken (primary self inputs aim level_rects p bullets beams rng).1.1.1
     = Player.hits_taken p.
Proof.
  unfold primary. destruct (Player.holding p) as [ent|]; [|repeat split].
  destruct (Inputs.attack inputs && Qle_bool (Player.attack_cool p) 0); [|repeat split].
  destruct (fire_weapon self p (GunEntity.gdef ent) _ level_rects bullets beams rng)
    as [[[bs bms] r'] n].
  destruct (GunEntity.ammo (spend_ammo n ent) <=? 0)%Z; repeat split.
Qed.

Lemma ring_out_struck (p : Player.t) : struck_at_most_once (eq 999%Z) p (ring_out p).
Proof.
  unfold ring_out. destruct (Qltb _ _); [|left; apply spared_refl].
  apply Player_damage_self_struck.
Qed.

(** [Player.update] decays the invulnerability of its agent and strikes it
    at most once, by ring-out. *)
Lemma Player_update_window (dt : Q) (inputs : Inputs.t) (level_rects : list (Rect.t * Z))
    (windzones : list WindZone.t) (teleports : list Teleport.t) (self : nat)
    (p : Player.t) (bullets : list Bullet.t) (guns : list GunEntity.t)
    (beams : list Beam.t) (rng : Rng) :
  decayed_or_ringed dt p
    (Player_update dt inputs level_rects windzones teleports self p bullets guns beams
       rng).1.1.1.1.
Proof.
  unfold Player_update. cbv zeta.
  pose proof (tick_timers_combat dt p) as Ht.
  destruct (combat_tuple _ _ _ _ _ _ _ _ _ _ Ht) as (_ & _ & _ & _ & Hiv0 & _ & Hh0).
  destruct (negb (Player.alive (tick_timers dt p))).
  { left. cbn [fst]. split; assumption. }
  pose proof (combat_steer dt inputs windzones (read_aim inputs (tick_timers dt p))
                (tick_timers dt p)) as Hs.
  destruct (combat_fields _ _ Hs) as (_ & _ & _ & _ & Hiv1 & _ & Hh1).
  destruct (Qltb 0 (Player.hitlag _)).
  { left. cbn [fst]. split; congruence. }
  pose proof (combat_integrate dt level_rects teleports
                (read_aim inputs (tick_timers dt p)).1
                (steer dt inputs windzones (read_aim inputs (tick_timers dt p))
                   (tick_timers dt p))) as Hi.
  destruct (combat_fields _ _ Hi) as (_ & _ & _ & _ & Hiv2 & _ & Hh2).
  set (p2 := integrate dt level_rects teleports _ _) in *.
  assert (Hsec : exists p3 guns3,
             (if Inputs.rmb_release inputs
              then secondary self (read_aim inputs (tick_timers dt p)) p2 guns
              else (p2, guns)) = (p3, guns3)
             /\ Player.invuln p3 = Player.invuln p2
             /\ Player.hits_taken p3 = Player.hits_taken p2).
  { destruct (Inputs.rmb_release inputs).
    - destruct (secondary_combat self (read_aim inputs (tick_timers dt p)) p2 guns)
        as (Ha & Hb & _).
      destruct (secondary self _ p2 guns) as [p3 guns3]. exists p3, guns3.
      repeat split; assumption.
    - exists p2, guns. repeat split. }
  destruct Hsec as (p3 & guns3 & -> & Hiv3 & Hh3).
  destruct (primary_combat self inputs (read_aim inputs (tick_timers dt p)) level_rects
              p3 bullets beams rng) as [Hiv4 Hh4].
  destruct (primary self inputs _ level_rects p3 bullets beams rng) as [[[p4 bs] bms] r'].
  cbn [fst snd] in *.
  assert (Hiv : Player.invuln p4 = pymax 0 (Player.invuln p - dt)) by congruence.
  assert (Hh : Player.hits_taken p4 = Player.hits_taken p) by congruence.
  destruct (ring_out_struck p4) as [(Ha & Hb & _)|(a & _ & Hle & Hb & Hc & _)].
  - left. split; congruence.
  - right. repeat split; congruence.
Qed.

End OwnUpdate.

Section OncePerTick.
Context `{Libm}.

Lemma spawn_gun_players (g g' : Game.t) :
  spawn_gun g = Some g' -> Game.players g' = Game.players g.
Proof.
  unfold spawn_gun.
  destruct (MAX_GUNS <=? length (Game.guns g))%nat.
  - intros Heq. injection Heq as <-. reflexivity.
  - destruct (choice _ (Game.rng g)) as [[r|] rng1]; [|discriminate].
    cbn [mbind option_bind].
    destruct (uniform _ _ rng1) as [x rng2].
    destruct (spawn_retry 8 _ _ x _ (Game.guns g) rng2) as [x' rng3].
    destruct (choice GUNS rng3) as [[gdef|] rng4]; [|discriminate].
    cbn [mbind option_bind].
    destruct (randint (-2) 2 rng4) as [j rng5].
    intros Heq. injection Heq as <-. reflexivity.
Qed.

Lemma spawn_cadence_players (dt : Q) (g g' : Game.t) :
  spawn_cadence dt g = Some g' -> Game.players g' = Game.players g.
Proof.
  unfold spawn_cadence. destruct (Qle_bool _ 0).
  - destruct (length _ <? MAX_GUNS)%nat.
    + destruct (spawn_gun (Game.set_spawn_timer (Game.spawn_timer g - dt) g))
        as [g1|] eqn:Hsp; [|discriminate].
      cbn [mbind option_bind]. intros Heq. injection Heq as <-.
      apply spawn_gun_players in Hsp. exact Hsp.
    + cbn [mbind option_bind]. intros Heq. injection Heq as <-. reflexivity.
  - intros Heq. injection Heq as <-. reflexivity.
Qed.

Lemma update_player_lookup (dt : Q) (inputs : nat -> Inputs.t)
    (level_now : list (Rect.t * Z)) (g : Game.t) (j i : nat) (q : Player.t) :
  Game.players g !! i = Some q ->
  exists q', Game.players (update_player dt inputs level_now g j) !! i = Some q'
             /\ (if decide (j = i) then decayed_or_ringed dt q q' else q' = q).
Proof.
  intros Hi. unfold update_player.
  destruct (decide (j = i)) as [->|Hne].
  - rewrite Hi.
    pose proof (Player_update_window dt (inputs i) level_now (Game.windzones g)
                  (Game.teleports g) i q (Game.bullets g) (Game.guns g) (Game.beams g)
                  (Game.rng g)) as Hw.
    destruct (Player_update dt (inputs i) level_now (Game.windzones g) (Game.teleports g)
                i q (Game.bullets g) (Game.guns g) (Game.beams g) (Game.rng g))
      as [[[[p' bs] gs] bms] r'].
    cbn [fst snd] in Hw. exists p'. split; [|exact Hw].
    cbn [Game.players Game.set_rng Game.set_beams Game.set_guns Game.set_bullets
           Game.set_players].
    apply list_lookup_insert_eq. eapply lookup_lt_Some. exact Hi.
  - exists q. split; [|reflexivity].
    destruct (Game.players g !! j) as [p|]; [|exact Hi].
    destruct (Player_update dt (inputs j) level_now (Game.windzones g) (Game.teleports g)
                j p (Game.bullets g) (Game.guns g) (Game.beams g) (Game.rng g))
      as [[[[p' bs] gs] bms] r'].
    cbn [Game.players Game.set_rng Game.set_beams Game.set_guns Game.set_bullets
           Game.set_players].
    rewrite list_lookup_insert_ne by exact Hne. exact Hi.
Qed.

Lemma update_players_fold_lookup (dt : Q) (inputs : nat -> Inputs.t)
    (level_now : list (Rect.t * Z)) (i : nat) (l : list nat) :
  NoDup l ->
  forall (g : Game.t) (q : Player.t),
    Game.players g !! i = Some q ->
    exists q', Game.players (foldl (update_player dt inputs level_now) g l) !! i = Some q'
               /\ (if decide (i ∈ l) then decayed_or_ringed dt q q' else q' = q).
Proof.
  induction 1 as [|j l Hnotin Hnd IH]; intros g q Hi; cbn [foldl].
  - exists q. split; [exact Hi|]. destruct (decide (i ∈ [])) as [Hin|_]; [|reflexivity].
    inversion Hin.
  - destruct (update_player_lookup dt inputs level_now g j i q Hi) as (q1 & Hq1 & Hrel1).
    destruct (IH _ _ Hq1) as (q2 & Hq2 & Hrel2). exists q2. split; [exact Hq2|].
    destruct (decide (j = i)) as [->|Hne].
    + destruct (decide (i ∈ l)) as [Hin|_]; [contradiction|]. subst q2.
      destruct (decide (i ∈ i :: l)) as [_|Hout]; [exact Hrel1|].
      exfalso. apply Hout. left.
    + subst q1. destruct (decide (i ∈ l)) as [Hin|Hout].
      * destruct (decide (i ∈ j :: l)) as [_|Hout]; [exact Hrel2|].
        exfalso. apply Hout. right. exact Hin.
      * destruct (decide (i ∈ j :: l)) as [Hin|_]; [|exact Hrel2].
        apply elem_of_cons in Hin. destruct Hin as [Heq|Hin]; [congruence|contradiction].
Qed.

Lemma update_players_lookup (dt : Q) (inputs : nat -> Inputs.t)
    (level_now : list (Rect.t * Z)) (g : Game.t) (i : nat) (q : Player.t) :
  Game.players g !! i = Some q ->
  exists q', Game.players (update_players dt inputs level_now g) !! i = Some q'
             /\ decayed_or_ringed dt q q'.
Proof.
  intros Hi. unfold update_players.
  destruct (update_players_fold_lookup dt inputs level_now i (seq 0 (length (Game.players g)))
              (NoDup_seq 0 _) g q Hi) as (q' & Hq' & Hrel).
  exists q'. split; [exact Hq'|].
  destruct (decide (i ∈ seq 0 (length (Game.players g)))) as [_|Hout]; [exact Hrel|].
  exfalso. apply Hout. apply elem_of_seq. apply lookup_lt_Some in Hi. lia.
Qed.

End OncePerTick.

Lemma revived_refl (p : Player.t) : revived p p.
Proof. split; [reflexivity|left; reflexivity]. Qed.

Lemma revived_trans (p q r : Player.t) : revived p q -> revived q r -> revived p r.
Proof.
  intros [Hh1 Hi1] [Hh2 Hi2]. split; [congruence|].
  destruct Hi2 as [Hi2|Hi2]; [|right; exact Hi2].
  destruct Hi1 as [Hi1|Hi1]; [left|right]; congruence.
Qed.

Lemma give_random_weapon_combat (p p' : Player.t) (self : nat) (rng rng' : Rng) :
  give_random_weapon p self rng = Some (p', rng') ->
  Player.invuln p' = Player.invuln p /\ Player.hits_taken p' = Player.hits_taken p.
Proof.
  unfold give_random_weapon. destruct (choice GUNS rng) as [[gdef|] r1]; [|discriminate].
  cbn [mbind option_bind]. intros Heq. injection Heq as <- _. split; reflexivity.
Qed.

Lemma respawn_player_lookup (respawns : list (Q * Q)) (ps ps' : list Player.t)
    (rng rng' : Rng) (j i : nat) (q : Player.t) :
  respawn_player respawns (Some (ps, rng)) j = Some (ps', rng') ->
  ps !! i = Some q ->
  exists q', ps' !! i = Some q' /\ revived q q'.
Proof.
  unfold respawn_player. cbn [mbind option_bind]. intros Hstep Hi.
  assert (Hsame : forall r, Some (ps, rng) = Some (ps', r) ->
                            exists q', ps' !! i = Some q' /\ revived q q').
  { intros r Heq. injection Heq as <- _. exists q. split; [exact Hi|apply revived_refl]. }
  destruct (ps !! j) as [p|] eqn:Hj; [|apply (Hsame _ Hstep)].
  destruct (negb (Player.alive p)); [|apply (Hsame _ Hstep)].
  destruct (choice respawns rng) as [[pos|] r1]; [|discriminate].
  cbn [mbind option_bind] in Hstep.
  destruct (give_random_weapon (Player_respawn pos p) j r1) as [[p1 r2]|] eqn:Hgive;
    [|discriminate].
  cbn [mbind option_bind] in Hstep. injection Hstep as <- _.
  destruct (decide (j = i)) as [->|Hne].
  - exists p1. split.
    + apply list_lookup_insert_eq. eapply lookup_lt_Some. exact Hi.
    + rewrite Hj in Hi. injection Hi as <-.
      destruct (give_random_weapon_combat _ _ _ _ _ Hgive) as [Hiv Hh].
      split; [rewrite Hh; reflexivity|right; rewrite Hiv; reflexivity].
  - exists q. split; [|apply revived_refl].
    rewrite list_lookup_insert_ne by exact Hne. exact Hi.
Qed.

Lemma respawn_fold_None (respawns : list (Q * Q)) (l : list nat) :
  foldl (respawn_player respawns) None l = None.
Proof. induction l as [|j l IH]; [reflexivity|exact IH]. Qed.

Lemma respawn_fold_lookup (respawns : list (Q * Q)) (i : nat) (l : list nat) :
  forall (ps ps' : list Player.t) (rng rng' : Rng) (q : Player.t),
    foldl (respawn_player respawns) (Some (ps, rng)) l = Some (ps', rng') ->
    ps !! i = Some q ->
    exists q', ps' !! i = Some q' /\ revived q q'.
Proof.
  induction l as [|j l IH]; intros ps ps' rng rng' q Hfold Hi; cbn [foldl] in Hfold.
  - injection Hfold as <- _. exists q. split; [exact Hi|apply revived_refl].
  - destruct (respawn_player respawns (Some (ps, rng)) j) as [[ps1 rng1]|] eqn:Hstep.
    + destruct (respawn_player_lookup _ _ _ _ _ _ _ _ Hstep Hi) as (q1 & Hq1 & Hr1).
      destruct (IH _ _ _ _ _ Hfold Hq1) as (q2 & Hq2 & Hr2).
      exists q2. split; [exact Hq2|]. eapply revived_trans; eassumption.
    + rewrite respawn_fold_None in Hfold. discriminate.
Qed.

Section RespawnAndRest.
Context `{Libm}.

Lemma respawn_players_lookup (g g' : Game.t) (i : nat) (q : Player.t) :
  respawn_players g = Some g' ->
  Game.players g !! i = Some q ->
  exists q', Game.players g' !! i = Some q' /\ revived q q'.
Proof.
  unfold respawn_players. intros Hr Hi.
  destruct (foldl _ _ _) as [[players rng]|] eqn:Hfold; [|discriminate].
  cbn [mbind option_bind] in Hr. injection Hr as <-.
  exact (respawn_fold_lookup _ i _ _ _ _ _ q Hfold Hi).
Qed.

Lemma anti_stuck_lookup (dt : Q) (g g' : Game.t) (i : nat) (q : Player.t) :
  anti_stuck dt g = Some g' ->
  Game.players g !! i = Some q ->
  exists q', Game.players g' !! i = Some q' /\ revived q q'.
Proof.
  unfold anti_stuck. intros Ha Hi.
  destruct (Game.players g !! 0%nat) as [a|] eqn:H0; [|discriminate].
  destruct (Game.players g !! 1%nat) as [b|] eqn:H1; [|discriminate].
  cbn [mbind option_bind] in Ha.
  destruct (Qltb _ 32).
  - assert (Hgen : forall a' b' : Player.t,
               Player.invuln a' = Player.invuln a -> Player.hits_taken a' = Player.hits_taken a ->
               Player.invuln b' = Player.invuln b -> Player.hits_taken b' = Player.hits_taken b ->
               exists q', <[1%nat := b']> (<[0%nat := a']> (Game.players g)) !! i = Some q'
                          /\ revived q q').
    { intros a' b' Ha1 Ha2 Hb1 Hb2.
      assert (Hlen : (i < length (Game.players g))%nat) by (eapply lookup_lt_Some; exact Hi).
      destruct (decide (i = 1%nat)) as [->|Hn1].
      - exists b'. split; [apply list_lookup_insert_eq; rewrite length_insert; exact Hlen|].
        rewrite H1 in Hi. injection Hi as <-. split; [exact Hb2|left; exact Hb1].
      - rewrite list_lookup_insert_ne by congruence.
        destruct (decide (i = 0%nat)) as [->|Hn0].
        + exists a'. split; [apply list_lookup_insert_eq; exact Hlen|].
          rewrite H0 in Hi. injection Hi as <-. split; [exact Ha2|left; exact Ha1].
        + rewrite list_lookup_insert_ne by congruence.
          exists q. split; [exact Hi|apply revived_refl]. }
    destruct (Qle_bool 0 _); injection Ha as <-; apply Hgen; reflexivity.
  - injection Ha as <-. exists q. split; [exact Hi|apply revived_refl].
Qed.

Lemma camera_players (g g' : Game.t) : camera g = Some g' -> Game.players g' = Game.players g.
Proof.
  unfold camera. destruct (Game.players g !! 0%nat) as [you|]; [|discriminate].
  cbn [mbind option_bind]. intros Heq; injection Heq as <-; reflexivity.
Qed.

End RespawnAndRest.

Lemma decayed_then_struck (P : Z -> Prop) (dt : Q) (p q r : Player.t) :
  decayed_or_ringed dt p q -> struck_at_most_once P q r -> decayed_or_ringed dt p r.
Proof.
  intros [(Hh1 & Hi1)|(Hh1 & Hle1 & Hi1)] [(Hi2 & Hh2 & _)|(a & _ & Hle2 & Hi2 & Hh2 & _)].
  - left. split; congruence.
  - right. repeat split; congruence.
  - right. repeat split; congruence.
  - exfalso. rewrite Hi1 in Hle2. exact (window_positive Hle2).
Qed.

Lemma decayed_then_revived (dt : Q) (p q r : Player.t) :
  decayed_or_ringed dt p q -> revived q r -> tick_summary dt p r.
Proof.
  intros [(Hh1 & Hi1)|(Hh1 & Hle1 & Hi1)] [Hh2 [Hi2|Hi2]].
  - left. split; [congruence|left; congruence].
  - left. split; [congruence|right; exact Hi2].
  - right. repeat split; [congruence|exact Hle1|left; congruence].
  - right. repeat split; [congruence|exact Hle1|right; exact Hi2].
Qed.

Lemma summary_then_revived (dt : Q) (p q r : Player.t) :
  tick_summary dt p q -> revived q r -> tick_summary dt p r.
Proof.
  intros [(Hh1 & Hi1)|(Hh1 & Hle1 & Hi1)] [Hh2 [Hi2|Hi2]].
  - left. split; [congruence|]. destruct Hi1; [left|right]; congruence.
  - left. split; [congruence|right; exact Hi2].
  - right. repeat split; [congruence|exact Hle1|]. destruct Hi1; [left|right]; congruence.
  - right. repeat split; [congruence|exact Hle1|right; exact Hi2].
Qed.

Section TickSummary.
Context `{Libm}.

(** One tick of the game strikes an agent at most once. *)
Lemma Game_update_tick_summary (dt : Q) (inputs : nat -> Inputs.t) (g g' : Game.t)
    (i : nat) (p : Player.t) :
  Game_update dt inputs g = Some g' ->
  Game.players g !! i = Some p ->
  exists p', Game.players g' !! i = Some p' /\ tick_summary dt p p'.
Proof.
  intros Hupd Hi. unfold Game_update in Hupd. cbv zeta in Hupd.
  destruct (spawn_cadence dt _) as [g1|] eqn:Hc; [|discriminate].
  cbn [mbind option_bind] in Hupd.
  apply spawn_cadence_players in Hc.
  cbn [Game.players Game.set_time_left Game.set_dt] in Hc.
  rewrite <- Hc in Hi.
  destruct (update_players_lookup dt inputs (active_level_rects g1) g1 i p Hi)
    as (p1 & Hp1 & Hrel1).
  set (g2 := update_players dt inputs (active_level_rects g1) g1) in *.
  pose proof (update_bullets_each_struck dt (active_level_rects g1)
                (Game.bullets (Game.set_guns
                   (update_guns dt (active_level_rects g1) (Game.guns g2)) g2))
                (Game.players (Game.set_guns
                   (update_guns dt (active_level_rects g1) (Game.guns g2)) g2)))
    as Hbul.
  destruct (update_bullets dt (active_level_rects g1) _ _) as [ps1 bs1].
  cbn [fst] in Hbul.
  destruct (Hbul i p1 Hp1) as (p2 & Hp2 & Hrel2).
  pose proof (decayed_then_struck _ dt p p1 p2 Hrel1 Hrel2) as Hrel12.
  cbn [Game.players Game.set_bullets Game.set_players Game.beams] in Hupd.
  pose proof (update_beams_each_struck dt
                (Game.beams (Game.set_guns
                   (update_guns dt (active_level_rects g1) (Game.guns g2)) g2)) ps1)
    as Hbm.
  destruct (update_beams dt ps1 _) as [ps2 bms2]. cbn [fst] in Hbm.
  destruct (Hbm i p2 Hp2) as (p3 & Hp3 & Hrel3).
  pose proof (decayed_then_struck _ dt p p2 p3 Hrel12 Hrel3) as Hrel123.
  destruct (respawn_players _) as [g3|] eqn:Hr; [|discriminate].
  cbn [mbind option_bind] in Hupd.
  destruct (anti_stuck dt g3) as [g4|] eqn:Ha; [|discriminate].
  cbn [mbind option_bind] in Hupd.
  apply camera_players in Hupd.
  destruct (respawn_players_lookup _ g3 i p3 Hr Hp3) as (p4 & Hp4 & Hrel4).
  destruct (anti_stuck_lookup dt g3 g4 i p4 Ha Hp4) as (p5 & Hp5 & Hrel5).
  exists p5. split; [rewrite Hupd; exact Hp5|].
  eapply summary_then_revived; [|exact Hrel5].
  eapply decayed_then_revived; eassumption.
Qed.

End TickSummary.

Lemma Radd_correct (a b : Q) : a + b == Qplus a b.
Proof. unfold Radd. apply Qred_correct. Qed.

Lemma Rsub_correct (a b : Q) : a - b == Qminus a b.
Proof. unfold Rsub. apply Qred_correct. Qed.

Lemma elapsed_nonneg (ticks : list (Q * (nat -> Inputs.t))) :
  Forall (fun t => 0 <= t.1) ticks -> 0 <= elapsed ticks.
Proof.
  induction 1 as [|[dt inputs] rest Hdt Hrest IH]; cbn [elapsed]; [apply Qle_refl|].
  cbn [fst] in Hdt. rewrite Radd_correct. lra.
Qed.

Section Window.
Context `{Libm}.

(** While the ticks played span less than what is left of an agent's
    invulnerability window, nothing strikes the agent. *)
Lemma no_hit_within_window (ticks : list (Q * (nat -> Inputs.t))) :
  Forall (fun t => 0 <= t.1) ticks ->
  forall (g g' : Game.t) (i : nat) (p : Player.t) (w : Q),
    Game_play ticks g = Some g' ->
    Game.players g !! i = Some p ->
    w <= Player.invuln p -> w <= 0.8 ->
    elapsed ticks < w ->
    exists p', Game.players g' !! i = Some p'
               /\ Player.hits_taken p' = Player.hits_taken p.
Proof.
  induction 1 as [|[dt inputs] rest Hdt Hrest IH]; intros g g' i p w Hplay Hi Hw Hcap Hlt.
  - cbn [Game_play] in Hplay. injection Hplay as <-. exists p. split; [exact Hi|reflexivity].
  - cbn [Game_play] in Hplay. cbn [fst] in Hdt. cbn [elapsed] in Hlt.
    destruct (Game_update dt inputs g) as [g1|] eqn:Hupd; [|discriminate].
    destruct (Game_update_tick_summary dt inputs g g1 i p Hupd Hi) as (p1 & Hp1 & Hsum).
    pose proof (elapsed_nonneg rest Hrest) as Hrest0.
    rewrite Radd_correct in Hlt.
    assert (Hpos : 0 < Player.invuln p - dt) by (rewrite Rsub_correct; lra).
    unfold tick_summary in Hsum. rewrite (pymax_0_pos _ Hpos) in Hsum.
    destruct Hsum as [(Hh & Hinv)|(_ & Hle & _)];
      [|exfalso; exact (Qlt_not_le _ _ Hpos Hle)].
    destruct (IH g1 g' i p1 (Qminus w dt) Hplay Hp1) as (p' & Hp' & Hh').
    + destruct Hinv as [-> | ->]; [rewrite Rsub_correct; lra|lra].
    + lra.
    + lra.
    + exists p'. split; [exact Hp'|congruence].
Qed.

End Window.

Section WindowClaim.
Context `{Libm}.

(** C9 (as amended). Every damage application that takes effect opens an
    invulnerability window of 0.35 s on its target.  Hence one tick of the
    game strikes an agent at most once, and an agent whose window is still
    whole is not struck again by ticks that span less than 0.35 s; in
    particular the projectile loop of one tick takes at most one pellet's
    damage from an agent, however many pellets of a volley connect in that
    tick.  (The pellets of a volley that connect later than the window are
    not covered: they strike again.) *)
Theorem one_strike_per_invulnerability_window :
  (forall (ps : list Player.t) (i : nat) (p : Player.t) (amount : Z) (knock : Q * Q)
      (attacker : option nat),
      ps !! i = Some p ->
      Player.invuln p <= 0 ->
      exists p', Player_damage ps i amount knock attacker !! i = Some p'
                 /\ Player.invuln p' = 0.35
                 /\ Player.hits_taken p' = S (Player.hits_taken p)
                 /\ Player.hp p' = (Player.hp p - amount)%Z)
  /\ (forall (dt : Q) (inputs : nat -> Inputs.t) (g g' : Game.t) (i : nat) (p : Player.t),
        Game_update dt inputs g = Some g' ->
        Game.players g !! i = Some p ->
        exists p', Game.players g' !! i = Some p'
                   /\ (Player.hits_taken p' = Player.hits_taken p
                       \/ (Player.hits_taken p' = S (Player.hits_taken p)
                           /\ 0.35 <= Player.invuln p')))
  /\ (forall (ticks : list (Q * (nat -> Inputs.t))) (g g' : Game.t) (i : nat) (p : Player.t),
        Forall (fun t => 0 <= t.1) ticks ->
        Game_play ticks g = Some g' ->
        Game.players g !! i = Some p ->
        0.35 <= Player.invuln p ->
        elapsed ticks < 0.35 ->
        exists p', Game.players g' !! i = Some p'
                   /\ Player.hits_taken p' = Player.hits_taken p)
  /\ (forall (dt : Q) (level_rects : list (Rect.t * Z)) (ps : list Player.t)
        (bullets : list Bullet.t) (d : Z) (i : nat) (p : Player.t),
        (forall b, b ∈ bullets -> Bullet.dmg b = d /\ Bullet.explosive b = false) ->
        ps !! i = Some p ->
        exists p', (update_bullets dt level_rects ps bullets).1 !! i = Some p'
                   /\ (Player.hp p' = Player.hp p \/ Player.hp p' = (Player.hp p - d)%Z)).
Proof.
  split; [|split; [|split]].
  - intros ps i p amount knock attacker Hi Hinv.
    exists (Player_damage_self amount knock p). split.
    + apply Player_damage_target. exact Hi.
    + destruct (Player_damage_self_struck amount knock p) as [_ Hs].
      destruct (Hs Hinv) as (_ & Ha & Hb & Hc). repeat split; assumption.
  - intros dt inputs g g' i p Hupd Hi.
    destruct (Game_update_tick_summary dt inputs g g' i p Hupd Hi) as (p' & Hp' & Hsum).
    exists p'. split; [exact Hp'|].
    destruct Hsum as [(Hh & _)|(Hh & _ & Hinv)]; [left; exact Hh|right].
    split; [exact Hh|]. destruct Hinv as [-> | ->]; [apply Qle_refl|].
    intros Hc. vm_compute in Hc. discriminate.
  - intros ticks g g' i p Hdts Hplay Hi Hinv Hlt.
    apply (no_hit_within_window ticks Hdts g g' i p 0.35 Hplay Hi Hinv); [|exact Hlt].
    intros Hc. vm_compute in Hc. discriminate.
  - intros dt level_rects ps bullets d i p Hall Hi.
    destruct (update_bullets_each_struck dt level_rects bullets ps i p Hi)
      as (p' & Hp' & Hrel).
    exists p'. split; [exact Hp'|].
    destruct Hrel as [(_ & _ & Hhp)|(a & (b & Hb & Ha) & _ & _ & _ & Hhp)];
      [left; exact Hhp|right].
    destruct (Hall b Hb) as [Hd Hne].
    destruct Ha as [-> | [Hex _]]; [rewrite Hhp, Hd; reflexivity|congruence].
Qed.

End WindowClaim.

Lemma one_strike_per_invulnerability_window_witness :
  (exists p', Player_damage ledge_pair 1 24 (0, 0) (Some 0%nat) !! 1%nat = Some p'
              /\ Player.invuln p' = 0.35
              /\ Player.hits_taken p' = 1%nat
              /\ Player.hp p' = 76%Z)
  /\ (exists p', (@update_bullets approx_libm (1 / 60) [] ledge_pair
                    (@twin_pellets approx_libm)).1 !! 1%nat = Some p'
                 /\ (Player.hp p' = 100%Z \/ Player.hp p' = (100 - 24)%Z)).
Proof.
  destruct (@one_strike_per_invulnerability_window approx_libm)
    as (Hopen & _ & _ & Hloop).
  split.
  - apply (Hopen ledge_pair 1%nat (on_ledge 860 None) 24%Z (0, 0) (Some 0%nat)).
    + reflexivity.
    + vm_compute. discriminate.
  - apply (Hloop (1 / 60) [] ledge_pair (@twin_pellets approx_libm) 24%Z 1%nat
             (on_ledge 860 None)).
    + intros b Hb. unfold twin_pellets in Hb.
      apply elem_of_cons in Hb as [-> | Hb]; [split; reflexivity|].
      apply elem_of_cons in Hb as [-> | Hb]; [split; reflexivity|].
      exfalso. exact (not_elem_of_nil b Hb).
    + reflexivity.
Defined.

(** The two pellets of [twin_pellets] both reach the victim in one tick: the
    first takes 24 and opens the window, the second is spent for nothing. *)
Lemma twin_pellets_take_one_pellet :
  (fun r => (Player.hp <$> r.1 !! 1%nat, length r.2))
    (@update_bullets approx_libm (1 / 60) [] ledge_pair (@twin_pellets approx_libm))
  = (Some 76%Z, 0%nat).
Proof. vm_compute. reflexivity. Qed.

(** C9 fails as stated: on the ledge, the shooter fires one volley straight
    down, on tick 5 (seven projectiles in flight, nine rounds left from then
    on).  One pellet strikes the victim, who is falling past, on tick 9; the
    seventh pellet, three degrees off, misses then and flies on; the victim
    falls faster and faster, steps under it and catches up with it on tick
    38, half a second after the first hit.  That single volley has taken two
    pellets' damage, 48, from the victim. *)
Lemma volley_strikes_twice :
  ledge_report (@Game_run approx_libm (1 / 60) (ledge_schedule 4)
                  (arena ledge_pair [] seventh_pellet_wide))
  = Some (100%Z, 0%nat, Some 16%Z, 0%nat)
  /\ ledge_report (@Game_run approx_libm (1 / 60) (ledge_schedule 5)
                     (arena ledge_pair [] seventh_pellet_wide))
     = Some (100%Z, 0%nat, Some 9%Z, 7%nat)
  /\ ledge_report (@Game_run approx_libm (1 / 60) (ledge_schedule 9)
                     (arena ledge_pair [] seventh_pellet_wide))
     = Some (76%Z, 1%nat, Some 9%Z, 1%nat)
  /\ ledge_report (@Game_run approx_libm (1 / 60) (ledge_schedule 37)
                     (arena ledge_pair [] seventh_pellet_wide))
     = Some (76%Z, 1%nat, Some 9%Z, 1%nat)
  /\ ledge_report (@Game_run approx_libm (1 / 60) (ledge_schedule 38)
                     (arena ledge_pair [] seventh_pellet_wide))
     = Some (52%Z, 2%nat, Some 9%Z, 0%nat).
Proof. vm_compute. repeat split; reflexivity. Qed.

(** ** The blast of an explosion *)

Lemma splash_self_blasted (c : Q * Q) (k : Z) (q : Player.t) :
  blasted c q (Player.set_kos k (splash_self c.1 c.2 q)).
Proof.
  unfold blasted, in_blast, splash_self. cbv zeta.
  destruct (Player.alive q) eqn:Hal; cbn [negb].
  - destruct (Qltb _ (180 * 180)) eqn:Hin.
    + split.
      * intros _ _ Hinv.
        destruct (Player_damage_self_struck 18
                    (240 * (if Qle_bool 0 ((centre q).1 - c.1) then 1 else -1), -160) q)
          as [_ Hs].
        destruct (Hs Hinv) as (H1 & H2 & H3 & H4). repeat split; assumption.
      * intros [Hd|[Hout|Hinv]]; [discriminate| |].
        -- exfalso. apply Hout. apply Qltb_lt. exact Hin.
        -- unfold Player_damage_self. apply Qltb_lt in Hinv. rewrite Hinv.
           repeat split.
    + split.
      * intros _ Hb _. apply Qltb_lt in Hb. congruence.
      * intros _. repeat split.
  - split; [discriminate|]. intros _. repeat split.
Qed.

Lemma splash_self_frame (cx cy : Q) (q : Player.t) :
  Player.kos (splash_self cx cy q) = Player.kos q
  /\ (Player.alive (splash_self cx cy q) = false -> Player.alive q = true ->
      Player.deaths (splash_self cx cy q) = (Player.deaths q + 1)%Z)
  /\ ((Player.hp (splash_self cx cy q) <= 0)%Z ->
      Player.hp (splash_self cx cy q) <> Player.hp q ->
      Player.alive (splash_self cx cy q) = false).
Proof.
  unfold splash_self.
  destruct (negb (Player.alive q)); [repeat split; congruence|].
  destruct (Qltb _ _); [|repeat split; congruence].
  unfold Player_damage_self.
  destruct (Qltb 0 (Player.invuln q)); [repeat split; congruence|].
  unfold Player_hurt. cbn.
  destruct (Player.hp q - 18 <=? 0)%Z eqn:E; cbn.
  - repeat split; congruence.
  - apply Z.leb_gt in E. repeat split; try congruence. intros Hle. lia.
Qed.

Section BlastFacts.
Context `{Libm}.

(** An iteration of the splash loop on the owner, or on an agent with more
    than 18 health, rewrites that agent only: no kill is credited. *)
Lemma splash_one_exact (ow : nat) (cx cy : Q) (ps : list Player.t) (i : nat)
    (q : Player.t) :
  ps !! i = Some q ->
  i = ow \/ (18 < Player.hp q)%Z ->
  splash_one ow cx cy ps i = <[i := splash_self cx cy q]> ps.
Proof.
  intros Hi Hsafe. unfold splash_one, splash_self. rewrite Hi.
  destruct (negb (Player.alive q)); [symmetry; apply list_insert_id; exact Hi|].
  cbv zeta. destruct (Qltb _ (180 * 180)); [|symmetry; apply list_insert_id; exact Hi].
  unfold Player_damage, Player_damage_self. rewrite Hi.
  destruct (Qltb 0 (Player.invuln q)); [symmetry; apply list_insert_id; exact Hi|].
  cbv zeta.
  destruct (Player.hp (Player_hurt 18 _ q) <=? 0)%Z eqn:E; [|reflexivity].
  case_bool_decide as Hself; [reflexivity|].
  destruct Hsafe as [->|Hhp]; [congruence|].
  apply Z.leb_le in E. destruct (Player_hurt_hp 18
    (240 * (if Qle_bool 0 ((centre q).1 - cx) then 1 else -1), -160) q) as [Hh _].
  rewrite Hh in E. lia.
Qed.

Lemma splash_fold_exact (ow : nat) (cx cy : Q) (l : list nat) :
  NoDup l ->
  forall ps : list Player.t,
    (forall j q, j ∈ l -> j <> ow -> ps !! j = Some q -> (18 < Player.hp q)%Z) ->
    forall (j : nat) (q : Player.t),
      ps !! j = Some q ->
      foldl (splash_one ow cx cy) ps l !! j
      = Some (if bool_decide (j ∈ l) then splash_self cx cy q else q).
Proof.
  induction 1 as [|i l Hnotin Hnd IH]; intros ps Hsafe j q Hj; cbn [foldl].
  - exact Hj.
  - destruct (ps !! i) as [qi|] eqn:Hi.
    + assert (Hone : splash_one ow cx cy ps i = <[i := splash_self cx cy qi]> ps).
      { apply splash_one_exact; [exact Hi|].
        destruct (decide (i = ow)) as [->|Hne]; [left; reflexivity|right].
        apply (Hsafe i qi); [left|exact Hne|exact Hi]. }
      rewrite Hone.
      assert (Hsafe' : forall j0 q0, j0 ∈ l -> j0 <> ow ->
                 <[i := splash_self cx cy qi]> ps !! j0 = Some q0 ->
                 (18 < Player.hp q0)%Z).
      { intros j0 q0 Hin Hne Hq0.
        assert (Hij : i <> j0) by (intros ->; contradiction).
        rewrite list_lookup_insert_ne in Hq0 by exact Hij.
        apply (Hsafe j0 q0); [right; exact Hin|exact Hne|exact Hq0]. }
      destruct (decide (i = j)) as [->|Hne].
      * rewrite Hi in Hj. injection Hj as ->.
        rewrite (IH _ Hsafe' j (splash_self cx cy q)).
        -- rewrite (bool_decide_eq_false_2 (j ∈ l)) by exact Hnotin.
           rewrite bool_decide_eq_true_2 by left. reflexivity.
        -- apply list_lookup_insert_eq. eapply lookup_lt_Some. exact Hi.
      * rewrite (IH _ Hsafe' j q) by (rewrite list_lookup_insert_ne by exact Hne; exact Hj).
        destruct (decide (j ∈ l)) as [Hin|Hnin].
        -- rewrite !bool_decide_eq_true_2; [reflexivity|right; exact Hin|exact Hin].
        -- rewrite !bool_decide_eq_false_2; [reflexivity| |exact Hnin].
           intros Hin. apply elem_of_cons in Hin. destruct Hin; [congruence|contradiction].
    + assert (Hone : splash_one ow cx cy ps i = ps)
        by (unfold splash_one; rewrite Hi; reflexivity).
      rewrite Hone.
      assert (Hne : i <> j) by (intros ->; congruence).
      rewrite (IH ps) with (q := q); [| |exact Hj].
      * destruct (decide (j ∈ l)) as [Hin|Hnin].
        -- rewrite !bool_decide_eq_true_2; [reflexivity|right; exact Hin|exact Hin].
        -- rewrite !bool_decide_eq_false_2; [reflexivity| |exact Hnin].
           intros Hin. apply elem_of_cons in Hin. destruct Hin; [congruence|contradiction].
      * intros j0 q0 Hin. apply Hsafe. right. exact Hin.
Qed.

(** An explosion blasts every agent of the list it is given, whoever owns
    the projectile. *)
Lemma Bullet_explode_blasted (b : Bullet.t) (qs : list Player.t) (center : option (Q * Q))
    (j : nat) (q : Player.t) :
  Bullet.explosive b = true ->
  qs !! j = Some q ->
  exists q', Bullet_explode b qs center !! j = Some q'
             /\ blasted (blast_centre b center) q q'.
Proof.
  intros Hex Hj. destruct (Bullet_explode_lookup b qs center j q Hex Hj) as [k Hk].
  eexists. split; [exact Hk|]. apply splash_self_blasted.
Qed.

Lemma Bullet_explode_blasted_here (b : Bullet.t) (qs : list Player.t) (j : nat)
    (q : Player.t) :
  Bullet.explosive b = true ->
  qs !! j = Some q ->
  exists q', Bullet_explode b qs None !! j = Some q'
             /\ blasted (Bullet.x b, Bullet.y b) q q'.
Proof. apply (Bullet_explode_blasted b qs None). Qed.

(** When no agent other than the owner can die of it, an explosion rewrites
    the owner by the splash alone: its kill counter is left as it was. *)
Lemma Bullet_explode_owner_exact (b : Bullet.t) (qs : list Player.t)
    (center : option (Q * Q)) (o : Player.t) :
  Bullet.explosive b = true ->
  qs !! Bullet.owner b = Some o ->
  (forall j q, j <> Bullet.owner b -> qs !! j = Some q -> (18 < Player.hp q)%Z) ->
  Bullet_explode b qs center !! Bullet.owner b
  = Some (splash_self (blast_centre b center).1 (blast_centre b center).2 o).
Proof.
  intros Hex Ho Hsafe. unfold Bullet_explode. rewrite Hex. cbn [negb].
  destruct (blast_centre b center) as [cx cy] eqn:Hc. unfold blast_centre in Hc. rewrite Hc.
  rewrite (splash_fold_exact (Bullet.owner b) cx cy (seq 0 (length qs)) (NoDup_seq 0 _) qs)
    with (q := o); [| |exact Ho].
  - rewrite bool_decide_eq_true_2; [reflexivity|].
    apply elem_of_seq. apply lookup_lt_Some in Ho. lia.
  - intros j q _. apply Hsafe.
Qed.

Lemma Bullet_explode_roster (b : Bullet.t) (qs : list Player.t) (center : option (Q * Q)) :
  length (Bullet_explode b qs center) = length qs.
Proof.
  unfold Bullet_explode. destruct (negb (Bullet.explosive b)); [reflexivity|].
  destruct (match center with None => _ | Some c => c end) as [cx cy].
  generalize (seq 0 (length qs)). intros l. revert qs.
  induction l as [|i l IH]; intros qs; cbn [foldl]; [reflexivity|].
  rewrite IH. apply splash_one_length.
Qed.

(** A tick in which the proximity trigger fires or the level is hit is one
    explosion at the position of the projectile, and nothing else. *)
Lemma Bullet_update_explodes (dt : Q) (level_rects : list (Rect.t * Z))
    (ps : list Player.t) (b : Bullet.t) :
  proximity_trigger (Bullet_advance dt ps b) ps = true
  \/ existsb (level_blocks (Bullet_advance dt ps b)) level_rects = true ->
  Bullet_update dt level_rects ps b
  = (Bullet_explode (Bullet_advance dt ps b) ps None, Bullet_advance dt ps b, false).
Proof.
  intros Hboom. unfold Bullet_update.
  destruct (proximity_trigger _ ps); [reflexivity|].
  destruct Hboom as [Hp|Hl]; [discriminate|]. rewrite Hl. reflexivity.
Qed.

End BlastFacts.

(** ** C1: a projectile and its owner *)

Section OwnerClaim.
Context `{Libm}.

(** C1 (as amended). Neither the direct agent-collision hit nor the
    proximity trigger of a projectile ever selects its owner, and one tick
    of a projectile that is not explosive leaves its owner as it is, kill
    counter apart.  The splash of an explosion exempts nobody: of the agents
    it is given, the owner included, every living one strictly within 180
    units of the blast centre that is not invulnerable loses 18 health, and
    every other one is spared.  So a tick in which an explosive projectile
    explodes at its own position, by its proximity trigger or on the level,
    takes 18 health from a living owner strictly within 180 units of it that
    is not invulnerable; and when no other agent can die of the blast, the
    kill counter of the owner is left as it was even if the owner dies of
    it: a self-kill earns no credit. *)
Theorem bullet_spares_owner_except_splash
    (dt : Q) (level_rects : list (Rect.t * Z)) (ps : list Player.t) (b : Bullet.t)
    (o : Player.t) :
  ps !! Bullet.owner b = Some o ->
  (forall i pl, hits_agent (Bullet_advance dt ps b) (i, pl) = true -> i <> Bullet.owner b)
  /\ (forall i pl, in_proximity (Bullet_advance dt ps b) (i, pl) = true -> i <> Bullet.owner b)
  /\ (Bullet.explosive b = false ->
      exists k, (Bullet_update dt level_rects ps b).1.1 !! Bullet.owner b
                = Some (Player.set_kos k o))
  /\ (Bullet.explosive b = true ->
      forall (qs : list Player.t) (center : option (Q * Q)) (j : nat) (q : Player.t),
        qs !! j = Some q ->
        exists q', Bullet_explode b qs center !! j = Some q'
                   /\ blasted (blast_centre b center) q q')
  /\ (Bullet.explosive b = true ->
      proximity_trigger (Bullet_advance dt ps b) ps = true
      \/ existsb (level_blocks (Bullet_advance dt ps b)) level_rects = true ->
      exists o',
        (Bullet_update dt level_rects ps b).1.1 !! Bullet.owner b = Some o'
        /\ blasted (Bullet.x (Bullet_advance dt ps b), Bullet.y (Bullet_advance dt ps b)) o o'
        /\ ((forall j q, j <> Bullet.owner b -> ps !! j = Some q -> (18 < Player.hp q)%Z) ->
            Player.kos o' = Player.kos o
            /\ (Player.alive o = true ->
                in_blast (Bullet.x (Bullet_advance dt ps b), Bullet.y (Bullet_advance dt ps b))
                  o ->
                Player.invuln o <= 0 ->
                (Player.hp o <= 18)%Z ->
                Player.alive o' = false
                /\ Player.deaths o' = (Player.deaths o + 1)%Z))).
Proof.
  intros Ho.
  destruct (Bullet_advance_owner dt ps b) as (Hown & Hexp & _).
  split; [|split; [|split; [|split]]].
  - intros i pl Hh. unfold hits_agent in Hh. apply andb_true_iff in Hh.
    destruct Hh as [He _]. apply eligible_not_owner in He. rewrite Hown in He. tauto.
  - intros i pl Hp. unfold in_proximity in Hp. apply andb_true_iff in Hp.
    destruct Hp as [He _]. apply eligible_not_owner in He. rewrite Hown in He. tauto.
  - intros Hex. rewrite <- Hexp in Hex. unfold Bullet_update.
    set (b' := Bullet_advance dt ps b) in *.
    assert (Hsame : exists k, ps !! Bullet.owner b = Some (Player.set_kos k o))
      by (exists (Player.kos o); rewrite set_kos_id; exact Ho).
    destruct (proximity_trigger b' ps);
      [cbn [fst]; rewrite Bullet_explode_inert by exact Hex; exact Hsame|].
    destruct (existsb (level_blocks b') level_rects);
      [cbn [fst]; rewrite Bullet_explode_inert by exact Hex; exact Hsame|].
    destruct (find (hits_agent b') (indexed ps)) as [[i pl]|] eqn:Hfind;
      [|cbn [fst]; exact Hsame].
    apply find_indexed in Hfind. destruct Hfind as [Hi Hhit].
    unfold hits_agent in Hhit. apply andb_true_iff in Hhit. destruct Hhit as [He _].
    apply eligible_not_owner in He. destruct He as [Hne _]. rewrite Hown in Hne.
    cbn [fst]. rewrite Bullet_explode_inert by exact Hex.
    apply Player_damage_other; assumption.
  - intros Hex qs center j q Hj. apply Bullet_explode_blasted; assumption.
  - intros Hex Hboom. rewrite (Bullet_update_explodes dt level_rects ps b Hboom). cbn [fst].
    rewrite <- Hexp in Hex. rewrite <- Hown.
    set (b' := Bullet_advance dt ps b) in *. rewrite <- Hown in Ho.
    destruct (Bullet_explode_blasted_here b' ps _ o Hex Ho) as (o' & Ho' & Hblast).
    exists o'. split; [exact Ho'|]. split; [exact Hblast|].
    intros Hsafe.
    rewrite (Bullet_explode_owner_exact b' ps None o Hex Ho Hsafe) in Ho'.
    cbn [blast_centre fst snd] in Ho'. injection Ho' as <-.
    destruct (splash_self_frame (Bullet.x b') (Bullet.y b') o) as (Hkos & Hdeaths & Hdead).
    split; [exact Hkos|]. intros Hal Hin Hinv Hhp.
    destruct Hblast as [Hstruck _].
    destruct (Hstruck Hal Hin Hinv) as (_ & _ & _ & Hlost).
    assert (Hlost' : Player.hp (splash_self (Bullet.x b') (Bullet.y b') o)
                     = (Player.hp o - 18)%Z) by exact Hlost.
    assert (Hgone : Player.alive (splash_self (Bullet.x b') (Bullet.y b') o) = false)
      by (apply Hdead; lia).
    split; [exact Hgone|]. apply Hdeaths; assumption.
Qed.

End OwnerClaim.

Lemma bullet_spares_owner_except_splash_witness :
  exists o',
    (@Bullet_update approx_libm (1 / 60) build_level duel rocket_shot).1.1
      !! Bullet.owner rocket_shot = Some o'
    /\ struck 18 (standing 1000 (Some (in_hand Rocket 0 7))) o'
    /\ Player.kos o' = Player.kos (standing 1000 (Some (in_hand Rocket 0 7))).
Proof.
  destruct (@bullet_spares_owner_except_splash approx_libm (1 / 60) build_level duel
              rocket_shot (standing 1000 (Some (in_hand Rocket 0 7))) eq_refl)
    as (_ & _ & _ & _ & Htick).
  destruct (Htick eq_refl) as (o' & Ho' & [Hstruck _] & Hcredit).
  - left. vm_compute. reflexivity.
  - exists o'. split; [exact Ho'|]. split.
    + apply Hstruck.
      * reflexivity.
      * vm_compute. reflexivity.
      * vm_compute. discriminate.
    + apply Hcredit. intros j q Hne Hj.
      destruct j as [|[|j]]; [contradiction| |discriminate].
      injection Hj as <-. vm_compute. reflexivity.
Defined.

(** C1 fails as stated: the first agent of [duel] fires a rocket at the
    second, a hundred units away; in the same tick the rocket moves twelve
    units, finds the target within its proximity radius and explodes, and the
    splash takes 18 points from the agent that fired it. *)
Lemma rocket_splash_hurts_owner :
  Bullet.owner rocket_shot = 0%nat
  /\ Player.hp <$> duel !! 0%nat = Some 100%Z
  /\ Player.hp <$> (@Bullet_update approx_libm (1 / 60) build_level duel rocket_shot).1.1
                     !! 0%nat = Some 82%Z.
Proof. vm_compute. repeat split; reflexivity. Qed.

(** ** C7: proximity detonation *)

Section Flight.
Context `{Libm}.

Lemma Bullet_update_projectile (dt : Q) (level_rects : list (Rect.t * Z))
    (ps : list Player.t) (b : Bullet.t) :
  (Bullet_update dt level_rects ps b).1.2 = Bullet_advance dt ps b.
Proof.
  unfold Bullet_update.
  destruct (proximity_trigger _ ps); [reflexivity|].
  destruct (existsb _ level_rects); [reflexivity|].
  destruct (find _ (indexed ps)) as [[i pl]|]; reflexivity.
Qed.

(** An update that keeps the projectile has touched no agent. *)
Lemma Bullet_update_kept (dt : Q) (level_rects : list (Rect.t * Z))
    (ps : list Player.t) (b : Bullet.t) :
  (Bullet_update dt level_rects ps b).2 = true ->
  (Bullet_update dt level_rects ps b).1.1 = ps
  /\ proximity_trigger (Bullet_advance dt ps b) ps = false.
Proof.
  unfold Bullet_update.
  destruct (proximity_trigger _ ps); [discriminate|].
  destruct (existsb _ level_rects); [discriminate|].
  destruct (find _ (indexed ps)) as [[i pl]|]; [discriminate|].
  intros _. split; reflexivity.
Qed.

Lemma Bullet_flight_cons (dt : Q) (lv : list (Rect.t * Z)) (ps : list Player.t)
    (rest : list (Q * list (Rect.t * Z) * list Player.t)) (b : Bullet.t) :
  Bullet_flight ((dt, lv, ps) :: rest) b
  = Bullet_update dt lv ps b
    :: (if (Bullet_update dt lv ps b).2
        then Bullet_flight rest (Bullet_update dt lv ps b).1.2 else []).
Proof. reflexivity. Qed.

Lemma Bullet_entering_cons (dt : Q) (lv : list (Rect.t * Z)) (ps : list Player.t)
    (rest : list (Q * list (Rect.t * Z) * list Player.t)) (b : Bullet.t) :
  Bullet_entering b ((dt, lv, ps) :: rest)
  = Bullet_entering (Bullet_update dt lv ps b).1.2 rest.
Proof. reflexivity. Qed.

(** The updates of a projectile leave its owner, its explosive flag and its
    proximity radius as they are. *)
Lemma Bullet_entering_frame (ticks : list (Q * list (Rect.t * Z) * list Player.t)) :
  forall b : Bullet.t,
    Bullet.owner (Bullet_entering b ticks) = Bullet.owner b
    /\ Bullet.explosive (Bullet_entering b ticks) = Bullet.explosive b
    /\ Bullet.proximity (Bullet_entering b ticks) = Bullet.proximity b.
Proof.
  induction ticks as [|[[dt lv] ps] ticks IH]; intros b; [repeat split|].
  rewrite Bullet_entering_cons.
  destruct (IH (Bullet_update dt lv ps b).1.2) as (H1 & H2 & H3).
  rewrite H1, H2, H3, Bullet_update_projectile.
  destruct (Bullet_advance_owner dt ps b) as (Ho & He & _).
  rewrite Ho, He, Bullet_advance_proximity. repeat split.
Qed.

(** A flight that goes through its first ticks goes on with the rest. *)
Lemma Bullet_flight_app (before rest : list (Q * list (Rect.t * Z) * list Player.t)) :
  forall b : Bullet.t,
    Forall (fun r => r.2 = true) (Bullet_flight before b) ->
    Bullet_flight (before ++ rest) b
    = Bullet_flight before b ++ Bullet_flight rest (Bullet_entering b before).
Proof.
  induction before as [|[[dt lv] ps] before IH]; intros b Hall; [reflexivity|].
  rewrite <- app_comm_cons. rewrite !Bullet_flight_cons in *.
  rewrite Bullet_entering_cons.
  destruct (Bullet_update dt lv ps b) as [[ps1 b1] kept].
  cbn [fst snd] in *. apply Forall_cons in Hall. destruct Hall as [Hkept Hall].
  cbn [snd] in Hkept. subst kept. rewrite (IH _ Hall). reflexivity.
Qed.

Lemma Bullet_flight_prefix (before rest : list (Q * list (Rect.t * Z) * list Player.t)) :
  forall b : Bullet.t,
    Forall (fun r => r.2 = true) (Bullet_flight (before ++ rest) b) ->
    Forall (fun r => r.2 = true) (Bullet_flight before b).
Proof.
  induction before as [|[[dt lv] ps] before IH]; intros b Hall; [constructor|].
  rewrite <- app_comm_cons in Hall. rewrite !Bullet_flight_cons in *.
  destruct (Bullet_update dt lv ps b) as [[ps1 b1] kept].
  cbn [fst snd] in *. apply Forall_cons in Hall. destruct Hall as [Hkept Hall].
  cbn [snd] in Hkept. subst kept. apply Forall_cons. split; [reflexivity|].
  apply IH. exact Hall.
Qed.

(** A flight that goes on has touched no agent. *)
Lemma Bullet_flight_harmless (before : list (Q * list (Rect.t * Z) * list Player.t)) :
  forall b : Bullet.t,
    Forall (fun r => r.2 = true) (Bullet_flight before b) ->
    Forall2 (fun t r => r.1.1 = t.2) before (Bullet_flight before b).
Proof.
  induction before as [|[[dt lv] ps] before IH]; intros b Hall; [constructor|].
  rewrite !Bullet_flight_cons in *.
  pose proof (Bullet_update_kept dt lv ps b) as Hk.
  destruct (Bullet_update dt lv ps b) as [[ps1 b1] kept].
  cbn [fst snd] in *. apply Forall_cons in Hall. destruct Hall as [Hkept Hall].
  cbn [snd] in Hkept. subst kept. constructor.
  - cbn [fst snd]. apply Hk. reflexivity.
  - apply IH. exact Hall.
Qed.

(** The proximity test of [Bullet.update], in the words of the claim. *)
Lemma near_an_agent_trigger (dt : Q) (ps : list Player.t) (b : Bullet.t) :
  Bullet.explosive b = true ->
  0 < Bullet.proximity b ->
  near_an_agent dt ps b ->
  proximity_trigger (Bullet_advance dt ps b) ps = true.
Proof.
  intros Hex Hprox (i & pl & Hi & Hal & Hne & Hnear).
  destruct (Bullet_advance_owner dt ps b) as (Hown & Hexp & _).
  pose proof (Bullet_advance_proximity dt ps b) as Hpr.
  unfold proximity_trigger. rewrite Hexp, Hex, Hpr. simpl.
  apply andb_true_iff. split; [apply Qltb_lt; exact Hprox|].
  apply existsb_indexed. exists i, pl. split; [exact Hi|].
  unfold in_proximity, eligible, centre. cbn [fst snd]. rewrite Hal, Hown, Hpr.
  apply andb_true_iff. split.
  - apply negb_true_iff. apply Nat.eqb_neq. exact Hne.
  - apply Qle_bool_iff. exact Hnear.
Qed.

(** C7. Take an explosive projectile with a positive proximity radius that
    is still in flight after the updates of the ticks [before], and a next
    tick after whose motion some living agent other than the owner has its
    centre within the radius.  Then that tick is the first in which an agent
    is near, and the only one of the whole flight in which the projectile
    touches anybody: every earlier update has returned the agents as it
    found them; the update of that tick is one explosion at the position of
    the projectile, which takes 18 health from every living agent strictly
    within 180 units of it that is not invulnerable and spares every other,
    with no direct-hit damage even if the projectile overlaps an agent; and
    the flight ends there, whatever ticks follow: the projectile is removed
    and the projectile loop goes on without it. *)
Theorem proximity_detonates_once_and_first
    (before after : list (Q * list (Rect.t * Z) * list Player.t)) (dt : Q)
    (level_rects : list (Rect.t * Z)) (ps : list Player.t) (b : Bullet.t) :
  Bullet.explosive b = true ->
  0 < Bullet.proximity b ->
  Forall (fun r => r.2 = true) (Bullet_flight before b) ->
  near_an_agent dt ps (Bullet_entering b before) ->
  Forall2 (fun t r => r.1.1 = t.2) before (Bullet_flight before b)
  /\ (forall early t late,
        before = early ++ t :: late ->
        ~ near_an_agent t.1.1 t.2 (Bullet_entering b early))
  /\ exists ps',
       Bullet_flight (before ++ (dt, level_rects, ps) :: after) b
       = Bullet_flight before b
         ++ [(ps', Bullet_advance dt ps (Bullet_entering b before), false)]
       /\ length ps' = length ps
       /\ (forall j q,
             ps !! j = Some q ->
             exists q', ps' !! j = Some q'
                        /\ blasted (Bullet.x (Bullet_advance dt ps (Bullet_entering b before)),
                                    Bullet.y (Bullet_advance dt ps (Bullet_entering b before)))
                             q q')
       /\ (forall rest,
             update_bullets dt level_rects ps (Bullet_entering b before :: rest)
             = update_bullets dt level_rects ps' rest).
Proof.
  intros Hex Hprox Hflight Hnear.
  split; [apply Bullet_flight_harmless; exact Hflight|]. split.
  - intros early [[dt0 lv0] ps0] late -> Hearly. cbn [fst snd] in Hearly.
    pose proof (Bullet_flight_prefix early _ b Hflight) as Hpre.
    rewrite (Bullet_flight_app early _ b Hpre) in Hflight.
    apply Forall_app in Hflight. destruct Hflight as [_ Hthen].
    rewrite Bullet_flight_cons in Hthen.
    apply Forall_cons in Hthen. destruct Hthen as [Hkept _].
    apply Bullet_update_kept in Hkept. destruct Hkept as [_ Hquiet].
    destruct (Bullet_entering_frame early b) as (_ & He & Hp).
    rewrite (near_an_agent_trigger dt0 ps0 (Bullet_entering b early)) in Hquiet;
      [discriminate|rewrite He; exact Hex|rewrite Hp; exact Hprox|exact Hearly].
  - set (bn := Bullet_entering b before) in *.
    destruct (Bullet_entering_frame before b) as (_ & He & Hp). fold bn in He, Hp.
    assert (Hexn : Bullet.explosive bn = true) by (rewrite He; exact Hex).
    assert (Hproxn : 0 < Bullet.proximity bn) by (rewrite Hp; exact Hprox).
    pose proof (near_an_agent_trigger dt ps bn Hexn Hproxn Hnear) as Htrig.
    pose proof (Bullet_update_explodes dt level_rects ps bn (or_introl Htrig)) as Hupd.
    exists (Bullet_explode (Bullet_advance dt ps bn) ps None).
    split; [|split; [|split]].
    + rewrite (Bullet_flight_app before _ b Hflight). fold bn.
      rewrite Bullet_flight_cons, Hupd. reflexivity.
    + apply Bullet_explode_roster.
    + intros j q Hj.
      destruct (Bullet_advance_owner dt ps bn) as (_ & Hexp & _).
      apply Bullet_explode_blasted_here; [rewrite Hexp; exact Hexn|exact Hj].
    + intros rest. cbn [update_bullets]. rewrite Hupd.
      destruct (update_bullets dt level_rects _ rest) as [ps'' rest']. reflexivity.
Qed.

End Flight.

Lemma in_flight_check (l : list (list Player.t * Bullet.t * bool)) :
  forallb snd l = true -> Forall (fun r => r.2 = true) l.
Proof.
  induction l as [|r l IH]; cbn; [constructor|]. intros Hb.
  apply andb_true_iff in Hb. destruct Hb as [Hr Hl].
  constructor; [exact Hr|apply IH; exact Hl].
Qed.

Lemma proximity_detonates_once_and_first_witness :
  exists ps',
    @Bullet_flight approx_libm [duel_tick; duel_tick; duel_tick; duel_tick] rocket_from_behind
    = @Bullet_flight approx_libm [duel_tick] rocket_from_behind
      ++ [(ps', @Bullet_advance approx_libm (1 / 60) duel
                  (@Bullet_entering approx_libm rocket_from_behind [duel_tick]), false)]
    /\ exists q', ps' !! 1%nat = Some q' /\ struck 18 (standing 1100 None) q'.
Proof.
  destruct (@proximity_detonates_once_and_first approx_libm [duel_tick]
              [duel_tick; duel_tick] (1 / 60) build_level duel rocket_from_behind)
    as (_ & _ & ps' & Hflight & _ & Hblast & _).
  - reflexivity.
  - reflexivity.
  - apply in_flight_check. vm_compute. reflexivity.
  - exists 1%nat, (standing 1100 None).
    split; [reflexivity|]. split; [reflexivity|].
    split; [intros Hc; vm_compute in Hc; discriminate Hc|].
    vm_compute. discriminate.
  - exists ps'. split; [exact Hflight|].
    destruct (Hblast 1%nat (standing 1100 None) eq_refl) as (q' & Hq' & [Hstruck _]).
    exists q'. split; [exact Hq'|]. apply Hstruck.
    + reflexivity.
    + vm_compute. reflexivity.
    + vm_compute. discriminate.
Defined.

(** * Further properties of the kernel

    The generator of the model yields the draws that the kernel reads: the
    draws that the source spends on particles are left out with the
    particles.  The properties below speak of the generator only across
    code that spawns no particle ([BotBrain.think], [Game.spawn_gun],
    [Game.give_random_weapon]). *)

Lemma Rmul_correct (a b : Q) : a * b == Qmult a b.
Proof. unfold Rmul. apply Qred_correct. Qed.

Lemma Rdiv_correct (a b : Q) : a / b == Qdiv a b.
Proof. unfold Rdiv. apply Qred_correct. Qed.

#[global] Instance Radd_proper : Proper (Qeq ==> Qeq ==> Qeq) Radd.
Proof. intros a b Hab c d Hcd. rewrite !Radd_correct, Hab, Hcd. reflexivity. Qed.

#[global] Instance Rsub_proper : Proper (Qeq ==> Qeq ==> Qeq) Rsub.
Proof. intros a b Hab c d Hcd. rewrite !Rsub_correct, Hab, Hcd. reflexivity. Qed.

#[global] Instance Rmul_proper : Proper (Qeq ==> Qeq ==> Qeq) Rmul.
Proof. intros a b Hab c d Hcd. rewrite !Rmul_correct, Hab, Hcd. reflexivity. Qed.

(** Back to the exact operations of [Q], to hand a goal to [lra]. *)
Ltac exact_arith :=
  repeat first [rewrite Radd_correct | rewrite Rsub_correct | rewrite Rmul_correct].
Ltac exact_arith_in H :=
  repeat first [rewrite Radd_correct in H | rewrite Rsub_correct in H
               | rewrite Rmul_correct in H].

(** ** Utilities *)

(** X1. [Rect.intersects] is symmetric, and it holds exactly when the two
    rectangles overlap on an open set: rectangles that only share an edge
    or a corner do not intersect. *)
Theorem intersects_is_symmetric_and_strict (a b : Rect.t) :
  Rect.intersects a b = Rect.intersects b a
  /\ (Rect.intersects a b = true <->
      Rect.left a < Rect.right b /\ Rect.left b < Rect.right a
      /\ Rect.top a < Rect.bottom b /\ Rect.top b < Rect.bottom a).
Proof.
  split.
  - unfold Rect.intersects.
    destruct (Qle_bool (Rect.right a) (Rect.left b)), (Qle_bool (Rect.right b) (Rect.left a)),
      (Qle_bool (Rect.bottom a) (Rect.top b)), (Qle_bool (Rect.bottom b) (Rect.top a));
      reflexivity.
  - unfold Rect.intersects. rewrite negb_true_iff, !orb_false_iff.
    split.
    + intros [[[H1 H2] H3] H4].
      repeat split; apply Qltb_lt; unfold Qltb; rewrite ?H1, ?H2, ?H3, ?H4; reflexivity.
    + intros (H1 & H2 & H3 & H4).
      apply Qltb_lt in H1, H2, H3, H4. unfold Qltb in H1, H2, H3, H4.
      rewrite negb_true_iff in H1, H2, H3, H4. repeat split; assumption.
Qed.

(** ** Damage and the scoreboard *)

(** X2. A damage call that takes effect and brings the health of its target
    to zero or below marks the target dead and adds one to its death
    counter; the kill is credited, once, to an attacker other than the
    target, and to nobody when the target killed itself or no attacker was
    named.  A call that leaves the health positive changes no counter. *)
Theorem kill_is_credited_once (ps : list Player.t) (i : nat) (p : Player.t) (amount : Z)
    (knock : Q * Q) :
  ps !! i = Some p ->
  Player.invuln p <= 0 ->
  ((Player.hp p - amount <= 0)%Z ->
   forall (a : nat) (q : Player.t),
     ps !! a = Some q -> a <> i ->
     (exists p', Player_damage ps i amount knock (Some a) !! i = Some p'
                 /\ Player.alive p' = false
                 /\ Player.deaths p' = (Player.deaths p + 1)%Z
                 /\ Player.kos p' = Player.kos p)
     /\ Player_damage ps i amount knock (Some a) !! a
        = Some (Player.set_kos (Player.kos q + 1) q)
     /\ (forall j r, j <> i -> j <> a -> ps !! j = Some r ->
                     Player_damage ps i amount knock (Some a) !! j = Some r))
  /\ ((Player.hp p - amount <= 0)%Z ->
      forall attacker, attacker = None \/ attacker = Some i ->
      (exists p', Player_damage ps i amount knock attacker !! i = Some p'
                  /\ Player.alive p' = false
                  /\ Player.deaths p' = (Player.deaths p + 1)%Z
                  /\ Player.kos p' = Player.kos p)
      /\ (forall j r, j <> i -> ps !! j = Some r ->
                      Player_damage ps i amount knock attacker !! j = Some r))
  /\ ((0 < Player.hp p - amount)%Z ->
      forall attacker,
      (exists p', Player_damage ps i amount knock attacker !! i = Some p'
                  /\ Player.alive p' = Player.alive p
                  /\ Player.deaths p' = Player.deaths p
                  /\ Player.kos p' = Player.kos p
                  /\ Player.hp p' = (Player.hp p - amount)%Z)
      /\ (forall j r, j <> i -> ps !! j = Some r ->
                      Player_damage ps i amount knock attacker !! j = Some r)).
Proof.
  intros Hi Hinv.
  assert (Hguard : Qltb 0 (Player.invuln p) = false) by (apply Qltb_ge; exact Hinv).
  assert (Hlen : (i < length ps)%nat) by (eapply lookup_lt_Some; exact Hi).
  split; [|split].
  - intros Hdead a q Ha Hai.
    unfold Player_damage. rewrite Hi, Hguard.
    assert (Hhp : (Player.hp (Player_hurt amount knock p) <=? 0)%Z = true).
    { apply Z.leb_le. unfold Player_hurt. cbn. destruct (_ <=? 0)%Z; cbn; exact Hdead. }
    rewrite Hhp. rewrite bool_decide_eq_false_2 by exact Hai.
    split; [|split].
    + exists (Player_hurt amount knock p). split.
      * rewrite list_lookup_alter_ne by exact Hai.
        apply list_lookup_insert_eq. exact Hlen.
      * unfold Player_hurt. cbn.
        assert (Hz : (Player.hp p - amount <=? 0)%Z = true) by (apply Z.leb_le; exact Hdead).
        rewrite Hz. cbn. repeat split; reflexivity.
    + rewrite list_lookup_alter_eq, list_lookup_insert_ne by (intros E; apply Hai; symmetry; exact E).
      rewrite Ha. reflexivity.
    + intros j r Hji Hja Hj.
      rewrite list_lookup_alter_ne by (intros E; apply Hja; symmetry; exact E).
      rewrite list_lookup_insert_ne by (intros E; apply Hji; symmetry; exact E).
      exact Hj.
  - intros Hdead attacker Hatt.
    assert (Hz : (Player.hp p - amount <=? 0)%Z = true) by (apply Z.leb_le; exact Hdead).
    assert (Hhp : (Player.hp (Player_hurt amount knock p) <=? 0)%Z = true).
    { unfold Player_hurt. cbn. rewrite Hz. cbn. exact Hz. }
    assert (Hres : Player_damage ps i amount knock attacker
                   = <[i := Player_hurt amount knock p]> ps).
    { unfold Player_damage. rewrite Hi, Hguard, Hhp.
      destruct Hatt as [-> | ->]; [reflexivity|].
      rewrite bool_decide_eq_true_2 by reflexivity. reflexivity. }
    rewrite Hres. split.
    + exists (Player_hurt amount knock p). split; [apply list_lookup_insert_eq; exact Hlen|].
      unfold Player_hurt. cbn. rewrite Hz. cbn. repeat split; reflexivity.
    + intros j r Hji Hj.
      rewrite list_lookup_insert_ne by (intros E; apply Hji; symmetry; exact E). exact Hj.
  - intros Hlive attacker.
    assert (Hz : (Player.hp p - amount <=? 0)%Z = false) by (apply Z.leb_gt; exact Hlive).
    assert (Hhp : (Player.hp (Player_hurt amount knock p) <=? 0)%Z = false).
    { unfold Player_hurt. cbn. rewrite Hz. cbn. exact Hz. }
    assert (Hres : Player_damage ps i amount knock attacker
                   = <[i := Player_hurt amount knock p]> ps).
    { unfold Player_damage. rewrite Hi, Hguard, Hhp. reflexivity. }
    rewrite Hres. split.
    + exists (Player_hurt amount knock p). split; [apply list_lookup_insert_eq; exact Hlen|].
      unfold Player_hurt. cbn. rewrite Hz. cbn. repeat split; reflexivity.
    + intros j r Hji Hj.
      rewrite list_lookup_insert_ne by (intros E; apply Hji; symmetry; exact E). exact Hj.
Qed.

Lemma kill_is_credited_once_witness :
  Player_damage [gunner Pistol 18; wounded] 1 18 (200, -120) (Some 0%nat) !! 0%nat
  = Some (Player.set_kos (Player.kos (gunner Pistol 18) + 1) (gunner Pistol 18)).
Proof.
  destruct (kill_is_credited_once [gunner Pistol 18; wounded] 1 wounded 18 (200, -120)
              eq_refl) as [Hkill _].
  - vm_compute. discriminate.
  - destruct (Hkill ltac:(vm_compute; discriminate) 0%nat (gunner Pistol 18) eq_refl
                ltac:(discriminate)) as (_ & Hcredit & _).
    exact Hcredit.
Defined.

(** ** Projectiles *)

Section ProjectileFacts.
Context `{Libm}.

Lemma Bullet_seek_frame (dt : Q) (ps : list Player.t) (b : Bullet.t) :
  Bullet.life (Bullet_seek dt ps b) = Bullet.life b
  /\ Bullet.pierce_thin (Bullet_seek dt ps b) = Bullet.pierce_thin b
  /\ Bullet.age (Bullet_seek dt ps b) = Bullet.age b
  /\ Bullet.r (Bullet_seek dt ps b) = Bullet.r b.
Proof.
  unfold Bullet_seek. destruct (Qltb 0 (Bullet.seek b)); [|repeat split].
  destruct (seek_best b ps) as [[bx by_]|]; repeat split.
Qed.

Lemma Bullet_advance_frame (dt : Q) (ps : list Player.t) (b : Bullet.t) :
  Bullet.life (Bullet_advance dt ps b) = Bullet.life b
  /\ Bullet.pierce_thin (Bullet_advance dt ps b) = Bullet.pierce_thin b
  /\ Bullet.age (Bullet_advance dt ps b) = Bullet.age b + dt
  /\ Bullet.r (Bullet_advance dt ps b) = Bullet.r b.
Proof.
  unfold Bullet_advance, Bullet_move. cbn.
  destruct (Bullet_seek_frame dt ps (Bullet.set_age (Bullet.age b + dt) b))
    as (H1 & H2 & H3 & H4).
  rewrite H1, H2, H3, H4. repeat split.
Qed.

(** X3. A projectile that survives its update has harmed nobody in it: the
    agents are exactly as before, and its age, advanced by the tick, is
    still below its life.  Whenever [Bullet.update] touches an agent it asks
    for the removal of the projectile. *)
Theorem surviving_projectile_has_harmed_nobody (dt : Q) (level_rects : list (Rect.t * Z))
    (ps : list Player.t) (b : Bullet.t) :
  (Bullet_update dt level_rects ps b).2 = true ->
  (Bullet_update dt level_rects ps b).1.1 = ps
  /\ Bullet.age (Bullet_update dt level_rects ps b).1.2 = Bullet.age b + dt
  /\ Bullet.age b + dt < Bullet.life b.
Proof.
  unfold Bullet_update.
  destruct (proximity_trigger (Bullet_advance dt ps b) ps); [discriminate|].
  destruct (existsb (level_blocks (Bullet_advance dt ps b)) level_rects); [discriminate|].
  destruct (find (hits_agent (Bullet_advance dt ps b)) (indexed ps)) as [[i pl]|];
    [discriminate|].
  cbn [fst snd]. intros Hlive.
  destruct (Bullet_advance_frame dt ps b) as (Hlife & _ & Hage & _).
  rewrite Hlife, Hage in Hlive. apply Qltb_lt in Hlive.
  repeat split; [exact Hage|exact Hlive].
Qed.

Lemma find_first {A : Type} (f : A -> bool) (l : list A) (x : A) :
  find f l = Some x ->
  exists n, l !! n = Some x
            /\ forall m y, (m < n)%nat -> l !! m = Some y -> f y = false.
Proof.
  induction l as [|a l IH]; [discriminate|]. cbn. destruct (f a) eqn:E.
  - intros [= <-]. exists 0%nat. split; [reflexivity|]. intros; lia.
  - intros Hf. destruct (IH Hf) as (n & Hn & Hmin). exists (S n). split; [exact Hn|].
    intros [|m] y Hlt Hm; cbn in Hm.
    + injection Hm as <-. exact E.
    + apply (Hmin m); [lia|exact Hm].
Qed.

Lemma find_indexed_first {A : Type} (f : nat * A -> bool) (l : list A) (i : nat) (a : A) :
  find f (indexed l) = Some (i, a) ->
  forall j b, (j < i)%nat -> l !! j = Some b -> f (j, b) = false.
Proof.
  intros Hfind j b Hlt Hj.
  destruct (find_first f (indexed l) (i, a) Hfind) as (n & Hn & Hmin).
  unfold indexed in Hn, Hmin. rewrite list_lookup_imap in Hn.
  destruct (l !! n) as [a'|] eqn:En; [|discriminate]. cbn in Hn.
  injection Hn as -> ->.
  apply (Hmin j); [exact Hlt|]. rewrite list_lookup_imap, Hj. reflexivity.
Qed.

(** X4. A projectile that is not explosive damages at most one agent in an
    update: the first agent in roster order, alive and other than its
    owner, whose box it overlaps after its motion.  That agent takes one
    damage call for the projectile's damage, credited to the owner, and the
    projectile asks for its removal; if there is no such agent, nobody is
    touched. *)
Theorem plain_projectile_hits_first_agent_only (dt : Q) (level_rects : list (Rect.t * Z))
    (ps : list Player.t) (b : Bullet.t) :
  Bullet.explosive b = false ->
  let r := Bullet_update dt level_rects ps b in
  r.1.1 = ps
  \/ exists i pl,
       ps !! i = Some pl /\ i <> Bullet.owner b /\ Player.alive pl = true
       /\ Rect.intersects (Bullet.aabb r.1.2) (Player.aabb pl) = true
       /\ (forall j q, (j < i)%nat -> ps !! j = Some q -> hits_agent r.1.2 (j, q) = false)
       /\ r.1.1 = Player_damage ps i (Bullet.dmg b) (copysign 200 (Bullet.vx r.1.2), -120)
                    (Some (Bullet.owner b))
       /\ r.2 = false.
Proof.
  intros Hplain r. subst r. unfold Bullet_update.
  destruct (Bullet_advance_owner dt ps b) as (Hown & Hexp & Hdmg).
  assert (Hinert : Bullet.explosive (Bullet_advance dt ps b) = false) by congruence.
  destruct (proximity_trigger (Bullet_advance dt ps b) ps);
    [left; cbn [fst snd]; apply Bullet_explode_inert; exact Hinert|].
  destruct (existsb (level_blocks (Bullet_advance dt ps b)) level_rects);
    [left; cbn [fst snd]; apply Bullet_explode_inert; exact Hinert|].
  destruct (find (hits_agent (Bullet_advance dt ps b)) (indexed ps)) as [[i pl]|] eqn:Hfind;
    [|left; reflexivity].
  right. exists i, pl. cbn [fst snd].
  destruct (find_indexed _ _ _ _ Hfind) as [Hi Hhit].
  unfold hits_agent in Hhit. apply andb_true_iff in Hhit. destruct Hhit as [Hel Hbox].
  apply eligible_not_owner in Hel. destruct Hel as [Hne Halive]. rewrite Hown in Hne.
  split; [exact Hi|]. split; [exact Hne|]. split; [exact Halive|].
  split; [exact Hbox|]. split; [exact (find_indexed_first _ _ _ _ Hfind)|].
  split; [|reflexivity].
  rewrite Bullet_explode_inert by exact Hinert. rewrite Hown, Hdmg. reflexivity.
Qed.

Lemma existsb_filter {A : Type} (f keep : A -> bool) (l : list A) :
  (forall a, keep a = false -> f a = false) ->
  existsb f (List.filter keep l) = existsb f l.
Proof.
  intros Hdrop. induction l as [|a l IH]; [reflexivity|]. cbn.
  destruct (keep a) eqn:E; cbn; rewrite IH; [reflexivity|].
  rewrite (Hdrop a E). reflexivity.
Qed.

(** X5. A round that pierces thin platforms flies as if they were not
    there: its update against a level is its update against the level
    without its thin rectangles. *)
Theorem piercing_round_ignores_thin_platforms (dt : Q) (level_rects : list (Rect.t * Z))
    (ps : list Player.t) (b : Bullet.t) :
  Bullet.pierce_thin b = true ->
  Bullet_update dt level_rects ps b
  = Bullet_update dt (List.filter (fun rt => negb (snd rt =? TILE_THIN)%Z) level_rects) ps b.
Proof.
  intros Hpierce. unfold Bullet_update.
  destruct (Bullet_advance_frame dt ps b) as (_ & Hp & _ & _). rewrite Hpierce in Hp.
  rewrite existsb_filter; [reflexivity|].
  intros rt Hthin. apply negb_false_iff in Hthin.
  unfold level_blocks. rewrite Hthin, Hp. reflexivity.
Qed.

End ProjectileFacts.

Lemma surviving_projectile_has_harmed_nobody_witness :
  (@Bullet_update approx_libm (1 / 60) build_level duel
     (Bullet.set_y 900 rocket_shot)).1.1 = duel.
Proof.
  apply (@surviving_projectile_has_harmed_nobody approx_libm). vm_compute. reflexivity.
Defined.

Lemma plain_projectile_hits_first_agent_only_witness :
  (@Bullet_update approx_libm (1 / 60) [] ledge_pair
     (@Bullet_init approx_libm 860 590 0 600 24 0 0.6 3 false false 0 0)).1.1 = ledge_pair
  \/ (@Bullet_update approx_libm (1 / 60) [] ledge_pair
        (@Bullet_init approx_libm 860 590 0 600 24 0 0.6 3 false false 0 0)).2 = false.
Proof.
  destruct (@plain_projectile_hits_first_agent_only approx_libm (1 / 60) [] ledge_pair
              (@Bullet_init approx_libm 860 590 0 600 24 0 0.6 3 false false 0 0) eq_refl)
    as [Hsame | (i & pl & _ & _ & _ & _ & _ & _ & Hgone)].
  - left. exact Hsame.
  - right. exact Hgone.
Defined.

Lemma piercing_round_ignores_thin_platforms_witness :
  @Bullet_update approx_libm (1 / 60) build_level duel
    (@fire_one approx_libm 0 (gunner Sniper 6) 0 0 1700 50 1.1 6 false true 0 0.9)
  = @Bullet_update approx_libm (1 / 60)
      (List.filter (fun rt => negb (snd rt =? TILE_THIN)%Z) build_level) duel
      (@fire_one approx_libm 0 (gunner Sniper 6) 0 0 1700 50 1.1 6 false true 0 0.9).
Proof.
  apply (@piercing_round_ignores_thin_platforms approx_libm). reflexivity.
Defined.

(** ** Beams *)

Section BeamFacts.
Context `{Libm}.

Lemma Beam_update_idle (dt : Q) (ps : list Player.t) (bm : Beam.t) :
  Beam.active (Beam.set_age (Beam.age bm + dt) bm) = false ->
  (Beam_update dt ps bm).1 = (ps, Beam.set_age (Beam.age bm + dt) bm)
  /\ Beam_update_targets dt ps bm = [].
Proof.
  intros Hidle. unfold Beam_update, Beam_update_targets. rewrite Hidle. split; reflexivity.
Qed.

(** X6. A beam harms nobody while it warms up: as long as its age, advanced
    by the ticks played so far, is below its warm-up time, its updates make
    no damage call, whoever stands in its path. *)
Theorem beam_is_harmless_while_it_warms_up (ticks : list (Q * list Player.t)) :
  Forall (fun t => 0 <= t.1) ticks ->
  forall bm : Beam.t,
    Beam.age bm + beam_span ticks < Beam.warmup bm ->
    beam_life ticks bm = [].
Proof.
  induction 1 as [|[dt ps] rest Hdt Hrest IH]; intros bm Hcold; [reflexivity|].
  cbn [beam_life]. cbn [fst] in Hdt. cbn [beam_span] in Hcold.
  assert (Hspan : 0 <= beam_span rest).
  { clear -Hrest. induction Hrest as [|[d q] l Hd Hl IHl]; cbn [beam_span];
      [apply Qle_refl|]. cbn [fst] in Hd. rewrite Radd_correct. lra. }
  rewrite !Radd_correct in Hcold.
  assert (Hidle : Beam.active (Beam.set_age (Beam.age bm + dt) bm) = false).
  { unfold Beam.active. cbn. apply andb_false_iff. left.
    destruct (Qle_bool (Beam.warmup bm) (Beam.age bm + dt)) eqn:E; [|reflexivity].
    apply Qle_bool_iff in E. rewrite Radd_correct in E. exfalso. lra. }
  destruct (Beam_update_idle dt ps bm Hidle) as [Hupd Htargets].
  rewrite Htargets. cbn [app].
  destruct ((Beam_update dt ps bm).2); [|reflexivity].
  rewrite Hupd. cbn [snd]. apply IH. cbn. rewrite !Radd_correct. lra.
Qed.

End BeamFacts.

Lemma beam_is_harmless_while_it_warms_up_witness :
  @beam_life approx_libm
    (replicate 20 (1 / 60, [standing 1000 None; standing 1100 None])) (beam_cast_right 0)
  = [].
Proof.
  apply (@beam_is_harmless_while_it_warms_up approx_libm).
  - repeat (apply Forall_cons; split; [vm_compute; discriminate|]). apply Forall_nil.
    exact I.
  - vm_compute. reflexivity.
Defined.

(** ** The update of one agent *)

Section UpdatePhases.
Context `{Libm}.

(** [Player.update] by cases: a dead agent stops after the timers, an agent
    in hitlag after the steering, and any other goes through the whole of
    it. *)
Lemma Player_update_cases (dt : Q) (inputs : Inputs.t) (level_rects : list (Rect.t * Z))
    (windzones : list WindZone.t) (teleports : list Teleport.t) (self : nat)
    (p : Player.t) (bullets : list Bullet.t) (guns : list GunEntity.t)
    (beams : list Beam.t) (rng : Rng) :
  let p0 := tick_timers dt p in
  let aim := read_aim inputs p0 in
  let p1 := steer dt inputs windzones aim p0 in
  let p2 := integrate dt level_rects teleports aim.1 p1 in
  let s := if Inputs.rmb_release inputs then secondary self aim p2 guns else (p2, guns) in
  let f := primary self inputs aim level_rects s.1 bullets beams rng in
  Player_update dt inputs level_rects windzones teleports self p bullets guns beams rng
  = if negb (Player.alive p) then (p0, bullets, guns, beams, rng)
    else if Qltb 0 (Player.hitlag p1) then (p1, bullets, guns, beams, rng)
    else (ring_out f.1.1.1, f.1.1.2, s.2, f.1.2, f.2).
Proof.
  cbv zeta. unfold Player_update.
  pose proof (tick_timers_combat dt p) as Ht.
  destruct (combat_tuple _ _ _ _ _ _ _ _ _ _ Ht) as (_ & Halive & _).
  rewrite Halive. destruct (negb (Player.alive p)); [reflexivity|].
  destruct (Qltb 0 (Player.hitlag _)); [reflexivity|].
  destruct (Inputs.rmb_release inputs).
  - destruct (secondary self _ _ guns) as [p3 guns3]. cbn [fst snd].
    destruct (primary self inputs _ level_rects p3 bullets beams rng) as [[[p4 bs] bms] r'].
    reflexivity.
  - cbn [fst snd].
    destruct (primary self inputs _ level_rects _ bullets beams rng) as [[[p4 bs] bms] r'].
    reflexivity.
Qed.

Section Invariant.
Variables P0 P : Player.t -> Prop.
Hypothesis P_dead : forall dt p, P0 p -> Player.alive p = false -> P (tick_timers dt p).
Hypothesis P_steer : forall dt inputs windzones aim p,
    P0 p -> Player.alive p = true -> P (steer dt inputs windzones aim (tick_timers dt p)).
Hypothesis P_integrate : forall dt level_rects teleports mx p,
    P p -> P (integrate dt level_rects teleports mx p).
Hypothesis P_secondary : forall self aim p guns, P p -> P (secondary self aim p guns).1.
Hypothesis P_primary : forall self inputs aim level_rects p bullets beams rng,
    P p -> P (primary self inputs aim level_rects p bullets beams rng).1.1.1.
Hypothesis P_ring_out : forall p, P p -> P (ring_out p).

(** A property that every phase of [Player.update] establishes or keeps
    holds of the agent that the update returns. *)
Lemma Player_update_invariant (dt : Q) (inputs : Inputs.t)
    (level_rects : list (Rect.t * Z)) (windzones : list WindZone.t)
    (teleports : list Teleport.t) (self : nat) (p : Player.t) (bullets : list Bullet.t)
    (guns : list GunEntity.t) (beams : list Beam.t) (rng : Rng) :
  P0 p ->
  P (Player_update dt inputs level_rects windzones teleports self p bullets guns beams
       rng).1.1.1.1.
Proof.
  intros Hp. rewrite Player_update_cases. cbv zeta.
  destruct (Player.alive p) eqn:Halive; cbn [negb].
  - pose proof (P_steer dt inputs windzones (read_aim inputs (tick_timers dt p)) p Hp Halive)
      as H1.
    destruct (Qltb 0 (Player.hitlag _)); [exact H1|].
    cbn [fst]. apply P_ring_out, P_primary.
    destruct (Inputs.rmb_release inputs); [apply P_secondary|cbn [fst]];
      apply P_integrate; exact H1.
  - cbn [fst]. apply P_dead; assumption.
Qed.

End Invariant.

Lemma foldl_invariant {A B : Type} (P : A -> Prop) (f : A -> B -> A) (l : list B) :
  (forall a b, P a -> P (f a b)) -> forall a, P a -> P (foldl f a l).
Proof.
  intros Hf. induction l as [|b l IH]; intros a Ha; [exact Ha|].
  cbn. apply IH, Hf, Ha.
Qed.

(** *** The air-jump budget *)

Lemma jumps_spent_same (p q : Player.t) :
  Player.air_jumps q = Player.air_jumps p ->
  Player.max_air_jumps q = Player.max_air_jumps p ->
  jump_budget p -> jumps_spent 0 p q.
Proof. unfold jumps_spent, jump_budget. intros -> ->. lia. Qed.

Lemma jumps_spent_trans (j k : Z) (p q r : Player.t) :
  jumps_spent j p q -> jumps_spent k q r -> jumps_spent (j + k) p r.
Proof. unfold jumps_spent, jump_budget. lia. Qed.

Lemma jumps_spent_budget (k : Z) (p q : Player.t) : jumps_spent k p q -> jump_budget q.
Proof. intros [Hq _]. exact Hq. Qed.

Lemma jumps_spent_weaken (j k : Z) (p q : Player.t) :
  (j <= k)%Z -> jumps_spent j p q -> jumps_spent k p q.
Proof. unfold jumps_spent, jump_budget. lia. Qed.

Lemma jumps_spent_then (k : Z) (p q r : Player.t) :
  jumps_spent k p q -> (jump_budget q -> jumps_spent 0 q r) -> jumps_spent k p r.
Proof.
  intros Hpq Hqr. specialize (Hqr (jumps_spent_budget _ _ _ Hpq)).
  revert Hpq Hqr. unfold jumps_spent, jump_budget. lia.
Qed.

Lemma jumps_spent_after (k : Z) (p q r : Player.t) :
  jumps_spent 0 p q -> (jump_budget q -> jumps_spent k q r) -> jumps_spent k p r.
Proof.
  intros Hpq Hqr. specialize (Hqr (jumps_spent_budget _ _ _ Hpq)).
  revert Hpq Hqr. unfold jumps_spent, jump_budget. lia.
Qed.

Lemma jumps_spent_foldl {A : Type} (f : Player.t -> A -> Player.t) (l : list A) :
  (forall p a, jump_budget p -> jumps_spent 0 p (f p a)) ->
  forall p, jump_budget p -> jumps_spent 0 p (foldl f p l).
Proof.
  intros Hf. induction l as [|a l IH]; intros p Hp; cbn.
  - apply jumps_spent_same; [reflexivity|reflexivity|exact Hp].
  - pose proof (Hf p a Hp) as H1.
    apply (jumps_spent_trans 0 0 p (f p a)); [exact H1|].
    apply IH. exact (jumps_spent_budget _ _ _ H1).
Qed.

Lemma jumps_spent_tick_timers (dt : Q) (p : Player.t) :
  jump_budget p -> jumps_spent 0 p (tick_timers dt p).
Proof.
  apply jumps_spent_same; unfold tick_timers; simpl;
    destruct (Qltb 0 (Player.dash_time p)); reflexivity.
Qed.

Lemma jumps_spent_jump_input (inputs : Inputs.t) (p : Player.t) :
  jump_budget p -> jumps_spent 1 p (jump_input inputs p).
Proof.
  intros Hp. unfold jump_input.
  set (q := if Inputs.jump_pressed inputs then Player.set_jump_buf 0.12 p else p).
  assert (Hq : Player.air_jumps q = Player.air_jumps p
               /\ Player.max_air_jumps q = Player.max_air_jumps p).
  { subst q. destruct (Inputs.jump_pressed inputs); split; reflexivity. }
  clearbody q. destruct Hq as [Ha Hm]. unfold jumps_spent, jump_budget in *.
  destruct (Qltb 0 (Player.jump_buf q)); [|lia].
  destruct (Player.on_ground q || Qltb 0 (Player.coyote q)); [cbn; lia|].
  destruct (0 <? Player.air_jumps q)%Z eqn:E; [|lia].
  apply Z.ltb_lt in E. cbn. lia.
Qed.

Lemma jumps_spent_steer (dt : Q) (inputs : Inputs.t) (windzones : list WindZone.t)
    (aim : Q * Q) (p : Player.t) :
  jump_budget p -> jumps_spent 1 p (steer dt inputs windzones aim p).
Proof.
  intros Hp. unfold steer.
  assert (Hm : jumps_spent 0 p (move_input inputs aim.1 (Player.set_last_aim aim p))).
  { revert Hp. apply jumps_spent_same; unfold move_input;
      destruct (Inputs.dash inputs && _); cbn; try reflexivity;
      destruct (negb (Player.dashing _)); reflexivity. }
  set (q := move_input _ _ _) in *. clearbody q.
  pose proof (jumps_spent_jump_input inputs q (jumps_spent_budget _ _ _ Hm)) as Hj.
  set (r := jump_input inputs q) in *. clearbody r.
  assert (Hd : jumps_spent 0 r (drop_input inputs r)).
  { apply jumps_spent_same; [| |exact (jumps_spent_budget _ _ _ Hj)];
      unfold drop_input; destruct (_ && _); reflexivity. }
  set (s := drop_input inputs r) in *. clearbody s.
  assert (Hg : jumps_spent 0 s (apply_gravity dt windzones s)).
  { unfold apply_gravity.
    match goal with
    | |- jumps_spent 0 s (Player.set_vy _ ?q) =>
        cut (jumps_spent 0 s q);
        [intros Hc; apply (jumps_spent_trans 0 0 s q); [exact Hc|];
         apply jumps_spent_same; [reflexivity|reflexivity|
           exact (jumps_spent_budget _ _ _ Hc)]|]
    end.
    apply (jumps_spent_trans 0 0 s (Player.set_vy (Player.vy s + GRAVITY * dt) s)).
    - apply jumps_spent_same; [reflexivity|reflexivity|exact (jumps_spent_budget _ _ _ Hd)].
    - apply jumps_spent_foldl.
      + intros q' wz. destruct (in_windzone q' wz);
          apply jumps_spent_same; reflexivity.
      + revert Hd. intros [Hb _]. exact Hb. }
  exact (jumps_spent_trans 1 0 p s _
           (jumps_spent_trans 1 0 p r s (jumps_spent_trans 0 1 p q r Hm Hj) Hd) Hg).
Qed.

Lemma jumps_spent_integrate (dt : Q) (level_rects : list (Rect.t * Z))
    (teleports : list Teleport.t) (mx : Q) (p : Player.t) :
  jump_budget p -> jumps_spent 0 p (integrate dt level_rects teleports mx p).
Proof.
  intros Hp. unfold integrate.
  assert (Hx : jumps_spent 0 p (move_x dt level_rects p)).
  { unfold move_x.
    apply (jumps_spent_trans 0 0 p (Player.set_x (Player.x p + Player.vx p * dt) p)).
    - apply jumps_spent_same; [reflexivity|reflexivity|exact Hp].
    - apply jumps_spent_foldl; [|exact Hp].
      intros q rt. apply jumps_spent_same; unfold collide_x;
        destruct (snd rt =? TILE_THIN)%Z; try reflexivity;
        destruct (Rect.intersects _ _); try reflexivity;
        destruct (Qltb 0 (Player.vx q)); try reflexivity;
        destruct (Qltb (Player.vx q) 0); reflexivity. }
  set (q := move_x _ _ _) in *. clearbody q.
  pose proof (jumps_spent_budget _ _ _ Hx) as Hq.
  assert (Hy : jumps_spent 0 q (move_y dt level_rects q)).
  { unfold move_y.
    match goal with
    | |- jumps_spent 0 q (foldl _ ?q0 _) =>
        apply (jumps_spent_trans 0 0 q q0);
        [apply jumps_spent_same; [reflexivity|reflexivity|exact Hq]|
         apply jumps_spent_foldl; [|exact Hq]]
    end.
    intros r rt Hr. unfold collide_y, land, jumps_spent, jump_budget in *.
    destruct (snd rt =? TILE_THIN)%Z.
    - destruct (_ && _); [cbn; lia|lia].
    - destruct (Rect.intersects _ _); [|lia].
      destruct (Qltb 0 (Player.vy r)); cbn; lia. }
  set (r := move_y _ _ _) in *. clearbody r.
  pose proof (jumps_spent_budget _ _ _ Hy) as Hr.
  assert (Ht : jumps_spent 0 r (teleport teleports (face_aim mx r))).
  { revert Hr. apply jumps_spent_same; unfold teleport;
      destruct (Qle_bool (Player.tp_cd (face_aim mx r)) 0); try reflexivity;
      destruct (find _ teleports); reflexivity. }
  exact (jumps_spent_trans 0 0 p r _ (jumps_spent_trans 0 0 p q r Hx Hy) Ht).
Qed.

Lemma jumps_spent_secondary (self : nat) (aim : Q * Q) (p : Player.t)
    (guns : list GunEntity.t) :
  jump_budget p -> jumps_spent 0 p (secondary self aim p guns).1.
Proof.
  apply jumps_spent_same; unfold secondary;
    destruct (Player.holding p) as [ent|]; try reflexivity;
    destruct (find (can_pick p) (indexed guns)) as [[i g]|]; reflexivity.
Qed.

Lemma jumps_spent_primary (self : nat) (inputs : Inputs.t) (aim : Q * Q)
    (level_rects : list (Rect.t * Z)) (p : Player.t) (bullets : list Bullet.t)
    (beams : list Beam.t) (rng : Rng) :
  jump_budget p ->
  jumps_spent 0 p (primary self inputs aim level_rects p bullets beams rng).1.1.1.
Proof.
  apply jumps_spent_same; unfold primary;
    destruct (Player.holding p) as [ent|]; try reflexivity;
    destruct (Inputs.attack inputs && _); try reflexivity;
    destruct (fire_weapon _ _ _ _ _ _ _ _) as [[[bs bms] r'] shots];
    destruct (GunEntity.ammo _ <=? 0)%Z; reflexivity.
Qed.

Lemma jumps_spent_ring_out (p : Player.t) : jump_budget p -> jumps_spent 0 p (ring_out p).
Proof.
  apply jumps_spent_same; unfold ring_out, Player_damage_self, Player_hurt;
    destruct (Qltb (WORLD_H - 4) (Player.y p)); try reflexivity;
    destruct (Qltb 0 (Player.invuln p)); try reflexivity; cbn;
    destruct (Player.hp p - 999 <=? 0)%Z; reflexivity.
Qed.

(** X7. The air jumps of an agent stay within its budget: if the count of
    air jumps left lies between zero and [max_air_jumps] before an update,
    it does so after it, whatever the inputs; the allowance [max_air_jumps]
    never changes, and one update spends at most one air jump. *)
Theorem air_jumps_stay_within_budget (dt : Q) (inputs : Inputs.t)
    (level_rects : list (Rect.t * Z)) (windzones : list WindZone.t)
    (teleports : list Teleport.t) (self : nat) (p : Player.t) (bullets : list Bullet.t)
    (guns : list GunEntity.t) (beams : list Beam.t) (rng : Rng) :
  (0 <= Player.air_jumps p <= Player.max_air_jumps p)%Z ->
  let p' := (Player_update dt inputs level_rects windzones teleports self p bullets guns
               beams rng).1.1.1.1 in
  (0 <= Player.air_jumps p' <= Player.max_air_jumps p')%Z
  /\ Player.max_air_jumps p' = Player.max_air_jumps p
  /\ (Player.air_jumps p - 1 <= Player.air_jumps p')%Z.
Proof.
  intros Hp p'.
  cut (jumps_spent 1 p p'); [intros H1; exact H1|]. subst p'.
  apply (Player_update_invariant (fun q => q = p) (jumps_spent 1 p)).
  - intros d q -> _. apply (jumps_spent_weaken 0 1); [lia|].
    apply jumps_spent_tick_timers. exact Hp.
  - intros d i w a q -> _.
    apply (jumps_spent_after 1 p (tick_timers d p));
      [apply jumps_spent_tick_timers; exact Hp|].
    apply jumps_spent_steer.
  - intros d lv tps mx q Hq. apply (jumps_spent_then 1 p q); [exact Hq|].
    apply jumps_spent_integrate.
  - intros self' aim q gs Hq. apply (jumps_spent_then 1 p q); [exact Hq|].
    apply jumps_spent_secondary.
  - intros self' i aim lv q bs bms r Hq. apply (jumps_spent_then 1 p q); [exact Hq|].
    apply jumps_spent_primary.
  - intros q Hq. apply (jumps_spent_then 1 p q); [exact Hq|].
    apply jumps_spent_ring_out.
  - reflexivity.
Qed.

(** *** Terminal velocity *)

Lemma within_terminal_same (p q : Player.t) :
  Player.vy q = Player.vy p -> within_terminal p -> within_terminal q.
Proof. unfold within_terminal. intros ->. exact id. Qed.

Lemma pymin_le_r (a b : Q) : pymin a b <= b.
Proof.
  unfold pymin. destruct (Qltb b a) eqn:E; [apply Qle_refl|].
  apply Qltb_ge in E. exact E.
Qed.

Lemma within_terminal_steer (dt : Q) (inputs : Inputs.t) (windzones : list WindZone.t)
    (aim : Q * Q) (p : Player.t) :
  within_terminal (steer dt inputs windzones aim p).
Proof. unfold steer, apply_gravity, within_terminal. cbn. apply pymin_le_r. Qed.

Lemma within_terminal_integrate (dt : Q) (level_rects : list (Rect.t * Z))
    (teleports : list Teleport.t) (mx : Q) (p : Player.t) :
  within_terminal p -> within_terminal (integrate dt level_rects teleports mx p).
Proof.
  intros Hp. unfold integrate.
  assert (Hx : within_terminal (move_x dt level_rects p)).
  { unfold move_x. apply foldl_invariant; [|exact Hp].
    intros q rt. apply within_terminal_same. unfold collide_x.
    destruct (snd rt =? TILE_THIN)%Z; [reflexivity|].
    destruct (Rect.intersects _ _); [|reflexivity].
    destruct (Qltb 0 (Player.vx q)); [reflexivity|].
    destruct (Qltb (Player.vx q) 0); reflexivity. }
  set (q := move_x _ _ _) in *. clearbody q.
  assert (Hy : within_terminal (move_y dt level_rects q)).
  { unfold move_y. apply foldl_invariant; [|exact Hx].
    intros r rt Hr. unfold collide_y, land, within_terminal in *.
    destruct (snd rt =? TILE_THIN)%Z.
    - destruct (_ && _); [cbn; vm_compute; discriminate|exact Hr].
    - destruct (Rect.intersects _ _); [|exact Hr].
      destruct (Qltb 0 (Player.vy r)); cbn; vm_compute; discriminate. }
  set (r := move_y _ _ _) in *. clearbody r.
  unfold teleport. destruct (Qle_bool (Player.tp_cd (face_aim mx r)) 0); [|exact Hy].
  destruct (find _ teleports); [|exact Hy].
  unfold within_terminal in *. cbn. rewrite Rmul_correct.
  unfold MAX_FALL in *. lra.
Qed.

Lemma within_terminal_secondary (self : nat) (aim : Q * Q) (p : Player.t)
    (guns : list GunEntity.t) :
  within_terminal p -> within_terminal (secondary self aim p guns).1.
Proof.
  apply within_terminal_same. unfold secondary.
  destruct (Player.holding p) as [ent|]; [reflexivity|].
  destruct (find (can_pick p) (indexed guns)) as [[i g]|]; reflexivity.
Qed.

Lemma within_terminal_primary (self : nat) (inputs : Inputs.t) (aim : Q * Q)
    (level_rects : list (Rect.t * Z)) (p : Player.t) (bullets : list Bullet.t)
    (beams : list Beam.t) (rng : Rng) :
  within_terminal p ->
  within_terminal (primary self inputs aim level_rects p bullets beams rng).1.1.1.
Proof.
  apply within_terminal_same. unfold primary.
  destruct (Player.holding p) as [ent|]; [|reflexivity].
  destruct (Inputs.attack inputs && _); [|reflexivity].
  destruct (fire_weapon _ _ _ _ _ _ _ _) as [[[bs bms] r'] shots].
  destruct (GunEntity.ammo _ <=? 0)%Z; reflexivity.
Qed.

Lemma within_terminal_ring_out (p : Player.t) :
  within_terminal p -> within_terminal (ring_out p).
Proof.
  unfold ring_out, Player_damage_self, Player_hurt, within_terminal.
  destruct (Qltb (WORLD_H - 4) (Player.y p)); [|exact id].
  destruct (Qltb 0 (Player.invuln p)); [exact id|]. cbn.
  destruct (Player.hp p - 999 <=? 0)%Z; cbn; intros Hp; rewrite Radd_correct; lra.
Qed.

(** X8. Falling is capped: after the update of a living agent its vertical
    speed does not exceed [MAX_FALL], whatever it was before and whatever
    the wind zones add; and an agent, dead or alive, whose speed was within
    the cap before the update is within it after. *)
Theorem fall_speed_is_capped (dt : Q) (inputs : Inputs.t)
    (level_rects : list (Rect.t * Z)) (windzones : list WindZone.t)
    (teleports : list Teleport.t) (self : nat) (p : Player.t) (bullets : list Bullet.t)
    (guns : list GunEntity.t) (beams : list Beam.t) (rng : Rng) :
  Player.alive p = true \/ Player.vy p <= MAX_FALL ->
  Player.vy (Player_update dt inputs level_rects windzones teleports self p bullets guns
               beams rng).1.1.1.1 <= MAX_FALL.
Proof.
  apply (Player_update_invariant
           (fun q => Player.alive q = true \/ Player.vy q <= MAX_FALL) within_terminal).
  - intros d q [Hq|Hq] Hdead; [congruence|].
    revert Hq. apply within_terminal_same. unfold tick_timers. simpl.
    destruct (Qltb 0 (Player.dash_time q)); reflexivity.
  - intros. apply within_terminal_steer.
  - intros. apply within_terminal_integrate. assumption.
  - intros. apply within_terminal_secondary. assumption.
  - intros. apply within_terminal_primary. assumption.
  - intros. apply within_terminal_ring_out. assumption.
Qed.

(** *** Agents that do not act *)

Lemma steer_place (dt : Q) (inputs : Inputs.t) (windzones : list WindZone.t)
    (aim : Q * Q) (p : Player.t) :
  Player.x (steer dt inputs windzones aim p) = Player.x p
  /\ Player.y (steer dt inputs windzones aim p) = Player.y p.
Proof.
  unfold steer, apply_gravity. cbn.
  match goal with
  | |- Player.x (foldl ?f ?q0 _) = _ /\ _ =>
      cut (Player.x (foldl f q0 windzones) = Player.x q0
           /\ Player.y (foldl f q0 windzones) = Player.y q0)
  end.
  - intros [-> ->]. cbn.
    unfold drop_input. destruct (_ && _); cbn.
    all: unfold jump_input;
      destruct (Inputs.jump_pressed inputs); cbn;
      repeat match goal with
             | |- context [if ?c then _ else _] => destruct c; cbn
             end;
      unfold move_input;
      repeat match goal with
             | |- context [if ?c then _ else _] => destruct c; cbn
             end; split; reflexivity.
  - apply (foldl_invariant (fun q => Player.x q = Player.x _ /\ Player.y q = Player.y _));
      [|split; reflexivity].
    intros q wz [Hx Hy]. destruct (in_windzone q wz); cbn; split; assumption.
Qed.

(** X9. An agent that is dead, or still in hitlag after the timers have
    run, does not act: its update fires nothing, picks up and throws
    nothing, and leaves its position, its health and its weapon as they
    were.  (Its timers run, and a living agent in hitlag is still steered:
    its velocity changes.) *)
Theorem frozen_agent_does_not_act (dt : Q) (inputs : Inputs.t)
    (level_rects : list (Rect.t * Z)) (windzones : list WindZone.t)
    (teleports : list Teleport.t) (self : nat) (p : Player.t) (bullets : list Bullet.t)
    (guns : list GunEntity.t) (beams : list Beam.t) (rng : Rng) :
  Player.alive p = false \/ dt < Player.hitlag p ->
  exists p',
    (Player_update dt inputs level_rects windzones teleports self p bullets guns beams
       rng).1
    = (p', bullets, guns, beams)
    /\ Player.x p' = Player.x p /\ Player.y p' = Player.y p
    /\ Player.hp p' = Player.hp p /\ Player.holding p' = Player.holding p
    /\ Player.alive p' = Player.alive p.
Proof.
  intros Hfrozen. rewrite Player_update_cases. cbv zeta.
  pose proof (tick_timers_combat dt p) as Ht.
  destruct (combat_tuple _ _ _ _ _ _ _ _ _ _ Ht) as (Hhp & Hal & Hho & _ & _ & Hlag & _).
  destruct (tick_timers_place dt p) as (Hx & Hy & _).
  destruct (Player.alive p) eqn:Halive; cbn [negb].
  - destruct Hfrozen as [Hdead|Hlagging]; [discriminate|].
    pose proof (combat_steer dt inputs windzones (read_aim inputs (tick_timers dt p))
                  (tick_timers dt p)) as Hs.
    destruct (combat_fields _ _ Hs) as (Hhp1 & Hal1 & Hho1 & _ & _ & Hlag1 & _).
    destruct (steer_place dt inputs windzones (read_aim inputs (tick_timers dt p))
                (tick_timers dt p)) as [Hx1 Hy1].
    assert (Hpos : 0 < Player.hitlag p - dt) by (rewrite Rsub_correct; lra).
    rewrite Hlag1, Hlag, (pymax_0_pos _ Hpos).
    assert (Hb : Qltb 0 (Player.hitlag p - dt) = true) by (apply Qltb_lt; exact Hpos).
    rewrite Hb. eexists. split; [reflexivity|].
    repeat split; congruence.
  - eexists. split; [reflexivity|]. repeat split; congruence.
Qed.

Lemma secondary_frame (self : nat) (aim : Q * Q) (p : Player.t) (guns : list GunEntity.t) :
  Player.attack_cool (secondary self aim p guns).1 = Player.attack_cool p
  /\ Player.vy (secondary self aim p guns).1 = Player.vy p.
Proof.
  unfold secondary. destruct (Player.holding p) as [ent|]; [split; reflexivity|].
  destruct (find (can_pick p) (indexed guns)) as [[i g]|]; split; reflexivity.
Qed.

Lemma primary_idle (self : nat) (inputs : Inputs.t) (aim : Q * Q)
    (level_rects : list (Rect.t * Z)) (p : Player.t) (bullets : list Bullet.t)
    (beams : list Beam.t) (rng : Rng) :
  Player.holding p = None \/ Inputs.attack inputs = false \/ 0 < Player.attack_cool p ->
  primary self inputs aim level_rects p bullets beams rng = (p, bullets, beams, rng).
Proof.
  intros Hidle. unfold primary. destruct (Player.holding p) as [ent|]; [|reflexivity].
  destruct Hidle as [Hn|[Ha|Hc]]; [discriminate| |].
  - rewrite Ha. reflexivity.
  - assert (Hb : Qle_bool (Player.attack_cool p) 0 = false).
    { destruct (Qle_bool (Player.attack_cool p) 0) eqn:E; [|reflexivity].
      apply Qle_bool_iff in E. exfalso. exact (Qlt_not_le _ _ Hc E). }
    rewrite Hb, andb_false_r. reflexivity.
Qed.

(** X10. No shot without a ready weapon: the update of an agent whose
    weapon is still cooling down once the timers have run, or that does not
    press fire, or that holds nothing and does not use its secondary action,
    adds no projectile and no beam to the world. *)
Theorem no_shot_without_a_ready_weapon (dt : Q) (inputs : Inputs.t)
    (level_rects : list (Rect.t * Z)) (windzones : list WindZone.t)
    (teleports : list Teleport.t) (self : nat) (p : Player.t) (bullets : list Bullet.t)
    (guns : list GunEntity.t) (beams : list Beam.t) (rng : Rng) :
  dt < Player.attack_cool p
  \/ Inputs.attack inputs = false
  \/ (Player.holding p = None /\ Inputs.rmb_release inputs = false) ->
  (Player_update dt inputs level_rects windzones teleports self p bullets guns beams
     rng).1.1.1.2 = bullets
  /\ (Player_update dt inputs level_rects windzones teleports self p bullets guns beams
        rng).1.2 = beams.
Proof.
  intros Hidle. rewrite Player_update_cases. cbv zeta.
  destruct (negb (Player.alive p)); [repeat split|].
  destruct (Qltb 0 (Player.hitlag _)); [repeat split|].
  cbn [fst snd].
  pose proof (tick_timers_combat dt p) as Ht.
  destruct (combat_tuple _ _ _ _ _ _ _ _ _ _ Ht) as (_ & _ & Hho0 & Hac0 & _).
  pose proof (combat_steer dt inputs windzones (read_aim inputs (tick_timers dt p))
                (tick_timers dt p)) as Hs.
  destruct (combat_fields _ _ Hs) as (_ & _ & Hho1 & Hac1 & _).
  pose proof (combat_integrate dt level_rects teleports
                (read_aim inputs (tick_timers dt p)).1
                (steer dt inputs windzones (read_aim inputs (tick_timers dt p))
                   (tick_timers dt p))) as Hi.
  destruct (combat_fields _ _ Hi) as (_ & _ & Hho2 & Hac2 & _).
  set (p2 := integrate dt level_rects teleports _ _) in *.
  rewrite primary_idle; [repeat split|].
  destruct Hidle as [Hcool|[Hoff|[Hnone Hrmb]]].
  - right. right.
    assert (Hpos : 0 < Player.attack_cool p - dt) by (rewrite Rsub_correct; lra).
    assert (Hac : Player.attack_cool p2 = Player.attack_cool p - dt).
    { rewrite Hac2, Hac1, Hac0. apply pymax_0_pos. exact Hpos. }
    destruct (Inputs.rmb_release inputs); cbn [fst];
      [rewrite (proj1 (secondary_frame self _ p2 guns))|]; rewrite Hac; exact Hpos.
  - right. left. exact Hoff.
  - left. rewrite Hrmb. cbn [fst]. congruence.
Qed.

(** *** What a shot adds *)

Lemma fire_pellets_appends (n self : nat) (p : Player.t) (g : GunDef.t) (angle speed : Q) :
  forall (bullets : list Bullet.t) (rng : Rng),
    exists new,
      (fire_pellets n self p g angle speed bullets rng).1 = bullets ++ new
      /\ Forall (fun b => Bullet.owner b = self /\ Bullet.age b = 0
                          /\ Bullet.dmg b = GunDef.dmg g /\ Bullet.explosive b = false) new.
Proof.
  induction n as [|n IH]; intros bullets rng; cbn [fire_pellets].
  - exists []. split; [rewrite app_nil_r; reflexivity|constructor].
  - destruct (uniform _ _ rng) as [u rng'].
    destruct (IH (bullets ++ [fire_one self p angle (radians u) speed (GunDef.dmg g)
                                0.6 5 false false 0 0]) rng') as (new & Hnew & Hall).
    eexists. split; [rewrite Hnew, <- app_assoc; reflexivity|].
    constructor; [repeat split|exact Hall].
Qed.

Lemma fire_weapon_appends (self : nat) (p : Player.t) (g : GunDef.t) (angle : Q)
    (level_rects : list (Rect.t * Z)) (bullets : list Bullet.t) (beams : list Beam.t)
    (rng : Rng) :
  exists new cast,
    (fire_weapon self p g angle level_rects bullets beams rng).1.1.1 = bullets ++ new
    /\ (fire_weapon self p g angle level_rects bullets beams rng).1.1.2 = beams ++ cast
    /\ Forall (fun b => Bullet.owner b = self /\ Bullet.age b = 0
                        /\ Bullet.dmg b = GunDef.dmg g) new
    /\ Forall (fun bm => Beam.owner bm = self /\ Beam.age bm = 0
                         /\ Beam.hit_once bm = ∅) cast.
Proof.
  unfold fire_weapon.
  repeat match goal with
         | |- context [bool_decide ?c] => destruct (bool_decide c)
         end.
  - destruct (fire_pellets_appends (Z.to_nat (GunDef.pellet g)) self p g angle
                (GunDef.speed g * 0.9) bullets rng) as (new & Hnew & Hall).
    destruct (fire_pellets _ _ _ _ _ _ _ _) as [bs r']. cbn [fst snd] in *.
    exists new, []. rewrite app_nil_r. split; [exact Hnew|]. split; [reflexivity|].
    split; [|constructor].
    eapply Forall_impl; [exact Hall|]. intros b (Ha & Hb & Hc & _). repeat split; assumption.
  - destruct (fire_pellets_appends 3 self p g angle (GunDef.speed g * 0.95) bullets rng)
      as (new & Hnew & Hall).
    destruct (fire_pellets _ _ _ _ _ _ _ _) as [bs r']. cbn [fst snd] in *.
    exists new, []. rewrite app_nil_r. split; [exact Hnew|]. split; [reflexivity|].
    split; [|constructor].
    eapply Forall_impl; [exact Hall|]. intros b (Ha & Hb & Hc & _). repeat split; assumption.
  - eexists [_], []. cbn [fst snd]. rewrite app_nil_r.
    repeat split; repeat constructor.
  - eexists [_], []. cbn [fst snd]. rewrite app_nil_r.
    repeat split; repeat constructor.
  - eexists [], [_]. cbn [fst snd]. rewrite app_nil_r.
    repeat split; repeat constructor.
  - eexists [_], []. cbn [fst snd]. rewrite app_nil_r.
    repeat split; repeat constructor.
Qed.

(** X11. The update of an agent only appends to the projectiles and to the
    beams of the world, and what it appends is its own: the projectiles and
    beams already in flight are left as they are and in place, and every
    new one is owned by the agent and starts at age zero (a beam with an
    empty hit set). *)
Theorem agent_update_only_adds_its_own_shots (dt : Q) (inputs : Inputs.t)
    (level_rects : list (Rect.t * Z)) (windzones : list WindZone.t)
    (teleports : list Teleport.t) (self : nat) (p : Player.t) (bullets : list Bullet.t)
    (guns : list GunEntity.t) (beams : list Beam.t) (rng : Rng) :
  exists new cast,
    (Player_update dt inputs level_rects windzones teleports self p bullets guns beams
       rng).1.1.1.2 = bullets ++ new
    /\ (Player_update dt inputs level_rects windzones teleports self p bullets guns beams
          rng).1.2 = beams ++ cast
    /\ Forall (fun b => Bullet.owner b = self /\ Bullet.age b = 0) new
    /\ Forall (fun bm => Beam.owner bm = self /\ Beam.age bm = 0
                         /\ Beam.hit_once bm = ∅) cast.
Proof.
  rewrite Player_update_cases. cbv zeta.
  assert (Hnone : exists new cast,
             bullets = bullets ++ new /\ beams = beams ++ cast
             /\ Forall (fun b => Bullet.owner b = self /\ Bullet.age b = 0) new
             /\ Forall (fun bm => Beam.owner bm = self /\ Beam.age bm = 0
                                  /\ Beam.hit_once bm = ∅) cast).
  { exists [], []. rewrite !app_nil_r. repeat split; constructor. }
  destruct (negb (Player.alive p)); [exact Hnone|].
  destruct (Qltb 0 (Player.hitlag _)); [exact Hnone|].
  cbn [fst snd].
  match goal with
  | |- context [primary self inputs ?aim level_rects ?q bullets beams rng] =>
      generalize q; generalize aim
  end.
  intros aim q. unfold primary.
  destruct (Player.holding q) as [ent|]; [|exact Hnone].
  destruct (Inputs.attack inputs && _); [|exact Hnone].
  destruct (fire_weapon_appends self q (GunEntity.gdef ent)
              (atan2 (aim.2 - (hand q).2) (aim.1 - Player.x q)) level_rects bullets beams rng)
    as (new & cast & Hb & Hbm & Hnew & Hcast).
  destruct (fire_weapon _ _ _ _ _ _ _ _) as [[[bs bms] r'] shots]. cbn [fst snd] in *.
  exists new, cast. split; [exact Hb|]. split; [exact Hbm|]. split; [|exact Hcast].
  eapply Forall_impl; [exact Hnew|]. intros b (Ha & Hc & _). split; assumption.
Qed.

(** *** Picking up and throwing *)

Lemma GunEntity_flight_state (ticks : list (Q * list (Rect.t * Z))) :
  forall e : GunEntity.t, GunEntity.state (gun_flight ticks e) = GunEntity.state e.
Proof.
  induction ticks as [|[dt lv] rest IH]; intros e; cbn [gun_flight]; [reflexivity|].
  rewrite IH. apply GunEntity_update_state.
Qed.

Lemma GunEntity_update_spawned (dt : Q) (level_rects : list (Rect.t * Z))
    (e : GunEntity.t) :
  GunEntity.spawned_pickup (GunEntity_update dt level_rects e).1
  = GunEntity.spawned_pickup e.
Proof.
  unfold GunEntity_update.
  repeat match goal with
         | |- context [if ?c then _ else _] => destruct c; cbn [fst]
         end; reflexivity.
Qed.

Lemma GunEntity_flight_spawned (ticks : list (Q * list (Rect.t * Z))) :
  forall e : GunEntity.t,
    GunEntity.spawned_pickup (gun_flight ticks e) = GunEntity.spawned_pickup e.
Proof.
  induction ticks as [|[dt lv] rest IH]; intros e; cbn [gun_flight]; [reflexivity|].
  rewrite IH. apply GunEntity_update_spawned.
Qed.

(** X12. A thrown weapon is lost: the secondary action of an armed agent
    puts the held weapon into the world in state [tossed], with its ammo and
    its definition, no longer a spawned pickup, and empties the hand; through
    all of its flight the weapon stays [tossed], so that no agent can ever
    pick it up again, and the gun loop deletes it at the first update that
    reports an impact. *)
Theorem thrown_weapon_is_lost (self : nat) (aim : Q * Q) (p : Player.t)
    (guns : list GunEntity.t) (ent : GunEntity.t) :
  Player.holding p = Some ent ->
  exists e,
    secondary self aim p guns = (Player.set_holding None p, guns ++ [e])
    /\ GunEntity.state e = "tossed"
    /\ GunEntity.spawned_pickup e = false
    /\ GunEntity.owner e = Some self
    /\ GunEntity.ammo e = GunEntity.ammo ent
    /\ GunEntity.gdef e = GunEntity.gdef ent
    /\ (forall ticks q i, can_pick q (i, gun_flight ticks e) = false)
    /\ (forall ticks dt level_rects,
          (GunEntity_update dt level_rects (gun_flight ticks e)).2 = false ->
          update_guns dt level_rects [gun_flight ticks e] = []).
Proof.
  intros Hheld. unfold secondary. rewrite Hheld.
  eexists. split; [reflexivity|].
  split; [reflexivity|]. split; [reflexivity|]. split; [reflexivity|].
  split; [reflexivity|]. split; [reflexivity|].
  match goal with
  | |- context [gun_flight _ ?e0] => set (e := e0)
  end.
  assert (Hstate : GunEntity.state e = "tossed") by reflexivity.
  assert (Hspawn : GunEntity.spawned_pickup e = false) by reflexivity.
  clearbody e. split.
  - intros ticks q i. unfold can_pick. cbn [snd].
    rewrite GunEntity_flight_state, Hstate. reflexivity.
  - intros ticks dt lv Hgone.
    pose proof (GunEntity_update_spawned dt lv (gun_flight ticks e)) as Hsp.
    rewrite GunEntity_flight_spawned, Hspawn in Hsp.
    unfold update_guns, omap, list_omap.
    destruct (GunEntity_update dt lv (gun_flight ticks e)) as [e' alive].
    cbn [fst snd] in *. subst alive. rewrite Hsp. reflexivity.
Qed.

(** X13. An unarmed agent that uses its secondary action picks up the
    first weapon of the gun list that lies on the ground within reach (less
    than 56 units across and 84 units up or down from the top of its box):
    that weapon leaves the list, the others stay in order, and it is held
    with its ammo and definition, equipped and owned by the agent.  With no
    such weapon nothing changes. *)
Theorem pickup_takes_the_first_weapon_in_reach (self : nat) (aim : Q * Q) (p : Player.t)
    (guns : list GunEntity.t) :
  Player.holding p = None ->
  (secondary self aim p guns = (p, guns)
   /\ forall i g, guns !! i = Some g -> can_pick p (i, g) = false)
  \/ exists i g,
       guns !! i = Some g
       /\ GunEntity.state g = "ground"
       /\ Qabs' (GunEntity.x g - Player.x p) < 56
       /\ Qabs' (GunEntity.y g - (Player.y p - Player.h p)) < 84
       /\ (forall j g', (j < i)%nat -> guns !! j = Some g' -> can_pick p (j, g') = false)
       /\ secondary self aim p guns
          = (Player.set_holding (Some (equipped_by self g)) p, delete i guns)
       /\ GunEntity.ammo (equipped_by self g) = GunEntity.ammo g
       /\ GunEntity.gdef (equipped_by self g) = GunEntity.gdef g.
Proof.
  intros Hfree. unfold secondary. rewrite Hfree.
  destruct (find (can_pick p) (indexed guns)) as [[i g]|] eqn:Hfind.
  - right. exists i, g.
    destruct (find_indexed _ _ _ _ Hfind) as [Hi Hpick].
    unfold can_pick in Hpick. cbn [snd] in Hpick.
    apply andb_true_iff in Hpick. destruct Hpick as [Hpick Hy].
    apply andb_true_iff in Hpick. destruct Hpick as [Hst Hx].
    apply bool_decide_eq_true in Hst. apply Qltb_lt in Hx, Hy.
    split; [exact Hi|]. split; [exact Hst|]. split; [exact Hx|]. split; [exact Hy|].
    split; [exact (find_indexed_first _ _ _ _ Hfind)|].
    repeat split.
  - left. split; [reflexivity|].
    intros i g Hi. apply (find_none _ _ Hfind (i, g)).
    apply list_elem_of_In. apply indexed_lookup. exact Hi.
Qed.

End UpdatePhases.

(** ** The generator *)

Lemma choice_Some {A : Type} (l : list A) (r : Rng) :
  l <> [] -> exists a, (choice l r).1 = Some a /\ a ∈ l.
Proof.
  intros Hne. unfold choice. cbn.
  assert (Hlen : (0 < Z.of_nat (length l))%Z) by (destruct l; [congruence|cbn; lia]).
  pose proof (Z.mod_pos_bound
                (Qfloor (draws r (cursor r) * inject_Z (Z.of_nat (length l))))
                (Z.of_nat (length l)) Hlen) as Hb.
  destruct (lookup_lt_is_Some_2 l
              (Z.to_nat (Qfloor (draws r (cursor r) * inject_Z (Z.of_nat (length l)))
                         mod Z.of_nat (length l)))) as [a Ha]; [lia|].
  exists a. split; [exact Ha|]. eapply list_elem_of_lookup_2. exact Ha.
Qed.

Lemma randint_range (a b : Z) (r : Rng) :
  (a <= b)%Z -> (a <= (randint a b r).1 <= b)%Z.
Proof.
  intros Hab. unfold randint. cbn.
  pose proof (Z.mod_pos_bound (Qfloor (draws r (cursor r) * inject_Z (b - a + 1)))
                (b - a + 1) ltac:(lia)) as Hb.
  lia.
Qed.

(** ** The roster through a tick *)

Section RosterLength.
Context `{Libm}.

Lemma Bullet_explode_length (b : Bullet.t) (ps : list Player.t) (center : option (Q * Q)) :
  length (Bullet_explode b ps center) = length ps.
Proof.
  unfold Bullet_explode. destruct (negb (Bullet.explosive b)); [reflexivity|].
  destruct (match center with None => _ | Some c => c end) as [cx cy].
  generalize (seq 0 (length ps)). intros l. revert ps.
  induction l as [|i l IH]; intros ps; cbn [foldl]; [reflexivity|].
  rewrite IH. apply splash_one_length.
Qed.

Lemma Bullet_update_length (dt : Q) (level_rects : list (Rect.t * Z)) (ps : list Player.t)
    (b : Bullet.t) :
  length (Bullet_update dt level_rects ps b).1.1 = length ps.
Proof.
  unfold Bullet_update.
  destruct (proximity_trigger _ ps); [apply Bullet_explode_length|].
  destruct (existsb _ level_rects); [apply Bullet_explode_length|].
  destruct (find _ (indexed ps)) as [[i pl]|]; [|reflexivity].
  cbn [fst]. rewrite Bullet_explode_length. apply Player_damage_length.
Qed.

Lemma update_bullets_length (dt : Q) (level_rects : list (Rect.t * Z))
    (bullets : list Bullet.t) :
  forall ps : list Player.t,
    length (update_bullets dt level_rects ps bullets).1 = length ps.
Proof.
  induction bullets as [|b rest IH]; intros ps; cbn [update_bullets]; [reflexivity|].
  pose proof (Bullet_update_length dt level_rects ps b) as Hb.
  destruct (Bullet_update dt level_rects ps b) as [[ps1 b1] alive]. cbn [fst] in Hb.
  specialize (IH ps1). destruct (update_bullets dt level_rects ps1 rest) as [ps2 rest2].
  cbn [fst] in *. congruence.
Qed.

Lemma beam_one_length (st : list Player.t * Beam.t) (i : nat) :
  length (beam_one st i).1 = length st.1.
Proof.
  destruct st as [ps bm]. unfold beam_one.
  destruct (ps !! i) as [pl|]; [|reflexivity].
  destruct (beam_reaches bm i pl); [|reflexivity].
  cbn [fst]. apply Player_damage_length.
Qed.

Lemma Beam_update_length (dt : Q) (ps : list Player.t) (bm : Beam.t) :
  length (Beam_update dt ps bm).1.1 = length ps.
Proof.
  unfold Beam_update.
  destruct (Beam.active _).
  - assert (Hf : forall l st, length (foldl beam_one st l).1 = length st.1).
    { induction l as [|i l IH]; intros st; cbn [foldl]; [reflexivity|].
      rewrite IH. apply beam_one_length. }
    specialize (Hf (seq 0 (length ps)) (ps, Beam.set_age (Beam.age bm + dt) bm)).
    destruct (foldl beam_one _ _) as [ps1 bm1]. exact Hf.
  - reflexivity.
Qed.

Lemma update_beams_length (dt : Q) (beams : list Beam.t) :
  forall ps : list Player.t, length (update_beams dt ps beams).1 = length ps.
Proof.
  induction beams as [|bm rest IH]; intros ps; cbn [update_beams]; [reflexivity|].
  pose proof (Beam_update_length dt ps bm) as Hb.
  destruct (Beam_update dt ps bm) as [[ps1 bm1] alive]. cbn [fst] in Hb.
  specialize (IH ps1). destruct (update_beams dt ps1 rest) as [ps2 rest2].
  cbn [fst] in *. congruence.
Qed.

Lemma update_player_length (dt : Q) (inputs : nat -> Inputs.t)
    (level_now : list (Rect.t * Z)) (g : Game.t) (i : nat) :
  length (Game.players (update_player dt inputs level_now g i)) = length (Game.players g).
Proof.
  unfold update_player. destruct (Game.players g !! i) as [p|]; [|reflexivity].
  destruct (Player_update _ _ _ _ _ _ _ _ _ _ _) as [[[[p' bs] gs] bms] r'].
  cbn. apply length_insert.
Qed.

Lemma update_players_length (dt : Q) (inputs : nat -> Inputs.t)
    (level_now : list (Rect.t * Z)) (g : Game.t) :
  length (Game.players (update_players dt inputs level_now g)) = length (Game.players g).
Proof.
  unfold update_players. generalize (seq 0 (length (Game.players g))). intros l. revert g.
  induction l as [|i l IH]; intros g; cbn [foldl]; [reflexivity|].
  rewrite IH. apply update_player_length.
Qed.

End RosterLength.

Lemma respawn_player_length (respawns : list (Q * Q)) (ps ps' : list Player.t)
    (rng rng' : Rng) (i : nat) :
  respawn_player respawns (Some (ps, rng)) i = Some (ps', rng') -> length ps' = length ps.
Proof.
  unfold respawn_player. cbn [mbind option_bind].
  destruct (ps !! i) as [p|]; [|intros [= <- <-]; reflexivity].
  destruct (negb (Player.alive p)); [|intros [= <- <-]; reflexivity].
  destruct (choice respawns rng) as [[pos|] rng1]; cbn [mbind option_bind]; [|discriminate].
  destruct (give_random_weapon _ i rng1) as [[p' rng2]|]; cbn [mbind option_bind];
    [|discriminate].
  intros [= <- <-]. apply length_insert.
Qed.

Lemma respawn_fold_length (respawns : list (Q * Q)) (l : list nat) :
  forall (ps ps' : list Player.t) (rng rng' : Rng),
    foldl (respawn_player respawns) (Some (ps, rng)) l = Some (ps', rng') ->
    length ps' = length ps.
Proof.
  induction l as [|i l IH]; intros ps ps' rng rng' Hf; cbn [foldl] in Hf.
  - injection Hf as <- <-. reflexivity.
  - destruct (respawn_player respawns (Some (ps, rng)) i) as [[ps1 rng1]|] eqn:E.
    + rewrite (IH _ _ _ _ Hf). exact (respawn_player_length _ _ _ _ _ _ E).
    + rewrite respawn_fold_None in Hf. discriminate.
Qed.

Lemma give_random_weapon_Some (p : Player.t) (self : nat) (rng : Rng) :
  exists gd ent rng',
    give_random_weapon p self rng = Some (Player.set_holding (Some ent) p, rng')
    /\ gd ∈ GUNS
    /\ ent = equipped_by self
               (GunEntity.init gd (Player.x p, Player.y p - Player.h p * 0.6) None false).
Proof.
  unfold give_random_weapon.
  destruct (choice_Some GUNS rng ltac:(discriminate)) as (gd & Hgd & Hin).
  destruct (choice GUNS rng) as [o rng']. cbn [fst] in Hgd. subst o.
  cbn [mbind option_bind]. exists gd. eexists. exists rng'.
  split; [reflexivity|]. split; [exact Hin|reflexivity].
Qed.

Lemma respawn_player_Some (respawns : list (Q * Q)) (ps : list Player.t) (rng : Rng)
    (i : nat) :
  respawns <> [] ->
  exists ps' rng', respawn_player respawns (Some (ps, rng)) i = Some (ps', rng').
Proof.
  intros Hne. unfold respawn_player. cbn [mbind option_bind].
  destruct (ps !! i) as [p|]; [|eauto].
  destruct (negb (Player.alive p)); [|eauto].
  destruct (choice_Some respawns rng Hne) as (pos & Hpos & _).
  destruct (choice respawns rng) as [o rng1]. cbn [fst] in Hpos. subst o.
  cbn [mbind option_bind].
  destruct (give_random_weapon_Some (Player_respawn pos p) i rng1)
    as (gd & ent & rng2 & Hg & _).
  rewrite Hg. cbn [mbind option_bind]. eauto.
Qed.

Lemma respawn_fold_Some (respawns : list (Q * Q)) (l : list nat) :
  respawns <> [] ->
  forall (ps : list Player.t) (rng : Rng),
    exists ps' rng', foldl (respawn_player respawns) (Some (ps, rng)) l = Some (ps', rng').
Proof.
  intros Hne. induction l as [|i l IH]; intros ps rng; cbn [foldl]; [eauto|].
  destruct (respawn_player_Some respawns ps rng i Hne) as (ps1 & rng1 & ->).
  apply IH.
Qed.

(** After the respawn loop every agent it has visited is alive. *)
Lemma respawn_fold_alive (respawns : list (Q * Q)) (l : list nat) :
  forall (ps ps' : list Player.t) (rng rng' : Rng),
    foldl (respawn_player respawns) (Some (ps, rng)) l = Some (ps', rng') ->
    forall i p', ps' !! i = Some p' ->
                 (i ∈ l -> Player.alive p' = true)
                 /\ (Player.alive p' = false -> ps !! i = Some p').
Proof.
  induction l as [|j l IH]; intros ps ps' rng rng' Hf i p' Hi; cbn [foldl] in Hf.
  - injection Hf as <- <-. split; [intros Hin; inversion Hin|intros _; exact Hi].
  - destruct (respawn_player respawns (Some (ps, rng)) j) as [[ps1 rng1]|] eqn:E;
      [|rewrite respawn_fold_None in Hf; discriminate].
    destruct (IH _ _ _ _ Hf i p' Hi) as [Hin Hout].
    assert (Hstep : forall q, ps1 !! i = Some q -> Player.alive q = false ->
                              ps !! i = Some q /\ i <> j).
    { intros q Hq Hdead. unfold respawn_player in E. cbn [mbind option_bind] in E.
      destruct (ps !! j) as [pj|] eqn:Hj.
      - destruct (Player.alive pj) eqn:Halive; cbn [negb] in E.
        + injection E as <- <-. split; [exact Hq|]. intros ->. congruence.
        + destruct (choice respawns rng) as [[pos|] rng2]; cbn [mbind option_bind] in E;
            [|discriminate].
          destruct (give_random_weapon_Some (Player_respawn pos pj) j rng2)
            as (gd & ent & rng3 & Hg & _).
          rewrite Hg in E. cbn [mbind option_bind] in E. injection E as <- <-.
          destruct (decide (i = j)) as [->|Hne].
          * rewrite list_lookup_insert_eq in Hq by (eapply lookup_lt_Some; exact Hj).
            injection Hq as <-. discriminate.
          * rewrite list_lookup_insert_ne in Hq by (intros E'; apply Hne; symmetry; exact E').
            split; [exact Hq|exact Hne].
      - injection E as <- <-. split; [exact Hq|]. intros ->. congruence. }
    split.
    + intros Hmem. destruct (Player.alive p') eqn:Hp'; [reflexivity|].
      specialize (Hout eq_refl). destruct (Hstep p' Hout Hp') as [_ Hne].
      apply elem_of_cons in Hmem. destruct Hmem as [->|Hmem]; [congruence|].
      exact (Hin Hmem).
    + intros Hdead. exact (proj1 (Hstep p' (Hout Hdead) Hdead)).
Qed.

Section RosterInvariant.
Context `{Libm}.
Variable R : Player.t -> Prop.
Hypothesis R_hurt : forall amount knock p, R p -> R (Player_hurt amount knock p).
Hypothesis R_kos : forall k p, R p -> R (Player.set_kos k p).
Hypothesis R_tick : forall dt p, R p -> R (tick_timers dt p).
Hypothesis R_steer : forall dt inputs windzones aim p,
    R p -> R (steer dt inputs windzones aim p).
Hypothesis R_integrate : forall dt level_rects teleports mx p,
    R p -> R (integrate dt level_rects teleports mx p).
Hypothesis R_holding : forall h p, R p -> R (Player.set_holding h p).
Hypothesis R_attack_cool : forall c p, R p -> R (Player.set_attack_cool c p).
Hypothesis R_respawn : forall pos p, R p -> R (Player_respawn pos p).
Hypothesis R_push : forall x vx p, R p -> R (Player.set_vx vx (Player.set_x x p)).

Lemma roster_damage (ps : list Player.t) (i : nat) (amount : Z) (knock : Q * Q)
    (attacker : option nat) :
  Forall R ps -> Forall R (Player_damage ps i amount knock attacker).
Proof.
  intros Hps. unfold Player_damage. destruct (ps !! i) as [p|] eqn:Hi; [|exact Hps].
  destruct (Qltb 0 (Player.invuln p)); [exact Hps|].
  assert (Hp : R p) by (eapply (Forall_lookup_1 R ps i p); eauto).
  assert (Hins : Forall R (<[i := Player_hurt amount knock p]> ps)).
  { apply Forall_insert; [exact Hps|apply R_hurt; exact Hp]. }
  destruct (Player.hp (Player_hurt amount knock p) <=? 0)%Z; [|exact Hins].
  destruct attacker as [a|]; [|exact Hins].
  destruct (bool_decide (a = i)); [exact Hins|].
  apply Forall_alter; [exact Hins|]. intros q _ Hq. apply R_kos. exact Hq.
Qed.

Lemma roster_explode (b : Bullet.t) (ps : list Player.t) (center : option (Q * Q)) :
  Forall R ps -> Forall R (Bullet_explode b ps center).
Proof.
  unfold Bullet_explode. destruct (negb (Bullet.explosive b)); [exact id|].
  destruct (match center with None => _ | Some c => c end) as [cx cy].
  apply foldl_invariant. intros qs i Hqs. unfold splash_one.
  destruct (qs !! i) as [pl|]; [|exact Hqs].
  destruct (negb (Player.alive pl)); [exact Hqs|].
  destruct (Qltb _ _); [apply roster_damage; exact Hqs|exact Hqs].
Qed.

Lemma roster_update_bullets (dt : Q) (level_rects : list (Rect.t * Z))
    (bullets : list Bullet.t) :
  forall ps : list Player.t,
    Forall R ps -> Forall R (update_bullets dt level_rects ps bullets).1.
Proof.
  induction bullets as [|b rest IH]; intros ps Hps; cbn [update_bullets]; [exact Hps|].
  assert (Hb : Forall R (Bullet_update dt level_rects ps b).1.1).
  { unfold Bullet_update.
    destruct (proximity_trigger _ ps); [apply roster_explode; exact Hps|].
    destruct (existsb _ level_rects); [apply roster_explode; exact Hps|].
    destruct (find _ (indexed ps)) as [[i pl]|]; [|exact Hps].
    cbn [fst]. apply roster_explode, roster_damage. exact Hps. }
  destruct (Bullet_update dt level_rects ps b) as [[ps1 b1] alive]. cbn [fst] in Hb.
  specialize (IH ps1 Hb). destruct (update_bullets dt level_rects ps1 rest) as [ps2 rest2].
  exact IH.
Qed.

Lemma roster_update_beams (dt : Q) (beams : list Beam.t) :
  forall ps : list Player.t, Forall R ps -> Forall R (update_beams dt ps beams).1.
Proof.
  induction beams as [|bm rest IH]; intros ps Hps; cbn [update_beams]; [exact Hps|].
  assert (Hb : Forall R (Beam_update dt ps bm).1.1).
  { unfold Beam_update. destruct (Beam.active _); [|exact Hps].
    assert (Hf : forall l st, Forall R st.1 -> Forall R (foldl beam_one st l).1).
    { intros l. apply (foldl_invariant (fun st : list Player.t * Beam.t => Forall R st.1)).
      intros [qs b0] i Hqs. unfold beam_one.
      destruct (qs !! i) as [pl|]; [|exact Hqs].
      destruct (beam_reaches b0 i pl); [|exact Hqs].
      cbn [fst] in *. apply roster_damage. exact Hqs. }
    specialize (Hf (seq 0 (length ps)) (ps, Beam.set_age (Beam.age bm + dt) bm) Hps).
    destruct (foldl beam_one _ _) as [ps1 bm1]. exact Hf. }
  destruct (Beam_update dt ps bm) as [[ps1 bm1] alive]. cbn [fst] in Hb.
  specialize (IH ps1 Hb). destruct (update_beams dt ps1 rest) as [ps2 rest2].
  exact IH.
Qed.

Lemma roster_ring_out (p : Player.t) : R p -> R (ring_out p).
Proof.
  intros Hp. unfold ring_out, Player_damage_self.
  destruct (Qltb _ (Player.y p)); [|exact Hp].
  destruct (Qltb 0 (Player.invuln p)); [exact Hp|]. apply R_hurt. exact Hp.
Qed.

Lemma roster_Player_update (dt : Q) (inputs : Inputs.t)
    (level_rects : list (Rect.t * Z)) (windzones : list WindZone.t)
    (teleports : list Teleport.t) (self : nat) (p : Player.t) (bullets : list Bullet.t)
    (guns : list GunEntity.t) (beams : list Beam.t) (rng : Rng) :
  R p ->
  R (Player_update dt inputs level_rects windzones teleports self p bullets guns beams
       rng).1.1.1.1.
Proof.
  apply (Player_update_invariant R R).
  - intros d q Hq _. apply R_tick. exact Hq.
  - intros d i w a q Hq _. apply R_steer, R_tick. exact Hq.
  - intros. apply R_integrate. assumption.
  - intros self' aim q gs Hq. unfold secondary.
    destruct (Player.holding q) as [ent|].
    + cbn [fst]. apply R_holding. exact Hq.
    + destruct (find (can_pick q) (indexed gs)) as [[i g]|]; cbn [fst];
        [apply R_holding|]; exact Hq.
  - intros self' i aim lv q bs bms r Hq. unfold primary.
    destruct (Player.holding q) as [ent|]; [|exact Hq].
    destruct (Inputs.attack i && _); [|exact Hq].
    destruct (fire_weapon _ _ _ _ _ _ _ _) as [[[bs' bms'] r'] shots].
    destruct (GunEntity.ammo _ <=? 0)%Z; cbn [fst]; apply R_holding, R_attack_cool; exact Hq.
  - intros. apply roster_ring_out. assumption.
Qed.

Lemma roster_update_players (dt : Q) (inputs : nat -> Inputs.t)
    (level_now : list (Rect.t * Z)) (g : Game.t) :
  Forall R (Game.players g) ->
  Forall R (Game.players (update_players dt inputs level_now g)).
Proof.
  unfold update_players. generalize (seq 0 (length (Game.players g))). intros l. revert g.
  induction l as [|i l IH]; intros g Hg; cbn [foldl]; [exact Hg|].
  apply IH. unfold update_player.
  destruct (Game.players g !! i) as [p|] eqn:Hi; [|exact Hg].
  pose proof (roster_Player_update dt (inputs i) level_now (Game.windzones g)
                (Game.teleports g) i p (Game.bullets g) (Game.guns g) (Game.beams g)
                (Game.rng g) (Forall_lookup_1 R _ i p Hg Hi)) as Hp.
  destruct (Player_update _ _ _ _ _ _ _ _ _ _ _) as [[[[p' bs] gs] bms] r'].
  cbn in *. apply Forall_insert; assumption.
Qed.

Lemma roster_respawn_players (g g' : Game.t) :
  respawn_players g = Some g' -> Forall R (Game.players g) -> Forall R (Game.players g').
Proof.
  unfold respawn_players.
  destruct (foldl _ _ _) as [[ps' rng']|] eqn:Hf; cbn [mbind option_bind]; [|discriminate].
  intros [= <-]. cbn. revert Hf.
  generalize (Game.rng g). generalize (seq 0 (length (Game.players g))).
  generalize (Game.players g). intros ps l. revert ps ps' rng'.
  induction l as [|i l IH]; intros ps ps' rng' rng Hf Hps; cbn [foldl] in Hf.
  - injection Hf as <- <-. exact Hps.
  - destruct (respawn_player (Game.respawns g) (Some (ps, rng)) i) as [[ps1 rng1]|] eqn:E;
      [|rewrite respawn_fold_None in Hf; discriminate].
    apply (IH _ _ _ _ Hf). unfold respawn_player in E. cbn [mbind option_bind] in E.
    destruct (ps !! i) as [p|] eqn:Hi; [|injection E as <- <-; exact Hps].
    destruct (negb (Player.alive p)); [|injection E as <- <-; exact Hps].
    destruct (choice (Game.respawns g) rng) as [[pos|] rng2]; cbn [mbind option_bind] in E;
      [|discriminate].
    destruct (give_random_weapon_Some (Player_respawn pos p) i rng2)
      as (gd & ent & rng3 & Hg & _).
    rewrite Hg in E. cbn [mbind option_bind] in E. injection E as <- <-.
    apply Forall_insert; [exact Hps|].
    apply R_holding, R_respawn. exact (Forall_lookup_1 R _ i p Hps Hi).
Qed.

Lemma roster_anti_stuck (dt : Q) (g g' : Game.t) :
  anti_stuck dt g = Some g' -> Forall R (Game.players g) -> Forall R (Game.players g').
Proof.
  unfold anti_stuck.
  destruct (Game.players g !! 0%nat) as [a|] eqn:Ha; cbn [mbind option_bind]; [|discriminate].
  destruct (Game.players g !! 1%nat) as [b|] eqn:Hb; cbn [mbind option_bind]; [|discriminate].
  intros Hres Hps.
  pose proof (Forall_lookup_1 R _ _ _ Hps Ha) as HRa.
  pose proof (Forall_lookup_1 R _ _ _ Hps Hb) as HRb.
  destruct (Qltb _ 32); [|injection Hres as <-; exact Hps].
  destruct (Qle_bool 0 _); injection Hres as <-; cbn;
    apply Forall_insert; try apply Forall_insert; try exact Hps; apply R_push; assumption.
Qed.

(** A property of agents that damage, the phases of the agent update, the
    respawn and the anti-stuck push all keep is kept by the tick, for the
    whole roster. *)
Lemma roster_Game_update (dt : Q) (inputs : nat -> Inputs.t) (g g' : Game.t) :
  Game_update dt inputs g = Some g' ->
  Forall R (Game.players g) -> Forall R (Game.players g').
Proof.
  unfold Game_update. intros Hupd Hps.
  destruct (spawn_cadence dt _) as [g1|] eqn:Hsp; cbn [mbind option_bind] in Hupd;
    [|discriminate].
  apply spawn_cadence_players in Hsp. cbn in Hsp.
  assert (H1 : Forall R (Game.players g1)) by (rewrite Hsp; exact Hps).
  pose proof (roster_update_players dt inputs (active_level_rects g1) g1 H1) as H2.
  set (g2 := update_players dt inputs (active_level_rects g1) g1) in *. clearbody g2.
  pose proof (roster_update_bullets dt (active_level_rects g1) (Game.bullets g2)
                (Game.players g2) H2) as H3.
  cbn [Game.players Game.bullets Game.set_guns] in Hupd.
  destruct (update_bullets dt (active_level_rects g1) (Game.players g2) (Game.bullets g2))
    as [ps3 bs3]. cbn [fst] in H3.
  cbn [Game.players Game.beams Game.set_bullets Game.set_players Game.set_guns] in Hupd.
  pose proof (roster_update_beams dt (Game.beams g2) ps3 H3) as H4.
  destruct (update_beams dt ps3 (Game.beams g2)) as [ps4 bms4]. cbn [fst] in H4.
  destruct (respawn_players _) as [g5|] eqn:Hre; cbn [mbind option_bind] in Hupd;
    [|discriminate].
  apply roster_respawn_players in Hre; [|cbn; exact H4].
  destruct (anti_stuck dt g5) as [g6|] eqn:Has; cbn [mbind option_bind] in Hupd;
    [|discriminate].
  apply roster_anti_stuck in Has; [|exact Hre].
  apply camera_players in Hupd. rewrite Hupd. exact Has.
Qed.

End RosterInvariant.

(** ** The tick as a whole *)

Section TickFacts.
Context `{Libm}.

Lemma spawn_gun_setting (g g' : Game.t) : spawn_gun g = Some g' -> setting g' = setting g.
Proof.
  unfold spawn_gun. destruct (MAX_GUNS <=? length (Game.guns g))%nat; [intros [= <-]; reflexivity|].
  destruct (choice _ (Game.rng g)) as [[r|] rng1]; cbn [mbind option_bind]; [|discriminate].
  destruct (uniform _ _ rng1) as [x rng2].
  destruct (spawn_retry 8 _ _ x _ (Game.guns g) rng2) as [x' rng3].
  destruct (choice GUNS rng3) as [[gd|] rng4]; cbn [mbind option_bind]; [|discriminate].
  destruct (randint (-2) 2 rng4) as [j rng5]. intros [= <-]. reflexivity.
Qed.

Lemma spawn_cadence_setting (dt : Q) (g g' : Game.t) :
  spawn_cadence dt g = Some g' -> setting g' = setting g.
Proof.
  unfold spawn_cadence. cbn [Game.spawn_timer Game.set_spawn_timer].
  destruct (Qle_bool _ 0); [|intros [= <-]; reflexivity].
  cbn [Game.guns Game.set_spawn_timer].
  destruct (length (Game.guns g) <? MAX_GUNS)%nat.
  - destruct (spawn_gun _) as [g1|] eqn:Hsp; cbn [mbind option_bind]; [|discriminate].
    intros [= <-]. apply spawn_gun_setting in Hsp. exact Hsp.
  - cbn [mbind option_bind]. intros [= <-]. reflexivity.
Qed.

Lemma update_players_setting (dt : Q) (inputs : nat -> Inputs.t)
    (level_now : list (Rect.t * Z)) (g : Game.t) :
  setting (update_players dt inputs level_now g) = setting g.
Proof.
  unfold update_players. generalize (seq 0 (length (Game.players g))). intros l. revert g.
  induction l as [|i l IH]; intros g; cbn [foldl]; [reflexivity|].
  rewrite IH. unfold update_player. destruct (Game.players g !! i) as [p|]; [|reflexivity].
  destruct (Player_update _ _ _ _ _ _ _ _ _ _ _) as [[[[p' bs] gs] bms] r'].
  reflexivity.
Qed.

Lemma respawn_players_setting (g g' : Game.t) :
  respawn_players g = Some g' ->
  setting g' = setting g /\ length (Game.players g') = length (Game.players g).
Proof.
  unfold respawn_players.
  destruct (foldl _ _ _) as [[ps' rng']|] eqn:Hf; cbn [mbind option_bind]; [|discriminate].
  intros [= <-]. split; [reflexivity|]. cbn. exact (respawn_fold_length _ _ _ _ _ _ Hf).
Qed.

Lemma anti_stuck_setting (dt : Q) (g g' : Game.t) :
  anti_stuck dt g = Some g' ->
  setting g' = setting g /\ length (Game.players g') = length (Game.players g)
  /\ (2 <= length (Game.players g))%nat.
Proof.
  unfold anti_stuck.
  destruct (Game.players g !! 0%nat) as [a|] eqn:Ha; cbn [mbind option_bind]; [|discriminate].
  destruct (Game.players g !! 1%nat) as [b|] eqn:Hb; cbn [mbind option_bind]; [|discriminate].
  apply lookup_lt_Some in Hb.
  destruct (Qltb _ 32).
  - destruct (Qle_bool 0 _); intros [= <-]; cbn; rewrite !length_insert;
      (split; [reflexivity|split; [reflexivity|lia]]).
  - intros [= <-]. split; [reflexivity|split; [reflexivity|lia]].
Qed.

Lemma camera_setting (g g' : Game.t) : camera g = Some g' -> setting g' = setting g.
Proof.
  unfold camera. destruct (Game.players g !! 0%nat); cbn [mbind option_bind]; [|discriminate].
  intros [= <-]. reflexivity.
Qed.

(** The roster and the setting across one tick. *)
Lemma Game_update_frame (dt : Q) (inputs : nat -> Inputs.t) (g g' : Game.t) :
  Game_update dt inputs g = Some g' ->
  length (Game.players g') = length (Game.players g)
  /\ (2 <= length (Game.players g))%nat
  /\ setting g'
     = (Game.level g, Game.windzones g, Game.teleports g, Game.plat_list g, Game.respawns g,
        pymax 0 (Game.time_left g - dt), dt).
Proof.
  unfold Game_update. intros Hupd.
  destruct (spawn_cadence dt _) as [g1|] eqn:Hsp; cbn [mbind option_bind] in Hupd;
    [|discriminate].
  pose proof (spawn_cadence_setting _ _ _ Hsp) as Hs1.
  apply spawn_cadence_players in Hsp. cbn in Hsp.
  pose proof (update_players_setting dt inputs (active_level_rects g1) g1) as Hs2.
  pose proof (update_players_length dt inputs (active_level_rects g1) g1) as Hl2.
  set (g2 := update_players dt inputs (active_level_rects g1) g1) in *. clearbody g2.
  cbn [Game.players Game.bullets Game.set_guns] in Hupd.
  pose proof (update_bullets_length dt (active_level_rects g1) (Game.bullets g2)
                (Game.players g2)) as Hl3.
  destruct (update_bullets dt (active_level_rects g1) (Game.players g2) (Game.bullets g2))
    as [ps3 bs3]. cbn [fst] in Hl3.
  cbn [Game.players Game.beams Game.set_bullets Game.set_players Game.set_guns] in Hupd.
  pose proof (update_beams_length dt (Game.beams g2) ps3) as Hl4.
  destruct (update_beams dt ps3 (Game.beams g2)) as [ps4 bms4]. cbn [fst] in Hl4.
  destruct (respawn_players _) as [g5|] eqn:Hre; cbn [mbind option_bind] in Hupd;
    [|discriminate].
  apply respawn_players_setting in Hre. destruct Hre as [Hs5 Hl5]. cbn in Hl5.
  destruct (anti_stuck dt g5) as [g6|] eqn:Has; cbn [mbind option_bind] in Hupd;
    [|discriminate].
  apply anti_stuck_setting in Has. destruct Has as (Hs6 & Hl6 & Htwo).
  pose proof (camera_setting _ _ Hupd) as Hs7.
  apply camera_players in Hupd.
  split; [rewrite Hupd; congruence|]. split; [congruence|].
  rewrite Hs7, Hs6, Hs5. unfold setting in *. cbn in *.
  injection Hs2 as -> -> -> -> -> -> ->. injection Hs1 as -> -> -> -> -> -> ->.
  reflexivity.
Qed.

Lemma spawn_cadence_Some (dt : Q) (g : Game.t) :
  Game.plat_list g <> [] -> exists g', spawn_cadence dt g = Some g'.
Proof.
  intros Hplat. unfold spawn_cadence. cbn [Game.spawn_timer Game.set_spawn_timer].
  destruct (Qle_bool _ 0); [|eauto].
  cbn [Game.guns Game.set_spawn_timer].
  destruct (length (Game.guns g) <? MAX_GUNS)%nat; cbn [mbind option_bind]; [|eauto].
  assert (Hsp : exists g1, spawn_gun (Game.set_spawn_timer (Game.spawn_timer g - dt) g)
                           = Some g1).
  { unfold spawn_gun. destruct (MAX_GUNS <=? _)%nat; [eauto|].
    cbn [Game.plat_list Game.breakables Game.rng Game.guns Game.set_spawn_timer].
    destruct (choice_Some
                (Game.plat_list g
                 ++ omap (fun b => if negb (Breakable.down b) then Some (Breakable.rect b)
                                   else None) (Game.breakables g))
                (Game.rng g)) as (r & Hr & _).
    { destruct (Game.plat_list g); [congruence|discriminate]. }
    destruct (choice _ (Game.rng g)) as [o rng1]. cbn [fst] in Hr. subst o.
    cbn [mbind option_bind].
    destruct (uniform _ _ rng1) as [x rng2].
    destruct (spawn_retry 8 _ _ x _ (Game.guns g) rng2) as [x' rng3].
    destruct (choice_Some GUNS rng3 ltac:(discriminate)) as (gd & Hgd & _).
    destruct (choice GUNS rng3) as [o rng4]. cbn [fst] in Hgd. subst o.
    cbn [mbind option_bind].
    destruct (randint (-2) 2 rng4) as [j rng5]. eauto. }
  destruct Hsp as [g1 ->]. cbn [mbind option_bind]. eauto.
Qed.

Lemma respawn_players_Some (g : Game.t) :
  Game.respawns g <> [] -> exists g', respawn_players g = Some g'.
Proof.
  intros Hres. unfold respawn_players.
  destruct (respawn_fold_Some (Game.respawns g) (seq 0 (length (Game.players g))) Hres
              (Game.players g) (Game.rng g)) as (ps' & rng' & ->).
  cbn [mbind option_bind]. eauto.
Qed.

Lemma camera_Some (g : Game.t) :
  (1 <= length (Game.players g))%nat -> exists g', camera g = Some g'.
Proof.
  intros Hone. unfold camera.
  destruct (lookup_lt_is_Some_2 (Game.players g) 0%nat ltac:(lia)) as [you ->].
  cbn [mbind option_bind]. eauto.
Qed.

Lemma anti_stuck_Some (dt : Q) (g : Game.t) :
  (2 <= length (Game.players g))%nat -> exists g', anti_stuck dt g = Some g'.
Proof.
  intros Htwo. unfold anti_stuck.
  destruct (lookup_lt_is_Some_2 (Game.players g) 0%nat ltac:(lia)) as [a ->].
  destruct (lookup_lt_is_Some_2 (Game.players g) 1%nat ltac:(lia)) as [b ->].
  cbn [mbind option_bind].
  destruct (Qltb _ 32); [|eauto]. destruct (Qle_bool 0 _); eauto.
Qed.

Lemma Game_update_Some (dt : Q) (inputs : nat -> Inputs.t) (g : Game.t) :
  playable g -> exists g', Game_update dt inputs g = Some g'.
Proof.
  intros (Htwo & Hres & Hplat). unfold Game_update.
  destruct (spawn_cadence_Some dt
              (Game.set_time_left (pymax 0 (Game.time_left (Game.set_dt dt g) - dt))
                 (Game.set_dt dt g)) Hplat) as [g1 Hsp].
  rewrite Hsp. cbn [mbind option_bind].
  pose proof (spawn_cadence_setting _ _ _ Hsp) as Hs1.
  apply spawn_cadence_players in Hsp. cbn in Hsp.
  pose proof (update_players_setting dt inputs (active_level_rects g1) g1) as Hs2.
  pose proof (update_players_length dt inputs (active_level_rects g1) g1) as Hl2.
  set (g2 := update_players dt inputs (active_level_rects g1) g1) in *. clearbody g2.
  cbn [Game.players Game.bullets Game.set_guns].
  pose proof (update_bullets_length dt (active_level_rects g1) (Game.bullets g2)
                (Game.players g2)) as Hl3.
  destruct (update_bullets dt (active_level_rects g1) (Game.players g2) (Game.bullets g2))
    as [ps3 bs3]. cbn [fst] in Hl3.
  cbn [Game.players Game.beams Game.set_bullets Game.set_players Game.set_guns].
  pose proof (update_beams_length dt (Game.beams g2) ps3) as Hl4.
  destruct (update_beams dt ps3 (Game.beams g2)) as [ps4 bms4]. cbn [fst] in Hl4.
  assert (Hres2 : Game.respawns g2 = Game.respawns g).
  { unfold setting in Hs1, Hs2. cbn in Hs1. congruence. }
  assert (Hlen : (2 <= length ps4)%nat) by congruence.
  match goal with
  | |- exists g', mbind _ (respawn_players ?g4) = Some g' =>
      destruct (respawn_players_Some g4) as [g5 Hre]; [cbn; rewrite Hres2; exact Hres|];
      rewrite Hre; apply respawn_players_setting in Hre; destruct Hre as [_ Hl5];
      cbn in Hl5
  end.
  cbn [mbind option_bind].
  destruct (anti_stuck_Some dt g5) as [g6 Has]; [lia|].
  rewrite Has. cbn [mbind option_bind].
  apply anti_stuck_setting in Has. destruct Has as (_ & Hl6 & _).
  apply camera_Some. lia.
Qed.

(** X14. A playable game never raises: with at least two agents, a respawn
    point and a spawn surface, any sequence of ticks, of any durations and
    with any inputs, runs to its end; the roster keeps its size and the game
    stays playable.  (The random choices cannot fail: the lists they draw
    from are never empty.) *)
Theorem playable_game_never_raises (ticks : list (Q * (nat -> Inputs.t))) :
  forall g : Game.t,
    (2 <= length (Game.players g))%nat ->
    Game.respawns g <> [] ->
    Game.plat_list g <> [] ->
    exists g', Game_play ticks g = Some g'
               /\ length (Game.players g') = length (Game.players g)
               /\ Game.respawns g' = Game.respawns g
               /\ Game.plat_list g' = Game.plat_list g.
Proof.
  induction ticks as [|[dt inputs] rest IH]; intros g Htwo Hres Hplat; cbn [Game_play].
  - exists g. repeat split.
  - destruct (Game_update_Some dt inputs g (conj Htwo (conj Hres Hplat))) as [g1 Hupd].
    rewrite Hupd.
    destruct (Game_update_frame dt inputs g g1 Hupd) as (Hlen & _ & Hset).
    unfold setting in Hset. injection Hset as _ _ _ Hp Hr _ _.
    destruct (IH g1) as (g' & Hplay & Hlen' & Hres' & Hplat'); [lia|congruence|congruence|].
    exists g'. split; [exact Hplay|]. repeat split; congruence.
Qed.

(** X15. [Game.update] needs two agents: with fewer than two in the roster
    the tick cannot complete (the anti-stuck pass reads the first two), and
    a tick that completes leaves as many agents as it found. *)
Theorem tick_needs_two_agents (dt : Q) (inputs : nat -> Inputs.t) (g : Game.t) :
  ((length (Game.players g) < 2)%nat -> Game_update dt inputs g = None)
  /\ (forall g', Game_update dt inputs g = Some g' ->
                 length (Game.players g') = length (Game.players g)).
Proof.
  split.
  - intros Hfew. destruct (Game_update dt inputs g) as [g'|] eqn:Hupd; [|reflexivity].
    destruct (Game_update_frame dt inputs g g' Hupd) as (_ & Htwo & _). lia.
  - intros g' Hupd. exact (proj1 (Game_update_frame dt inputs g g' Hupd)).
Qed.

End TickFacts.

Lemma clamp_bounds (v lo hi : Q) : lo <= hi -> lo <= clamp v lo hi /\ clamp v lo hi <= hi.
Proof.
  intros Hle. unfold clamp.
  destruct (Qltb v lo) eqn:E1; [split; [apply Qle_refl|exact Hle]|].
  apply Qltb_ge in E1. destruct (Qltb hi v) eqn:E2; [split; [exact Hle|apply Qle_refl]|].
  apply Qltb_ge in E2. split; assumption.
Qed.

Lemma pymax_0_nonneg (a : Q) : 0 <= pymax 0 a.
Proof.
  unfold pymax. destruct (Qltb 0 a) eqn:E; [|apply Qle_refl].
  apply Qltb_lt in E. apply Qlt_le_weak. exact E.
Qed.

Section ClockAndCamera.
Context `{Libm}.

Lemma Game_update_camera (dt : Q) (inputs : nat -> Inputs.t) (g g' : Game.t) :
  Game_update dt inputs g = Some g' -> exists g6, camera g6 = Some g'.
Proof.
  unfold Game_update. intros Hupd.
  destruct (spawn_cadence dt _) as [g1|]; cbn [mbind option_bind] in Hupd; [|discriminate].
  destruct (update_bullets _ _ _ _) as [ps3 bs3].
  destruct (update_beams _ _ _) as [ps4 bms4].
  destruct (respawn_players _) as [g5|]; cbn [mbind option_bind] in Hupd; [|discriminate].
  destruct (anti_stuck dt g5) as [g6|]; cbn [mbind option_bind] in Hupd; [|discriminate].
  exists g6. exact Hupd.
Qed.

(** X16. The clock and the camera stay in range: after a tick the time left
    is the time before less the tick, floored at zero, so it is never
    negative and never grows under a non-negative tick; and the camera lies
    within the scrollable part of the world. *)
Theorem clock_and_camera_stay_in_range (dt : Q) (inputs : nat -> Inputs.t)
    (g g' : Game.t) :
  Game_update dt inputs g = Some g' ->
  Game.time_left g' = pymax 0 (Game.time_left g - dt)
  /\ 0 <= Game.time_left g'
  /\ (0 <= dt -> 0 <= Game.time_left g -> Game.time_left g' <= Game.time_left g)
  /\ 0 <= (Game.cam g').1 /\ (Game.cam g').1 <= WORLD_W - RW
  /\ 0 <= (Game.cam g').2 /\ (Game.cam g').2 <= WORLD_H - RH.
Proof.
  intros Hupd.
  destruct (Game_update_frame dt inputs g g' Hupd) as (_ & _ & Hset).
  unfold setting in Hset. injection Hset as _ _ _ _ _ Htime _.
  split; [exact Htime|]. rewrite Htime.
  split; [apply pymax_0_nonneg|]. split.
  - intros Hdt Hleft. unfold pymax.
    destruct (Qltb 0 (Game.time_left g - dt)); [rewrite Rsub_correct; lra|exact Hleft].
  - destruct (Game_update_camera dt inputs g g' Hupd) as [g6 Hcam].
    unfold camera in Hcam.
    destruct (Game.players g6 !! 0%nat) as [you|]; cbn [mbind option_bind] in Hcam;
      [|discriminate].
    injection Hcam as <-. cbn [Game.cam Game.set_cam fst snd].
    destruct (clamp_bounds (lerp (Game.cam g6).1 (Player.x you - RW / 2) 0.15) 0
                (WORLD_W - RW) ltac:(vm_compute; discriminate)) as [H1 H2].
    destruct (clamp_bounds (lerp (Game.cam g6).2 (Player.y you - RH / 2) 0.15) 0
                (WORLD_H - RH) ltac:(vm_compute; discriminate)) as [H3 H4].
    repeat split; assumption.
Qed.

(** *** Life and health *)

Lemma sound_health_same (p q : Player.t) :
  Player.alive q = Player.alive p -> Player.hp q = Player.hp p ->
  sound_health p -> sound_health q.
Proof. unfold sound_health. intros -> ->. exact id. Qed.

Lemma sound_health_combat (p q : Player.t) :
  combat q = combat p -> sound_health p -> sound_health q.
Proof.
  intros Hc. destruct (combat_fields _ _ Hc) as (Hhp & Hal & _).
  apply sound_health_same; assumption.
Qed.

Lemma sound_health_hurt (amount : Z) (knock : Q * Q) (p : Player.t) :
  sound_health p -> sound_health (Player_hurt amount knock p).
Proof.
  unfold sound_health, Player_hurt. cbn.
  destruct (Player.hp p - amount <=? 0)%Z eqn:E; cbn; [discriminate|].
  intros _ _. apply Z.leb_gt in E. exact E.
Qed.

Lemma Game_update_sound_health (dt : Q) (inputs : nat -> Inputs.t) (g g' : Game.t) :
  Game_update dt inputs g = Some g' ->
  Forall sound_health (Game.players g) -> Forall sound_health (Game.players g').
Proof.
  apply (roster_Game_update sound_health).
  - apply sound_health_hurt.
  - intros k p. apply sound_health_same; reflexivity.
  - intros d p. pose proof (tick_timers_combat d p) as Ht.
    destruct (combat_tuple _ _ _ _ _ _ _ _ _ _ Ht) as (Hhp & Hal & _).
    apply sound_health_same; assumption.
  - intros d i w a p. apply sound_health_combat, combat_steer.
  - intros d lv tps mx p. apply sound_health_combat, combat_integrate.
  - intros h p. apply sound_health_same; reflexivity.
  - intros c p. apply sound_health_same; reflexivity.
  - intros pos p _ _. cbn. lia.
  - intros x vx p. apply sound_health_same; reflexivity.
Qed.

Lemma Game_update_all_alive (dt : Q) (inputs : nat -> Inputs.t) (g g' : Game.t) :
  Game_update dt inputs g = Some g' ->
  Forall (fun p => Player.alive p = true) (Game.players g').
Proof.
  unfold Game_update. intros Hupd.
  destruct (spawn_cadence dt _) as [g1|]; cbn [mbind option_bind] in Hupd; [|discriminate].
  destruct (update_bullets _ _ _ _) as [ps3 bs3].
  destruct (update_beams _ _ _) as [ps4 bms4].
  destruct (respawn_players _) as [g5|] eqn:Hre; cbn [mbind option_bind] in Hupd;
    [|discriminate].
  destruct (anti_stuck dt g5) as [g6|] eqn:Has; cbn [mbind option_bind] in Hupd;
    [|discriminate].
  apply camera_players in Hupd. rewrite Hupd.
  apply (roster_anti_stuck (fun p => Player.alive p = true)
           ltac:(intros x vx p Hp; exact Hp) dt g5 g6 Has).
  unfold respawn_players in Hre.
  destruct (foldl _ _ _) as [[ps5 rng5]|] eqn:Hf; cbn [mbind option_bind] in Hre;
    [|discriminate].
  injection Hre as <-. cbn [Game.players Game.set_rng Game.set_players].
  apply Forall_lookup_2. intros i p Hi.
  pose proof (respawn_fold_length _ _ _ _ _ _ Hf) as Hlen.
  destruct (respawn_fold_alive _ _ _ _ _ _ Hf i p Hi) as [Hin _].
  apply Hin. apply elem_of_seq. apply lookup_lt_Some in Hi. lia.
Qed.

(** X17. Every agent ends the tick alive: the respawn loop brings back at
    once whoever died in it.  And health is sound across ticks: if before
    the tick every living agent had positive health, then after it every
    agent has. *)
Theorem every_agent_ends_the_tick_alive (dt : Q) (inputs : nat -> Inputs.t)
    (g g' : Game.t) :
  Game_update dt inputs g = Some g' ->
  Forall (fun p => Player.alive p = true) (Game.players g')
  /\ (Forall (fun p => Player.alive p = true -> (0 < Player.hp p)%Z) (Game.players g) ->
      Forall (fun p => (0 < Player.hp p)%Z) (Game.players g')).
Proof.
  intros Hupd. pose proof (Game_update_all_alive dt inputs g g' Hupd) as Halive.
  split; [exact Halive|]. intros Hsound.
  pose proof (Game_update_sound_health dt inputs g g' Hupd Hsound) as Hs.
  apply Forall_lookup_2. intros i p Hi.
  exact (Forall_lookup_1 _ _ _ _ Hs Hi (Forall_lookup_1 _ _ _ _ Halive Hi)).
Qed.

(** *** The anti-stuck pass *)

(** X18. The anti-stuck pass separates the first two agents only sideways
    and evenly: when their centres are less than 32 units apart it moves
    each by the same amount in opposite directions, so that their midpoint
    stays and their horizontal gap widens by [32 - max(dist, 1)], halves
    their horizontal speeds and runs the stuck timer; otherwise it touches
    no agent and lets the timer decay, never below zero. *)
Theorem anti_stuck_pushes_the_pair_apart (dt : Q) (g : Game.t) (a b : Player.t) :
  Game.players g !! 0%nat = Some a ->
  Game.players g !! 1%nat = Some b ->
  let dx := Player.x b - Player.x a in
  let dist := hypot dx ((centre b).2 - (centre a).2) in
  (32 <= dist ->
   anti_stuck dt g
   = Some (Game.set_stuck_timer (pymax 0 (Game.stuck_timer g - dt * 0.5)) g))
  /\ (dist < 32 ->
      exists xa xb,
        anti_stuck dt g
        = Some (Game.set_stuck_timer (Game.stuck_timer g + dt)
                  (Game.set_players
                     (<[1%nat := Player.set_vx (Player.vx b * 0.5) (Player.set_x xb b)]>
                        (<[0%nat := Player.set_vx (Player.vx a * 0.5) (Player.set_x xa a)]>
                           (Game.players g))) g))
        /\ Qplus xa xb == Qplus (Player.x a) (Player.x b)
        /\ 0 < Qminus 32 (pymax dist 1)
        /\ (0 <= dx -> Qminus xb xa == Qplus dx (Qminus 32 (pymax dist 1)))
        /\ (dx < 0 -> Qminus xa xb == Qplus (Qopp dx) (Qminus 32 (pymax dist 1)))).
Proof.
  intros Ha Hb dx dist. unfold anti_stuck. rewrite Ha, Hb. cbn [mbind option_bind].
  fold dx. fold dist. split.
  - intros Hfar. apply Qltb_ge in Hfar. rewrite Hfar. reflexivity.
  - intros Hnear. pose proof Hnear as Hlt. apply Qltb_lt in Hnear. rewrite Hnear.
    assert (Hgap : 0 < Qminus 32 (pymax dist 1)).
    { unfold pymax. destruct (Qltb dist 1); lra. }
    destruct (Qle_bool 0 dx) eqn:Hdx.
    + apply Qle_bool_iff in Hdx. eexists _, _. split; [reflexivity|].
      split; [|split; [exact Hgap|split]].
      * exact_arith. lra.
      * intros _. subst dx. revert Hgap. generalize (pymax dist 1). intros m Hm.
        exact_arith. lra.
      * intros Hneg. exfalso. lra.
    + assert (Hneg : dx < 0).
      { apply Qnot_le_lt. intros Hle. apply Qle_bool_iff in Hle. congruence. }
      eexists _, _. split; [reflexivity|].
      split; [|split; [exact Hgap|split]].
      * exact_arith. lra.
      * intros Hpos. exfalso. lra.
      * intros _. subst dx. revert Hgap. generalize (pymax dist 1). intros m Hm.
        exact_arith. lra.
Qed.

End ClockAndCamera.

(** ** The spawner *)

Lemma uniform_range (lo hi : Q) (r : Rng) :
  unit_draws r -> lo <= hi ->
  lo <= (uniform lo hi r).1 /\ (uniform lo hi r).1 <= hi
  /\ draws (uniform lo hi r).2 = draws r.
Proof.
  intros Hr Hle. unfold uniform. cbn. destruct (Hr (cursor r)) as [H0 H1].
  split; [|split; [|reflexivity]]; exact_arith; nra.
Qed.

Lemma spawn_retry_range (n : nat) (lo hi y : Q) (guns : list GunEntity.t) :
  lo <= hi ->
  forall (x : Q) (r : Rng),
    unit_draws r -> lo <= x -> x <= hi ->
    lo <= (spawn_retry n lo hi x y guns r).1 /\ (spawn_retry n lo hi x y guns r).1 <= hi.
Proof.
  intros Hle. induction n as [|n IH]; intros x r Hr Hlo Hhi; cbn [spawn_retry].
  - split; assumption.
  - destruct (existsb _ guns); [|split; assumption].
    destruct (uniform_range lo hi r Hr Hle) as (H1 & H2 & H3).
    destruct (uniform lo hi r) as [x' r']. cbn [fst snd] in *.
    apply IH; [|assumption|assumption]. intros k. rewrite H3. apply Hr.
Qed.

(** What [spawn_gun] appends when it spawns: the surface, the place and the
    pickup. *)
Lemma spawn_gun_spawns (g g' : Game.t) :
  spawn_gun g = Some g' ->
  (length (Game.guns g) < MAX_GUNS)%nat ->
  exists (r : Rect.t) (x : Q) (gd : GunDef.t) (j : Z) (rng' : Rng),
    r ∈ spawn_surfaces g /\ gd ∈ GUNS /\ (-2 <= j <= 2)%Z
    /\ (unit_draws (Game.rng g) -> Rect.x r + 40 <= Rect.right r - 40 ->
        Rect.x r + 40 <= x /\ x <= Rect.right r - 40)
    /\ g' = Game.set_rng rng'
              (Game.set_guns
                 (Game.guns g
                  ++ [GunEntity.init gd (x, Rect.top r - 24)
                        (Some (Z.max 1 (GunDef.ammo gd + j))) true]) g).
Proof.
  unfold spawn_gun. intros Hsp Hroom.
  assert (Hcap : (MAX_GUNS <=? length (Game.guns g))%nat = false)
    by (apply Nat.leb_gt; exact Hroom).
  rewrite Hcap in Hsp. fold (spawn_surfaces g) in Hsp.
  destruct (choice (spawn_surfaces g) (Game.rng g)) as [[r|] rng1] eqn:Hc;
    cbn [mbind option_bind] in Hsp; [|discriminate].
  assert (Hr : r ∈ spawn_surfaces g).
  { eapply list_elem_of_lookup_2. unfold choice in Hc. cbn in Hc.
    injection Hc as Hc _. exact Hc. }
  assert (Hd1 : draws rng1 = draws (Game.rng g)).
  { unfold choice in Hc. cbn in Hc. injection Hc as _ <-. reflexivity. }
  destruct (uniform (Rect.x r + 40) (Rect.right r - 40) rng1) as [x rng2] eqn:Hu.
  destruct (spawn_retry 8 (Rect.x r + 40) (Rect.right r - 40) x (Rect.top r - 24)
              (Game.guns g) rng2) as [x' rng3] eqn:Hretry.
  destruct (choice GUNS rng3) as [[gd|] rng4] eqn:Hc2; cbn [mbind option_bind] in Hsp;
    [|discriminate].
  assert (Hgd : gd ∈ GUNS).
  { eapply list_elem_of_lookup_2. unfold choice in Hc2. cbn in Hc2.
    injection Hc2 as Hc2 _. exact Hc2. }
  pose proof (randint_range (-2) 2 rng4 ltac:(lia)) as Hj.
  destruct (randint (-2) 2 rng4) as [j rng5]. cbn [fst] in Hj.
  injection Hsp as <-.
  exists r, x', gd, j, rng5. split; [exact Hr|]. split; [exact Hgd|]. split; [exact Hj|].
  split; [|reflexivity].
  intros Hunit Hwide.
  assert (Hunit1 : unit_draws rng1) by (intros k; rewrite Hd1; apply Hunit).
  destruct (uniform_range (Rect.x r + 40) (Rect.right r - 40) rng1 Hunit1 Hwide)
    as (H1 & H2 & H3).
  rewrite Hu in H1, H2, H3. cbn [fst snd] in *.
  assert (Hunit2 : unit_draws rng2) by (intros k; rewrite H3; apply Hunit1).
  pose proof (spawn_retry_range 8 (Rect.x r + 40) (Rect.right r - 40) (Rect.top r - 24)
                (Game.guns g) Hwide x rng2 Hunit2 H1 H2) as Hx.
  rewrite Hretry in Hx. exact Hx.
Qed.

(** X19. The spawner respects its cap and loads what it spawns: with
    [MAX_GUNS] guns or more in the world [spawn_gun] does nothing; below the
    cap it appends exactly one pickup, lying on the ground and owned by
    nobody, of a weapon of the catalogue, with at least one round and within
    two rounds of the capacity of that weapon (never below one).  No agent
    is touched. *)
Theorem spawner_respects_the_cap_and_loads_the_pickup (g g' : Game.t) :
  spawn_gun g = Some g' ->
  Game.players g' = Game.players g
  /\ ((MAX_GUNS <= length (Game.guns g))%nat -> g' = g)
  /\ ((length (Game.guns g) < MAX_GUNS)%nat ->
      exists e,
        Game.guns g' = Game.guns g ++ [e]
        /\ GunEntity.state e = "ground"
        /\ GunEntity.spawned_pickup e = true
        /\ GunEntity.owner e = None
        /\ GunEntity.gdef e ∈ GUNS
        /\ (1 <= GunEntity.ammo e)%Z
        /\ (GunDef.ammo (GunEntity.gdef e) - 2 <= GunEntity.ammo e)%Z
        /\ (GunEntity.ammo e <= Z.max 1 (GunDef.ammo (GunEntity.gdef e) + 2))%Z).
Proof.
  intros Hsp. split; [exact (spawn_gun_players g g' Hsp)|]. split.
  - intros Hfull. unfold spawn_gun in Hsp.
    assert (Hcap : (MAX_GUNS <=? length (Game.guns g))%nat = true)
      by (apply Nat.leb_le; exact Hfull).
    rewrite Hcap in Hsp. injection Hsp as <-. reflexivity.
  - intros Hroom.
    destruct (spawn_gun_spawns g g' Hsp Hroom) as (r & x & gd & j & rng' & _ & Hgd & Hj & _ & ->).
    eexists. split; [reflexivity|]. cbn.
    repeat split; try exact Hgd; lia.
Qed.

(** X20. A pickup spawns on its surface: the surface is one of the spawn
    surfaces of the game, the pickup lies 24 units above its top, and, the
    draws of the generator being numbers of [[0, 1)] and the surface at least
    80 units wide, at least 40 units inside each of its ends. *)
Theorem spawned_pickup_rests_on_its_surface (g g' : Game.t) :
  (forall n, 0 <= draws (Game.rng g) n /\ draws (Game.rng g) n < 1) ->
  (length (Game.guns g) < MAX_GUNS)%nat ->
  spawn_gun g = Some g' ->
  exists e r,
    Game.guns g' = Game.guns g ++ [e]
    /\ r ∈ Game.plat_list g
           ++ omap (fun b => if negb (Breakable.down b) then Some (Breakable.rect b)
                             else None) (Game.breakables g)
    /\ GunEntity.y e = Rect.top r - 24
    /\ (80 <= Rect.w r ->
        Rect.x r + 40 <= GunEntity.x e /\ GunEntity.x e <= Rect.right r - 40).
Proof.
  intros Hunit Hroom Hsp.
  destruct (spawn_gun_spawns g g' Hsp Hroom) as (r & x & gd & j & rng' & Hr & _ & _ & Hx & ->).
  eexists. exists r. split; [reflexivity|]. split; [exact Hr|]. split; [reflexivity|].
  intros Hwide. cbn. apply Hx; [exact Hunit|].
  unfold Rect.right. exact_arith. lra.
Qed.

Lemma spawn_gun_cadence (g g' : Game.t) :
  spawn_gun g = Some g' ->
  Game.spawn_interval g' = Game.spawn_interval g
  /\ Game.spawn_timer g' = Game.spawn_timer g
  /\ (length (Game.guns g') <= Nat.max (length (Game.guns g)) MAX_GUNS)%nat.
Proof.
  intros Hsp. destruct (Nat.le_gt_cases MAX_GUNS (length (Game.guns g))) as [Hfull|Hroom].
  - unfold spawn_gun in Hsp.
    assert (Hcap : (MAX_GUNS <=? length (Game.guns g))%nat = true)
      by (apply Nat.leb_le; exact Hfull).
    rewrite Hcap in Hsp. injection Hsp as <-. repeat split. lia.
  - destruct (spawn_gun_spawns g g' Hsp Hroom) as (r & x & gd & j & rng' & _ & _ & _ & _ & ->).
    cbn. repeat split. rewrite length_app. cbn. lia.
Qed.

(** X21. The spawn cadence keeps its pace: an interval that starts at or
    above [SPAWN_MIN] stays there and never grows, the timer is positive
    after every pass, and the pass never takes the number of guns in the
    world above [MAX_GUNS] (above what it already was, if a thrown weapon
    had taken it further). *)
Theorem spawn_cadence_keeps_its_pace (dt : Q) (g g' : Game.t) :
  SPAWN_MIN <= Game.spawn_interval g ->
  spawn_cadence dt g = Some g' ->
  SPAWN_MIN <= Game.spawn_interval g'
  /\ Game.spawn_interval g' <= Game.spawn_interval g
  /\ 0 < Game.spawn_timer g'
  /\ (length (Game.guns g') <= Nat.max (length (Game.guns g)) MAX_GUNS)%nat.
Proof.
  intros Hmin. unfold spawn_cadence. cbn [Game.spawn_timer Game.set_spawn_timer].
  assert (Hpos : 0 < SPAWN_MIN) by (vm_compute; reflexivity).
  destruct (Qle_bool (Game.spawn_timer g - dt) 0) eqn:Hdue.
  - cbn [Game.guns Game.set_spawn_timer].
    destruct (length (Game.guns g) <? MAX_GUNS)%nat.
    + destruct (spawn_gun _) as [g1|] eqn:Hsp; cbn [mbind option_bind]; [|discriminate].
      destruct (spawn_gun_cadence _ _ Hsp) as (Hi & _ & Hn). cbn in Hi, Hn.
      intros [= <-]. cbn. rewrite Hi.
      assert (Hnew : SPAWN_MIN <= pymax SPAWN_MIN (Game.spawn_interval g * 0.96)
                     /\ pymax SPAWN_MIN (Game.spawn_interval g * 0.96)
                        <= Game.spawn_interval g).
      { unfold pymax. destruct (Qltb SPAWN_MIN (Game.spawn_interval g * 0.96)) eqn:E.
        - apply Qltb_lt in E. split; [apply Qlt_le_weak; exact E|].
          exact_arith. lra.
        - split; [apply Qle_refl|exact Hmin]. }
      destruct Hnew as [H1 H2]. repeat split; try assumption. lra.
    + cbn [mbind option_bind]. intros [= <-]. cbn.
      repeat split; try assumption; try apply Qle_refl; [lra|lia].
  - intros [= <-]. cbn. repeat split; try assumption; try apply Qle_refl; [|lia].
    apply Qnot_le_lt. intros Hle. apply Qle_bool_iff in Hle. congruence.
Qed.

(** ** The bot policy *)

Lemma min_by_elem {A : Type} (key : A -> Q) (l : list A) (a : A) :
  min_by key l = Some a -> a ∈ l.
Proof.
  destruct l as [|x rest]; [discriminate|]. cbn [min_by]. intros [= <-].
  assert (Hgen : forall (l0 : list A) (b : A),
             foldl (fun best y => if Qltb (key y) (key best) then y else best) b l0
             ∈ b :: l0).
  { induction l0 as [|y l0 IH]; intros b; cbn [foldl]; [apply list_elem_of_here|].
    destruct (Qltb (key y) (key b)).
    - apply list_elem_of_further. apply IH.
    - specialize (IH b). apply elem_of_cons in IH. destruct IH as [->|IH].
      + apply list_elem_of_here.
      + do 2 apply list_elem_of_further. exact IH. }
  apply Hgen.
Qed.

Lemma bot_jump_facts (wants : bool) (chance cd jump_cd : Q) (rng : Rng) :
  0 <= cd -> 0 <= jump_cd ->
  0 <= (bot_jump wants chance cd jump_cd rng).1.2
  /\ draws (bot_jump wants chance cd jump_cd rng).2 = draws rng
  /\ (cursor rng <= cursor (bot_jump wants chance cd jump_cd rng).2 <= S (cursor rng))%nat.
Proof.
  intros Hcd Hj. unfold bot_jump. destruct (wants && _); [|cbn; repeat split; auto].
  cbn. destruct (Qltb _ chance); cbn; repeat split; auto.
Qed.

Lemma Qltb_asym (a b : Q) : Qltb a b && Qltb b a = false.
Proof.
  destruct (Qltb a b) eqn:E1; [|reflexivity]. destruct (Qltb b a) eqn:E2; [|reflexivity].
  apply Qltb_lt in E1, E2. exfalso. exact (Qlt_irrefl _ (Qlt_trans _ _ _ E1 E2)).
Qed.

(** The bot asks for its secondary action only when it holds nothing and a
    weapon on the ground is within the reach that the pick-up tests. *)
Lemma think_secondary (brain : BotBrain.t) (self : nat) (bot : Player.t)
    (players : list Player.t) (guns : list GunEntity.t) (dt : Q) (rng : Rng) :
  Inputs.rmb_release (BotBrain_think brain self bot players guns dt rng).1.1 = true ->
  Player.holding bot = None
  /\ exists i g, guns !! i = Some g /\ can_pick bot (i, g) = true.
Proof.
  unfold BotBrain_think.
  destruct (Player.holding bot) as [ent|].
  - destruct (min_by _ (snd <$> List.filter (eligible self) (indexed players))) as [t|].
    + destruct (bot_jump _ _ _ _ rng) as [[jump cd] rng1].
      destruct (random rng1) as [u rng2]. cbn. discriminate.
    + cbn. discriminate.
  - destruct (min_by _ (List.filter _ guns)) as [near|] eqn:Hnear.
    + destruct (bot_jump _ _ _ _ rng) as [[jump cd] rng1]. cbn [fst Inputs.rmb_release].
      intros Hrmb. split; [reflexivity|].
      apply min_by_elem in Hnear. apply list_elem_of_In in Hnear.
      apply filter_In in Hnear. destruct Hnear as [Hin Hground].
      apply list_elem_of_In in Hin. apply list_elem_of_lookup_1 in Hin.
      destruct Hin as [i Hi]. exists i, near. split; [exact Hi|].
      unfold can_pick. cbn [snd]. rewrite Hground. exact Hrmb.
    + destruct (random rng) as [u rng1]. cbn. discriminate.
Qed.

(** X22. The bot policy is well behaved.  Its control record always carries
    an aim point; it never dashes and never drops through; it never presses
    left and right together; it never fires when it holds nothing; it asks
    for the secondary action only when it holds nothing and a weapon lies on
    the ground within pick-up reach, so it never throws; its jump cooldown
    is never negative; and it draws at most twice from the generator. *)
Theorem bot_policy_is_well_behaved (brain : BotBrain.t) (self : nat) (bot : Player.t)
    (players : list Player.t) (guns : list GunEntity.t) (dt : Q) (rng : Rng) :
  (exists a, Inputs.aim (BotBrain_think brain self bot players guns dt rng).1.1 = Some a)
  /\ Inputs.dash (BotBrain_think brain self bot players guns dt rng).1.1 = false
  /\ Inputs.down (BotBrain_think brain self bot players guns dt rng).1.1 = false
  /\ Inputs.left (BotBrain_think brain self bot players guns dt rng).1.1
     && Inputs.right (BotBrain_think brain self bot players guns dt rng).1.1 = false
  /\ (Player.holding bot = None ->
      Inputs.attack (BotBrain_think brain self bot players guns dt rng).1.1 = false)
  /\ (Inputs.rmb_release (BotBrain_think brain self bot players guns dt rng).1.1 = true ->
      Player.holding bot = None
      /\ exists i g, guns !! i = Some g /\ can_pick bot (i, g) = true)
  /\ 0 <= BotBrain.jump_cd (BotBrain_think brain self bot players guns dt rng).1.2
  /\ draws (BotBrain_think brain self bot players guns dt rng).2 = draws rng
  /\ (cursor rng <= cursor (BotBrain_think brain self bot players guns dt rng).2
      <= cursor rng + 2)%nat.
Proof.
  split; [|split; [|split; [|split; [|split; [|split; [apply think_secondary|]]]]]].
  all: unfold BotBrain_think.
  all: pose proof (pymax_0_nonneg (BotBrain.jump_cd brain - dt)) as Hcd.
  all: destruct (Player.holding bot) as [ent|].
  all: try destruct (min_by _ (snd <$> List.filter (eligible self) (indexed players)))
         as [t|].
  all: try destruct (min_by _ (List.filter _ guns)) as [near|].
  all: try match goal with
         | |- context [bot_jump ?w ?c ?d ?j ?r] =>
             let Hj := fresh "Hj" in
             pose proof (bot_jump_facts w c d j r ltac:(vm_compute; discriminate) Hcd)
               as Hj;
             destruct (bot_jump w c d j r) as [[jump cd] rng1]; cbn [fst snd] in Hj;
             destruct Hj as (Hj1 & Hj2 & Hj3)
         end.
  all: try match goal with
         | |- context [random ?r] => unfold random
         end.
  all: cbn [fst snd Inputs.aim Inputs.dash Inputs.down Inputs.left Inputs.right
            Inputs.attack BotBrain.jump_cd draws cursor].
  all: try (eexists; reflexivity).
  all: try reflexivity.
  all: try discriminate.
  all: try assumption.
  all: try apply Qltb_asym.
  all: try (intros _; reflexivity).
  all: try (split; [exact Hcd || exact Hj1|]).
  all: try (split; [reflexivity || exact Hj2|]; lia).
  all: try (destruct (Qltb 100 _); cbn [andb]; [apply Qltb_asym|reflexivity]).
Qed.

Section BotUpdate.
Context `{Libm}.

(** X23. A bot never throws its weapon: when an agent is updated with the
    control record that the bot policy has just computed for it, the gun
    list of the world is left as it was, or loses the one weapon that the
    agent, unarmed, picks up; nothing is ever added to it. *)
Theorem bot_never_throws_its_weapon (brain : BotBrain.t) (self : nat) (bot : Player.t)
    (players : list Player.t) (guns : list GunEntity.t) (dt : Q) (rng : Rng)
    (level_rects : list (Rect.t * Z)) (windzones : list WindZone.t)
    (teleports : list Teleport.t) (bullets : list Bullet.t) (beams : list Beam.t) :
  (Player_update dt (BotBrain_think brain self bot players guns dt rng).1.1 level_rects
     windzones teleports self bot bullets guns beams
     (BotBrain_think brain self bot players guns dt rng).2).1.1.2 = guns
  \/ (Player.holding bot = None
      /\ exists i g,
           guns !! i = Some g /\ GunEntity.state g = "ground"
           /\ (Player_update dt (BotBrain_think brain self bot players guns dt rng).1.1
                 level_rects windzones teleports self bot bullets guns beams
                 (BotBrain_think brain self bot players guns dt rng).2).1.1.2
              = delete i guns).
Proof.
  pose proof (think_secondary brain self bot players guns dt rng) as Hrmb.
  destruct (BotBrain_think brain self bot players guns dt rng) as [[inputs brain'] rng'].
  cbn [fst snd] in *.
  rewrite Player_update_cases. cbv zeta.
  destruct (negb (Player.alive bot)); [left; reflexivity|].
  destruct (Qltb 0 (Player.hitlag _)); [left; reflexivity|].
  cbn [fst snd].
  destruct (Inputs.rmb_release inputs); [|left; reflexivity].
  destruct (Hrmb eq_refl) as [Hfree _].
  pose proof (tick_timers_combat dt bot) as Ht.
  destruct (combat_tuple _ _ _ _ _ _ _ _ _ _ Ht) as (_ & _ & Hho0 & _).
  pose proof (combat_steer dt inputs windzones (read_aim inputs (tick_timers dt bot))
                (tick_timers dt bot)) as Hs.
  destruct (combat_fields _ _ Hs) as (_ & _ & Hho1 & _).
  pose proof (combat_integrate dt level_rects teleports
                (read_aim inputs (tick_timers dt bot)).1
                (steer dt inputs windzones (read_aim inputs (tick_timers dt bot))
                   (tick_timers dt bot))) as Hi.
  destruct (combat_fields _ _ Hi) as (_ & _ & Hho2 & _).
  set (p2 := integrate dt level_rects teleports _ _) in *.
  assert (Hp2 : Player.holding p2 = None) by congruence.
  unfold secondary. rewrite Hp2.
  destruct (find (can_pick p2) (indexed guns)) as [[i g]|] eqn:Hfind; cbn [snd];
    [|left; reflexivity].
  right. split; [exact Hfree|]. exists i, g.
  destruct (find_indexed _ _ _ _ Hfind) as [Hi' Hpick].
  split; [exact Hi'|]. split; [|reflexivity].
  unfold can_pick in Hpick. cbn [snd] in Hpick.
  apply andb_true_iff in Hpick. destruct Hpick as [Hpick _].
  apply andb_true_iff in Hpick. destruct Hpick as [Hst _].
  apply bool_decide_eq_true in Hst. exact Hst.
Qed.

End BotUpdate.

(** ** The environment adapter *)

(** X24. A macro action always yields a full control record: for every
    action number, known or not, [_action_to_inputs] succeeds as soon as
    there is a first agent; the record carries the aim target, which is kept
    inside the world whatever it was before; the target moves only under the
    four aim actions; left and right are never pressed together; and fire is
    pressed exactly by the actions 6, 12, 13, 14 and 15. *)
Theorem action_inputs_keep_the_aim_in_the_world (a : Z) (players : list Player.t)
    (aim : Q * Q) (you : Player.t) :
  players !! 0%nat = Some you ->
  exists inputs aim',
    action_to_inputs a players aim = Some (inputs, aim')
    /\ Inputs.aim inputs = Some aim'
    /\ 0 <= aim'.1 /\ aim'.1 <= WORLD_W /\ 0 <= aim'.2 /\ aim'.2 <= WORLD_H
    /\ ((a < 8 \/ 11 < a)%Z -> aim' = (clamp aim.1 0 WORLD_W, clamp aim.2 0 WORLD_H))
    /\ Inputs.left inputs && Inputs.right inputs = false
    /\ (Inputs.attack inputs = true <-> a = 6 \/ a = 12 \/ a = 13 \/ a = 14 \/ a = 15)%Z
    /\ ((a < 1 \/ 15 < a \/ (8 <= a <= 11))%Z ->
        inputs = Inputs.mk false false false false false false false (Some aim')).
Proof.
  intros Hyou. unfold action_to_inputs. rewrite Hyou. cbn [mbind option_bind].
  eexists _, _. split; [reflexivity|]. cbn [Inputs.aim Inputs.left Inputs.right
                                             Inputs.attack fst snd].
  split; [reflexivity|].
  match goal with
  | |- 0 <= clamp ?vx 0 WORLD_W /\ _ <= _ /\ 0 <= clamp ?vy 0 WORLD_H /\ _ =>
      destruct (clamp_bounds vx 0 WORLD_W ltac:(vm_compute; discriminate)) as [H1 H2];
      destruct (clamp_bounds vy 0 WORLD_H ltac:(vm_compute; discriminate)) as [H3 H4]
  end.
  split; [exact H1|]. split; [exact H2|]. split; [exact H3|]. split; [exact H4|].
  split; [|split; [|split]].
  - intros Hout.
    assert (E8 : (a =? 8)%Z = false) by lia. assert (E9 : (a =? 9)%Z = false) by lia.
    assert (E10 : (a =? 10)%Z = false) by lia. assert (E11 : (a =? 11)%Z = false) by lia.
    rewrite E8, E9, E10, E11. reflexivity.
  - destruct (a =? 1)%Z eqn:E1; destruct (a =? 12)%Z eqn:E12;
      destruct (a =? 2)%Z eqn:E2; destruct (a =? 13)%Z eqn:E13; try reflexivity; lia.
  - rewrite !orb_true_iff, !Z.eqb_eq. tauto.
  - intros Hidle.
    assert (E1 : (a =? 1)%Z = false) by lia. assert (E2 : (a =? 2)%Z = false) by lia.
    assert (E3 : (a =? 3)%Z = false) by lia. assert (E4 : (a =? 4)%Z = false) by lia.
    assert (E5 : (a =? 5)%Z = false) by lia. assert (E6 : (a =? 6)%Z = false) by lia.
    assert (E7 : (a =? 7)%Z = false) by lia. assert (E12 : (a =? 12)%Z = false) by lia.
    assert (E13 : (a =? 13)%Z = false) by lia. assert (E14 : (a =? 14)%Z = false) by lia.
    assert (E15 : (a =? 15)%Z = false) by lia.
    rewrite E1, E2, E3, E4, E5, E6, E7, E12, E13, E14, E15. reflexivity.
Qed.

Section Episode.
Context `{Libm}.

Lemma update_agent_frame (dt : Q) (override : Inputs.t) (level_now : list (Rect.t * Z))
    (st : Game.t * BotBrain.t) (i : nat) :
  length (Game.players (update_agent dt override level_now st i).1)
  = length (Game.players st.1)
  /\ setting (update_agent dt override level_now st i).1 = setting st.1.
Proof.
  destruct st as [g brain]. unfold update_agent. cbn [fst].
  destruct (Game.players g !! i) as [p|]; [|split; reflexivity].
  destruct (if (i =? 0)%nat then _ else _) as [[inputs brain'] rng'].
  destruct (Player_update _ _ _ _ _ _ _ _ _ _ _) as [[[[p' bs] gs] bms] r'].
  cbn. split; [apply length_insert|reflexivity].
Qed.

Lemma update_agents_frame (dt : Q) (override : Inputs.t) (level_now : list (Rect.t * Z))
    (l : list nat) :
  forall st : Game.t * BotBrain.t,
    length (Game.players (foldl (update_agent dt override level_now) st l).1)
    = length (Game.players st.1)
    /\ setting (foldl (update_agent dt override level_now) st l).1 = setting st.1.
Proof.
  induction l as [|i l IH]; intros st; cbn [foldl]; [split; reflexivity|].
  destruct (IH (update_agent dt override level_now st i)) as [H1 H2].
  destruct (update_agent_frame dt override level_now st i) as [H3 H4].
  split; congruence.
Qed.

Lemma finish_tick_Some (dt : Q) (level_now : list (Rect.t * Z)) (g : Game.t) :
  (2 <= length (Game.players g))%nat ->
  Game.respawns g <> [] ->
  exists g', finish_tick dt level_now g = Some g'
             /\ length (Game.players g') = length (Game.players g)
             /\ setting g' = setting g.
Proof.
  intros Htwo Hres. unfold finish_tick.
  cbn [Game.players Game.bullets Game.set_guns].
  pose proof (update_bullets_length dt level_now (Game.bullets g) (Game.players g)) as Hl3.
  destruct (update_bullets dt level_now (Game.players g) (Game.bullets g)) as [ps3 bs3].
  cbn [fst] in Hl3.
  cbn [Game.players Game.beams Game.set_bullets Game.set_players Game.set_guns].
  pose proof (update_beams_length dt (Game.beams g) ps3) as Hl4.
  destruct (update_beams dt ps3 (Game.beams g)) as [ps4 bms4]. cbn [fst] in Hl4.
  match goal with
  | |- exists g', mbind _ (respawn_players ?g4) = Some g' /\ _ =>
      destruct (respawn_players_Some g4) as [g5 Hre]; [exact Hres|];
      rewrite Hre; apply respawn_players_setting in Hre; destruct Hre as [Hs5 Hl5];
      cbn in Hl5
  end.
  cbn [mbind option_bind].
  destruct (anti_stuck_Some dt g5) as [g6 Has]; [lia|].
  rewrite Has. cbn [mbind option_bind].
  apply anti_stuck_setting in Has. destruct Has as (Hs6 & Hl6 & _).
  destruct (camera_Some g6) as [g7 Hcam]; [lia|].
  rewrite Hcam. exists g7. split; [reflexivity|].
  pose proof (camera_setting _ _ Hcam) as Hs7. apply camera_players in Hcam.
  split; [rewrite Hcam; lia|]. rewrite Hs7, Hs6, Hs5. reflexivity.
Qed.

Lemma Game_update_override_Some (dt : Q) (override : Inputs.t)
    (st : Game.t * BotBrain.t) :
  playable st.1 ->
  exists st', Game_update_override dt override st = Some st'
              /\ length (Game.players st'.1) = length (Game.players st.1)
              /\ setting st'.1
                 = (Game.level st.1, Game.windzones st.1, Game.teleports st.1,
                    Game.plat_list st.1, Game.respawns st.1,
                    pymax 0 (Game.time_left st.1 - dt), dt).
Proof.
  destruct st as [g brain]. cbn [fst]. intros (Htwo & Hres & Hplat).
  unfold Game_update_override.
  destruct (spawn_cadence_Some dt
              (Game.set_time_left (pymax 0 (Game.time_left (Game.set_dt dt g) - dt))
                 (Game.set_dt dt g)) Hplat) as [g1 Hsp].
  rewrite Hsp. cbn [mbind option_bind].
  pose proof (spawn_cadence_setting _ _ _ Hsp) as Hs1.
  apply spawn_cadence_players in Hsp. cbn in Hsp.
  destruct (update_agents_frame dt override (active_level_rects g1)
              (seq 0 (length (Game.players g1))) (g1, brain)) as [Hl2 Hs2].
  destruct (foldl _ (g1, brain) _) as [g2 brain2]. cbn [fst] in Hl2, Hs2.
  destruct (finish_tick_Some dt (active_level_rects g1) g2) as (g3 & Hfin & Hl3 & Hs3).
  - congruence.
  - unfold setting in Hs1, Hs2. cbn in Hs1. congruence.
  - rewrite Hfin. cbn [mbind option_bind]. eexists. split; [reflexivity|]. cbn [fst].
    split; [congruence|]. rewrite Hs3, Hs2, Hs1. reflexivity.
Qed.

Lemma reset_match_Some (g : Game.t) :
  exists g' brain,
    reset_match g = Some (g', brain)
    /\ length (Game.players g') = 2%nat
    /\ Game.respawns g' <> []
    /\ Game.plat_list g' = Game.plat_list g.
Proof.
  unfold reset_match.
  destruct (give_random_weapon_Some (Player.init (WORLD_W * 0.25) (WORLD_H * 0.3)) 0
              (Game.rng g)) as (gd1 & e1 & rng1 & -> & _).
  cbn [mbind option_bind].
  destruct (give_random_weapon_Some (Player.init (WORLD_W * 0.75) (WORLD_H * 0.3)) 1 rng1)
    as (gd2 & e2 & rng2 & -> & _).
  cbn [mbind option_bind]. eexists _, _. split; [reflexivity|]. cbn.
  split; [reflexivity|]. split; [discriminate|reflexivity].
Qed.

Lemma GameEnv_step_Some (action : Z) (env : GameEnv.t) :
  env_ready env ->
  exists env' truncated,
    GameEnv_step action env = Some (env', false, truncated)
    /\ env_ready env'
    /\ GameEnv.step_count env' = (GameEnv.step_count env + 1)%Z
    /\ GameEnv.max_steps env' = GameEnv.max_steps env
    /\ Game.time_left (GameEnv.game env')
       = pymax 0 (Game.time_left (GameEnv.game env) - 1 / FPS)
    /\ (truncated = true <->
        (GameEnv.max_steps env <= GameEnv.step_count env + 1)%Z
        \/ Game.time_left (GameEnv.game env') <= 0).
Proof.
  intros (Htwo & Hres & Hplat). unfold GameEnv_step.
  destruct (lookup_lt_is_Some_2 (Game.players (GameEnv.game env)) 0%nat ltac:(lia))
    as [you Hyou].
  destruct (lookup_lt_is_Some_2 (Game.players (GameEnv.game env)) 1%nat ltac:(lia))
    as [bot Hbot].
  rewrite Hyou, Hbot. cbn [mbind option_bind].
  unfold action_to_inputs. rewrite Hyou. cbn [mbind option_bind].
  match goal with
  | |- context [Game_update_override ?dt ?inp ?st] =>
      destruct (Game_update_override_Some dt inp st) as ([g' brain'] & Hupd & Hlen & Hset);
      [cbn [fst]; repeat split; [lia|exact Hres|exact Hplat]|]
  end.
  rewrite Hupd. cbn [mbind option_bind fst] in *.
  unfold setting in Hset. injection Hset as _ _ _ Hp Hr Ht _.
  eexists _, _. split; [reflexivity|]. cbn.
  split; [unfold env_ready; cbn; repeat split; congruence|].
  split; [reflexivity|]. split; [reflexivity|]. split; [exact Ht|].
  rewrite orb_true_iff, Z.leb_le, Qle_bool_iff. reflexivity.
Qed.

(** X25. The state transitions of an episode never raise.  The
    environment that [__init__] builds is ready (two agents, respawn points,
    spawn surfaces); a reset of a ready environment succeeds, with or
    without the swap, and leaves it ready with the step counter at zero; and
    from a ready environment every sequence of actions, known action numbers
    or not, steps to its end, leaving the environment ready and the counter
    advanced by the number of steps.  No step ever reports [terminated].
    (The observation and the reward that [reset] and [step] also compute
    are outside the model.) *)
Theorem episode_never_raises :
  (forall (max_steps : Z) (rng : Rng),
      exists env, GameEnv_init max_steps rng = Some env /\ env_ready env
                  /\ GameEnv.step_count env = 0%Z)
  /\ (forall (env : GameEnv.t) (swap : bool),
         env_ready env ->
         exists env', GameEnv_reset swap env = Some env' /\ env_ready env'
                      /\ GameEnv.step_count env' = 0%Z)
  /\ (forall (actions : list Z) (env : GameEnv.t),
         env_ready env ->
         exists env', GameEnv_run actions env = Some env' /\ env_ready env'
                      /\ GameEnv.step_count env'
                         = (GameEnv.step_count env + Z.of_nat (length actions))%Z)
  /\ (forall (action : Z) (env env' : GameEnv.t) (terminated truncated : bool),
         GameEnv_step action env = Some (env', terminated, truncated) ->
         terminated = false).
Proof.
  split; [|split; [|split]].
  - intros max_steps rng. unfold GameEnv_init, Game_init.
    match goal with
    | |- context [reset_match ?g0] =>
        destruct (reset_match_Some g0) as (g & brain & Hr & Hlen & Hres & Hplat)
    end.
    rewrite Hr. cbn [mbind option_bind]. unfold initial_aim.
    destruct (lookup_lt_is_Some_2 (Game.players g) 0%nat ltac:(lia)) as [you Hyou].
    rewrite Hyou. cbn [mbind option_bind]. eexists. split; [reflexivity|].
    split; [|reflexivity]. unfold env_ready. cbn.
    split; [lia|]. split; [exact Hres|]. rewrite Hplat. cbn. vm_compute. discriminate.
  - intros env swap (Htwo & Hres & Hplat). unfold GameEnv_reset.
    destruct (reset_match_Some (GameEnv.game env)) as (g & brain & Hr & Hlen & Hres' & Hplat').
    rewrite Hr. cbn [mbind option_bind].
    destruct (lookup_lt_is_Some_2 (Game.players g) 0%nat ltac:(lia)) as [you Hyou].
    destruct (lookup_lt_is_Some_2 (Game.players g) 1%nat ltac:(lia)) as [bot Hbot].
    destruct swap.
    + rewrite Hyou, Hbot. cbn [mbind option_bind]. unfold initial_aim.
      cbn [Game.players Game.set_players].
      rewrite list_lookup_insert_ne by discriminate.
      rewrite list_lookup_insert_eq by lia. cbn [mbind option_bind].
      eexists. split; [reflexivity|]. split; [|reflexivity].
      unfold env_ready, playable.
      cbn [GameEnv.game Game.players Game.set_players Game.respawns Game.plat_list].
      rewrite !length_insert.
      split; [lia|]. split; [exact Hres'|]. rewrite Hplat'. exact Hplat.
    + cbn [mbind option_bind]. unfold initial_aim. rewrite Hyou. cbn [mbind option_bind].
      eexists. split; [reflexivity|]. split; [|reflexivity].
      unfold env_ready. cbn. split; [lia|]. split; [exact Hres'|].
      rewrite Hplat'. exact Hplat.
  - induction actions as [|a rest IH]; intros env Hready; cbn [GameEnv_run].
    + exists env. split; [reflexivity|]. split; [exact Hready|]. cbn. lia.
    + destruct (GameEnv_step_Some a env Hready)
        as (env1 & tr & Hstep & Hready1 & Hcount & _).
      rewrite Hstep.
      destruct (IH env1 Hready1) as (env' & Hrun & Hready' & Hcount').
      exists env'. split; [exact Hrun|]. split; [exact Hready'|].
      rewrite Hcount', Hcount. cbn [length]. lia.
  - intros action env env' terminated truncated. unfold GameEnv_step.
    destruct (Game.players (GameEnv.game env) !! 0%nat); cbn [mbind option_bind];
      [|discriminate].
    destruct (Game.players (GameEnv.game env) !! 1%nat); cbn [mbind option_bind];
      [|discriminate].
    destruct (action_to_inputs _ _ _) as [[inputs aim]|]; cbn [mbind option_bind];
      [|discriminate].
    destruct (Game_update_override _ _ _) as [[g brain]|]; cbn [mbind option_bind];
      [|discriminate].
    intros [= _ <- _]. reflexivity.
Qed.

End Episode.

(** X26. [reset_match] never fails and starts a fair duel: whatever the
    game was and whatever the generator draws, it leaves exactly two agents,
    alive with full health and a clean scoreboard, each holding an equipped
    weapon of the catalogue with a full magazine, owned by the agent itself;
    no projectile, beam or pickup is left in the world; the clock is at 120
    seconds; and the arena is kept. *)
Theorem reset_match_starts_a_fair_duel (g : Game.t) :
  exists g' you bot e0 e1,
    reset_match g = Some (g', BotBrain.mk 0)
    /\ Game.players g' = [you; bot]
    /\ Player.holding you = Some e0 /\ Player.holding bot = Some e1
    /\ GunEntity.owner e0 = Some 0%nat /\ GunEntity.owner e1 = Some 1%nat
    /\ Forall (fun e => GunEntity.gdef e ∈ GUNS
                        /\ GunEntity.ammo e = GunDef.ammo (GunEntity.gdef e)
                        /\ GunEntity.state e = "equipped"
                        /\ GunEntity.spawned_pickup e = false) [e0; e1]
    /\ Forall (fun p => Player.hp p = 100%Z /\ Player.alive p = true
                        /\ Player.kos p = 0%Z /\ Player.deaths p = 0%Z
                        /\ Player.invuln p = 0 /\ Player.y p = WORLD_H * 0.3) [you; bot]
    /\ Player.x you = WORLD_W * 0.25 /\ Player.x bot = WORLD_W * 0.75
    /\ Game.bullets g' = [] /\ Game.beams g' = [] /\ Game.guns g' = []
    /\ Game.time_left g' = 120
    /\ (Game.level g', Game.windzones g', Game.teleports g', Game.plat_list g',
        Game.breakables g')
       = (Game.level g, Game.windzones g, Game.teleports g, Game.plat_list g,
          Game.breakables g).
Proof.
  unfold reset_match.
  destruct (give_random_weapon_Some (Player.init (WORLD_W * 0.25) (WORLD_H * 0.3)) 0
              (Game.rng g)) as (gd1 & e1 & rng1 & -> & Hgd1 & ->).
  cbn [mbind option_bind].
  destruct (give_random_weapon_Some (Player.init (WORLD_W * 0.75) (WORLD_H * 0.3)) 1 rng1)
    as (gd2 & e2 & rng2 & -> & Hgd2 & ->).
  cbn [mbind option_bind]. eexists _, _, _, _, _. split; [reflexivity|].
  cbn [Game.players]. split; [reflexivity|].
  split; [reflexivity|]. split; [reflexivity|]. split; [reflexivity|].
  split; [reflexivity|].
  split.
  { apply Forall_cons. split; [repeat split; exact Hgd1|].
    apply Forall_cons. split; [repeat split; exact Hgd2|]. apply Forall_nil_2. }
  split.
  { apply Forall_cons. split; [repeat split|].
    apply Forall_cons. split; [repeat split|]. apply Forall_nil_2. }
  repeat split.
Qed.

(** ** The helpers of the observation and of the reward *)

Section Scan.
Context {A B : Type}.
Variables (skip : A -> bool) (key : A -> Q) (pack : A -> B) (bound : Q).

(** The scan of a nearest-object search: it ends on the first object, among
    those it does not skip, whose key is least, if that key is below the
    bound, and on nothing otherwise. *)
Lemma scan_nearest (l : list A) :
  (foldl (scan_step skip key pack) (None, bound) l = (None, bound)
   /\ forall a, a ∈ l -> skip a = false -> bound <= key a)
  \/ exists a,
       a ∈ l /\ skip a = false /\ key a < bound
       /\ foldl (scan_step skip key pack) (None, bound) l = (Some (pack a), key a)
       /\ forall a', a' ∈ l -> skip a' = false -> key a <= key a'.
Proof.
  induction l as [|x l IH] using rev_ind.
  - left. split; [reflexivity|]. intros a Ha. inversion Ha.
  - rewrite foldl_app. cbn [foldl].
    destruct IH as [[Hnone Hfar]|(a & Ha & Hkeep & Hlt & Hres & Hmin)].
    + rewrite Hnone. unfold scan_step. cbn [snd].
      destruct (skip x) eqn:Hx.
      * left. split; [reflexivity|]. intros a Ha Hs.
        apply elem_of_app in Ha. destruct Ha as [Ha|Ha]; [exact (Hfar a Ha Hs)|].
        apply list_elem_of_singleton in Ha. subst a. congruence.
      * destruct (Qltb (key x) bound) eqn:E.
        -- apply Qltb_lt in E. right. exists x.
           split; [apply elem_of_app; right; apply list_elem_of_singleton; reflexivity|].
           split; [exact Hx|]. split; [exact E|]. split; [reflexivity|].
           intros a' Ha' Hs. apply elem_of_app in Ha'. destruct Ha' as [Ha'|Ha'].
           ++ apply Qle_trans with bound; [apply Qlt_le_weak; exact E|exact (Hfar a' Ha' Hs)].
           ++ apply list_elem_of_singleton in Ha'. subst a'. apply Qle_refl.
        -- apply Qltb_ge in E. left. split; [reflexivity|]. intros a Ha Hs.
           apply elem_of_app in Ha. destruct Ha as [Ha|Ha]; [exact (Hfar a Ha Hs)|].
           apply list_elem_of_singleton in Ha. subst a. exact E.
    + rewrite Hres. unfold scan_step. cbn [snd].
      destruct (skip x) eqn:Hx.
      * right. exists a. split; [apply elem_of_app; left; exact Ha|].
        split; [exact Hkeep|]. split; [exact Hlt|]. split; [reflexivity|].
        intros a' Ha' Hs. apply elem_of_app in Ha'. destruct Ha' as [Ha'|Ha'];
          [exact (Hmin a' Ha' Hs)|].
        apply list_elem_of_singleton in Ha'. subst a'. congruence.
      * destruct (Qltb (key x) (key a)) eqn:E.
        -- apply Qltb_lt in E. right. exists x.
           split; [apply elem_of_app; right; apply list_elem_of_singleton; reflexivity|].
           split; [exact Hx|]. split; [exact (Qlt_trans _ _ _ E Hlt)|].
           split; [reflexivity|].
           intros a' Ha' Hs. apply elem_of_app in Ha'. destruct Ha' as [Ha'|Ha'].
           ++ apply Qle_trans with (key a); [apply Qlt_le_weak; exact E|exact (Hmin a' Ha' Hs)].
           ++ apply list_elem_of_singleton in Ha'. subst a'. apply Qle_refl.
        -- apply Qltb_ge in E. right. exists a.
           split; [apply elem_of_app; left; exact Ha|].
           split; [exact Hkeep|]. split; [exact Hlt|]. split; [reflexivity|].
           intros a' Ha' Hs. apply elem_of_app in Ha'. destruct Ha' as [Ha'|Ha'];
             [exact (Hmin a' Ha' Hs)|].
           apply list_elem_of_singleton in Ha'. subst a'. exact E.
Qed.

End Scan.

Section NearestFacts.
Context `{MathSqrt}.

(** X27. [_nearest_gun] finds the nearest: if some gun on the ground lies
    less than [1e10] away from the centre of the agent, the result is the
    offset and the distance of one that is at least as near as every other
    gun on the ground (guns in hand or in flight are not looked at);
    otherwise, and in particular with no gun in the world, it is the
    sentinel [(0, 0, 9999)]. *)
Theorem nearest_gun_is_the_nearest (guns : list GunEntity.t) (you : Player.t) :
  (GameEnv_nearest_gun guns you = (0, 0, 9999)
   /\ forall g, g ∈ guns -> GunEntity.state g = "ground" ->
                1e20 <= norm2 (gun_offset you g))
  \/ exists g,
       g ∈ guns /\ GunEntity.state g = "ground"
       /\ norm2 (gun_offset you g) < 1e20
       /\ GameEnv_nearest_gun guns you
          = ((gun_offset you g).1, (gun_offset you g).2, sqrt (norm2 (gun_offset you g)))
       /\ forall g', g' ∈ guns -> GunEntity.state g' = "ground" ->
                     norm2 (gun_offset you g) <= norm2 (gun_offset you g').
Proof.
  unfold GameEnv_nearest_gun.
  change (scan_guns you guns)
    with (foldl (scan_step (fun g => negb (bool_decide (GunEntity.state g = "ground")))
                   (fun g => norm2 (gun_offset you g))
                   (fun g => ((gun_offset you g).1, (gun_offset you g).2,
                              sqrt (norm2 (gun_offset you g)))))
            (None, 1e20) guns).
  destruct (scan_nearest (fun g => negb (bool_decide (GunEntity.state g = "ground")))
              (fun g => norm2 (gun_offset you g))
              (fun g => ((gun_offset you g).1, (gun_offset you g).2,
                         sqrt (norm2 (gun_offset you g)))) 1e20 guns)
    as [[-> Hfar]|(g & Hg & Hkeep & Hlt & -> & Hmin)].
  - left. split; [reflexivity|]. intros g Hg Hst. apply (Hfar g Hg).
    rewrite bool_decide_eq_true_2 by exact Hst. reflexivity.
  - right. exists g. split; [exact Hg|].
    apply negb_false_iff, bool_decide_eq_true in Hkeep.
    split; [exact Hkeep|]. split; [exact Hlt|]. split; [reflexivity|].
    intros g' Hg' Hst. apply (Hmin g' Hg').
    rewrite bool_decide_eq_true_2 by exact Hst. reflexivity.
Qed.

(** X28. [_nearest_bullet] finds the nearest threat: the projectiles that
    the agent itself has fired are never reported; among the others the
    result is the offset, the velocity and the distance of one that is at
    least as near as every other, if it lies less than [1e10] away, and the
    sentinel [(0, 0, 0, 0, 9999)] otherwise. *)
Theorem nearest_bullet_is_the_nearest_threat (bullets : list Bullet.t) (self : nat)
    (you : Player.t) :
  (GameEnv_nearest_bullet bullets self you = (0, 0, 0, 0, 9999)
   /\ forall b, b ∈ bullets -> Bullet.owner b <> self ->
                1e20 <= norm2 (bullet_offset you b))
  \/ exists b,
       b ∈ bullets /\ Bullet.owner b <> self
       /\ norm2 (bullet_offset you b) < 1e20
       /\ GameEnv_nearest_bullet bullets self you
          = ((bullet_offset you b).1, (bullet_offset you b).2, Bullet.vx b, Bullet.vy b,
             sqrt (norm2 (bullet_offset you b)))
       /\ forall b', b' ∈ bullets -> Bullet.owner b' <> self ->
                     norm2 (bullet_offset you b) <= norm2 (bullet_offset you b').
Proof.
  unfold GameEnv_nearest_bullet.
  change (scan_bullets self you bullets)
    with (foldl (scan_step (fun b => (Bullet.owner b =? self)%nat)
                   (fun b => norm2 (bullet_offset you b))
                   (fun b => ((bullet_offset you b).1, (bullet_offset you b).2,
                              Bullet.vx b, Bullet.vy b,
                              sqrt (norm2 (bullet_offset you b)))))
            (None, 1e20) bullets).
  destruct (scan_nearest (fun b => (Bullet.owner b =? self)%nat)
              (fun b => norm2 (bullet_offset you b))
              (fun b => ((bullet_offset you b).1, (bullet_offset you b).2,
                         Bullet.vx b, Bullet.vy b, sqrt (norm2 (bullet_offset you b))))
              1e20 bullets)
    as [[-> Hfar]|(b & Hb & Hkeep & Hlt & -> & Hmin)].
  - left. split; [reflexivity|]. intros b Hb Hown. apply (Hfar b Hb).
    apply Nat.eqb_neq. exact Hown.
  - right. exists b. split; [exact Hb|].
    apply Nat.eqb_neq in Hkeep.
    split; [exact Hkeep|]. split; [exact Hlt|]. split; [reflexivity|].
    intros b' Hb' Hown. apply (Hmin b' Hb'). apply Nat.eqb_neq. exact Hown.
Qed.

End NearestFacts.

(** X29. The engagement ring is well formed for every weapon, held or not,
    known or not: its near distance is positive and below its far distance;
    so the deviation from the ring is never negative, and it is zero exactly
    inside the ring. *)
Theorem engagement_ring_is_well_formed (holding : option GunEntity.t) (dist : Q) :
  0 < (weapon_engagement_ring holding).1
  /\ (weapon_engagement_ring holding).1 < (weapon_engagement_ring holding).2
  /\ 0 <= ring_deviation (weapon_engagement_ring holding).1
            (weapon_engagement_ring holding).2 dist
  /\ (ring_deviation (weapon_engagement_ring holding).1
        (weapon_engagement_ring holding).2 dist == 0
      <-> (weapon_engagement_ring holding).1 <= dist
          /\ dist <= (weapon_engagement_ring holding).2).
Proof.
  assert (Hring : 0 < (weapon_engagement_ring holding).1
                  /\ (weapon_engagement_ring holding).1
                     < (weapon_engagement_ring holding).2).
  { unfold weapon_engagement_ring. destruct holding as [ent|]; [|split; reflexivity].
    repeat match goal with
           | |- context [bool_decide ?c] => destruct (bool_decide c)
           end; split; reflexivity. }
  destruct Hring as [Hpos Hlt]. split; [exact Hpos|]. split; [exact Hlt|].
  generalize dependent (weapon_engagement_ring holding). intros [near far].
  cbn [fst snd]. intros Hpos Hlt. unfold ring_deviation.
  destruct (Qle_bool near dist) eqn:E1; cbn [andb].
  - apply Qle_bool_iff in E1. destruct (Qle_bool dist far) eqn:E2.
    + apply Qle_bool_iff in E2. split; [apply Qle_refl|]. split; [intros _; split; assumption|].
      intros _. reflexivity.
    + assert (Hfar : far < dist).
      { apply Qnot_le_lt. intros Hle. apply Qle_bool_iff in Hle. congruence. }
      assert (Hb : Qltb dist near = false) by (apply Qltb_ge; exact E1).
      rewrite Hb. split; [exact_arith; lra|]. split.
      * intros Hz. exact_arith_in Hz. exfalso. lra.
      * intros [_ Hle]. exfalso. lra.
  - assert (Hnear : dist < near).
    { apply Qnot_le_lt. intros Hle. apply Qle_bool_iff in Hle. congruence. }
    assert (Hb : Qltb dist near = true) by (apply Qltb_lt; exact Hnear).
    rewrite Hb. split; [exact_arith; lra|]. split.
    + intros Hz. exact_arith_in Hz. exfalso. lra.
    + intros [Hle _]. exfalso. lra.
Qed.

Section Sight.
Context `{Libm}.

Lemma has_los_steps_near (l : Q) : l < 12 -> (Qfloor (pymax 1 l / 12) + 1 = 1)%Z.
Proof.
  intros Hl.
  assert (Hq : 0 <= Qdiv (pymax 1 l) 12 /\ Qdiv (pymax 1 l) 12 < 1).
  { unfold pymax. destruct (Qltb 1 l) eqn:E.
    - apply Qltb_lt in E. split.
      + apply Qle_shift_div_l; [reflexivity|]. lra.
      + apply Qlt_shift_div_r; [reflexivity|]. lra.
    - split.
      + apply Qle_shift_div_l; [reflexivity|]. lra.
      + apply Qlt_shift_div_r; [reflexivity|]. lra. }
  destruct Hq as [H0 H1].
  assert (Hfl : Qfloor (pymax 1 l / 12) = Qfloor (Qdiv (pymax 1 l) 12)).
  { apply Qfloor_comp. apply Rdiv_correct. }
  rewrite Hfl.
  pose proof (Qfloor_le (Qdiv (pymax 1 l) 12)) as Hle.
  pose proof (Qlt_floor (Qdiv (pymax 1 l) 12)) as Hlt.
  assert (Hlo : (0 <= Qfloor (Qdiv (pymax 1 l) 12))%Z).
  { apply Z.lt_succ_r. rewrite (Zlt_Qlt 0). unfold Z.succ.
    apply Qle_lt_trans with (Qdiv (pymax 1 l) 12); [exact H0|exact Hlt]. }
  assert (Hhi : (Qfloor (Qdiv (pymax 1 l) 12) < 1)%Z).
  { rewrite Zlt_Qlt. apply Qle_lt_trans with (Qdiv (pymax 1 l) 12); [exact Hle|exact H1]. }
  lia.
Qed.

(** X30. The line-of-sight test of [step] looks at solid tiles only, and
    only at sample points strictly between the two ends: platforms never
    block the sight, and two points less than twelve units apart always see
    each other, whatever lies between or around them. *)
Theorem line_of_sight_skips_platforms_and_short_ranges (level : list (Rect.t * Z))
    (ax ay bx by_ : Q) :
  has_los level ax ay bx by_
  = has_los (List.filter (fun rt => (snd rt =? TILE_SOLID)%Z) level) ax ay bx by_
  /\ (hypot (bx - ax) (by_ - ay) < 12 -> has_los level ax ay bx by_ = true).
Proof.
  split.
  - unfold has_los. cbv zeta.
    generalize (seq 1 (Z.to_nat (Qfloor (pymax 1 (hypot (bx - ax) (by_ - ay)) / 12) + 1) - 1)).
    intros l. induction l as [|i l IHl]; [reflexivity|].
    cbn [forallb]. rewrite IHl. f_equal. f_equal. symmetry.
    apply existsb_filter. intros rt Hrt. rewrite Hrt. reflexivity.
  - intros Hnear. unfold has_los. cbv zeta.
    rewrite (has_los_steps_near _ Hnear). reflexivity.
Qed.

End Sight.

(** ** Instances

    Each property that has a hypothesis, applied to a concrete situation of
    the arena. *)

Lemma air_jumps_stay_within_budget_witness :
  (Player.air_jumps airborne - 1
   <= Player.air_jumps
        (@Player_update approx_libm (1 / 60) press_jump build_level build_windzones
           build_teleports 0 airborne [] [] [] steady_rng).1.1.1.1)%Z.
Proof.
  destruct (@air_jumps_stay_within_budget approx_libm (1 / 60) press_jump build_level
              build_windzones build_teleports 0 airborne [] [] [] steady_rng)
    as (_ & _ & Hspent).
  - vm_compute. split; discriminate.
  - exact Hspent.
Defined.

Lemma fall_speed_is_capped_witness :
  Player.vy (@Player_update approx_libm (1 / 60) idle build_level build_windzones
               build_teleports 0 (Player.set_vy 5000 airborne) [] [] []
               steady_rng).1.1.1.1 <= MAX_FALL.
Proof.
  apply (@fall_speed_is_capped approx_libm). left. reflexivity.
Defined.

Lemma frozen_agent_does_not_act_witness :
  exists p',
    (@Player_update approx_libm (1 / 60) shoot_right build_level build_windzones
       build_teleports 0 stunned [] [] [] steady_rng).1
    = (p', [], [], [])
    /\ Player.x p' = Player.x stunned /\ Player.y p' = Player.y stunned
    /\ Player.hp p' = Player.hp stunned /\ Player.holding p' = Player.holding stunned
    /\ Player.alive p' = Player.alive stunned.
Proof.
  apply (@frozen_agent_does_not_act approx_libm). right. vm_compute. reflexivity.
Defined.

Lemma no_shot_without_a_ready_weapon_witness :
  (@Player_update approx_libm (1 / 60) idle build_level build_windzones build_teleports 0
     (gunner Pistol 18) [rocket_shot] [] [] steady_rng).1.1.1.2 = [rocket_shot].
Proof.
  destruct (@no_shot_without_a_ready_weapon approx_libm (1 / 60) idle build_level
              build_windzones build_teleports 0 (gunner Pistol 18) [rocket_shot] [] []
              steady_rng) as [Hbullets _].
  - right. left. reflexivity.
  - exact Hbullets.
Defined.

Lemma thrown_weapon_is_lost_witness :
  exists e,
    @secondary approx_libm 0 (2000, 1171.6) (gunner Pistol 18) []
    = (Player.set_holding None (gunner Pistol 18), [e])
    /\ GunEntity.state e = "tossed"
    /\ GunEntity.ammo e = 18%Z.
Proof.
  destruct (@thrown_weapon_is_lost approx_libm 0 (2000, 1171.6) (gunner Pistol 18) []
              (in_hand Pistol 0 18) eq_refl)
    as (e & Hsec & Hstate & _ & _ & Hammo & _).
  exists e. split; [exact Hsec|]. split; [exact Hstate|exact Hammo].
Defined.

Lemma pickup_takes_the_first_weapon_in_reach_witness :
  exists i g,
    [pistol_at_feet] !! i = Some g
    /\ @secondary approx_libm 1 (2000, 1171.6) (standing 1100 None) [pistol_at_feet]
       = (Player.set_holding (Some (equipped_by 1 g)) (standing 1100 None),
          delete i [pistol_at_feet]).
Proof.
  destruct (@pickup_takes_the_first_weapon_in_reach approx_libm 1 (2000, 1171.6)
              (standing 1100 None) [pistol_at_feet] eq_refl)
    as [[_ Hnone]|(i & g & Hi & _ & _ & _ & _ & Hsec & _)].
  - exfalso. specialize (Hnone 0%nat pistol_at_feet eq_refl).
    vm_compute in Hnone. discriminate.
  - exists i, g. split; [exact Hi|exact Hsec].
Defined.

Lemma playable_game_never_raises_witness :
  exists g', @Game_play approx_libm [(1 / 60, fun _ => idle); (1 / 30, fun _ => shoot_right)]
               duel_match = Some g'
             /\ length (Game.players g') = length (Game.players duel_match)
             /\ Game.respawns g' = Game.respawns duel_match
             /\ Game.plat_list g' = Game.plat_list duel_match.
Proof.
  apply (@playable_game_never_raises approx_libm).
  - vm_compute. lia.
  - discriminate.
  - vm_compute. discriminate.
Defined.

Lemma clock_and_camera_stay_in_range_witness :
  match @Game_update approx_libm (1 / 60) (fun _ => idle) duel_match with
  | Some g' => Game.time_left g' = pymax 0 (Game.time_left duel_match - 1 / 60)
               /\ 0 <= (Game.cam g').1 /\ (Game.cam g').1 <= WORLD_W - RW
  | None => False
  end.
Proof.
  destruct (@Game_update approx_libm (1 / 60) (fun _ => idle) duel_match) as [g'|] eqn:E.
  - destruct (@clock_and_camera_stay_in_range approx_libm _ _ _ _ E)
      as (Htime & _ & _ & Hlo & Hhi & _).
    split; [exact Htime|]. split; [exact Hlo|exact Hhi].
  - vm_compute in E. discriminate.
Defined.

Lemma every_agent_ends_the_tick_alive_witness :
  match @Game_update approx_libm (1 / 60) (fun _ => idle)
          (arena [gunner Pistol 18; Player.set_alive false wounded] [] steady_rng) with
  | Some g' => Forall (fun p => Player.alive p = true) (Game.players g')
  | None => False
  end.
Proof.
  destruct (@Game_update approx_libm (1 / 60) (fun _ => idle)
              (arena [gunner Pistol 18; Player.set_alive false wounded] [] steady_rng))
    as [g'|] eqn:E.
  - exact (proj1 (@every_agent_ends_the_tick_alive approx_libm _ _ _ _ E)).
  - vm_compute in E. discriminate.
Defined.

Lemma anti_stuck_pushes_the_pair_apart_witness :
  @anti_stuck approx_libm (1 / 60) duel_match
  = Some (Game.set_stuck_timer (pymax 0 (Game.stuck_timer duel_match - 1 / 60 * 0.5))
            duel_match).
Proof.
  destruct (@anti_stuck_pushes_the_pair_apart approx_libm (1 / 60) duel_match
              (standing 1000 (Some (in_hand Rocket 0 7))) (standing 1100 None)
              eq_refl eq_refl) as [Hfar _].
  apply Hfar. vm_compute. discriminate.
Defined.

Lemma spawner_respects_the_cap_and_loads_the_pickup_witness :
  match spawn_gun duel_match with
  | Some g' => exists e, Game.guns g' = Game.guns duel_match ++ [e]
                         /\ GunEntity.state e = "ground"
                         /\ (1 <= GunEntity.ammo e)%Z
  | None => False
  end.
Proof.
  destruct (spawn_gun duel_match) as [g'|] eqn:E.
  - destruct (spawner_respects_the_cap_and_loads_the_pickup duel_match g' E)
      as (_ & _ & Hbelow).
    destruct Hbelow as (e & Hguns & Hstate & _ & _ & _ & Hammo & _);
      [vm_compute; lia|].
    exists e. split; [exact Hguns|]. split; [exact Hstate|exact Hammo].
  - vm_compute in E. discriminate.
Defined.

Lemma spawned_pickup_rests_on_its_surface_witness :
  match spawn_gun duel_match with
  | Some g' => exists e r, Game.guns g' = Game.guns duel_match ++ [e]
                           /\ GunEntity.y e = Rect.top r - 24
  | None => False
  end.
Proof.
  destruct (spawn_gun duel_match) as [g'|] eqn:E.
  - destruct (spawned_pickup_rests_on_its_surface duel_match g') as (e & r & Hguns & _ & Hy & _).
    + intros n. split; vm_compute; [discriminate|reflexivity].
    + vm_compute. lia.
    + exact E.
    + exists e, r. split; [exact Hguns|exact Hy].
  - vm_compute in E. discriminate.
Defined.

Lemma spawn_cadence_keeps_its_pace_witness :
  match spawn_cadence 1 duel_match with
  | Some g' => SPAWN_MIN <= Game.spawn_interval g'
               /\ Game.spawn_interval g' <= Game.spawn_interval duel_match
               /\ 0 < Game.spawn_timer g'
  | None => False
  end.
Proof.
  destruct (spawn_cadence 1 duel_match) as [g'|] eqn:E.
  - destruct (spawn_cadence_keeps_its_pace 1 duel_match g') as (Hmin & Hle & Hpos & _).
    + vm_compute. discriminate.
    + exact E.
    + split; [exact Hmin|]. split; [exact Hle|exact Hpos].
  - vm_compute in E. discriminate.
Defined.

Lemma action_inputs_keep_the_aim_in_the_world_witness :
  exists inputs aim',
    action_to_inputs 9 duel (2750, 380) = Some (inputs, aim')
    /\ Inputs.aim inputs = Some aim'
    /\ 0 <= aim'.1 /\ aim'.1 <= WORLD_W.
Proof.
  destruct (action_inputs_keep_the_aim_in_the_world 9 duel (2750, 380)
              (standing 1000 (Some (in_hand Rocket 0 7))) eq_refl)
    as (inputs & aim' & Hact & Haim & Hlo & Hhi & _).
  exists inputs, aim'. split; [exact Hact|]. split; [exact Haim|]. split; [exact Hlo|exact Hhi].
Defined.
